(* ===== verification/_CoqProject ===== *)
-Q . S2P
Prelude.v
Errors.v
ExceptionFilter.v
Middleware.v
Logger.v
Schema.v
Database.v
Samples.v
EventsRepository.v
TasksRepository.v
KeyValue.v
Effects.v
Accounts.v
HttpRetry.v
Idempotency.v
JsString.v
JsNumber.v
Json.v
Memo.v
ParseDecorators.v
RedisService.v
RedisCommands.v
Config.v
QueueAdapter.v
TasksService.v
MaintenanceRepository.v
MaintenanceWorkers.v
Migrations.v
CallbackAuth.v
ExecutorService.v
Workers.v
Lifecycle.v
Sse.v
Http.v
OpenApi.v
Handlers.v
Tokens.v
Wiring.v
Routing.v
Processors.v
Health.v
Bootstrap.v
Shutdown.v
TableSteps.v
Typed.v
System.v
Ledger.v
Accounting.v
TerminalEvents.v
Provenance.v
Streams.v
Wire.v
Slots.v
