(* ===== verification/Prelude.v ===== *)
(** * async-long-request-proxy: a verification development

    ** The program

    A proxy for long-running HTTP requests.  A client creates a task; a worker
    sends it to the executor's URL; the executor calls back with progress and a
    result; the client follows an SSE stream, or is told through a webhook.  Two
    Node processes, an API server and a worker, share a Postgres database (the
    tables [tasks] and [task_events]), a Redis (idempotency slots, Pub/Sub
    channels [task:<id>]) and BullMQ queues.  Each awaited call is a point where
    other requests, jobs and replicas run.

    ** How the model is built

    A handler is a [prog] (Effects.v): a tree of awaited operations with the
    JavaScript control flow (early returns, [try]/[catch]/[finally]) as
    combinators.  [exec_op] gives each operation its effect on a [world]: tables,
    Redis keys with their expiry, messages published, jobs enqueued, HTTP
    requests sent, timers, the clock.  What the program does not decide comes
    from an [env]: the passing of time, faults of every external call (before or
    after it took effect), ids, locked rows, answers of HTTP peers; every theorem
    holds for every [env] that its hypotheses allow.  [run] executes one handler
    alone; [step] interleaves any number of them, one operation at a time, with
    process deaths.

    A Postgres statement is a function on the two tables (Database.v) that
    checks the constraints of the schema; a transaction is atomic and undone by
    an error.  Atomicity stands for row locks and for the advisory lock of
    [insertEventInTx], which orders the writers of one log.  Statements without
    ORDER BY take the order of a [ScanOrder], an arbitrary permutation.  Rows
    locked by others matter to SKIP LOCKED only.

    ** Files and sources (under src/)

    Shared, and the data:
    - Prelude.v: results, JSON values, tactics, generic lemmas.
    - Errors.v: libs/http-retry/errors.ts and the other values thrown.
    - Schema.v: src/modules/tasks/schemas/tasks.sql.ts,
      src/modules/delivery/schemas/events.sql.ts, dto/events.types.ts: rows,
      defaults, constraints.
    - Database.v: the two tables, statements, transactions, the invariant [db_wf].
    - Samples.v: small databases for the instances, with a decision procedure.
    - KeyValue.v: the interface [KeyValueStore] with its laws, the Redis commands
      the program uses, and their implementation on a finite map.
    - Effects.v: operations, programs, worlds, executions.
    - Accounts.v: potentials of executions, to count what they can do.
    - JsString.v, JsNumber.v: the string and number operations of JavaScript in
      use ([trim], [Buffer.from], [Number], [parseInt]), and [parseLastEventId]
      of src/modules/delivery/stream.controller.ts.
    - Json.v: [JSON.stringify] and [JSON.parse].
    - Memo.v: tables that build an object once per key.

    Components:
    - ExceptionFilter.v: src/common/exceptions/zod-exception.filter.ts.
    - Middleware.v: src/common/middleware/.
    - Logger.v: libs/logger/logger.service.ts, pretty.transport.ts.
    - EventsRepository.v, TasksRepository.v: the two repositories.
    - Migrations.v: src/database/drizzle/migrations/ and the [pgTable] declarations as
      data, with an interpreter of the SQL they use.
    - HttpRetry.v: libs/http-retry/http-retry.service.ts.
    - Idempotency.v: libs/idempotency/idempotency.service.ts.
    - ParseDecorators.v: src/common/decorators/parse.decorators.ts.
    - RedisService.v: the construction of Redis clients in libs/redis, the queue
      adapter and src/config/redis.factory.ts.
    - RedisCommands.v: the commands and the scans of libs/redis/redis.service.ts.
    - Config.v: src/config/env.schema.ts, app.config.ts.
    - QueueAdapter.v: libs/queue/bullmq.adapter.ts, queue.types.ts.
    - TasksService.v: src/modules/tasks/tasks.service.ts, tasks.controller.ts, the
      DTOs.
    - MaintenanceRepository.v, MaintenanceWorkers.v: src/modules/maintenance/.
    - CallbackAuth.v: src/modules/executor/guards/callback-auth.guard.ts, and in
      the Module [ApiKeyGuard] src/common/guards/api-key.guard.ts.
    - ExecutorService.v: src/modules/executor/executor.service.ts, its controller
      and DTOs.
    - Workers.v: dispatch.processor.ts, cancel.processor.ts, webhook.processor.ts.
    - Sse.v: src/modules/delivery/sse.service.ts, a connection as a state machine.
    - Health.v: src/database/drizzle/, libs/observability/.

    Compositions:
    - Lifecycle.v: the handlers composed along the path of one task, from the
      client's POST through the webhook to the client's GET.
    - Http.v: a request through guard, pipes, controller and exception filter; the
      class [Validation] states what Zod, Nest's pipe and Postgres promise.
    - OpenApi.v: swagger.decorators.ts and the descriptions of the endpoints.
    - Handlers.v: everything that runs, and the operations it is made of.
    - TableSteps.v, Typed.v, System.v: what one operation does to the tables, and
      the invariants of all interleaved executions.
    - Ledger.v, Accounting.v, TerminalEvents.v: what can happen to one task.
    - Provenance.v, Streams.v, Slots.v: where messages, jobs, streamed events and
      the contents of idempotency slots come from.
    - Wire.v: events as the text that is published and parsed.
    - Tokens.v: two executions that differ in the callback tokens only.
    - Wiring.v: every *.module.ts, the constructors of the classes they list and
      the decorators of the controllers; the class [Container] is the scope rule of
      Nest's modules.  Routing.v: paths and verbs of the endpoints, under the class
      [Router].
    - Processors.v: the [onModuleInit] of the workers, src/worker.module.ts; the
      queues that connect the two processes.
    - Bootstrap.v: src/main.ts, src/app.module.ts, src/worker.ts.  Shutdown.v: the
      [onModuleDestroy] and [onApplicationShutdown] of both processes.

    Definitions have the names of the methods they model.

    ** What the theorems show

    - System.v: [system_safe], every step of every interleaved execution keeps
      [db_wf] and moves each task along its state machine; [outcome_final]; and
      three executions that exhibit what the code does not promise: publications
      out of log order, progress after the completion, a result without event.
    - TerminalEvents.v, Accounting.v: [terminal_event_matches], the log announces
      the status of the row, once; [at_most_once], the dispatch requests, dispatch
      jobs and webhook jobs of a task are bounded in any execution.  Both give each
      handler an account ([affords]): what it may still do is paid for by the
      state of the row.
    - Provenance.v: [messages_truthful], messages and jobs say what was so when they
      were sent; a program logic ([vouches]) follows what a handler has learned.
    - Streams.v: [stream_shows_log], end to end: a stream shows a sublist of the log of
      its task.  Slots.v: [slots_truthful], a filled idempotency slot names a task
      that is stored with its key, and so does the answer to a creation.
    - Tokens.v: [tokens_opaque], renaming the callback tokens changes nothing but
      them: no answer, event, message or webhook depends on the value of a token.
    - Wiring.v: [processes_wired], both processes can be constructed, and which
      classes exist twice.  Routing.v: [endpoints_routed], each endpoint is reached
      at its path, and what becomes of the links the API hands out.
    - Typed.v: [tables_typed], [columns_bounded], what validated requests leave in
      the tables.
    - Http.v: [response_contract], every request is answered in the contract, and
      refused requests change nothing; [unauthenticated_inert].  OpenApi.v:
      [statuses_documented], the statuses of each endpoint and those it documents,
      the tags and the security schemes it refers to.
    - Processors.v: [jobs_reach_workers], every job gets to a worker that
      understands it; [one_schedule_each].  Bootstrap.v: [api_listens].
      Shutdown.v: [shutdown_order], in every order of the hooks that Nest allows the
      workers end before what they use; the API's server does not.
    - Lifecycle.v: [task_lifecycle], a task is carried from its creation to its
      result, its webhook and the client's read when nothing fails.
    - TasksService.v: [create] on success and failure, exactly-once creation by
      idempotency key, its end with the retention of the row, [cancel] on every
      branch.
    - Migrations.v: [model_refines_schema], the constraints and defaults of the model
      are those of the database the migrations create; [schema_migrated], how that
      database differs from the declarations.
    - Wire.v: [wire_transparent], a client cannot tell messages that went over the wire
      as text from the rows themselves.
    - EventsRepository.v: a log is numbered 1, 2, 3, ...; the replay query is exact.
    - ExecutorService.v, Workers.v: each handler on every branch, with the states
      a failure can leave.
    - HttpRetry.v: the retry loop against the relation [retried].
    - Idempotency.v: refinement of an abstract slot, mutual exclusion, lifetime,
      all against the laws of [KeyValueStore].
    - MaintenanceRepository.v, MaintenanceWorkers.v: retention and sweep terminate
      and touch only what they may; one expired PENDING task blocks the sweep; the
      bulk INSERT of the timeout batch equals one insertion at a time.
    - Sse.v: safety of any connection, with the release of its Redis client and
      its timer, refinement of the specification [feed],
      exactly-once delivery across history and live messages, and two ways a
      stream misbehaves.
    - Config.v: the accepted configurations are the well-formed ones.
      RedisCommands.v: scans end and find what stays; the key commands refine a map
      with expiry.  Health.v: probes answer in time.
    - CallbackAuth.v, ExceptionFilter.v, Middleware.v, Logger.v, JsNumber.v,
      RedisService.v, QueueAdapter.v, ParseDecorators.v: exact decisions of the
      guards, the error contract, one log line per request, round trips of the
      parsers, agreement of the connections, transparent caches, the startup probe.

    ** Fuel

    [sweep_loop] and [delete_loop] take a bound on their iterations, since the
    source loops until a batch is empty or short; running out is [OutOfFuel], a
    result no theorem identifies with an answer.  A batch that does not end the
    loop removes at least one live, respectively one stored, task, so a bound
    above the number of live tasks (sweep) or of rows (retention) always
    suffices; [sweep_correct] and [retention_correct] prove it.  The scan loop
    takes a bound above the measure of the server's law.  The loop of [post] has the
    number of attempts as its bound.  [parse_value] takes one more than the length of
    the text, of which each level, element and member uses a character
    ([parse_stringify]).  Everything else is structural.

    ** Conventions and bounds

    Dates are milliseconds ([Z]).  [integer] and [bigint] columns are checked
    against 32 and 64 bits when a row is written.  A string is a sequence of
    code units below 256, as Node decodes headers.  Random jitter is floored to
    0..199.  The retention cutoff takes days of 24 hours.  A task has an id, as
    Postgres prints it, and a request names it by a text, which may be another
    spelling: handlers that keep the text take both ([cancel_at], [stream_at]).

    ** Not modelled

    Nest itself: of its container the scope rule of modules, of its router the
    matching of paths, of its termination the order of the hooks, of its decorators
    the metadata the program writes; what Express makes of its settings; the
    generator of OpenAPI schemas (a parameter); the parsers of Zod, of which
    [Validation] states the schema they enforce; the issues of a rejected environment; what pino and
    pino-pretty print; metrics; rate limiting (configured, not implemented);
    BullMQ's delivery of jobs to workers, which appear as handlers that may start
    at any time with any job; ioredis beyond the commands used; cron expressions;
    the SQL of queries, which repositories state as functions on rows; numbers
    other than integers in JSON; the reordering of [jsonb] fields; benchmarks, tests
    and tool configurations.  The publications of one sweep batch, concurrent in the
    source, are made one after another. *)
From stdpp Require Export base option numbers gmap strings pretty relations tactics.
From stdpp Require Export list.
From Stdlib Require Sorted.

(** ** Results of fallible code

    A JavaScript computation that returns or throws.  The error type is a
    parameter here; [Errors.v] instantiates it with the exceptions of the
    program. *)
Inductive outcome (E A : Type) : Type :=
| Ok (a : A)
| Err (e : E).
Arguments Ok {E A} a.
Arguments Err {E A} e.

Definition is_ok {E A} (r : outcome E A) : bool :=
  match r with Ok _ => true | Err _ => false end.

(** ** JSON values

    The values [JSON.stringify] is applied to and [jsonb] columns hold.  The
    payloads are opaque to the program: it stores and forwards them. *)
Inductive json : Type :=
| JNull
| JBool (b : bool)
| JNum (n : Z)
| JStr (s : string)
| JArr (l : list json)
| JObj (fields : list (string * json)).

(** ** JavaScript conventions used throughout *)

(** [if (s)] on a [string | null | undefined]: the empty string is falsy. *)
Definition truthy (s : option string) : option string :=
  match s with
  | Some EmptyString => None
  | _ => s
  end.

(** [s ?? d]. *)
Definition nullish {A} (s : option A) (d : A) : A := default d s.

(** [String(n)] on an integral number. *)
Definition String_of_Z (n : Z) : string := pretty n.

(** ** Tactics *)

(** Case on the innermost scrutinee of the goal or of a hypothesis. *)
Ltac case_goal :=
  match goal with
  | |- context [ match ?x with _ => _ end ] =>
      lazymatch x with
      | context [ match _ with _ => _ end ] => fail
      | _ => let E := fresh "E" in destruct x eqn:E
      end
  end.

Ltac case_hyp H :=
  match type of H with
  | context [ match ?x with _ => _ end ] =>
      lazymatch x with
      | context [ match _ with _ => _ end ] => fail
      | _ => let E := fresh "E" in destruct x eqn:E
      end
  end.

(** Clean up after a case analysis. *)
Ltac crush_step := simplify_eq/=; try done.
Ltac crush := repeat (case_goal; crush_step).

Create HintDb proxy.

(** ** Generic lemmas *)

Lemma truthy_Some s k : truthy s = Some k → s = Some k ∧ k ≠ EmptyString.
Proof. destruct s as [[|c t]|]; simpl; naive_solver. Qed.

Lemma append_empty s : s +:+ "" = s.
Proof. induction s as [|c s IH]; [done|]. exact (f_equal (String c) IH). Qed.

(** [omap] over a filtered scan. *)
Lemma omap_nil_iff {A B} (f : A → option B) (l : list A) :
  omap f l = [] ↔ ∀ x, x ∈ l → f x = None.
Proof.
  induction l as [|x l IH]; csimpl.
  - split; [intros _ y Hy; set_solver|done].
  - destruct (f x) eqn:E; simpl.
    + split; [done|]. intros H. specialize (H x ltac:(set_solver)). congruence.
    + rewrite IH. split.
      * intros H y [->|Hy]%elem_of_cons; auto.
      * intros H y Hy. apply H. set_solver.
Qed.

(** [filter] only looks at the members of the list. *)
Lemma filter_ext_in {A} (P Q : A → Prop) `{!∀ x, Decision (P x), !∀ x, Decision (Q x)}
    (l : list A) :
  (∀ x, x ∈ l → P x ↔ Q x) → filter P l = filter Q l.
Proof.
  induction l as [|x l IH]; intros HPQ; [done|]. rewrite !filter_cons.
  pose proof (HPQ x ltac:(set_solver)) as Hx. rewrite IH by set_solver.
  destruct (decide (P x)), (decide (Q x)); naive_solver.
Qed.

(** A sorted list extended at its end. *)
Lemma StronglySorted_snoc {A} (R : relation A) l x :
  Sorted.StronglySorted R (l ++ [x]) ↔ Sorted.StronglySorted R l ∧ ∀ y, y ∈ l → R y x.
Proof.
  induction l as [|y l IH]; simpl.
  - split; [intros _|intros _; repeat constructor]. split; [constructor|set_solver].
  - split.
    + intros [H1 H2]%Sorted.StronglySorted_inv. apply IH in H1 as [H1 H3]. apply Forall_app in H2 as [H2 H4].
      split; [by constructor|]. intros z [->|Hz]%elem_of_cons; [by apply Forall_inv in H4|auto].
    + intros [[H1 H2]%Sorted.StronglySorted_inv H3]. constructor; [apply IH; set_solver|].
      apply Forall_app. split; [done|]. constructor; [set_solver|constructor].
Qed.
