(* ===== verification/Errors.v ===== *)
(** * Errors: the values the program throws

    [libs/http-retry/errors.ts], the Nest exceptions the services and guards
    throw, and the failures of Postgres, Redis, BullMQ and HTTP calls. *)
From S2P Require Import Prelude.

(** One issue of a [ZodError] ([RawZodIssue]): the code, the path (numbers
    already printed), the message and, for [invalid_union], the issues of each
    branch. *)
Inductive RawZodIssue : Type :=
| mkRawZodIssue (code : string) (path : list string) (message : string)
    (errors : option (list (list RawZodIssue))).

(** What Postgres rejects a statement with. *)
Inductive sql_error : Type :=
| check_violation (constraint : string)
| unique_violation (index : string)
| numeric_value_out_of_range
| invalid_text_representation
| connection_lost.

(** The shape of the value an HTTP call rejects with, as far as
    [getStatusCode] and [isRetryableNetworkError] look at it. *)
Record http_err : Type := mkHttpErr {
  he_isError : bool;                 (** [err instanceof Error] *)
  he_code : option (option string);  (** ['code' in err], and its value *)
  he_response : option (option Z);   (** a non-null object [err.response], and its numeric [status] *)
  he_message : string }.

Inductive exn : Type :=
| HttpException (status : Z) (message : string)
| ZodError (issues : list RawZodIssue)
| NonRetryableError (url : string) (statusCode : Z)
| DispatchFailedError (url : string) (attempts : Z) (cause : option exn)
    (lastStatusCode : option Z)
| PostgresError (e : sql_error)
| RedisError
| QueueError
| HttpError (e : http_err)
| JsError (message : string).

Abbreviation res := (outcome exn).

(** The Nest exceptions, by their HTTP status. *)
Definition BadRequestException (m : string) : exn := HttpException 400 m.
Definition UnauthorizedException (m : string) : exn := HttpException 401 m.
Definition NotFoundException (m : string) : exn := HttpException 404 m.
Definition ConflictException (m : string) : exn := HttpException 409 m.
Definition InternalServerErrorException (m : string) : exn := HttpException 500 m.

Definition sql_error_message (e : sql_error) : string :=
  match e with
  | check_violation c => "new row violates check constraint " +:+ c
  | unique_violation i => "duplicate key value violates unique constraint " +:+ i
  | numeric_value_out_of_range => "integer out of range"
  | invalid_text_representation => "invalid input syntax for type uuid"
  | connection_lost => "CONNECTION_CLOSED"
  end.

(** [err.message]; for the two errors of [errors.ts] it is the text their
    constructors build. *)
Fixpoint exn_message (e : exn) : string :=
  match e with
  | HttpException _ m => m
  | ZodError _ => "ZodError"
  | NonRetryableError url statusCode =>
      "POST " +:+ url +:+ " rejected with " +:+ String_of_Z statusCode +:+ " - not retrying"
  | DispatchFailedError url attempts cause _ =>
      let reason := match cause with Some c => exn_message c | None => "undefined" end in
      "POST " +:+ url +:+ " failed after " +:+ String_of_Z attempts +:+ " attempt(s): " +:+ reason
  | PostgresError s => sql_error_message s
  | RedisError => "Redis connection error"
  | QueueError => "Queue connection error"
  | HttpError h => he_message h
  | JsError m => m
  end.

(** [err instanceof DispatchFailedError || err instanceof NonRetryableError]. *)
Definition is_http_retry_error (e : exn) : bool :=
  match e with
  | DispatchFailedError _ _ _ _ | NonRetryableError _ _ => true
  | _ => false
  end.
