(* ===== verification/ExceptionFilter.v ===== *)
(** * ZodExceptionFilter: the error responses

    [src/common/exceptions/zod-exception.filter.ts]: what a client receives for
    any value a handler throws, and the formatting of validation issues. *)
From S2P Require Import Prelude Errors.

#[local] Open Scope Z_scope.

(** [ValidationIssue]; [unionErrors] is present for an [invalid_union] only. *)
Inductive ValidationIssue : Type :=
| mkIssue (field message code : string) (unionErrors : option (list (list ValidationIssue))).

Definition field (i : ValidationIssue) : string := let 'mkIssue f _ _ _ := i in f.
Definition issue_message (i : ValidationIssue) : string := let 'mkIssue _ m _ _ := i in m.
Definition issue_code (i : ValidationIssue) : string := let 'mkIssue _ _ c _ := i in c.
Definition unionErrors (i : ValidationIssue) : option (list (list ValidationIssue)) :=
  let 'mkIssue _ _ _ u := i in u.

(** [path.join('.')]. *)
Fixpoint join (sep : string) (l : list string) : string :=
  match l with
  | [] => ""
  | [s] => s
  | s :: l => s +:+ sep +:+ join sep l
  end.

Definition field_of (path : list string) : string :=
  match path with [] => "(root)" | _ => join "." path end.

(** The key of the deduplication: [`${field}|${code}|${message}`]. *)
Definition issue_key (i : ValidationIssue) : string :=
  field i +:+ "|" +:+ issue_code i +:+ "|" +:+ issue_message i.

(** [branch.filter(...)] with the shared set [seen]. *)
Fixpoint filter_seen (branch : list ValidationIssue) (seen : gset string)
    : list ValidationIssue * gset string :=
  match branch with
  | [] => ([], seen)
  | i :: branch =>
      if decide (issue_key i ∈ seen) then filter_seen branch seen
      else let '(kept, seen') := filter_seen branch ({[issue_key i]} ∪ seen) in (i :: kept, seen')
  end.

Fixpoint dedupe (branches : list (list ValidationIssue)) (seen : gset string)
    : list (list ValidationIssue) :=
  match branches with
  | [] => []
  | branch :: branches =>
      let '(kept, seen') := filter_seen branch seen in kept :: dedupe branches seen'
  end.

Definition non_empty (branch : list ValidationIssue) : bool :=
  match branch with [] => false | _ => true end.

Fixpoint formatIssue (issue : RawZodIssue) : ValidationIssue :=
  let 'mkRawZodIssue code path message errors := issue in
  mkIssue (field_of path) message code
    (if bool_decide (code = "invalid_union") then
       match errors with
       | Some errors =>
           let branches := map (map formatIssue) errors in
           Some (List.filter non_empty (dedupe branches ∅))
       | None => None
       end
     else None).

Record resolved : Type := mkResolved {
  r_status : Z;
  r_message : string;
  r_issues : option (list ValidationIssue) }.

(** The Nest exceptions carry the message in their response object. *)
Definition resolveException (exception : exn) : resolved :=
  match exception with
  | HttpException status message => mkResolved status message None
  | ZodError issues => mkResolved 400 "Validation failed" (Some (map formatIssue issues))
  | _ => mkResolved 500 "Internal server error" None
  end.

Definition statusToText (status : Z) : string :=
  match status with
  | 400 => "Bad Request" | 401 => "Unauthorized" | 403 => "Forbidden" | 404 => "Not Found"
  | 409 => "Conflict" | 422 => "Unprocessable Entity" | 429 => "Too Many Requests"
  | 500 => "Internal Server Error" | 502 => "Bad Gateway" | 503 => "Service Unavailable"
  | _ => "HTTP " +:+ String_of_Z status
  end.

Record ErrorBody : Type := mkErrorBody {
  statusCode : Z;
  body_error : string;
  body_message : string;
  path : string;
  timestamp : Z;
  issues : option (list ValidationIssue) }.

Inductive level : Type := log_error | log_warn.

(** [catch]: the log level, the response status and the body. *)
Definition catch_exception (exception : exn) (url : string) (now : Z) : level * Z * ErrorBody :=
  let r := resolveException exception in
  (if 500 <=? r_status r then log_error else log_warn, r_status r,
   {| statusCode := r_status r; body_error := statusToText (r_status r);
      body_message := r_message r; path := url; timestamp := now; issues := r_issues r |}).

(** ** Lemmas *)

Definition keys (l : list ValidationIssue) : list string := issue_key <$> l.

Lemma filter_seen_spec branch seen :
  let '(kept, seen') := filter_seen branch seen in
  kept `sublist_of` branch ∧ NoDup (keys kept) ∧ (∀ k, k ∈ keys kept → k ∉ seen) ∧
  seen' = seen ∪ list_to_set (keys kept) ∧ (∀ k, k ∈ keys branch → k ∈ seen').
Proof.
  revert seen. induction branch as [|i branch IH]; intros seen; simpl.
  - split_and!; [done|constructor|set_solver|set_solver|set_solver].
  - case_decide as Hi.
    + specialize (IH seen). destruct (filter_seen branch seen) as [kept seen'].
      destruct IH as (H1 & H2 & H3 & -> & H5). split_and!; [by apply sublist_cons|done..|].
      set_solver.
    + specialize (IH ({[issue_key i]} ∪ seen)).
      destruct (filter_seen branch _) as [kept seen'].
      destruct IH as (H1 & H2 & H3 & -> & H5). split_and!.
      * by apply sublist_skip.
      * csimpl. constructor; [|done]. intros Hin. apply (H3 _ Hin). set_solver.
      * csimpl. intros k [->|Hk]%elem_of_cons; [done|]. specialize (H3 k Hk). set_solver.
      * csimpl. set_solver.
      * csimpl. set_solver.
Qed.

Lemma dedupe_spec branches seen :
  let out := dedupe branches seen in
  Forall2 sublist out branches ∧ NoDup (keys (concat out)) ∧
  (∀ k, k ∈ keys (concat out) → k ∉ seen) ∧
  (∀ k, k ∈ keys (concat branches) → k ∈ seen ∨ k ∈ keys (concat out)).
Proof.
  revert seen. induction branches as [|branch branches IH]; intros seen; simpl.
  - split_and!; [done|constructor|set_solver|set_solver].
  - pose proof (filter_seen_spec branch seen) as Hf.
    destruct (filter_seen branch seen) as [kept seen']. destruct Hf as (F1 & F2 & F3 & -> & F5).
    destruct (IH (seen ∪ list_to_set (keys kept))) as (H1 & H2 & H3 & H4). simpl in *.
    unfold keys in *. rewrite !fmap_app. split_and!.
    + by constructor.
    + apply NoDup_app. split_and!; [done| |done]. intros k Hk Hk'. specialize (H3 k Hk'). set_solver.
    + intros k [Hk|Hk]%elem_of_app; [by apply F3|]. specialize (H3 k Hk). set_solver.
    + intros k [Hk|Hk]%elem_of_app.
      * specialize (F5 k Hk). set_solver.
      * specialize (H4 k Hk). set_solver.
Qed.

Lemma concat_non_empty l : concat (List.filter non_empty l) = concat l.
Proof. induction l as [|[|i b] l IH]; simpl; [done|done|]. by rewrite IH. Qed.

(** ** Properties *)

(** The error contract.  Every thrown value gets a response: an HTTP exception
    its own status and message, a validation error 400 with the formatted issues,
    and anything else (Postgres, Redis, queue, HTTP client errors) a bare 500 that
    reveals nothing of it; the body repeats the status with its name, and the
    event is logged as an error exactly for a status of at least 500. *)
Theorem error_contract e url now :
  let '(lvl, status, body) := catch_exception e url now in
  (∀ s m, e = HttpException s m → status = s ∧ body_message body = m ∧ issues body = None) ∧
  (∀ l, e = ZodError l →
     status = 400 ∧ body_message body = "Validation failed" ∧
     issues body = Some (map formatIssue l)) ∧
  ((∀ s m, e ≠ HttpException s m) → (∀ l, e ≠ ZodError l) →
     status = 500 ∧ body_error body = "Internal Server Error" ∧
     body_message body = "Internal server error" ∧ issues body = None) ∧
  statusCode body = status ∧ body_error body = statusToText status ∧ path body = url ∧
  (lvl = log_error ↔ 500 ≤ status).
Proof.
  assert (L : ∀ s, (if 500 <=? s then log_error else log_warn) = log_error ↔ 500 ≤ s).
  { intros s. destruct (Z.leb_spec 500 s); split; done || lia. }
  destruct e; simpl; split_and!; naive_solver.
Qed.

(** The errors of an [invalid_union] are deduplicated without loss.  Every
    branch that is kept is a non-empty selection, in order, of a branch of the
    union; no key (field, code, message) occurs twice in all of them; and every
    key of every branch is still there. *)
Theorem union_errors_deduplicated path message errors :
  ∃ out, unionErrors (formatIssue (mkRawZodIssue "invalid_union" path message (Some errors)))
           = Some out ∧
    (∀ branch, branch ∈ out →
       branch ≠ [] ∧ ∃ b, b ∈ errors ∧ branch `sublist_of` map formatIssue b) ∧
    NoDup (keys (concat out)) ∧
    (∀ b i, b ∈ errors → i ∈ b → issue_key (formatIssue i) ∈ keys (concat out)).
Proof.
  set (branches := map (map formatIssue) errors).
  exists (List.filter non_empty (dedupe branches ∅)).
  destruct (dedupe_spec branches ∅) as (H1 & H2 & _ & H4). simpl in H1, H2, H4.
  split_and!; [done| | |].
  - intros branch Hb. apply list_elem_of_In, filter_In in Hb as [Hb Hne].
    split; [by destruct branch|]. apply list_elem_of_In, list_elem_of_lookup in Hb as [k Hk].
    destruct (Forall2_lookup_l _ _ _ _ _ H1 Hk) as (b' & Hb' & Hs).
    apply list_elem_of_lookup_2, list_elem_of_In, in_map_iff in Hb' as (b & <- & Hin).
    exists b. split; [by apply list_elem_of_In|done].
  - by rewrite concat_non_empty.
  - intros b i Hb Hi. rewrite concat_non_empty.
    destruct (H4 (issue_key (formatIssue i))) as [He|He]; [|set_solver|done].
    apply list_elem_of_fmap. exists (formatIssue i). split; [done|].
    apply list_elem_of_In, in_concat. exists (map formatIssue b).
    split; [by apply in_map, list_elem_of_In|by apply in_map, list_elem_of_In].
Qed.
