(* ===== verification/Middleware.v ===== *)
(** * Middleware: request ids and the HTTP log

    [src/common/middleware/request-id.middleware.ts] and
    [http-logger.middleware.ts]. *)
From Stdlib Require Import Ascii.
From S2P Require Import Prelude.

#[local] Open Scope Z_scope.

(** ** RequestIdMiddleware *)

(** The id set on the request and on the response; [uuid] is what
    [randomUUID()] returns.  A header sent twice is an array, [None] here. *)
Definition requestId (incoming : option string) (uuid : string) : string :=
  default uuid (truthy incoming).

(** ** HttpLoggerMiddleware *)

Inductive log_level : Type := error_level | warn_level | log_level_.

(** The CSI sequence [ESC [ n m]. *)
Definition ansi (n : string) : string := String "027" ("[" +:+ n +:+ "m").
Definition ANSI_RESET : string := ansi "39".

Definition STATUS_COLORS (c : ascii) : option string :=
  if ascii_dec c "2" then Some (ansi "32")
  else if ascii_dec c "3" then Some (ansi "36")
  else if ascii_dec c "4" then Some (ansi "33")
  else if ascii_dec c "5" then Some (ansi "31")
  else None.

Definition formatStatus (isDev : bool) (statusCode : Z) : string :=
  let raw := String_of_Z statusCode in
  if negb isDev then raw
  else
    let color := nullish (match raw with String c _ => STATUS_COLORS c | "" => None end) "" in
    color +:+ raw +:+ (match color with "" => "" | _ => ANSI_RESET end).

Definition writeLog_level (statusCode : Z) : log_level :=
  if 500 <=? statusCode then error_level
  else if 400 <=? statusCode then warn_level
  else log_level_.

(** What the response emits, with the time and the status at that moment. *)
Inductive response_event : Type :=
| finish (statusCode now : Z)
| close (writableEnded : bool) (statusCode now : Z).

(** The closure of one request. *)
Record request_log : Type := mkRequestLog {
  isLogged : bool;
  lines : list (log_level * string) }.

Section request.
Context (isDev : bool) (method originalUrl : string) (startTime : Z).

Definition duration (now : Z) : string := String_of_Z (now - startTime) +:+ "ms".

Definition aborted_line (now : Z) : log_level * string :=
  (warn_level, method +:+ " " +:+ originalUrl +:+ " ABORTED - " +:+ duration now).

Definition finished_line (statusCode now : Z) : log_level * string :=
  (writeLog_level statusCode,
   method +:+ " " +:+ originalUrl +:+ " " +:+ formatStatus isDev statusCode
     +:+ " - " +:+ duration now).

Definition logRequest (line : log_level * string) (s : request_log) : request_log :=
  if isLogged s then s else mkRequestLog true (lines s ++ [line]).

Definition on_response_event (e : response_event) (s : request_log) : request_log :=
  match e with
  | finish statusCode now => logRequest (finished_line statusCode now) s
  | close writableEnded _ now => if negb writableEnded then logRequest (aborted_line now) s else s
  end.

(** [use]: the listeners run on the events of the response, in their order. *)
Definition use (events : list response_event) : request_log :=
  foldl (λ s e, on_response_event e s) (mkRequestLog false []) events.

(** ** Specification *)

(** The line an event asks for. *)
Definition line_of (e : response_event) : option (log_level * string) :=
  match e with
  | finish statusCode now => Some (finished_line statusCode now)
  | close true _ _ => None
  | close false _ now => Some (aborted_line now)
  end.

Lemma on_response_event_eq e s :
  on_response_event e s = match line_of e with Some l => logRequest l s | None => s end.
Proof. by destruct e as [|[] ? ?]. Qed.

Lemma logged_stays events s :
  isLogged s = true → foldl (λ s e, on_response_event e s) s events = s.
Proof.
  intros Hs. induction events as [|e events IH]; [done|]. simpl. rewrite on_response_event_eq.
  unfold logRequest. rewrite Hs. by destruct (line_of e).
Qed.

(** One request, one line.  Whatever [finish] and [close] events a response
    emits, and in whatever order, at most one line is logged: that of the first
    event that asks for one, an aborted line for a [close] before the end of the
    response, a line with the status, at the level of the status, for a
    [finish]. *)
Theorem request_logged_once events :
  lines (use events) = option_list (head (omap line_of events)).
Proof.
  unfold use. induction events as [|e events IH]; [done|]. csimpl. rewrite on_response_event_eq.
  destruct (line_of e) as [l|]; [|exact IH]. by rewrite logged_stays.
Qed.
End request.

(** ** The middleware of the API

    [AppModule.configure]: every route goes through [RequestIdMiddleware], then
    through [HttpLoggerMiddleware], then to its handler. *)
Record traced : Type := mkTraced {
  request_header : string;       (** [x-request-id] of the request the handler sees *)
  response_header : string;      (** [X-Request-ID] of the response *)
  logged : request_log }.

Definition configure (isDev : bool) (incoming : option string) (uuid method originalUrl : string)
    (startTime : Z) (events : list response_event) : traced :=
  let id := requestId incoming uuid in
  mkTraced id id (use isDev method originalUrl startTime events).

(** The handler and the client see one id, never an empty one, and the client's own
    when it sent one; and a response that ends is one line of the log. *)
Lemma request_traced isDev incoming uuid method url start events :
  uuid ≠ "" →
  let t := configure isDev incoming uuid method url start events in
  request_header t = response_header t ∧ request_header t ≠ "" ∧
  (∀ s, incoming = Some s → s ≠ "" → request_header t = s) ∧
  (length (lines (logged t)) ≤ 1)%nat.
Proof.
  intros Hu t. split_and!; [done|..]; unfold t, configure, requestId; cbn.
  - by destruct incoming as [[]|].
  - by intros [|c s] ->.
  - rewrite request_logged_once. by destruct (head _) as [l|]; simpl; lia.
Qed.
