(* ===== verification/Logger.v ===== *)
(** * Logger: what a call of the logger writes

    [libs/logger/logger.service.ts]: the level threshold, the context and the trace
    of [AppLogger].  Pino writes a line when its level is at or above the
    threshold. *)
From S2P Require Import Prelude.

#[local] Open Scope Z_scope.

(** Pino's levels and their documented values; [silent] is a threshold only. *)
Inductive Level : Type := trace | debug | info | warn | error | silent.

Definition level_value (l : Level) : Z :=
  match l with trace => 10 | debug => 20 | info => 30 | warn => 40 | error => 50 | silent => 1000 end.

(** An argument of type [unknown]: a string, [undefined], or any other value. *)
Inductive unknown : Type :=
| UString (s : string)
| UUndefined
| UOther (n : nat).

(** [base]: what every line carries. *)
Record Base : Type := mkBase { service : string; env : option string }.

Record Line : Type := mkLine {
  line_base : Base;
  line_level : Level;
  line_context : string;
  line_trace : unknown;
  line_msg : string }.

(** The process environment the constructor reads. *)
Record LogEnv : Type := mkLogEnv { node_env : option string; jest_worker : bool }.

(** [new URL('./pretty.transport.js', import.meta.url).href], and its options. *)
Record Transport : Type := mkTransport {
  target : string;
  colorize : bool;
  singleLine : bool;
  levelFirst : bool;
  ignore : string;
  translateTime : string;
  messageFormat : string;
  customColors : string }.

Definition ESC : string := String (Ascii.ascii_of_nat 27) EmptyString.

Definition pretty_transport : Transport :=
  mkTransport "pretty.transport.js" true true true "context,service,env"
    "SYS:yyyy.mm.dd, HH:MM:ss"
    (ESC +:+ "[33m[{context}]" +:+ ESC +:+ "[37m {msg}" +:+ ESC +:+ "[39m")
    "info:cyan,debug:blue,warn:yellow,error:red,fatal:bgRed".

(** [libs/logger/pretty.transport.ts]: the time, in green; a value that is not a
    string is printed by [JSON.stringify]. *)
Definition time_prettifier (stringify : Z → string) (value : string + Z) : string :=
  ESC +:+ "[32m[" +:+ match value with inl s => s | inr n => stringify n end +:+ "]" +:+ ESC +:+ "[39m".

(** Without a transport, lines are written as JSON. *)
Record AppLogger : Type := mkAppLogger {
  threshold : Level;
  base : Base;
  transport : option Transport;
  globalContext : option string }.

Definition new_AppLogger (env : LogEnv) (context : option string) : AppLogger :=
  let isProd := bool_decide (node_env env = Some "production") in
  let isTest := jest_worker env in
  mkAppLogger (if isTest then silent else if isProd then info else debug)
    (mkBase "async-long-request-proxy" (node_env env))
    (if negb isProd && negb isTest then Some pretty_transport else None) context.

(** [(typeof last === 'string' ? last : this.globalContext) ?? 'App']. *)
Definition resolveContext (l : AppLogger) (params : list unknown) : string :=
  match last params with
  | Some (UString s) => s
  | _ => nullish (globalContext l) "App"
  end.

(** Pino: a line below the threshold is not written. *)
Definition emit (l : AppLogger) (line : Line) : list Line :=
  if level_value (threshold l) <=? level_value (line_level line) then [line] else [].

(** The methods; the message is [String(message)]. *)
Inductive method : Type := Log | Error | Warn | Debug | Verbose.

Definition method_level (m : method) : Level :=
  match m with Log => info | Error => error | Warn => warn | Debug => debug | Verbose => trace end.

(** [optionalParams.length > 1 ? optionalParams[0] : undefined], for [error]. *)
Definition trace_of (m : method) (params : list unknown) : unknown :=
  match m, params with
  | Error, p :: _ :: _ => p
  | _, _ => UUndefined
  end.

Definition call (l : AppLogger) (m : method) (message : string) (params : list unknown) : list Line :=
  emit l (mkLine (base l) (method_level m) (resolveContext l params) (trace_of m params) message).

(** ** Properties *)

(** A context given as the last argument names the line, and what comes before it
    is the trace of an error: the form in which Nest's own [Logger], which most
    classes use, calls this one. *)
Lemma named_call l m message name p :
  call l m message [UString name] =
    emit l (mkLine (base l) (method_level m) name UUndefined message) ∧
  call l Error message [p; UString name] = emit l (mkLine (base l) error name p message).
Proof. by destruct m. Qed.

(** Called directly with one argument, an error loses it: an [Error] object is
    written nowhere, and a stack becomes the context. *)
Lemma direct_error l message p :
  call l Error message [p] =
  emit l (mkLine (base l) error (match p with UString s => s | _ => nullish (globalContext l) "App" end)
    UUndefined message).
Proof. by destruct p. Qed.

(** What is written: nothing under a test runner; no [debug] in production; and
    [verbose] never. *)
Lemma written env context m message params :
  call (new_AppLogger env context) m message params ≠ [] ↔
  jest_worker env = false ∧ m ≠ Verbose ∧
  (m = Debug → node_env env ≠ Some "production").
Proof.
  unfold call, emit, new_AppLogger. destruct env as [e []]; cbn; [by destruct m; naive_solver|].
  case_bool_decide; destruct m; cbn; naive_solver.
Qed.

(** Lines are coloured, and leave out the context that the message has, in
    development only; and those written in production carry the name of the service
    and of the environment. *)
Lemma coloured e context :
  (is_Some (transport (new_AppLogger e context)) ↔
     jest_worker e = false ∧ node_env e ≠ Some "production") ∧
  ∀ m message params line, line ∈ call (new_AppLogger e context) m message params →
    line_base line = mkBase "async-long-request-proxy" (node_env e).
Proof.
  split.
  - unfold new_AppLogger. destruct e as [n []]; cbn; case_bool_decide; cbn.
    1-3: split; [by intros [? ?]|by intros [? ?]].
    split; [done|by eexists].
  - intros m message params line. unfold call, emit. case_match; [|by intros ?%elem_of_nil].
    by intros ->%list_elem_of_singleton.
Qed.
