(* ===== verification/Schema.v ===== *)
(** * Schema: the [tasks] and [task_events] tables

    [src/modules/tasks/schemas/tasks.sql.ts] and
    [src/modules/delivery/schemas/events.sql.ts]: the row types, the column
    defaults, and the CHECK constraints Postgres evaluates on every write. *)
From S2P Require Import Prelude Errors.

(** ** Task lifecycle states *)
Inductive TaskStatus : Type :=
| PENDING | PROCESSING | COMPLETED | FAILED | CANCELLED.

#[export] Instance TaskStatus_eq_dec : EqDecision TaskStatus.
Proof. solve_decision. Defined.

Definition TASK_STATUSES : list TaskStatus :=
  [PENDING; PROCESSING; COMPLETED; FAILED; CANCELLED].

Definition status_text (s : TaskStatus) : string :=
  match s with
  | PENDING => "PENDING" | PROCESSING => "PROCESSING" | COMPLETED => "COMPLETED"
  | FAILED => "FAILED" | CANCELLED => "CANCELLED"
  end.

Definition is_terminal (s : TaskStatus) : bool :=
  bool_decide (s ∈ [COMPLETED; FAILED; CANCELLED]).

Record TaskError : Type := mkTaskError {
  code : string;
  message : string;
  details : option json }.

(** ** A row of [tasks] ([TaskSelect]); timestamps are milliseconds. *)
Record TaskRow : Type := mkTask {
  id : string;
  idempotencyKey : option string;
  status : TaskStatus;
  type : string;
  payload : json;
  executorUrl : string;
  callbackToken : option string;
  webhookUrl : option string;
  cancelUrl : option string;
  result : option json;
  error : option TaskError;
  progress : Z;
  timeoutSeconds : Z;
  processingStartedAt : option Z;
  expiresAt : option Z;
  completedAt : option Z;
  createdAt : Z;
  updatedAt : Z }.

(** ** What an INSERT may name ([TaskInsert]); an absent column takes its
    default. *)
Record TaskInsert : Type := mkTaskInsert {
  ins_id : option string;
  ins_idempotencyKey : option string;
  ins_status : option TaskStatus;
  ins_type : string;
  ins_payload : option json;
  ins_executorUrl : string;
  ins_callbackToken : option string;
  ins_webhookUrl : option string;
  ins_cancelUrl : option string;
  ins_result : option json;
  ins_error : option TaskError;
  ins_progress : option Z;
  ins_timeoutSeconds : option Z;
  ins_processingStartedAt : option Z;
  ins_expiresAt : option Z;
  ins_completedAt : option Z }.

(** The stored row: the column defaults ([defaultRandom()], ['PENDING'], [{}],
    [0], [300], [defaultNow()]) applied to what the INSERT names. *)
Definition insert_row (db_now : Z) (uuid : string) (v : TaskInsert) : TaskRow :=
  {| id := default uuid (ins_id v);
     idempotencyKey := ins_idempotencyKey v;
     status := default PENDING (ins_status v);
     type := ins_type v;
     payload := default (JObj []) (ins_payload v);
     executorUrl := ins_executorUrl v;
     callbackToken := ins_callbackToken v;
     webhookUrl := ins_webhookUrl v;
     cancelUrl := ins_cancelUrl v;
     result := ins_result v;
     error := ins_error v;
     progress := default 0%Z (ins_progress v);
     timeoutSeconds := default 300%Z (ins_timeoutSeconds v);
     processingStartedAt := ins_processingStartedAt v;
     expiresAt := ins_expiresAt v;
     completedAt := ins_completedAt v;
     createdAt := db_now;
     updatedAt := db_now |}.

(** ** Column assignments of an UPDATE

    A [Partial<TaskInsert>] given to [.set(...)] is the list of the columns it
    names; a key named twice in [{ a, ...extra }] takes the later value, as the
    later assignment of the list does.  Nullable columns take an [option]. *)
Inductive TaskSet : Type :=
| Set_status (s : TaskStatus)
| Set_result (r : option json)
| Set_error (e : option TaskError)
| Set_progress (p : Z)
| Set_processingStartedAt (t : option Z)
| Set_expiresAt (t : option Z)
| Set_completedAt (t : option Z).

Definition apply_set (r : TaskRow) (s : TaskSet) : TaskRow :=
  let upd st res err pr psa ex co :=
    {| id := id r; idempotencyKey := idempotencyKey r; status := st; type := type r;
       payload := payload r; executorUrl := executorUrl r;
       callbackToken := callbackToken r; webhookUrl := webhookUrl r;
       cancelUrl := cancelUrl r; result := res; error := err; progress := pr;
       timeoutSeconds := timeoutSeconds r; processingStartedAt := psa;
       expiresAt := ex; completedAt := co; createdAt := createdAt r;
       updatedAt := updatedAt r |} in
  match s with
  | Set_status v => upd v (result r) (error r) (progress r) (processingStartedAt r) (expiresAt r) (completedAt r)
  | Set_result v => upd (status r) v (error r) (progress r) (processingStartedAt r) (expiresAt r) (completedAt r)
  | Set_error v => upd (status r) (result r) v (progress r) (processingStartedAt r) (expiresAt r) (completedAt r)
  | Set_progress v => upd (status r) (result r) (error r) v (processingStartedAt r) (expiresAt r) (completedAt r)
  | Set_processingStartedAt v => upd (status r) (result r) (error r) (progress r) v (expiresAt r) (completedAt r)
  | Set_expiresAt v => upd (status r) (result r) (error r) (progress r) (processingStartedAt r) v (completedAt r)
  | Set_completedAt v => upd (status r) (result r) (error r) (progress r) (processingStartedAt r) (expiresAt r) v
  end.

(** [$onUpdate(() => new Date())] on [updatedAt]. *)
Definition touch (now : Z) (r : TaskRow) : TaskRow :=
  {| id := id r; idempotencyKey := idempotencyKey r; status := status r; type := type r;
     payload := payload r; executorUrl := executorUrl r; callbackToken := callbackToken r;
     webhookUrl := webhookUrl r; cancelUrl := cancelUrl r; result := result r;
     error := error r; progress := progress r; timeoutSeconds := timeoutSeconds r;
     processingStartedAt := processingStartedAt r; expiresAt := expiresAt r;
     completedAt := completedAt r; createdAt := createdAt r; updatedAt := now |}.

Definition update_row (now : Z) (sets : list TaskSet) (r : TaskRow) : TaskRow :=
  touch now (foldl apply_set r sets).

(** ** CHECK constraints of [tasks] *)

Definition isSome {A} (o : option A) : bool := match o with Some _ => true | None => false end.
Definition isNone {A} (o : option A) : bool := negb (isSome o).

(** [tasks_status_check]. *)
Definition tasks_status_check (r : TaskRow) : bool :=
  bool_decide (status r ∈ [PENDING; PROCESSING; COMPLETED; FAILED; CANCELLED]).

(** [tasks_valid_state_data]: the matrix of status and timestamps. *)
Definition tasks_valid_state_data (r : TaskRow) : bool :=
  (bool_decide (status r = PENDING)
     && isNone (processingStartedAt r) && isNone (completedAt r))
  || (bool_decide (status r = PROCESSING)
     && isSome (processingStartedAt r) && isNone (completedAt r))
  || (bool_decide (status r ∈ [COMPLETED; FAILED])
     && isSome (processingStartedAt r) && isSome (completedAt r))
  || (bool_decide (status r = CANCELLED) && isSome (completedAt r)).

(** A value an [integer] column holds. *)
Definition int4 (z : Z) : bool := ((-2147483648 <=? z) && (z <=? 2147483647))%Z.

(** A value a [bigint] column holds. *)
Definition int8 (z : Z) : bool :=
  ((-9223372036854775808 <=? z) && (z <=? 9223372036854775807))%Z.

(** What rejects a row of [tasks], if anything does. *)
Definition task_row_error (r : TaskRow) : option sql_error :=
  if negb (int4 (progress r) && int4 (timeoutSeconds r)) then Some numeric_value_out_of_range
  else if negb (tasks_status_check r) then Some (check_violation "tasks_status_check")
  else if negb (tasks_valid_state_data r) then Some (check_violation "tasks_valid_state_data")
  else None.

Definition task_row_ok (r : TaskRow) : Prop := task_row_error r = None.

(** ** Events *)
Inductive TaskEventType : Type := progress_ev | completed_ev | failed_ev | cancelled_ev.

#[export] Instance TaskEventType_eq_dec : EqDecision TaskEventType.
Proof. solve_decision. Defined.

Definition TASK_EVENT_TYPES : list TaskEventType :=
  [progress_ev; completed_ev; failed_ev; cancelled_ev].

Definition event_type_text (t : TaskEventType) : string :=
  match t with
  | progress_ev => "progress" | completed_ev => "completed"
  | failed_ev => "failed" | cancelled_ev => "cancelled"
  end.

(** A row of [task_events] ([TaskEventSelect]). *)
Record TaskEventRow : Type := mkEvent {
  ev_id : string;
  ev_taskId : string;
  ev_seq : Z;
  ev_type : TaskEventType;
  ev_payload : json;
  ev_createdAt : Z }.

(** [InsertEventInput]: the semantic fields a caller provides. *)
Inductive InsertEventInput : Type :=
| ProgressEventInput (taskId : string) (progress : Z)
| CompletedEventInput (taskId : string) (data : json)
| FailedEventInput (taskId : string) (error : TaskError)
| CancelledEventInput (taskId : string).

Definition TaskError_json (e : TaskError) : json :=
  JObj ([("code", JStr (code e)); ("message", JStr (message e))]
        ++ match details e with Some d => [("details", d)] | None => [] end).

Definition input_taskId (i : InsertEventInput) : string :=
  match i with
  | ProgressEventInput t _ | CompletedEventInput t _ | FailedEventInput t _
  | CancelledEventInput t => t
  end.

Definition input_eventType (i : InsertEventInput) : TaskEventType :=
  match i with
  | ProgressEventInput _ _ => progress_ev
  | CompletedEventInput _ _ => completed_ev
  | FailedEventInput _ _ => failed_ev
  | CancelledEventInput _ => cancelled_ev
  end.

(** [const { taskId, eventType, ...payloadFields } = input]. *)
Definition input_payloadFields (i : InsertEventInput) : json :=
  match i with
  | ProgressEventInput _ p => JObj [("progress", JNum p)]
  | CompletedEventInput _ d => JObj [("data", d)]
  | FailedEventInput _ e => JObj [("error", TaskError_json e)]
  | CancelledEventInput _ => JObj []
  end.

(** ** Lemmas *)

Lemma tasks_status_check_true r : tasks_status_check r = true.
Proof. unfold tasks_status_check. destruct (status r); reflexivity. Qed.

Lemma task_row_ok_iff r :
  task_row_ok r ↔
  int4 (progress r) = true ∧ int4 (timeoutSeconds r) = true ∧ tasks_valid_state_data r = true.
Proof.
  unfold task_row_ok, task_row_error. rewrite tasks_status_check_true.
  destruct (int4 (progress r)), (int4 (timeoutSeconds r)), (tasks_valid_state_data r);
    simpl; naive_solver.
Qed.

(** The timestamps a well-formed row of each status has. *)
Definition state_data_spec (s : TaskStatus) (started completed : option Z) : Prop :=
  match s with
  | PENDING => started = None ∧ completed = None
  | PROCESSING => is_Some started ∧ completed = None
  | COMPLETED | FAILED => is_Some started ∧ is_Some completed
  | CANCELLED => is_Some completed
  end.

Lemma tasks_valid_state_data_spec r :
  tasks_valid_state_data r = true ↔
  state_data_spec (status r) (processingStartedAt r) (completedAt r).
Proof.
  unfold tasks_valid_state_data, state_data_spec.
  destruct (status r), (processingStartedAt r), (completedAt r); simpl;
    rewrite ?is_Some_alt; naive_solver.
Qed.

Lemma is_terminal_spec s :
  is_terminal s = true ↔ s ≠ PENDING ∧ s ≠ PROCESSING.
Proof. destruct s; unfold is_terminal; simpl; split; naive_solver. Qed.

(** No UPDATE assigns the key columns. *)
Lemma update_row_id now sets r : id (update_row now sets r) = id r.
Proof.
  unfold update_row; simpl. revert r.
  induction sets as [|s sets IH]; intros r; simpl; [done|]. rewrite IH. by destruct s.
Qed.

Lemma update_row_key now sets r :
  idempotencyKey (update_row now sets r) = idempotencyKey r.
Proof.
  unfold update_row; simpl. revert r.
  induction sets as [|s sets IH]; intros r; simpl; [done|]. rewrite IH. by destruct s.
Qed.

#[export] Hint Rewrite update_row_id update_row_key : proxy.
