(* ===== verification/Database.v ===== *)
(** * Database: the SQL statements the repositories issue

    The state of the two tables and one definition per kind of statement the
    Drizzle queries of [src/] build: INSERT with its constraints, conditional
    UPDATE ... RETURNING, SELECT ... LIMIT, DELETE ... RETURNING.  A statement
    (and a transaction) either takes effect or leaves the tables unchanged.

    The order in which Postgres visits rows is not specified by the queries
    without ORDER BY: it is the operation of the class [ScanOrder], of which
    only "it lists every row once" is known. *)
From S2P Require Import Prelude Errors Schema.

Record db : Type := mkDb {
  tasks : gmap string TaskRow;
  task_events : list TaskEventRow }.

Definition empty_db : db := mkDb ∅ [].

Class ScanOrder : Type := {
  scan_order : gmap string TaskRow → list string;
  scan_order_perm m : scan_order m ≡ₚ (map_to_list m).*1 }.

(** Visiting the rows in the order of the map's own enumeration. *)
#[export, refine] Instance scan_by_key : ScanOrder :=
  {| scan_order m := (map_to_list m).*1 |}.
Proof. done. Defined.

(** What one call to the database sees besides the tables: the application's
    clock ([new Date()]), the database's clock ([NOW()]), the values of
    [gen_random_uuid()], and the rows other transactions hold locks on. *)
Record dbctx : Type := mkCtx {
  c_now : Z;
  c_db_now : Z;
  c_uuid : nat → string;
  c_locked : gset string }.

(** ** Statements and transactions *)
Definition sql (A : Type) : Type := db → res A * db.

Definition sret {A} (a : A) : sql A := λ d, (Ok a, d).
Definition sfail {A} (e : exn) : sql A := λ d, (Err e, d).
Definition sbind {A B} (m : sql A) (f : A → sql B) : sql B := λ d,
  match m d with
  | (Ok a, d') => f a d'
  | (Err e, d') => (Err e, d')
  end.

(** [db.transaction(body)]: an exception leaving the body rolls back. *)
Definition transaction {A} (body : sql A) : sql A := λ d,
  match body d with
  | (Ok a, d') => (Ok a, d')
  | (Err e, _) => (Err e, d)
  end.

Declare Scope sql_scope.
Delimit Scope sql_scope with sql.
Notation "'let$' x := m 'in' k" := (sbind m (λ x, k))
  (at level 200, x binder, m at level 100, k at level 200, right associativity) : sql_scope.
Open Scope sql_scope.

Section statements.
Context {SO : ScanOrder}.

(** The rows a SELECT visits, in scan order. *)
Definition rows (d : db) : list TaskRow := omap (λ i, tasks d !! i) (scan_order (tasks d)).

Definition select_tasks (wh : TaskRow → bool) : sql (list TaskRow) := λ d,
  (Ok (filter (λ r, wh r = true) (rows d)), d).

(** [SELECT ... WHERE wh LIMIT n]. *)
Definition select_tasks_limit (wh : TaskRow → bool) (n : nat) : sql (list TaskRow) := λ d,
  (Ok (take n (filter (λ r, wh r = true) (rows d))), d).

(** [SELECT id ... WHERE wh LIMIT n FOR UPDATE SKIP LOCKED]. *)
Definition select_ids_skip_locked (locked : gset string) (wh : TaskRow → bool) (n : nat)
    : sql (list string) := λ d,
  (Ok (id <$> take n (filter (λ r, wh r = true ∧ id r ∉ locked) (rows d))), d).

(** [idempotency_key] already present ([tasks_idempotency_key_idx]). *)
Definition key_taken (k : option string) (d : db) : bool :=
  match k with
  | None => false
  | Some _ => existsb (λ r, bool_decide (idempotencyKey r = k)) (rows d)
  end.

Definition insert_task (r : TaskRow) : sql TaskRow := λ d,
  match task_row_error r with
  | Some e => (Err (PostgresError e), d)
  | None =>
      if bool_decide (is_Some (tasks d !! id r)) then
        (Err (PostgresError (unique_violation "tasks_pkey")), d)
      else if key_taken (idempotencyKey r) d then
        (Err (PostgresError (unique_violation "tasks_idempotency_key_idx")), d)
      else (Ok r, mkDb (<[id r := r]> (tasks d)) (task_events d))
  end.

(** The rows an UPDATE produces, and the first constraint they break. *)
Definition updated_rows (now : Z) (sets : list TaskSet) (wh : TaskRow → bool) (d : db)
    : list TaskRow :=
  update_row now sets <$> filter (λ r, wh r = true) (rows d).

Definition update_tasks (now : Z) (sets : list TaskSet) (wh : TaskRow → bool)
    : sql (list TaskRow) := λ d,
  let new := updated_rows now sets wh d in
  match head (omap task_row_error new) with
  | Some e => (Err (PostgresError e), d)
  | None =>
      (Ok new,
       mkDb ((λ r, if wh r then update_row now sets r else r) <$> tasks d) (task_events d))
  end.

Definition delete_tasks (wh : TaskRow → bool) : sql (list TaskRow) := λ d,
  (Ok (filter (λ r, wh r = true) (rows d)),
   mkDb (filter (λ ir, wh ir.2 = false) (tasks d)) (task_events d)).
End statements.

Definition select_events (wh : TaskEventRow → bool) : sql (list TaskEventRow) := λ d,
  (Ok (filter (λ e, wh e = true) (task_events d)), d).

(** [task_events_pkey] and [task_events_task_id_seq_unique_idx]. *)
Definition event_conflict (e : TaskEventRow) (d : db) : option sql_error :=
  if existsb (λ e', bool_decide (ev_id e' = ev_id e)) (task_events d)
  then Some (unique_violation "task_events_pkey")
  else if existsb (λ e', bool_decide (ev_taskId e' = ev_taskId e)
                          && bool_decide (ev_seq e' = ev_seq e)) (task_events d)
  then Some (unique_violation "task_events_task_id_seq_unique_idx")
  else None.

Definition insert_event_row (e : TaskEventRow) : sql TaskEventRow := λ d,
  match event_conflict e d with
  | Some err => (Err (PostgresError err), d)
  | None => (Ok e, mkDb (tasks d) (task_events d ++ [e]))
  end.

Definition delete_events (wh : TaskEventRow → bool) : sql (list TaskEventRow) := λ d,
  (Ok (filter (λ e, wh e = true) (task_events d)),
   mkDb (tasks d) (filter (λ e, wh e = false) (task_events d))).

(** ** The invariant of the tables *)

(** The event log of one task, in insertion order. *)
Definition events_of (t : string) (d : db) : list TaskEventRow :=
  filter (λ e, ev_taskId e = t) (task_events d).

Record db_wf (d : db) : Prop := {
  wf_id i r : tasks d !! i = Some r → id r = i;
  wf_row i r : tasks d !! i = Some r → task_row_ok r;
  wf_key i j ri rj k :
    tasks d !! i = Some ri → tasks d !! j = Some rj →
    idempotencyKey ri = Some k → idempotencyKey rj = Some k → i = j;
  wf_ev_id : NoDup (ev_id <$> task_events d);
  wf_seq t : ev_seq <$> events_of t d = seqZ 1 (Z.of_nat (length (events_of t d))) }.

(** Part of [db_wf] that only concerns [tasks]. *)
Lemma db_wf_tasks d d' :
  db_wf d → task_events d' = task_events d →
  (∀ i r, tasks d' !! i = Some r → id r = i ∧ task_row_ok r ∧
     ∃ r0, tasks d !! i = Some r0 ∧ idempotencyKey r0 = idempotencyKey r) →
  db_wf d'.
Proof.
  intros [Hid Hrow Hkey Hev Hseq] E H. constructor; unfold events_of; rewrite ?E; auto.
  - intros i r Hi. by apply (H i r).
  - intros i r Hi. by apply (H i r).
  - intros i j ri rj k Hi Hj Ki Kj.
    destruct (H _ _ Hi) as (_ & _ & r0 & H0 & K0), (H _ _ Hj) as (_ & _ & r1 & H1 & K1).
    apply (Hkey i j r0 r1 k); congruence.
Qed.

Lemma empty_db_wf : db_wf empty_db.
Proof. constructor; simpl; try (intros *; rewrite lookup_empty; done); by constructor. Qed.

Section lemmas.
Context {SO : ScanOrder}.
Implicit Types d : db.

Lemma elem_of_scan_order d i : i ∈ scan_order (tasks d) ↔ is_Some (tasks d !! i).
Proof.
  rewrite scan_order_perm, list_elem_of_fmap. split.
  - intros ([j r] & -> & Hj%elem_of_map_to_list). eauto.
  - intros [r Hr]. exists (i, r). by rewrite elem_of_map_to_list.
Qed.

Lemma elem_of_rows d r : r ∈ rows d ↔ ∃ i, tasks d !! i = Some r.
Proof.
  unfold rows. rewrite list_elem_of_omap. split; [naive_solver|].
  intros [i H]. exists i. split; [|done]. apply elem_of_scan_order. eauto.
Qed.

Lemma elem_of_rows_wf d r : db_wf d → r ∈ rows d ↔ tasks d !! id r = Some r.
Proof.
  intros W. rewrite elem_of_rows. split; [|eauto].
  intros [i H]. by rewrite (wf_id d W i r H).
Qed.

Lemma rows_ids d : db_wf d → id <$> rows d = scan_order (tasks d).
Proof.
  intros W. unfold rows.
  assert (H : ∀ i, i ∈ scan_order (tasks d) → is_Some (tasks d !! i))
    by (intros i; by rewrite elem_of_scan_order).
  induction (scan_order (tasks d)) as [|i l IH]; [done|].
  destruct (H i ltac:(set_solver)) as [r Hr]. csimpl. rewrite Hr. csimpl.
  rewrite (wf_id d W i r Hr), IH; [done|set_solver].
Qed.

Lemma NoDup_scan_order d : NoDup (scan_order (tasks d)).
Proof. rewrite scan_order_perm. apply NoDup_fst_map_to_list. Qed.

Lemma NoDup_rows_ids d : db_wf d → NoDup (id <$> rows d).
Proof. intros W. rewrite rows_ids by done. apply NoDup_scan_order. Qed.

(** *** UPDATE *)

Lemma update_tasks_err now sets wh d e d' :
  update_tasks now sets wh d = (Err e, d') → d' = d.
Proof. unfold update_tasks. case_goal; naive_solver. Qed.

Lemma update_tasks_ok now sets wh d l d' :
  update_tasks now sets wh d = (Ok l, d') →
  l = updated_rows now sets wh d ∧
  (∀ r, r ∈ rows d → wh r = true → task_row_ok (update_row now sets r)) ∧
  tasks d' = (λ r, if wh r then update_row now sets r else r) <$> tasks d ∧
  task_events d' = task_events d.
Proof.
  unfold update_tasks. case_goal; [done|]. intros [= <- <-]. split_and!; try done.
  intros r Hr Hwh. apply head_None in E. rewrite omap_nil_iff in E.
  apply E. unfold updated_rows. apply list_elem_of_fmap. exists r.
  split; [done|]. by apply list_elem_of_filter.
Qed.

(** An UPDATE all of whose new rows satisfy the constraints succeeds. *)
Lemma update_tasks_succeeds now sets wh d :
  (∀ r, r ∈ rows d → wh r = true → task_row_ok (update_row now sets r)) →
  update_tasks now sets wh d =
    (Ok (updated_rows now sets wh d),
     mkDb ((λ r, if wh r then update_row now sets r else r) <$> tasks d) (task_events d)).
Proof.
  intros H. unfold update_tasks.
  assert (omap task_row_error (updated_rows now sets wh d) = []) as ->; [|done].
  apply omap_nil_iff. intros r Hr. apply list_elem_of_fmap in Hr as (r0 & -> & Hr0).
  apply list_elem_of_filter in Hr0 as [Hwh Hr0]. by apply H.
Qed.

(** An UPDATE one of whose new rows breaks a constraint changes nothing. *)
Lemma update_tasks_violates now sets wh d r :
  r ∈ rows d → wh r = true → ¬ task_row_ok (update_row now sets r) →
  ∃ e, update_tasks now sets wh d = (Err (PostgresError e), d).
Proof.
  intros Hr Hwh Hbad. unfold update_tasks. case_goal; [eauto|].
  apply head_None in E. rewrite omap_nil_iff in E. destruct Hbad. apply E.
  apply list_elem_of_fmap. exists r. split; [done|]. by apply list_elem_of_filter.
Qed.

Lemma update_tasks_wf now sets wh d r d' :
  db_wf d → update_tasks now sets wh d = (r, d') → db_wf d'.
Proof.
  intros W H. destruct r as [l|e]; [|by apply update_tasks_err in H as ->].
  apply update_tasks_ok in H as (_ & Hok & Ht & He).
  apply (db_wf_tasks d); [done..|]. rewrite Ht. intros i r.
  rewrite lookup_fmap. intros (r0 & H0 & ->)%fmap_Some.
  pose proof (wf_id d W _ _ H0). pose proof (wf_row d W _ _ H0).
  assert (r0 ∈ rows d) by (apply elem_of_rows; eauto).
  destruct (wh r0) eqn:Hwh; autorewrite with proxy; split_and!; eauto;
    exists r0; by autorewrite with proxy.
Qed.

(** *** INSERT and DELETE *)

Lemma key_taken_spec d k :
  key_taken (Some k) d = true ↔ ∃ i r, tasks d !! i = Some r ∧ idempotencyKey r = Some k.
Proof.
  unfold key_taken. rewrite existsb_exists. setoid_rewrite <- list_elem_of_In.
  setoid_rewrite elem_of_rows. setoid_rewrite bool_decide_eq_true. naive_solver.
Qed.

Lemma insert_task_ok r d r' d' :
  insert_task r d = (Ok r', d') →
  r' = r ∧ task_row_ok r ∧ tasks d !! id r = None ∧
  (∀ k, idempotencyKey r = Some k → key_taken (Some k) d = false) ∧
  d' = mkDb (<[id r := r]> (tasks d)) (task_events d).
Proof.
  unfold insert_task. case_goal; [done|]. case_bool_decide as Hp; [done|].
  case_goal; [done|]. intros [= <- <-]. split_and!; try done.
  - by apply eq_None_not_Some.
  - intros k Hk. by rewrite Hk in *.
Qed.

Lemma insert_task_err r d e d' : insert_task r d = (Err e, d') → d' = d.
Proof. unfold insert_task. repeat case_goal; naive_solver. Qed.

Lemma insert_task_wf r d o d' : db_wf d → insert_task r d = (o, d') → db_wf d'.
Proof.
  intros W H. destruct o as [r'|e]; [|by apply insert_task_err in H as ->].
  apply insert_task_ok in H as (_ & Hok & Hnew & Hkey & ->).
  assert (K : ∀ i ri k, tasks d !! i = Some ri → idempotencyKey ri = Some k →
                idempotencyKey r ≠ Some k).
  { intros i ri k Hi Hk Hr. apply Hkey in Hr. apply not_true_iff_false in Hr.
    destruct Hr. apply key_taken_spec. eauto. }
  constructor; simpl; try apply W.
  - intros i r0. rewrite lookup_insert_Some. intros [[<- <-]|[_ H]]; [done|]. by eapply wf_id.
  - intros i r0. rewrite lookup_insert_Some. intros [[<- <-]|[_ H]]; [done|]. by eapply wf_row.
  - intros i j ri rj k. rewrite !lookup_insert_Some.
    intros [[<- <-]|[_ Hi]] [[<- <-]|[_ Hj]] Ki Kj; try done.
    + by destruct (K _ _ _ Hj Kj).
    + by destruct (K _ _ _ Hi Ki).
    + by eapply wf_key.
Qed.

Lemma delete_tasks_wf wh d o d' : db_wf d → delete_tasks wh d = (o, d') → db_wf d'.
Proof.
  intros W [= <- <-]. apply (db_wf_tasks d); [done..|]. simpl.
  intros i r [H _]%map_lookup_filter_Some. split_and!.
  - by eapply wf_id.
  - by eapply wf_row.
  - eauto.
Qed.
End lemmas.

(** [wf_from H lem]: the state a statement leaves is well formed. *)
Ltac wf_from H lem := eapply lem; [|exact H].

#[export] Hint Resolve empty_db_wf : proxy.
#[export] Hint Extern 1 (db_wf ?d) =>
  match goal with
  | H : update_tasks _ _ _ _ = (_, d) |- _ => wf_from H @update_tasks_wf
  | H : insert_task _ _ = (_, d) |- _ => wf_from H @insert_task_wf
  | H : delete_tasks _ _ = (_, d) |- _ => wf_from H @delete_tasks_wf
  end : proxy.
