(* ===== verification/Samples.v ===== *)
(** * Samples: concrete rows and tables

    The inputs on which the theorems with hypotheses are instantiated, and a
    decision procedure for the invariant of the tables. *)
From S2P Require Import Prelude Errors Schema Database.

#[local] Open Scope Z_scope.

Definition sample_row (i : string) (st : TaskStatus) (started completed expires : option Z)
    : TaskRow :=
  {| id := i; idempotencyKey := None; status := st; type := "report"; payload := JObj [];
     executorUrl := "http://executor/run"; callbackToken := Some "secret";
     webhookUrl := Some "http://client/hook"; cancelUrl := Some "http://executor/cancel";
     result := None; error := None; progress := 0; timeoutSeconds := 60;
     processingStartedAt := started; expiresAt := expires; completedAt := completed;
     createdAt := 0; updatedAt := 0 |}.

Definition sample_event (i n : string) (s : Z) (t : TaskEventType) : TaskEventRow :=
  {| ev_id := n; ev_taskId := i; ev_seq := s; ev_type := t; ev_payload := JObj [];
     ev_createdAt := 0 |}.

Definition sample_db (l : list TaskRow) (evs : list TaskEventRow) : db :=
  mkDb (list_to_map ((λ r, (id r, r)) <$> l)) evs.

(** ** Deciding [db_wf] *)

Definition row_check (d : db) (ir : string * TaskRow) : bool :=
  bool_decide (id ir.2 = ir.1) && isNone (task_row_error ir.2) &&
  forallb (λ jr, bool_decide (jr.1 = ir.1)
                 || negb (bool_decide (idempotencyKey jr.2 = idempotencyKey ir.2))
                 || isNone (idempotencyKey ir.2)) (map_to_list (tasks d)).

Definition log_check (d : db) (e : TaskEventRow) : bool :=
  let l := events_of (ev_taskId e) d in
  bool_decide (ev_seq <$> l = seqZ 1 (Z.of_nat (length l))).

Definition db_check (d : db) : bool :=
  forallb (row_check d) (map_to_list (tasks d)) &&
  bool_decide (NoDup (ev_id <$> task_events d)) &&
  forallb (log_check d) (task_events d).

Lemma isNone_spec {A} (o : option A) : isNone o = true ↔ o = None.
Proof. by destruct o. Qed.

Lemma db_check_wf d : db_check d = true → db_wf d.
Proof.
  unfold db_check. rewrite !andb_true_iff, !forallb_forall, bool_decide_eq_true.
  intros [[Hr Hid] Hl].
  assert (R : ∀ i r, tasks d !! i = Some r → row_check d (i, r) = true).
  { intros i r H. apply Hr, list_elem_of_In, elem_of_map_to_list, H. }
  unfold row_check in R. simpl in R.
  assert (R' : ∀ i r, tasks d !! i = Some r → id r = i ∧ task_row_error r = None).
  { intros i r H%R. rewrite !andb_true_iff, isNone_spec, bool_decide_eq_true in H. tauto. }
  constructor; [naive_solver..| |done|].
  - intros i j ri rj k Hi Hj Ki Kj. pose proof (R i ri Hi) as H.
    apply andb_true_iff in H as [_ H]. rewrite forallb_forall in H.
    specialize (H (j, rj)). rewrite <-list_elem_of_In, elem_of_map_to_list in H.
    specialize (H Hj). simpl in H. rewrite !orb_true_iff, Ki, Kj in H.
    rewrite bool_decide_eq_true, bool_decide_true in H by done. naive_solver.
  - intros t. destruct (events_of t d) as [|e l] eqn:E; [done|].
    assert (He : e ∈ events_of t d) by (rewrite E; set_solver).
    apply list_elem_of_filter in He as [<- He].
    specialize (Hl e (proj1 (list_elem_of_In _ _) He)). unfold log_check in Hl.
    apply bool_decide_eq_true_1 in Hl. by rewrite E in Hl.
Qed.

Ltac check_db := apply db_check_wf; vm_compute; reflexivity.
