(* ===== verification/EventsRepository.v ===== *)
(** * EventsRepository: the append-only event log

    [src/modules/delivery/events.repository.ts]: assignment of the per-task
    [seq] counter and the replay query. *)
From stdpp Require Import sorting.
From S2P Require Import Prelude Errors Schema Database Samples.

(** [MAX(seq)]. *)
Definition max_seq (l : list TaskEventRow) : option Z :=
  foldr (λ e m, Some (match m with None => ev_seq e | Some x => Z.max (ev_seq e) x end)) None l.

(** [COALESCE(MAX(seq), 0) + 1] over the rows of one task. *)
Definition next_seq (t : string) : sql Z :=
  let$ evs := select_events (λ e, bool_decide (ev_taskId e = t)) in
  sret (default 0 (max_seq evs) + 1)%Z.

(** The body of the transaction: the advisory lock, which leaves the tables
    alone, then the counter, then the INSERT. *)
Definition insertEventInTx (c : dbctx) (input : InsertEventInput) : sql TaskEventRow :=
  let taskId := input_taskId input in
  let$ nextSeq := next_seq taskId in
  insert_event_row
    {| ev_id := c_uuid c 0; ev_taskId := taskId; ev_seq := nextSeq;
       ev_type := input_eventType input; ev_payload := input_payloadFields input;
       ev_createdAt := c_db_now c |}.

Definition insertEvent (c : dbctx) (input : InsertEventInput) : sql TaskEventRow :=
  transaction (insertEventInTx c input).

Definition seq_le (a b : TaskEventRow) : Prop := (ev_seq a ≤ ev_seq b)%Z.
#[export] Instance seq_le_dec a b : Decision (seq_le a b).
Proof. unfold seq_le. apply _. Defined.

(** [WHERE task_id = t AND seq > afterSeq ORDER BY seq]; Postgres rejects a
    parameter that does not fit the column's type. *)
Definition findEventsSince (taskId : string) (afterSeq : Z) : sql (list TaskEventRow) :=
  if int8 afterSeq then
    let$ evs := select_events
      (λ e, bool_decide (ev_taskId e = taskId) && bool_decide (afterSeq < ev_seq e)%Z) in
    sret (merge_sort seq_le evs)
  else sfail (PostgresError numeric_value_out_of_range).

(** ** Lemmas *)

Lemma max_seq_seqZ l n :
  ev_seq <$> l = seqZ 1 (Z.of_nat n) → default 0%Z (max_seq l) = Z.of_nat n.
Proof.
  assert (G : ∀ l m k, ev_seq <$> l = seqZ m (Z.of_nat (S k)) →
                max_seq l = Some (m + Z.of_nat k)%Z).
  { clear. intros l; induction l as [|e l IH]; intros m k.
    - by rewrite seqZ_cons by lia.
    - rewrite seqZ_cons by lia. csimpl. intros [= He Hl].
      destruct k as [|k].
      + rewrite seqZ_nil in Hl by lia. apply fmap_nil_inv in Hl as ->. simpl. f_equal; lia.
      + replace (Z.pred (Z.of_nat (S (S k)))) with (Z.of_nat (S k)) in Hl by lia.
        rewrite (IH _ _ Hl). f_equal. lia. }
  destruct n as [|n].
  - rewrite seqZ_nil by lia. intros ->%fmap_nil_inv. done.
  - intros H. rewrite (G _ _ _ H). simpl. lia.
Qed.

Lemma next_seq_spec t d :
  db_wf d → next_seq t d = (Ok (Z.of_nat (length (events_of t d)) + 1)%Z, d).
Proof.
  intros W. unfold next_seq, sbind, select_events, sret.
  replace (filter _ (task_events d)) with (events_of t d).
  - by rewrite (max_seq_seqZ _ _ (wf_seq d W t)).
  - apply list_filter_iff. intros e. by rewrite bool_decide_eq_true.
Qed.

Lemma events_of_app t d e :
  events_of t (mkDb (tasks d) (task_events d ++ [e])) =
  events_of t d ++ (if decide (ev_taskId e = t) then [e] else []).
Proof. unfold events_of; simpl. rewrite filter_app. f_equal. Qed.

Lemma wf_seq_elem d t e :
  db_wf d → e ∈ events_of t d → (1 ≤ ev_seq e ≤ Z.of_nat (length (events_of t d)))%Z.
Proof.
  intros W He. assert (ev_seq e ∈ ev_seq <$> events_of t d) as Hs.
  { apply list_elem_of_fmap. eauto. }
  rewrite (wf_seq d W) in Hs. apply elem_of_seqZ in Hs. lia.
Qed.

(** Appending the next sequence number keeps the log well formed. *)
Lemma append_event_wf d e :
  db_wf d → ev_id e ∉ ev_id <$> task_events d →
  ev_seq e = (Z.of_nat (length (events_of (ev_taskId e) d)) + 1)%Z →
  db_wf (mkDb (tasks d) (task_events d ++ [e])).
Proof.
  intros W Hid Hseq. constructor; simpl; try apply W.
  - rewrite fmap_app. apply NoDup_app. split_and!; [apply W| |apply NoDup_singleton].
    csimpl. set_solver.
  - intros t. rewrite events_of_app. case_decide as Ht; [subst t|by rewrite app_nil_r; apply W].
    rewrite fmap_app, (wf_seq d W), length_app. csimpl.
    rewrite Hseq, Nat.add_1_r, seqZ_S, Z.add_comm. done.
Qed.

Lemma event_conflict_None e d :
  event_conflict e d = None ↔
  ev_id e ∉ ev_id <$> task_events d ∧
  (∀ e', e' ∈ events_of (ev_taskId e) d → ev_seq e' ≠ ev_seq e).
Proof.
  unfold event_conflict.
  destruct (existsb (λ e', bool_decide (ev_id _ = _)) _) eqn:E1;
    [|destruct (existsb (λ e', bool_decide (ev_taskId _ = _) && _) _) eqn:E2];
    split; try done.
  - apply existsb_exists in E1 as (e' & Hin & Heq). intros [H _].
    destruct H. apply list_elem_of_fmap. exists e'. rewrite list_elem_of_In. case_bool_decide; done.
  - apply existsb_exists in E2 as (e' & Hin & Heq). intros [_ H].
    apply andb_true_iff in Heq as [H1 H2]. case_bool_decide; [|done]. case_bool_decide; [|done].
    destruct (H e'); [|done]. apply list_elem_of_filter. by rewrite list_elem_of_In.
  - intros _. split.
    + intros (e' & He & Hin)%list_elem_of_fmap. apply not_true_iff_false in E1. destruct E1.
      apply existsb_exists. exists e'. rewrite <- list_elem_of_In, bool_decide_eq_true. done.
    + intros e' [Ht Hin]%list_elem_of_filter Hs. apply not_true_iff_false in E2. destruct E2.
      apply existsb_exists. exists e'. rewrite <- list_elem_of_In, !bool_decide_true; done.
Qed.

(** The row [insertEventInTx] inserts. *)
Definition appended_event (c : dbctx) (input : InsertEventInput) (d : db) : TaskEventRow :=
  {| ev_id := c_uuid c 0; ev_taskId := input_taskId input;
     ev_seq := Z.of_nat (length (events_of (input_taskId input) d)) + 1;
     ev_type := input_eventType input; ev_payload := input_payloadFields input;
     ev_createdAt := c_db_now c |}.

Lemma insertEventInTx_unfold c input d :
  db_wf d →
  insertEventInTx c input d = insert_event_row (appended_event c input d) d.
Proof.
  intros W. unfold insertEventInTx, sbind. by rewrite next_seq_spec.
Qed.

Lemma appended_event_conflict c input d :
  db_wf d → c_uuid c 0 ∉ ev_id <$> task_events d →
  event_conflict (appended_event c input d) d = None.
Proof.
  intros W Hid. apply event_conflict_None. split; [done|]. intros e' He'.
  apply (wf_seq_elem _ _ _ W) in He'. simpl in *. lia.
Qed.

(** The only conflict an event insertion can meet is on the generated id. *)
Lemma insertEventInTx_cases c input d o d' :
  db_wf d → insertEventInTx c input d = (o, d') →
  (c_uuid c 0 ∉ ev_id <$> task_events d ∧
   o = Ok (appended_event c input d) ∧
   d' = mkDb (tasks d) (task_events d ++ [appended_event c input d])) ∨
  (c_uuid c 0 ∈ ev_id <$> task_events d ∧
   o = Err (PostgresError (unique_violation "task_events_pkey")) ∧ d' = d).
Proof.
  intros W. rewrite insertEventInTx_unfold by done. unfold insert_event_row.
  destruct (decide (c_uuid c 0 ∈ ev_id <$> task_events d)) as [Hin|Hnin].
  - unfold event_conflict.
    replace (existsb _ _) with true; [intros [= <- <-]; by right|].
    symmetry. apply existsb_exists. apply list_elem_of_fmap in Hin as (e & He & Hin).
    exists e. rewrite <- list_elem_of_In. split; [done|]. by apply bool_decide_eq_true.
  - rewrite appended_event_conflict by done. intros [= <- <-]. by left.
Qed.

Lemma insertEventInTx_wf c input d o d' :
  db_wf d → insertEventInTx c input d = (o, d') → db_wf d'.
Proof.
  intros W [(? & _ & ->)|(_ & _ & ->)]%insertEventInTx_cases; [|done..].
  by apply append_event_wf.
Qed.

Lemma transaction_inv {A} (body : sql A) d o d' :
  transaction body d = (o, d') →
  (∃ a, o = Ok a ∧ body d = (Ok a, d')) ∨ (∃ e d1, o = Err e ∧ body d = (Err e, d1) ∧ d' = d).
Proof. unfold transaction. destruct (body d) as [[a|e] d1]; intros [= <- <-]; eauto 10. Qed.

Lemma insertEvent_wf c input d o d' :
  db_wf d → insertEvent c input d = (o, d') → db_wf d'.
Proof.
  intros W [(a & -> & H)|(e & d1 & -> & _ & ->)]%transaction_inv; [|done].
  by eapply insertEventInTx_wf.
Qed.

#[export] Hint Extern 1 (db_wf ?d) =>
  match goal with
  | H : insertEventInTx _ _ _ = (_, d) |- _ => wf_from H @insertEventInTx_wf
  | H : insertEvent _ _ _ = (_, d) |- _ => wf_from H @insertEvent_wf
  end : proxy.

(** Insertion order of one task's events is [seq] order. *)
Lemma events_of_sorted d t : db_wf d → StronglySorted seq_le (events_of t d).
Proof.
  intros W. pose proof (wf_seq d W t) as H.
  generalize dependent (events_of t d). intros l. generalize 1%Z.
  induction l as [|e l IH]; intros m H; constructor.
  - csimpl in H. rewrite seqZ_cons in H by lia. injection H as He Hl.
    apply (IH (Z.succ m)). rewrite Hl. f_equal. lia.
  - csimpl in H. rewrite seqZ_cons in H by lia. injection H as He Hl.
    apply Forall_forall. intros e' He'.
    assert (ev_seq e' ∈ ev_seq <$> l) as Hin by (apply list_elem_of_fmap; eauto).
    rewrite Hl in Hin. apply elem_of_seqZ in Hin. unfold seq_le. lia.
Qed.

Lemma StronglySorted_filter {A} (R : relation A) (P : A → Prop) `{!∀ x, Decision (P x)} l :
  StronglySorted R l → StronglySorted R (filter P l).
Proof.
  induction 1 as [|x l Hl IH Hx]; [constructor|].
  rewrite filter_cons. case_decide; [|done]. constructor; [done|].
  apply Forall_forall. intros y [_ Hy]%list_elem_of_filter. rewrite Forall_forall in Hx. auto.
Qed.

(** The replay query returns the part of the log after [afterSeq], in order. *)
Lemma findEventsSince_eq t a d :
  db_wf d → int8 a = true →
  findEventsSince t a d = (Ok (filter (λ e, a < ev_seq e)%Z (events_of t d)), d).
Proof.
  intros W Ha. unfold findEventsSince, sbind, select_events, sret. rewrite Ha. do 2 f_equal.
  set (l := filter (λ e, a < ev_seq e)%Z (events_of t d)).
  assert (filter (λ e, bool_decide (ev_taskId e = t) && bool_decide (a < ev_seq e)%Z = true)
            (task_events d) = l) as ->.
  { subst l. unfold events_of. rewrite list_filter_filter. apply list_filter_iff.
    intros e. rewrite andb_true_iff, !bool_decide_eq_true. tauto. }
  assert (N : NoDup (ev_seq <$> events_of t d)) by (rewrite (wf_seq d W); apply NoDup_seqZ).
  apply StronglySorted_unique_strong with seq_le.
  - intros e1 e2 H1 H2. rewrite merge_sort_Permutation in H1. subst l.
    apply list_elem_of_filter in H1 as [_ H1], H2 as [_ H2].
    unfold seq_le. intros. assert (ev_seq e1 = ev_seq e2) as Heq by lia.
    apply list_elem_of_lookup in H1 as [i Hi], H2 as [j Hj].
    enough (i = j) by (subst; congruence).
    apply (NoDup_lookup (ev_seq <$> events_of t d) i j (ev_seq e1)); [done| |];
      rewrite list_lookup_fmap, ?Hi, ?Hj; simpl; congruence.
  - apply StronglySorted_merge_sort.
    + intros x y z; unfold seq_le; lia.
    + intros x y; unfold seq_le; lia.
  - by apply StronglySorted_filter, events_of_sorted.
  - apply merge_sort_Permutation.
Qed.

(** On a log numbered [m, m+1, ...] the rows above [a] are a suffix. *)
Lemma filter_gt_seqZ l m a :
  ev_seq <$> l = seqZ m (Z.of_nat (length l)) → (m - 1 ≤ a)%Z →
  filter (λ e, a < ev_seq e)%Z l = drop (Z.to_nat (a + 1 - m)) l.
Proof.
  revert m. induction l as [|e l IH]; intros m H Ha; [by rewrite drop_nil|].
  csimpl in H. rewrite seqZ_cons in H by lia. injection H as He Hl.
  replace (Z.pred _) with (Z.of_nat (length l)) in Hl by lia.
  rewrite filter_cons. destruct (decide (m = a + 1)%Z) as [->|Hne].
  - rewrite decide_True by lia. replace (a + 1 - (a + 1))%Z with 0%Z by lia. simpl. f_equal.
    assert (F : ∀ x, x ∈ l → (a < ev_seq x)%Z).
    { intros x Hx. assert (ev_seq x ∈ ev_seq <$> l) as Hs by (apply list_elem_of_fmap; eauto).
      rewrite Hl in Hs. apply elem_of_seqZ in Hs. lia. }
    clear -F. induction l as [|x l IH]; [done|].
    rewrite filter_cons, decide_True by (apply F; set_solver). f_equal. apply IH. set_solver.
  - destruct (decide (m ≤ a)%Z).
    + rewrite decide_False by lia. rewrite (IH (Z.succ m)) by (done || lia).
      replace (Z.to_nat (a + 1 - m)) with (S (Z.to_nat (a + 1 - Z.succ m))) by lia. done.
    + lia.
Qed.

(** ** Properties *)

(** C24: [insertEvent] appends to a task's log: with a fresh id it succeeds, the new
    event is the last of the log and is numbered one above its length, whatever
    its type, and neither the logs of the other tasks nor the tasks themselves
    change.  The logs stay numbered 1, 2, 3, ... without a gap. *)
Theorem insertEvent_appends c input d :
  db_wf d → c_uuid c 0 ∉ ev_id <$> task_events d →
  ∃ ev d', insertEvent c input d = (Ok ev, d') ∧ db_wf d' ∧ tasks d' = tasks d ∧
    events_of (input_taskId input) d' = events_of (input_taskId input) d ++ [ev] ∧
    (∀ t, t ≠ input_taskId input → events_of t d' = events_of t d) ∧
    ev_seq ev = (Z.of_nat (length (events_of (input_taskId input) d)) + 1)%Z ∧
    ev_type ev = input_eventType input ∧ ev_payload ev = input_payloadFields input.
Proof.
  intros W Hid. exists (appended_event c input d).
  exists (mkDb (tasks d) (task_events d ++ [appended_event c input d])).
  assert (H : insertEvent c input d = (Ok (appended_event c input d),
    mkDb (tasks d) (task_events d ++ [appended_event c input d]))).
  { unfold insertEvent, transaction. rewrite insertEventInTx_unfold by done.
    unfold insert_event_row. by rewrite appended_event_conflict. }
  split_and!; try done.
  - by eapply insertEvent_wf.
  - by rewrite events_of_app, decide_True.
  - intros t Ht. by rewrite events_of_app, decide_False, app_nil_r.
Qed.

(** The replay query is exact: for a client that has seen the first [a] events
    of a task it returns precisely the rest of the log, in order. *)
Theorem findEventsSince_exact t a d :
  db_wf d → int8 (Z.of_nat a) = true →
  findEventsSince t (Z.of_nat a) d = (Ok (drop a (events_of t d)), d).
Proof.
  intros W Ha. rewrite findEventsSince_eq by done.
  rewrite (filter_gt_seqZ _ 1) by (apply (wf_seq d W) || lia).
  by replace (Z.to_nat (Z.of_nat a + 1 - 1)) with a by lia.
Qed.

(** ** Instances *)

Definition log_db : db :=
  sample_db [] [sample_event "a" "e1" 1 progress_ev; sample_event "b" "e2" 1 progress_ev;
                sample_event "a" "e3" 2 progress_ev].

Lemma insertEvent_appends_witness :
  let c := mkCtx 0 0 (λ _, "e4") ∅ in
  ∃ ev d', insertEvent c (CancelledEventInput "a") log_db = (Ok ev, d') ∧ ev_seq ev = 3%Z.
Proof.
  intros c. assert (W : db_wf log_db) by check_db.
  destruct (insertEvent_appends c (CancelledEventInput "a") log_db W)
    as (ev & d' & H & _ & _ & _ & _ & Hs & _).
  - apply (bool_decide_eq_true_1 _). vm_compute. reflexivity.
  - exists ev, d'. split; [exact H|exact Hs].
Defined.

Lemma findEventsSince_exact_witness :
  findEventsSince "a" 1 log_db = (Ok [sample_event "a" "e3" 2 progress_ev], log_db).
Proof.
  assert (W : db_wf log_db) by check_db. apply (findEventsSince_exact "a" 1 log_db W).
  vm_compute. reflexivity.
Defined.
