(* ===== verification/TasksRepository.v ===== *)
(** * TasksRepository: data access for [tasks]

    [src/modules/tasks/tasks.repository.ts].  The conditional UPDATE of
    [updateStatus] is the only way a handler moves a task between states; the
    transaction of [cancelTask] couples the move with its event. *)
From S2P Require Import Prelude Errors Schema Database EventsRepository.

Section repository.
Context {SO : ScanOrder}.

Definition insert (c : dbctx) (dto : TaskInsert) : sql TaskRow :=
  insert_task (insert_row (c_db_now c) (c_uuid c 0) dto).

(** [SELECT ... WHERE id = i LIMIT 1]; [row ?? null]. *)
Definition findById (i : string) : sql (option TaskRow) :=
  let$ l := select_tasks_limit (λ r, bool_decide (id r = i)) 1 in
  sret (head l).

(** Hard delete, used to roll back a creation that could not be enqueued. *)
Definition deleteById (i : string) : sql unit :=
  let$ _ := delete_tasks (λ r, bool_decide (id r = i)) in sret tt.

Definition updateProgress (c : dbctx) (i : string) (p : Z) : sql unit :=
  let$ _ := update_tasks (c_now c) [Set_progress p] (λ r, bool_decide (id r = i)) in sret tt.

(** [Array.isArray(from) ? inArray(status, from) : eq(status, from)]. *)
Definition status_condition (from : TaskStatus + list TaskStatus) (r : TaskRow) : bool :=
  match from with
  | inl s => bool_decide (status r = s)
  | inr l => bool_decide (status r ∈ l)
  end.

Definition updateStatus (c : dbctx) (i : string) (from : TaskStatus + list TaskStatus)
    (to : TaskStatus) (extra : list TaskSet) : sql (option TaskRow) :=
  let$ l := update_tasks (c_now c) (Set_status to :: extra)
              (λ r, bool_decide (id r = i) && status_condition from r) in
  sret (head l).

(** The transaction of [cancelTask]: [now] is the [new Date()] its body takes. *)
Definition cancelTask (c : dbctx) (i : string) : sql (option (TaskRow * TaskEventRow)) :=
  transaction
    (let$ updated := update_tasks (c_now c)
       [Set_status CANCELLED; Set_completedAt (Some (c_now c))]
       (λ r, bool_decide (id r = i)
               && status_condition (inr [PENDING; PROCESSING]) r) in
     match updated with
     | [] => sret None
     | task :: _ =>
         let$ event := insertEventInTx c (CancelledEventInput i) in
         sret (Some (task, event))
     end).
End repository.

(** ** What the statements do to a well-formed database *)

Section lemmas.
Context {SO : ScanOrder}.

Lemma filter_unique {A B} `{EqDecision B} (f : A → B) (P : A → bool) l x :
  NoDup (f <$> l) → x ∈ l →
  filter (λ y, bool_decide (f y = f x) && P y = true) l = if P x then [x] else [].
Proof.
  induction l as [|y l IH]; csimpl; [set_solver|].
  rewrite NoDup_cons. intros [Hy HN]. rewrite filter_cons.
  intros [->|Hx]%elem_of_cons.
  - rewrite bool_decide_true by done. simpl.
    assert (filter (λ z, bool_decide (f z = f y) && P z = true) l = []) as ->.
    { apply elem_of_nil_inv. intros z [Hz Hin]%list_elem_of_filter.
      apply andb_true_iff in Hz as [Hz%bool_decide_eq_true _].
      destruct Hy. apply list_elem_of_fmap. eauto. }
    by destruct (P y).
  - assert (f y ≠ f x). { intros Heq. destruct Hy. apply list_elem_of_fmap. eauto. }
    rewrite bool_decide_false by done. simpl. by apply IH.
Qed.

(** The rows selected by [WHERE id = i AND P]. *)
Lemma rows_with_id d i P :
  db_wf d →
  filter (λ r, bool_decide (id r = i) && P r = true) (rows d) =
  match tasks d !! i with
  | Some r => if P r then [r] else []
  | None => []
  end.
Proof.
  intros W. destruct (tasks d !! i) as [r|] eqn:Hi.
  - pose proof (wf_id d W i r Hi) as <-. apply filter_unique; [by apply NoDup_rows_ids|].
    apply elem_of_rows. eauto.
  - apply elem_of_nil_inv. intros r [H Hr]%list_elem_of_filter.
    apply andb_true_iff in H as [<-%bool_decide_eq_true _].
    apply elem_of_rows_wf in Hr; [congruence|done].
Qed.

(** An UPDATE of the row of one id. *)
Lemma update_one now sets i P d :
  db_wf d →
  update_tasks now sets (λ r, bool_decide (id r = i) && P r) d =
  match tasks d !! i with
  | Some r =>
      if P r then
        match task_row_error (update_row now sets r) with
        | Some e => (Err (PostgresError e), d)
        | None => (Ok [update_row now sets r],
                   mkDb (<[i := update_row now sets r]> (tasks d)) (task_events d))
        end
      else (Ok [], d)
  | None => (Ok [], d)
  end.
Proof.
  intros W. unfold update_tasks, updated_rows. rewrite (rows_with_id d i P W).
  assert (Id : ∀ wh, (∀ j r, tasks d !! j = Some r → wh r = false) →
            mkDb ((λ r, if wh r then update_row now sets r else r) <$> tasks d) (task_events d) = d).
  { intros wh Hwh. destruct d as [m l]; simpl in *. f_equal. apply map_eq. intros j.
    rewrite lookup_fmap. destruct (m !! j) as [r|] eqn:E; simpl; [|done].
    by rewrite (Hwh _ _ E). }
  destruct (tasks d !! i) as [r|] eqn:Hi; [destruct (P r) eqn:HP|]; simpl.
  - case_goal; [done|]. simpl. do 2 f_equal. apply map_eq. intros j.
    rewrite lookup_fmap. destruct (decide (j = i)) as [->|Hne].
    + rewrite Hi, lookup_insert_eq. simpl. pose proof (wf_id d W _ _ Hi).
      by rewrite bool_decide_true, HP by done.
    + rewrite lookup_insert_ne by done. destruct (tasks d !! j) as [r'|] eqn:Hj; [|done].
      simpl. pose proof (wf_id d W _ _ Hj). by rewrite bool_decide_false by congruence.
  - rewrite Id; [done|]. intros j r' Hj. pose proof (wf_id d W _ _ Hj).
    case_bool_decide; [|done]. simpl. congruence.
  - rewrite Id; [done|]. intros j r' Hj. pose proof (wf_id d W _ _ Hj).
    case_bool_decide; [|done]. congruence.
Qed.

Lemma update_one_id now sets i d :
  db_wf d →
  update_tasks now sets (λ r, bool_decide (id r = i)) d =
  match tasks d !! i with
  | Some r =>
      match task_row_error (update_row now sets r) with
      | Some e => (Err (PostgresError e), d)
      | None => (Ok [update_row now sets r],
                 mkDb (<[i := update_row now sets r]> (tasks d)) (task_events d))
      end
  | None => (Ok [], d)
  end.
Proof.
  intros W. rewrite <-(update_one now sets i (λ _, true) d W) at 1.
  unfold update_tasks, updated_rows.
  assert (E : ∀ r, bool_decide (id r = i) && true = bool_decide (id r = i))
    by (intros; apply andb_true_r).
  rewrite (list_filter_iff _ (λ r, bool_decide (id r = i) && true = true))
    by (intros; by rewrite E).
  case_goal; [done|]. do 2 f_equal. apply map_fmap_ext. intros. by rewrite E.
Qed.

Lemma findById_eq i d : db_wf d → findById i d = (Ok (tasks d !! i), d).
Proof.
  intros W. unfold findById, sbind, select_tasks_limit, sret. do 2 f_equal.
  rewrite (list_filter_iff _ (λ r, bool_decide (id r = i) && true = true))
    by (intros; by rewrite andb_true_r).
  rewrite (rows_with_id d i (λ _, true)) by done.
  by destruct (tasks d !! i).
Qed.

Lemma deleteById_eq i d :
  db_wf d → deleteById i d = (Ok tt, mkDb (delete i (tasks d)) (task_events d)).
Proof.
  intros W. unfold deleteById, sbind, delete_tasks, sret. do 2 f_equal.
  apply map_eq. intros j. destruct (decide (j = i)) as [->|Hne].
  - rewrite lookup_delete_eq. apply map_lookup_filter_None. right. simpl. intros r Hr.
    rewrite bool_decide_true; [done|]. by eapply wf_id.
  - rewrite lookup_delete_ne by done. apply option_eq. intros r.
    rewrite map_lookup_filter_Some. simpl. split; [naive_solver|]. intros Hr. split; [done|].
    apply bool_decide_false. by rewrite (wf_id d W _ _ Hr).
Qed.

Lemma updateStatus_eq c i from to extra d :
  db_wf d →
  updateStatus c i from to extra d =
  match tasks d !! i with
  | Some r =>
      if status_condition from r then
        let r' := update_row (c_now c) (Set_status to :: extra) r in
        match task_row_error r' with
        | Some e => (Err (PostgresError e), d)
        | None => (Ok (Some r'), mkDb (<[i := r']> (tasks d)) (task_events d))
        end
      else (Ok None, d)
  | None => (Ok None, d)
  end.
Proof.
  intros W. unfold updateStatus, sbind, sret. rewrite update_one by done.
  repeat case_goal; naive_solver.
Qed.

Lemma updateProgress_eq c i p d :
  db_wf d →
  updateProgress c i p d =
  match tasks d !! i with
  | Some r =>
      let r' := update_row (c_now c) [Set_progress p] r in
      match task_row_error r' with
      | Some e => (Err (PostgresError e), d)
      | None => (Ok tt, mkDb (<[i := r']> (tasks d)) (task_events d))
      end
  | None => (Ok tt, d)
  end.
Proof.
  intros W. unfold updateProgress, sbind, sret. rewrite update_one_id by done.
  repeat case_goal; naive_solver.
Qed.

(** The two ways a conditional UPDATE succeeds. *)
Lemma updateStatus_moves c i from to extra d r :
  db_wf d → tasks d !! i = Some r → status_condition from r = true →
  task_row_ok (update_row (c_now c) (Set_status to :: extra) r) →
  updateStatus c i from to extra d =
    (Ok (Some (update_row (c_now c) (Set_status to :: extra) r)),
     mkDb (<[i := update_row (c_now c) (Set_status to :: extra) r]> (tasks d)) (task_events d)).
Proof. intros W Hi Hc Hok. rewrite updateStatus_eq, Hi, Hc by done. simpl. by rewrite Hok. Qed.

Lemma updateStatus_skips c i from to extra d :
  db_wf d → (∀ r, tasks d !! i = Some r → status_condition from r = false) →
  updateStatus c i from to extra d = (Ok None, d).
Proof.
  intros W H. rewrite updateStatus_eq by done. destruct (tasks d !! i) as [r|]; [|done].
  by rewrite H.
Qed.

(** *** Well-formedness is preserved *)

Lemma insert_wf c dto d o d' : db_wf d → insert c dto d = (o, d') → db_wf d'.
Proof. apply insert_task_wf. Qed.

Lemma findById_wf i d o d' : db_wf d → findById i d = (o, d') → db_wf d'.
Proof. intros W. rewrite findById_eq by done. by intros [= _ <-]. Qed.

Lemma deleteById_wf i d o d' : db_wf d → deleteById i d = (o, d') → db_wf d'.
Proof.
  intros W. unfold deleteById, sbind, sret. destruct (delete_tasks _ d) as [[] d1] eqn:E;
    intros [= _ <-]; eauto with proxy.
Qed.

Lemma updateStatus_wf c i from to extra d o d' :
  db_wf d → updateStatus c i from to extra d = (o, d') → db_wf d'.
Proof.
  intros W. unfold updateStatus, sbind, sret. destruct (update_tasks _ _ _ d) as [[] d1] eqn:E;
    intros [= _ <-]; eauto with proxy.
Qed.

Lemma updateProgress_wf c i p d o d' :
  db_wf d → updateProgress c i p d = (o, d') → db_wf d'.
Proof.
  intros W. unfold updateProgress, sbind, sret. destruct (update_tasks _ _ _ d) as [[] d1] eqn:E;
    intros [= _ <-]; eauto with proxy.
Qed.

Lemma cancelTask_wf c i d o d' : db_wf d → cancelTask c i d = (o, d') → db_wf d'.
Proof.
  intros W [(a & -> & H)|(e & d1 & -> & _ & ->)]%transaction_inv; [|done].
  revert H. unfold sbind at 1. destruct (update_tasks _ _ _ d) as [[[|r l]|e] d1] eqn:E;
    [|unfold sbind, sret|done].
  - intros [= _ <-]. eauto with proxy.
  - destruct (insertEventInTx _ _ d1) as [[ev|e] d2] eqn:E2; intros [= _ <-].
    eauto with proxy.
Qed.
End lemmas.

#[export] Hint Extern 1 (db_wf ?d) =>
  match goal with
  | H : insert _ _ _ = (_, d) |- _ => wf_from H @insert_wf
  | H : findById _ _ = (_, d) |- _ => wf_from H @findById_wf
  | H : deleteById _ _ = (_, d) |- _ => wf_from H @deleteById_wf
  | H : updateStatus _ _ _ _ _ _ = (_, d) |- _ => wf_from H @updateStatus_wf
  | H : updateProgress _ _ _ _ = (_, d) |- _ => wf_from H @updateProgress_wf
  | H : cancelTask _ _ _ = (_, d) |- _ => wf_from H @cancelTask_wf
  end : proxy.

(** *** What [cancelTask] does *)

Definition cancelled_row (now : Z) (r : TaskRow) : TaskRow :=
  update_row now [Set_status CANCELLED; Set_completedAt (Some now)] r.

Lemma active_not_terminal s :
  bool_decide (s ∈ [PENDING; PROCESSING]) = negb (is_terminal s).
Proof. by destruct s. Qed.

Lemma cancelled_row_ok now r : task_row_ok r → task_row_ok (cancelled_row now r).
Proof.
  rewrite !task_row_ok_iff. intros (? & ? & _). split_and!; [done..|].
  by apply tasks_valid_state_data_spec; eexists.
Qed.

Section cancel.
Context {SO : ScanOrder}.

Lemma cancelTask_cases c i d o d' :
  db_wf d → cancelTask c i d = (o, d') →
  (o = Ok None ∧ d' = d ∧
     (tasks d !! i = None ∨ ∃ r, tasks d !! i = Some r ∧ is_terminal (status r) = true)) ∨
  (∃ r, tasks d !! i = Some r ∧ is_terminal (status r) = false ∧
     let ev := appended_event c (CancelledEventInput i) d in
     o = Ok (Some (cancelled_row (c_now c) r, ev)) ∧
     d' = mkDb (<[i := cancelled_row (c_now c) r]> (tasks d)) (task_events d ++ [ev])) ∨
  (d' = d ∧ o = Err (PostgresError (unique_violation "task_events_pkey"))).
Proof.
  intros W. unfold cancelTask, transaction, sbind at 1, sret. rewrite update_one by done.
  destruct (tasks d !! i) as [r|] eqn:Hi; [|intros [= <- <-]; auto].
  unfold status_condition. rewrite active_not_terminal.
  destruct (is_terminal (status r)) eqn:Ht; simpl; [intros [= <- <-]; eauto 10|].
  fold (cancelled_row (c_now c) r).
  assert (task_row_error (cancelled_row (c_now c) r) = None) as ->
    by (eapply cancelled_row_ok, wf_row; eauto).
  set (d1 := mkDb _ _). assert (W1 : db_wf d1).
  { eapply (update_tasks_wf (c_now c) [Set_status CANCELLED; Set_completedAt (Some (c_now c))]
             (λ r, bool_decide (id r = i) && true) d); [done|].
    rewrite update_one, Hi by done. fold (cancelled_row (c_now c) r).
    by assert (task_row_error (cancelled_row (c_now c) r) = None) as ->
      by (eapply cancelled_row_ok, wf_row; eauto). }
  unfold sbind. destruct (insertEventInTx c (CancelledEventInput i) d1) as [oe d2] eqn:He.
  apply insertEventInTx_cases in He as [(_ & -> & ->)|(_ & -> & ->)]; [| |done];
    intros [= <- <-]; [right; left|by right; right]. eauto 10.
Qed.
End cancel.
