(* ===== verification/KeyValue.v ===== *)
(** * KeyValue: the Redis commands the program issues on keys

    [libs/redis/redis.service.ts] and the Lua script of
    [libs/idempotency/idempotency.service.ts] use SET (with NX/EX, KEEPTTL or
    neither), GET, DEL and EXPIRE.  Redis itself is not part of the
    repository: the class [KeyValueStore] lists the operations, and
    [KeyValueLaws] what Redis documents of them; times are milliseconds and a
    key is absent from its expiry on.  [kv_gmap] is an implementation of the
    laws, used to run the model. *)
From S2P Require Import Prelude.
#[local] Open Scope Z_scope.

Class KeyValueStore (S : Type) : Type := {
  kv_get : Z → string → S → option string;                    (** GET *)
  kv_setnx_ex : Z → string → string → Z → S → bool * S;       (** SET k v NX EX ttl *)
  kv_set_ex : Z → string → string → Z → S → S;                (** SET k v EX ttl *)
  kv_set : Z → string → string → S → S;                       (** SET k v *)
  kv_set_keepttl : Z → string → string → S → S;               (** SET k v KEEPTTL *)
  kv_del : Z → string → S → Z * S;                            (** DEL k *)
  kv_expire : Z → string → Z → S → Z * S }.                   (** EXPIRE k ttl *)

(** What the commands do to the value a later GET finds. *)
Class KeyValueLaws (S : Type) `{KeyValueStore S} : Prop := {
  setnx_free t k v ttl s : kv_get t k s = None →
    ∃ s', kv_setnx_ex t k v ttl s = (true, s') ∧
      ∀ t' k', t ≤ t' → kv_get t' k' s' =
        if decide (k' = k) then (if decide (t' < t + ttl * 1000) then Some v else None)
        else kv_get t' k' s;
  setnx_taken t k v ttl s w : kv_get t k s = Some w →
    ∃ s', kv_setnx_ex t k v ttl s = (false, s') ∧
      ∀ t' k', t ≤ t' → kv_get t' k' s' = kv_get t' k' s;
  set_ex_get t k v ttl s t' k' : t ≤ t' →
    kv_get t' k' (kv_set_ex t k v ttl s) =
      if decide (k' = k) then (if decide (t' < t + ttl * 1000) then Some v else None)
      else kv_get t' k' s;
  set_get t k v s t' k' : t ≤ t' →
    kv_get t' k' (kv_set t k v s) = if decide (k' = k) then Some v else kv_get t' k' s;
  keepttl_live t k v s w t' k' : kv_get t k s = Some w → t ≤ t' →
    kv_get t' k' (kv_set_keepttl t k v s) =
      if decide (k' = k) then (λ _, v) <$> kv_get t' k s else kv_get t' k' s;
  keepttl_absent t k v s t' k' : kv_get t k s = None → t ≤ t' →
    kv_get t' k' (kv_set_keepttl t k v s) = if decide (k' = k) then Some v else kv_get t' k' s;
  del_get t k s t' k' : t ≤ t' →
    kv_get t' k' (kv_del t k s).2 = if decide (k' = k) then None else kv_get t' k' s;
  del_count t k s : (kv_del t k s).1 = if decide (is_Some (kv_get t k s)) then 1 else 0;
  expire_absent t k ttl s : kv_get t k s = None → kv_expire t k ttl s = (0, s);
  expire_live t k ttl s w : kv_get t k s = Some w →
    (kv_expire t k ttl s).1 = 1 ∧
    ∀ t' k', t ≤ t' → kv_get t' k' (kv_expire t k ttl s).2 =
      if decide (k' = k) then (if decide (t' < t + ttl * 1000) then Some w else None)
      else kv_get t' k' s;
  get_expired t t' k s : t ≤ t' → kv_get t k s = None → kv_get t' k s = None }.

(** ** Values with an optional expiry instant *)
Abbreviation kv := (gmap string (string * option Z)).

Definition live (t : Z) (e : string * option Z) : bool :=
  match e.2 with None => true | Some x => bool_decide (t < x) end.

Definition gmap_get (t : Z) (k : string) (s : kv) : option string :=
  match s !! k with
  | Some e => if live t e then Some e.1 else None
  | None => None
  end.

#[export] Instance kv_gmap : KeyValueStore kv := {|
  kv_get := gmap_get;
  kv_setnx_ex t k v ttl s :=
    match gmap_get t k s with
    | None => (true, <[k := (v, Some (t + ttl * 1000))]> s)
    | Some _ => (false, s)
    end;
  kv_set_ex t k v ttl s := <[k := (v, Some (t + ttl * 1000))]> s;
  kv_set t k v s := <[k := (v, None)]> s;
  kv_set_keepttl t k v s :=
    match s !! k with
    | Some e => if live t e then <[k := (v, e.2)]> s else <[k := (v, None)]> s
    | None => <[k := (v, None)]> s
    end;
  kv_del t k s := ((if gmap_get t k s then 1 else 0), delete k s);
  kv_expire t k ttl s :=
    match gmap_get t k s with
    | None => (0, s)
    | Some w => (1, <[k := (w, Some (t + ttl * 1000))]> s)
    end |}.

Lemma gmap_get_insert t k v x s k' :
  gmap_get t k' (<[k := (v, x)]> s) =
  if decide (k' = k) then (if live t (v, x) then Some v else None) else gmap_get t k' s.
Proof.
  unfold gmap_get. destruct (decide (k' = k)) as [->|].
  - by rewrite lookup_insert_eq.
  - by rewrite lookup_insert_ne.
Qed.

Lemma live_some t v x : live t (v, Some x) = if decide (t < x) then true else false.
Proof. unfold live; simpl. by case_bool_decide; case_decide. Qed.

Lemma live_mono t t' e : t ≤ t' → live t e = false → live t' e = false.
Proof. unfold live. destruct e as [v [x|]]; simpl; [|done]. repeat case_bool_decide; lia || done. Qed.

#[export] Instance kv_gmap_laws : KeyValueLaws kv.
Proof.
  constructor; simpl.
  - intros t k v ttl s ->. eexists; split; [done|]. intros t' k' _.
    rewrite gmap_get_insert, live_some. by repeat case_decide.
  - intros t k v ttl s w ->. eauto.
  - intros *. intros _. rewrite gmap_get_insert, live_some. by repeat case_decide.
  - intros *. intros _. by rewrite gmap_get_insert.
  - intros t k v s w t' k' Hg Ht. unfold gmap_get at 1 in Hg.
    destruct (s !! k) as [e|] eqn:Hk; [|done]. destruct (live t e) eqn:Hl; [|done].
    rewrite gmap_get_insert. case_decide; [|done]. subst.
    unfold gmap_get. rewrite Hk. unfold live; destruct e as [? []]; simpl; repeat case_bool_decide; done.
  - intros t k v s t' k' Hg Ht.
    assert (match s !! k with
            | Some e => if live t e then <[k := (v, e.2)]> s else <[k := (v, None)]> s
            | None => <[k := (v, None)]> s end = <[k := (v, None)]> s) as ->.
    { unfold gmap_get in Hg. destruct (s !! k) as [e|]; [|done]. by destruct (live t e). }
    by rewrite gmap_get_insert.
  - intros t k s t' k' _. unfold gmap_get. case_decide as Hk; [subst|].
    + by rewrite lookup_delete_eq.
    + by rewrite lookup_delete_ne.
  - intros t k s. by destruct (gmap_get t k s).
  - intros t k ttl s ->. done.
  - intros t k ttl s w ->. simpl. split; [done|]. intros t' k' _.
    rewrite gmap_get_insert, live_some. by repeat case_decide.
  - intros t t' k s Ht. unfold gmap_get. destruct (s !! k) as [e|]; [|done].
    destruct (live t e) eqn:Hl; [done|]. intros _. by rewrite (live_mono _ _ _ Ht Hl).
Qed.
