(* ===== verification/Effects.v ===== *)
(** * Effects: handlers as programs over I/O operations

    A handler of the program is a tree of awaited operations: a database
    statement or transaction, a Redis command, a publication, a queue
    insertion, an HTTP POST, a timer, a clock or random number read.  Each
    operation is atomic; between two of them other handlers run.

    [exec_op] gives an operation its effect on the shared [world].  Everything
    the program does not decide comes from an [env]: how long each operation
    takes, whether it fails (before or after taking effect), what
    [gen_random_uuid()] returns, which rows are locked by others, and what an
    HTTP peer answers.  All theorems hold for every [env]. *)
From S2P Require Import Prelude Errors Schema Database KeyValue.

(** ** Jobs *)

(** The options [BullMqAdapter.enqueue] passes to [queue.add]. *)
Record BullMqOptions : Type := mkBullMqOptions {
  o_priority : option Z;
  o_delay : option Z;
  o_attempts : Z;
  o_backoff : option Z }.

(** The payloads of the three queues. *)
Inductive job_data : Type :=
| DispatchJobData (taskId : string) (timeoutSeconds : Z)
| CancelJobData (taskId : string)
| WebhookJobData (taskId : string).

Record job : Type := mkJob {
  job_queue : string;
  job_name : string;
  job_payload : job_data;
  job_options : BullMqOptions }.

Record http_request : Type := mkHttpRequest {
  hr_url : string;
  hr_body : json;
  hr_headers : list (string * string);
  hr_timeoutMs : Z }.

(** The Pub/Sub channel of a task: [`task:${taskId}`]. *)
Definition channel_of (t : string) : string := "task:" +:+ t.

(** ** The shared state *)
Record world : Type := mkWorld {
  w_db : db;
  w_redis : kv;
  w_published : list (string * TaskEventRow);
  w_jobs : list job;
  w_http : list (http_request * outcome http_err json);  (** requests sent, with their answers *)
  w_slept : list Z;
  w_now : Z;
  w_step : nat }.

Definition initial_world : world := mkWorld empty_db ∅ [] [] [] [] 0 0.

Inductive fault : Type := no_fault | fail_before | fail_after.

(** What the environment decides at each step. *)
Record env : Type := mkEnv {
  e_fault : nat → fault;
  e_tick : nat → N;
  e_db_clock : nat → Z;
  e_uuid : nat → nat → string;
  e_locked : nat → gset string;
  e_random : nat → Z;
  e_http : nat → http_request → outcome http_err json }.

(** ** Operations *)
Inductive io : Type → Type :=
| Now : io Z                                             (** [Date.now()], [new Date()] *)
| RandomUUID : io string                                 (** [randomUUID()] *)
| Random200 : io Z                                       (** [Math.floor(Math.random() * 200)] *)
| DbTx {A : Type} (t : dbctx → sql A) : io A             (** one statement or transaction *)
| RedisCmd {A : Type} (f : Z → kv → A * kv) : io A       (** one command or script *)
| Publish (channel : string) (event : TaskEventRow) : io unit
| QueueAdd (j : job) : io unit
| HttpPost (r : http_request) : io json
| Sleep (ms : Z) : io unit.

(** An external call that may fail: without effect, or after its effect (the
    acknowledgement is lost). *)
Definition faulty {X} (f : fault) (e : exn) (w : world) (r : res X * world) : res X * world :=
  match f with
  | no_fault => r
  | fail_before => (Err e, w)
  | fail_after => (Err e, r.2)
  end.

Definition set_db (w : world) (d : db) : world :=
  mkWorld d (w_redis w) (w_published w) (w_jobs w) (w_http w) (w_slept w) (w_now w) (w_step w).
Definition set_redis (w : world) (s : kv) : world :=
  mkWorld (w_db w) s (w_published w) (w_jobs w) (w_http w) (w_slept w) (w_now w) (w_step w).
Definition add_published (w : world) (m : string * TaskEventRow) : world :=
  mkWorld (w_db w) (w_redis w) (w_published w ++ [m]) (w_jobs w) (w_http w) (w_slept w) (w_now w) (w_step w).
Definition add_job (w : world) (j : job) : world :=
  mkWorld (w_db w) (w_redis w) (w_published w) (w_jobs w ++ [j]) (w_http w) (w_slept w) (w_now w) (w_step w).
Definition add_http (w : world) (r : http_request * outcome http_err json) : world :=
  mkWorld (w_db w) (w_redis w) (w_published w) (w_jobs w) (w_http w ++ [r]) (w_slept w) (w_now w) (w_step w).
Definition add_sleep (w : world) (ms : Z) : world :=
  mkWorld (w_db w) (w_redis w) (w_published w) (w_jobs w) (w_http w) (w_slept w ++ [ms])
    (w_now w + Z.max 0 ms) (w_step w).
Definition advance (E : env) (w : world) : world :=
  mkWorld (w_db w) (w_redis w) (w_published w) (w_jobs w) (w_http w) (w_slept w)
    (w_now w + Z.of_N (e_tick E (w_step w))) (S (w_step w)).

Definition ctx_of (E : env) (w : world) : dbctx :=
  mkCtx (w_now w) (e_db_clock E (w_step w)) (e_uuid E (w_step w)) (e_locked E (w_step w)).

Definition exec_op (E : env) {X} (op : io X) (w : world) : res X * world :=
  let f := e_fault E (w_step w) in
  let w1 := advance E w in
  match op in io X return res X * world with
  | Now => (Ok (w_now w1), w1)
  | RandomUUID => (Ok (e_uuid E (w_step w) 0), w1)
  | Random200 => (Ok (e_random E (w_step w) mod 200)%Z, w1)
  | DbTx t =>
      faulty f (PostgresError connection_lost) w1
        (let '(r, d) := t (ctx_of E w) (w_db w) in (r, set_db w1 d))
  | RedisCmd g =>
      faulty f RedisError w1 (let '(a, s) := g (w_now w) (w_redis w) in (Ok a, set_redis w1 s))
  | Publish c ev => faulty f RedisError w1 (Ok tt, add_published w1 (c, ev))
  | QueueAdd j => faulty f QueueError w1 (Ok tt, add_job w1 j)
  | HttpPost r =>
      let answer := e_http E (w_step w) r in
      (match answer with
       | Ok body => Ok body
       | Err e => Err (HttpError e)
       end, add_http w1 (r, answer))
  | Sleep ms => (Ok tt, add_sleep w1 ms)
  end.

(** ** Programs

    [Vis] awaits an operation and continues with its result or its error;
    [OutOfFuel] stands for a loop whose iteration bound was reached. *)
Inductive prog (A : Type) : Type :=
| Ret (a : A)
| Throw (e : exn)
| OutOfFuel
| Vis {X : Type} (op : io X) (k : res X → prog A).
Arguments Ret {A} a.
Arguments Throw {A} e.
Arguments OutOfFuel {A}.
Arguments Vis {A X} op k.

(** [await op]. *)
Definition await {X} (op : io X) : prog X :=
  Vis op (λ r, match r with Ok x => Ret x | Err e => Throw e end).

Fixpoint bind {A B} (p : prog A) (f : A → prog B) : prog B :=
  match p with
  | Ret a => f a
  | Throw e => Throw e
  | OutOfFuel => OutOfFuel
  | Vis op k => Vis op (λ r, bind (k r) f)
  end.

(** [try { p } catch (e) { h(e) }]. *)
Fixpoint catch {A} (p : prog A) (h : exn → prog A) : prog A :=
  match p with
  | Ret a => Ret a
  | Throw e => h e
  | OutOfFuel => OutOfFuel
  | Vis op k => Vis op (λ r, catch (k r) h)
  end.

(** [try { p } finally { f }]. *)
Definition finally {A} (p : prog A) (f : prog unit) : prog A :=
  bind (catch (bind p (λ a, Ret (inl a))) (λ e, Ret (inr e)))
    (λ r, bind f (λ _, match r with inl a => Ret a | inr e => Throw e end)).

Declare Scope prog_scope.
Delimit Scope prog_scope with prog.
Notation "'let!' x := p 'in' k" := (bind p (λ x, k))
  (at level 200, x binder, p at level 100, k at level 200, right associativity) : prog_scope.
Notation "p ;! k" := (bind p (λ _, k)) (at level 100, k at level 200, right associativity)
  : prog_scope.
Open Scope prog_scope.

(** ** Running a handler alone *)
Fixpoint run (E : env) {A} (p : prog A) (w : world) : option (res A) * world :=
  match p with
  | Ret a => (Some (Ok a), w)
  | Throw e => (Some (Err e), w)
  | OutOfFuel => (None, w)
  | Vis op k => let '(r, w') := exec_op E op w in run E (k r) w'
  end.

(** ** Predicates over all behaviours of a program *)

(** The replies an operation may give: clocks, random numbers and timers do not
    fail, and a POST rejects with an HTTP client error. *)
Definition may_reply {X} (op : io X) (r : res X) : Prop :=
  match op with
  | Now | RandomUUID | Random200 | Sleep _ => is_ok r = true
  | HttpPost _ => match r with Ok _ | Err (HttpError _) => True | Err _ => False end
  | DbTx _ | RedisCmd _ | Publish _ _ | QueueAdd _ => True
  end.

(** Every operation the program may issue, whatever the replies, satisfies [P]. *)
Fixpoint all_ops {A} (P : ∀ X, io X → Prop) (p : prog A) : Prop :=
  match p with
  | Ret _ | Throw _ | OutOfFuel => True
  | @Vis _ X op k => P X op ∧ ∀ r, may_reply op r → all_ops P (k r)
  end.

(** Every way the program may end, whatever the replies, satisfies [Q]. *)
Fixpoint outcomes {A} (Q : res A → Prop) (p : prog A) : Prop :=
  match p with
  | Ret a => Q (Ok a)
  | Throw e => Q (Err e)
  | OutOfFuel => True
  | Vis op k => ∀ r, may_reply op r → outcomes Q (k r)
  end.

(** ** Interleaved execution: a pool of handlers over one world *)
Record config : Type := mkConfig { pool : list (prog unit); the_world : world }.

Inductive step (E : env) (handler : prog unit → Prop) : config → config → Prop :=
| step_start p ts w :                                  (* a request, job or cron tick arrives *)
    handler p → step E handler (mkConfig ts w) (mkConfig (ts ++ [p]) w)
| step_op ts i X (op : io X) k r w w' :                (* one handler performs one operation *)
    ts !! i = Some (Vis op k) → exec_op E op w = (r, w') →
    step E handler (mkConfig ts w) (mkConfig (<[i := k r]> ts) w')
| step_crash ts i p w :                                (* a process dies *)
    ts !! i = Some p → step E handler (mkConfig ts w) (mkConfig (delete i ts) w).

Definition reachable (E : env) (handler : prog unit → Prop) (w0 : world) (c : config) : Prop :=
  rtc (step E handler) (mkConfig [] w0) c.

(** ** Lemmas *)

Lemma exec_op_may_reply E {X} (op : io X) w r w' : exec_op E op w = (r, w') → may_reply op r.
Proof.
  destruct op; simpl; try done; try (by intros [= <- <-]).
  by destruct (e_http E (w_step w) r0); intros [= <- <-].
Qed.

Lemma run_bind E {A B} (p : prog A) (f : A → prog B) w :
  run E (bind p f) w =
  match run E p w with
  | (Some (Ok a), w') => run E (f a) w'
  | (Some (Err e), w') => (Some (Err e), w')
  | (None, w') => (None, w')
  end.
Proof.
  revert w. induction p as [a|e| |X op k IH]; intros w; simpl; try done.
  destruct (exec_op E op w) as [r w']. apply IH.
Qed.

Lemma run_catch E {A} (p : prog A) (h : exn → prog A) w :
  run E (catch p h) w =
  match run E p w with
  | (Some (Err e), w') => run E (h e) w'
  | o => o
  end.
Proof.
  revert w. induction p as [a|e| |X op k IH]; intros w; simpl; try done.
  destruct (exec_op E op w) as [r w']. apply IH.
Qed.

Lemma run_await E {X} (op : io X) w :
  run E (await op) w = let '(r, w') := exec_op E op w in (Some r, w').
Proof. simpl. destruct (exec_op E op w) as [[] ?]; done. Qed.

Section all_ops.
Context (P : ∀ X, io X → Prop).

Lemma all_ops_await {X} (op : io X) : P X op → all_ops P (await op).
Proof. intros H. simpl. split; [done|]. by intros []. Qed.

Lemma all_ops_bind {A B} (p : prog A) (f : A → prog B) :
  all_ops P p → (∀ a, all_ops P (f a)) → all_ops P (bind p f).
Proof. intros Hp Hf. induction p; simpl in *; naive_solver. Qed.

Lemma all_ops_catch {A} (p : prog A) h :
  all_ops P p → (∀ e, all_ops P (h e)) → all_ops P (catch p h).
Proof. intros Hp Hf. induction p; simpl in *; naive_solver. Qed.

Lemma all_ops_finally {A} (p : prog A) f :
  all_ops P p → all_ops P f → all_ops P (finally p f).
Proof.
  intros Hp Hf. unfold finally. apply all_ops_bind.
  - apply all_ops_catch; [apply all_ops_bind|]; simpl; auto.
  - intros [a|e]; apply all_ops_bind; simpl; auto.
Qed.
End all_ops.

Lemma outcomes_bind {A B} (Q : res B → Prop) (p : prog A) (f : A → prog B) :
  outcomes (λ r, match r with Ok a => outcomes Q (f a) | Err e => Q (Err e) end) p →
  outcomes Q (bind p f).
Proof. induction p; simpl; auto. Qed.

Lemma outcomes_catch {A} (Q : res A → Prop) (p : prog A) h :
  outcomes (λ r, match r with Ok a => Q (Ok a) | Err e => outcomes Q (h e) end) p →
  outcomes Q (catch p h).
Proof. induction p; simpl; auto. Qed.

(** A handler only runs on the errors that can reach it. *)
Lemma all_ops_catch_outcomes {A} P (p : prog A) h :
  all_ops P p →
  outcomes (λ r, match r with Ok _ => True | Err e => all_ops P (h e) end) p →
  all_ops P (catch p h).
Proof. intros Hp Hf. induction p; simpl in *; naive_solver. Qed.

Lemma all_ops_mono {A} (P Q : ∀ X, io X → Prop) (p : prog A) :
  (∀ X op, P X op → Q X op) → all_ops P p → all_ops Q p.
Proof. intros H Hp. induction p; simpl in *; naive_solver. Qed.

Lemma outcomes_mono {A} (Q Q' : res A → Prop) (p : prog A) :
  (∀ r, Q r → Q' r) → outcomes Q p → outcomes Q' p.
Proof. intros H. induction p; simpl; auto. Qed.

Lemma outcomes_run E {A} (Q : res A → Prop) (p : prog A) w r w' :
  outcomes Q p → run E p w = (Some r, w') → Q r.
Proof.
  revert w. induction p as [a|e| |X op k IH]; intros w HQ; simpl in *; try naive_solver.
  destruct (exec_op E op w) as [x w1] eqn:Hx. eauto using exec_op_may_reply.
Qed.

(** *** Invariants of interleaved execution *)

(** An operation keeps [Inv] if every way it may execute does. *)
Definition op_keeps (E : env) (Inv : world → Prop) (X : Type) (op : io X) : Prop :=
  ∀ w r w', Inv w → exec_op E op w = (r, w') → Inv w'.

(** If every operation a handler may issue keeps an invariant of the world, it
    holds in every interleaving. *)
Lemma reachable_pool E handler P w0 c :
  (∀ p, handler p → all_ops P p) → reachable E handler w0 c → Forall (all_ops P) (pool c).
Proof.
  intros HP Hr. unfold reachable in Hr.
  remember (mkConfig [] w0) as c0 eqn:H0.
  assert (Forall (all_ops P) (pool c0)) as Hc0 by (subst; constructor). clear H0.
  induction Hr as [c|c c1 c2 Hs _ IH]; [done|]. apply IH. clear IH.
  destruct Hs as [p ts w Hh|ts i X op k r w w' Hi He|ts i p w Hi]; simpl in *.
  - apply Forall_app_2; [done|]. constructor; auto.
  - apply Forall_insert; [done|]. rewrite Forall_lookup in Hc0. apply Hc0 in Hi as [_ Hk].
    eauto using exec_op_may_reply.
  - by apply Forall_delete.
Qed.

(** Every step of an execution changes the world by one operation of a handler. *)
Lemma reachable_step E handler P (Inv : world → Prop) (R : world → world → Prop) w0 c c' :
  Inv w0 → (∀ p, handler p → all_ops P p) →
  (∀ X (op : io X) w r w', P X op → Inv w → exec_op E op w = (r, w') → Inv w' ∧ R w w') →
  (∀ w, R w w) →
  reachable E handler w0 c → step E handler c c' →
  Inv (the_world c') ∧ R (the_world c) (the_world c').
Proof.
  intros H0 HP HR HRr Hr Hs.
  assert (HI : Inv (the_world c)).
  { refine (rtc_ind_r (λ c, Inv (the_world c)) (mkConfig [] w0) H0 _ c Hr).
    intros c1 c2 Hc1 Hs1 HI. pose proof (reachable_pool E handler P w0 c1 HP Hc1) as Hpool.
    destruct Hs1 as [p ts w Hh|ts i X op k r w w' Hi He|ts i p w Hi]; simpl in *; try done.
    rewrite Forall_lookup in Hpool. apply Hpool in Hi as [Hop _].
    by destruct (HR X op w r w' Hop HI He). }
  pose proof (reachable_pool E handler P w0 c HP Hr) as Hpool.
  destruct Hs as [p ts w Hh|ts i X op k r w w' Hi He|ts i p w Hi]; simpl in *; try by split.
  rewrite Forall_lookup in Hpool. apply Hpool in Hi as [Hop _]. by eapply HR.
Qed.

Lemma reachable_invariant E handler Inv w0 c :
  Inv w0 → (∀ p, handler p → all_ops (op_keeps E Inv) p) →
  reachable E handler w0 c → Inv (the_world c).
Proof.
  intros H0 HP Hr.
  refine (rtc_ind_r (λ c, Inv (the_world c)) (mkConfig [] w0) H0 _ c Hr).
  intros c1 c2 Hc1 Hs HI.
  pose proof (reachable_pool E handler _ w0 c1 HP Hc1) as Hpool.
  destruct Hs as [p ts w Hh|ts i X op k r w w' Hi He|ts i p w Hi]; simpl in *; try done.
  rewrite Forall_lookup in Hpool. apply Hpool in Hi as [Hop _]. by eapply Hop.
Qed.

(** *** Inversion of a sequential run *)
Section run_inv.
Context (E : env).

Lemma run_bind_ok {A B} (p : prog A) (f : A → prog B) w b w' :
  run E (bind p f) w = (Some (Ok b), w') →
  ∃ a w1, run E p w = (Some (Ok a), w1) ∧ run E (f a) w1 = (Some (Ok b), w').
Proof. rewrite run_bind. destruct (run E p w) as [[[a|e]|] w1]; naive_solver. Qed.

Lemma run_bind_err {A B} (p : prog A) (f : A → prog B) w e w' :
  run E (bind p f) w = (Some (Err e), w') →
  run E p w = (Some (Err e), w') ∨
  ∃ a w1, run E p w = (Some (Ok a), w1) ∧ run E (f a) w1 = (Some (Err e), w').
Proof. rewrite run_bind. destruct (run E p w) as [[[a|e']|] w1]; naive_solver. Qed.

Lemma run_catch_ok {A} (p : prog A) h w a w' :
  run E (catch p h) w = (Some (Ok a), w') →
  run E p w = (Some (Ok a), w') ∨
  ∃ e w1, run E p w = (Some (Err e), w1) ∧ run E (h e) w1 = (Some (Ok a), w').
Proof. rewrite run_catch. destruct (run E p w) as [[[b|e']|] w1]; naive_solver. Qed.

Lemma run_catch_err {A} (p : prog A) h w e w' :
  run E (catch p h) w = (Some (Err e), w') →
  ∃ e' w1, run E p w = (Some (Err e'), w1) ∧ run E (h e') w1 = (Some (Err e), w').
Proof. rewrite run_catch. destruct (run E p w) as [[[b|e']|] w1]; naive_solver. Qed.

Lemma run_await_inv {X} (op : io X) w r w' :
  run E (await op) w = (Some r, w') → exec_op E op w = (r, w').
Proof. rewrite run_await. destruct (exec_op E op w); naive_solver. Qed.

(** A call to the database that returns took effect. *)
Lemma run_db_ok {A} (t : dbctx → sql A) w a w' :
  run E (await (DbTx t)) w = (Some (Ok a), w') →
  ∃ d', t (ctx_of E w) (w_db w) = (Ok a, d') ∧ w' = set_db (advance E w) d'.
Proof.
  intros H%run_await_inv. simpl in H. destruct (t (ctx_of E w) (w_db w)) as [r d'].
  destruct (e_fault E (w_step w)); simplify_eq/=; eauto.
Qed.

(** One that throws was rejected, or lost its connection before or after. *)
Lemma run_db_err {A} (t : dbctx → sql A) w e w' :
  run E (await (DbTx t)) w = (Some (Err e), w') →
  (∃ d', t (ctx_of E w) (w_db w) = (Err e, d') ∧ w' = set_db (advance E w) d') ∨
  (e = PostgresError connection_lost ∧ w' = advance E w ∧ e_fault E (w_step w) = fail_before) ∨
  (e = PostgresError connection_lost ∧ e_fault E (w_step w) = fail_after ∧
   w' = set_db (advance E w) (t (ctx_of E w) (w_db w)).2).
Proof.
  intros H%run_await_inv. simpl in H. destruct (t (ctx_of E w) (w_db w)) as [r d'].
  destruct (e_fault E (w_step w)) eqn:Hf; simplify_eq/=; eauto 10.
Qed.

(** A transaction that would commit [d']: it does, or the call fails with the
    tables as they were or as they should be. *)
Lemma run_commit {A} (t : dbctx → sql A) a d' w o w' :
  t (ctx_of E w) (w_db w) = (Ok a, d') → run E (await (DbTx t)) w = (o, w') →
  w_published w' = w_published w ∧ w_jobs w' = w_jobs w ∧
  ((o = Some (Ok a) ∧ w_db w' = d') ∨
   (∃ e, o = Some (Err e) ∧ (w_db w' = w_db w ∨ w_db w' = d'))).
Proof.
  intros Ht. rewrite run_await. simpl. rewrite Ht.
  destruct (e_fault E (w_step w)); intros [= <- <-]; simpl; eauto 10.
Qed.

(** A query: it answers, or the connection is lost. *)
Lemma run_query {A} (t : dbctx → sql A) a w o w' :
  t (ctx_of E w) (w_db w) = (Ok a, w_db w) → run E (await (DbTx t)) w = (o, w') →
  w' = advance E w ∧
  (o = Some (Ok a) ∨
   o = Some (Err (PostgresError connection_lost)) ∧ e_fault E (w_step w) ≠ no_fault).
Proof.
  intros Ht. rewrite run_await. simpl. rewrite Ht.
  destruct (e_fault E (w_step w)); intros [= <- <-]; simpl; (split; [done|]); auto.
Qed.

Lemma run_queue_ok j w u w' :
  run E (await (QueueAdd j)) w = (Some (Ok u), w') → w' = add_job (advance E w) j.
Proof.
  intros H%run_await_inv. simpl in H. destruct (e_fault E (w_step w)); by simplify_eq/=.
Qed.

Lemma run_queue_err j w e w' :
  run E (await (QueueAdd j)) w = (Some (Err e), w') →
  e = QueueError ∧ (w' = advance E w ∨ w' = add_job (advance E w) j).
Proof.
  intros H%run_await_inv. simpl in H. destruct (e_fault E (w_step w)); simplify_eq/=; auto.
Qed.

Lemma run_publish_ok c ev w u w' :
  run E (await (Publish c ev)) w = (Some (Ok u), w') → w' = add_published (advance E w) (c, ev).
Proof.
  intros H%run_await_inv. simpl in H. destruct (e_fault E (w_step w)); by simplify_eq/=.
Qed.

Lemma run_publish_err c ev w e w' :
  run E (await (Publish c ev)) w = (Some (Err e), w') →
  e = RedisError ∧ (w' = advance E w ∨ w' = add_published (advance E w) (c, ev)).
Proof.
  intros H%run_await_inv. simpl in H. destruct (e_fault E (w_step w)); simplify_eq/=; auto.
Qed.

(** A Redis command, whatever its fate, only changes the key-value store. *)
Lemma run_redis {A} (f : Z → kv → A * kv) w r w' :
  run E (await (RedisCmd f)) w = (Some r, w') →
  ∃ s, w' = set_redis (advance E w) s ∧
    ((∃ a, r = Ok a ∧ f (w_now w) (w_redis w) = (a, s)) ∨
     (r = Err RedisError ∧ e_fault E (w_step w) ≠ no_fault)).
Proof.
  intros H%run_await_inv. simpl in H. destruct (f (w_now w) (w_redis w)) as [a s] eqn:Hf.
  destruct (e_fault E (w_step w)); simplify_eq/=.
  - exists s. eauto.
  - exists (w_redis w). split; [done|]. by right.
  - exists s. split; [done|]. by right.
Qed.
End run_inv.

(** *** Termination and time *)

(** A program without bounded loops always returns or throws. *)
Fixpoint total {A} (p : prog A) : Prop :=
  match p with
  | Ret _ | Throw _ => True
  | OutOfFuel => False
  | Vis op k => ∀ r, total (k r)
  end.

Lemma total_await {X} (op : io X) : total (await op).
Proof. by intros []. Qed.

Lemma total_bind {A B} (p : prog A) (f : A → prog B) :
  total p → (∀ a, total (f a)) → total (bind p f).
Proof. intros Hp Hf. induction p; simpl in *; auto. Qed.

Lemma total_catch {A} (p : prog A) h : total p → (∀ e, total (h e)) → total (catch p h).
Proof. intros Hp Hf. induction p; simpl in *; auto. Qed.

Lemma total_finally {A} (p : prog A) f : total p → total f → total (finally p f).
Proof.
  intros Hp Hf. unfold finally. apply total_bind.
  - apply total_catch; [apply total_bind|]; simpl; auto.
  - intros [a|e]; apply total_bind; simpl; auto.
Qed.

#[export] Hint Resolve total_await total_bind total_catch total_finally : proxy.

Lemma total_run E {A} (p : prog A) w : total p → ∃ r w', run E p w = (Some r, w').
Proof.
  revert w. induction p as [a|e| |X op k IH]; intros w Ht; simpl in *; eauto; [done|].
  destruct (exec_op E op w) as [r w']. auto.
Qed.

(** Decide [total] of a handler written with the combinators. *)
Ltac solve_total :=
  repeat first
    [ exact I
    | progress intros
    | apply total_await
    | apply total_finally
    | apply total_catch
    | apply total_bind
    | case_goal
    | progress simpl ].

Lemma exec_op_now E {X} (op : io X) w r w' :
  exec_op E op w = (r, w') → (w_now w ≤ w_now w')%Z.
Proof.
  assert (T : ∀ f, (w_now w ≤ w_now (advance E f) → w_now w ≤ w_now (advance E f))%Z) by done.
  clear T. destruct op; simpl;
    try (destruct (t _ _)); try (destruct (f _ _)); try (destruct (e_http _ _ _));
    destruct (e_fault E (w_step w)); intros; simplify_eq/=; lia.
Qed.

Lemma run_now E {A} (p : prog A) w o w' : run E p w = (o, w') → (w_now w ≤ w_now w')%Z.
Proof.
  revert w. induction p as [a|e| |X op k IH]; intros w H; simpl in *; try (simplify_eq; lia).
  destruct (exec_op E op w) as [r w1] eqn:Hx. apply exec_op_now in Hx. apply IH in H. lia.
Qed.

(** *** Schedules *)

(** Run the given sequence of threads, one operation each. *)
Fixpoint schedule (E : env) (l : list nat) (c : config) : config :=
  match l with
  | [] => c
  | i :: l =>
      schedule E l
        match pool c !! i with
        | Some (Vis op k) =>
            let '(r, w') := exec_op E op (the_world c) in mkConfig (<[i := k r]> (pool c)) w'
        | _ => c
        end
  end.

Lemma schedule_steps E h l c : rtc (step E h) c (schedule E l c).
Proof.
  revert c. induction l as [|i l IH]; intros c; simpl; [constructor|].
  destruct (pool c !! i) as [[a|e| |X op k]|] eqn:Hi; try apply IH.
  destruct (exec_op E op (the_world c)) as [r w'] eqn:He. eapply rtc_l; [|apply IH].
  destruct c as [ts w]. by eapply step_op.
Qed.

Lemma started E (h : prog unit → Prop) ps w :
  Forall h ps → rtc (step E h) (mkConfig [] w) (mkConfig ps w).
Proof.
  induction ps as [|p ps IH] using rev_ind; intros HF; [constructor|].
  apply Forall_app in HF as [HF Hp]. apply Forall_cons in Hp as [Hp _].
  eapply rtc_r; [by apply IH|by apply step_start].
Qed.

Lemma scheduled E (h : prog unit → Prop) ps l w :
  Forall h ps → reachable E h w (schedule E l (mkConfig ps w)).
Proof. intros HF. unfold reachable. etrans; [by apply started|apply schedule_steps]. Qed.

(** A faultless environment with distinct identifiers, to run the model. *)
Definition calm_env : env :=
  mkEnv (λ _, no_fault) (λ _, 1%N) (λ n, Z.of_nat n)
    (λ n i, "u" +:+ pretty n +:+ "-" +:+ pretty i) (λ _, ∅) (λ n, Z.of_nat n) (λ _ _, Ok JNull).

(** A world at time 100 s, with an empty Redis. *)
Definition sample_world (d : db) : world := mkWorld d ∅ [] [] [] [] 100000 0.
