(* ===== verification/Accounts.v ===== *)
(** * Accounts: counting what concurrent handlers may do

    A way to bound the number of times something happens in an execution of any
    number of handlers.  A potential [Φ] of the world and a number of tokens held
    by each handler add up to a total that no step increases: a handler that
    performs an operation which lowers the potential may keep the difference as
    tokens, and pays with them for an operation that raises it.  Tokens of a
    handler that dies are lost. *)
From S2P Require Import Prelude Errors Database KeyValue Effects.

Section accounts.
Context (E : env) (Φ : world → nat) (I : world → Prop).

(** [p], holding [n] tokens, can pay for all its operations, and ends in a result
    and a number of tokens that satisfy [Q]. *)
Fixpoint affords {A} (p : prog A) (n : nat) (Q : res A → nat → Prop) : Prop :=
  match p with
  | Ret a => Q (Ok a) n
  | Throw e => Q (Err e) n
  | OutOfFuel => True
  | Vis op k => ∀ w r w', I w → exec_op E op w = (r, w') →
      ∃ n', Φ w' + n' ≤ Φ w + n ∧ affords (k r) n' Q
  end.

(** An operation that needs no token. *)
Definition neutral (X : Type) (op : io X) : Prop :=
  ∀ w r w', I w → exec_op E op w = (r, w') → Φ w' ≤ Φ w.

Lemma affords_mono {A} (p : prog A) n (Q Q' : res A → nat → Prop) :
  (∀ r m, Q r m → Q' r m) → affords p n Q → affords p n Q'.
Proof.
  intros HQ. revert n. induction p as [a|e| |X op k IH]; intros n; simpl; auto.
  intros H w r w' HI He. destruct (H w r w' HI He) as (n' & ? & ?). eauto.
Qed.

Lemma affords_bind {A B} (p : prog A) (f : A → prog B) n Q :
  affords p n (λ r m, match r with Ok a => affords (f a) m Q | Err e => Q (Err e) m end) →
  affords (bind p f) n Q.
Proof.
  revert n. induction p as [a|e| |X op k IH]; intros n; simpl; auto.
  intros H w r w' HI He. destruct (H w r w' HI He) as (n' & ? & ?). eauto.
Qed.

Lemma affords_catch {A} (p : prog A) (h : exn → prog A) n Q :
  affords p n (λ r m, match r with Ok a => Q (Ok a) m | Err e => affords (h e) m Q end) →
  affords (catch p h) n Q.
Proof.
  revert n. induction p as [a|e| |X op k IH]; intros n; simpl; auto.
  intros H w r w' HI He. destruct (H w r w' HI He) as (n' & ? & ?). eauto.
Qed.

Lemma affords_await {X} (op : io X) n Q :
  (∀ w r w', I w → exec_op E op w = (r, w') → ∃ n', Φ w' + n' ≤ Φ w + n ∧ Q r n') →
  affords (await op) n Q.
Proof.
  intros H w r w' HI He. destruct (H w r w' HI He) as (n' & ? & ?). exists n'.
  split; [done|]. by destruct r.
Qed.

(** A program of neutral operations keeps its tokens. *)
Lemma affords_neutral {A} (p : prog A) n Q :
  all_ops neutral p → (∀ r, Q r n) → affords p n Q.
Proof.
  intros Hp HQ. induction p as [a|e| |X op k IH]; simpl in *; auto.
  destruct Hp as [Hop Hk]. intros w r w' HI He. exists n. split; [specialize (Hop w r w' HI He); lia|].
  eauto using exec_op_may_reply.
Qed.

Lemma affords_outcomes {A} (Q1 : res A → Prop) (p : prog A) n Q :
  outcomes Q1 p → affords p n Q → affords p n (λ r m, Q1 r ∧ Q r m).
Proof.
  revert n. induction p as [a|e| |X op k IH]; intros n; simpl; auto.
  intros Ho H w r w' HI He. destruct (H w r w' HI He) as (n' & ? & ?). exists n'. split; [done|].
  apply IH; [|done]. apply Ho. by eapply exec_op_may_reply.
Qed.

(** ** Executions *)

Lemma sum_list_insert (l : list nat) i n n' :
  l !! i = Some n → sum_list (<[i := n']> l) + n = sum_list l + n'.
Proof.
  revert i. induction l as [|x l IH]; intros [|i]; simpl; try done; [intros [= ->]; lia|].
  intros H. specialize (IH i H). lia.
Qed.

Lemma sum_list_delete (l : list nat) i : sum_list (delete i l) ≤ sum_list l.
Proof.
  revert i. induction l as [|x l IH]; intros [|i]; simpl; try lia. specialize (IH i). lia.
Qed.

(** If every handler starts without tokens, no execution raises the potential. *)
Lemma reachable_potential handler w0 c :
  (∀ p, handler p → affords p 0 (λ _ _, True)) →
  (∀ c, reachable E handler w0 c → I (the_world c)) →
  reachable E handler w0 c → Φ (the_world c) ≤ Φ w0.
Proof.
  intros Hh HI Hr.
  set (P := λ c, ∃ ns, Forall2 (λ p n, affords p n (λ _ _, True)) (pool c) ns ∧
                   Φ (the_world c) + sum_list ns ≤ Φ w0).
  assert (HP : P c); [|destruct HP as (ns & _ & ?); lia].
  refine (rtc_ind_r P (mkConfig [] w0) _ _ c Hr).
  { exists []. simpl. split; [constructor|lia]. }
  clear c Hr. intros c1 c2 Hr Hs (ns & Hf & Hle). pose proof (HI c1 Hr) as Hi1.
  destruct Hs as [p ts w Hp|ts i X op k r w w' Hi He|ts i p w Hi]; simpl in *.
  - exists (ns ++ [0]). simpl. split; [apply Forall2_app; [done|repeat constructor; auto]|].
    rewrite sum_list_with_app. simpl. lia.
  - destruct (Forall2_lookup_l _ _ _ _ _ Hf Hi) as (n & Hn & Ha).
    destruct (Ha w r w' Hi1 He) as (n' & Hn' & Hk).
    exists (<[i := n']> ns). simpl. split; [by apply Forall2_insert|].
    pose proof (sum_list_insert ns i n n' Hn). lia.
  - exists (delete i ns). simpl. split; [by apply Forall2_delete|].
    pose proof (sum_list_delete ns i). lia.
Qed.
End accounts.
