(* ===== verification/HttpRetry.v ===== *)
(** * HttpRetry: HTTP POST with exponential backoff

    [libs/http-retry/http-retry.service.ts].  The HTTP client itself (axios,
    the rxjs timeout) is the [HttpPost] operation: it yields a body or rejects
    with an error of which only the shape is known. *)
From S2P Require Import Prelude Errors Schema Database KeyValue Effects.
#[local] Open Scope Z_scope.

Record HttpRetryOptions : Type := mkHttpRetryOptions {
  attempts : option Z;
  baseDelayMs : option Z;
  maxDelayMs : option Z;
  requestTimeoutMs : option Z }.

Definition RETRYABLE_STATUS_CODES : list Z := [429; 500; 502; 503; 504].

Definition RETRYABLE_NETWORK_CODES : list string :=
  ["ECONNREFUSED"; "ECONNRESET"; "ETIMEDOUT"; "ENOTFOUND"; "ECONNABORTED"; "ERR_NETWORK"].

(** [err instanceof Error && 'code' in err && CODES.has(err.code ?? '')]. *)
Definition isRetryableNetworkError (err : exn) : bool :=
  match err with
  | HttpError h =>
      he_isError h
        && match he_code h with
           | Some c => bool_decide (nullish c "" ∈ RETRYABLE_NETWORK_CODES)
           | None => false
           end
  | _ => false
  end.

Definition getStatusCode (err : exn) : option Z :=
  match err with
  | HttpError h => match he_response h with Some s => s | None => None end
  | _ => None
  end.

Definition computeDelay (attempt base maxDelay jitter : Z) : Z :=
  Z.min (base * 2 ^ attempt + jitter) maxDelay.

(** [for (let attempt = 0; attempt < attempts; attempt++)]: [n] is the number
    of iterations left, [attempts - attempt]. *)
Fixpoint post_loop (n : nat) (url : string) (req : http_request)
    (attempts base maxDelay attempt : Z)
    (lastError : option exn) (lastStatusCode : option Z) : prog json :=
  match n with
  | O => Throw (DispatchFailedError url attempts lastError lastStatusCode)
  | S n' =>
      Vis (HttpPost req) (λ response,
        match response with
        | Ok data => Ret data
        | Err err =>
            let statusCode := getStatusCode err in
            let next lastStatusCode' :=
              if bool_decide (attempt = attempts - 1) then
                Throw (DispatchFailedError url attempts (Some err) lastStatusCode')
              else
                let! jitter := await Random200 in
                await (Sleep (computeDelay attempt base maxDelay jitter)) ;!
                post_loop n' url req attempts base maxDelay (attempt + 1) (Some err) lastStatusCode'
            in
            match statusCode with
            | Some s =>
                if bool_decide (s ∈ RETRYABLE_STATUS_CODES) then next (Some s)
                else Throw (NonRetryableError url s)
            | None =>
                if isRetryableNetworkError err then next lastStatusCode
                else Throw (DispatchFailedError url (attempt + 1) (Some err) None)
            end
        end)
  end.

Definition post (url : string) (body : json) (headers : list (string * string))
    (opts : HttpRetryOptions) : prog json :=
  let n := nullish (attempts opts) 3 in
  let base := nullish (baseDelayMs opts) 500 in
  let maxDelay := nullish (maxDelayMs opts) 30000 in
  let timeout := nullish (requestTimeoutMs opts) 10000 in
  post_loop (Z.to_nat n) url (mkHttpRequest url body headers timeout) n base maxDelay 0 None None.

(** ** Specification *)

(** What the caller is owed after one failed attempt. *)
Inductive verdict : Type := Retry | Reject (status : Z) | Fatal.

Definition classify (h : http_err) : verdict :=
  match getStatusCode (HttpError h) with
  | Some s => if bool_decide (s ∈ RETRYABLE_STATUS_CODES) then Retry else Reject s
  | None => if isRetryableNetworkError (HttpError h) then Retry else Fatal
  end.

(** The outcome fixed by the answers received: every answer but the last is a
    retryable error, and the last decides. *)
Inductive retried (url : string) (attempts : Z) : list (outcome http_err json) → res json → Prop :=
| retried_ok errs body :
    Forall (λ e, classify e = Retry) errs →
    retried url attempts ((Err <$> errs) ++ [Ok body]) (Ok body)
| retried_reject errs err s :
    Forall (λ e, classify e = Retry) errs → classify err = Reject s →
    retried url attempts ((Err <$> errs) ++ [Err err]) (Err (NonRetryableError url s))
| retried_fatal errs err :
    Forall (λ e, classify e = Retry) errs → classify err = Fatal →
    retried url attempts ((Err <$> errs) ++ [Err err])
      (Err (DispatchFailedError url (Z.of_nat (length errs) + 1) (Some (HttpError err)) None))
| retried_exhausted errs err st :
    Forall (λ e, classify e = Retry) errs → classify err = Retry →
    Z.of_nat (length errs) + 1 = attempts →
    retried url attempts ((Err <$> errs) ++ [Err err])
      (Err (DispatchFailedError url attempts (Some (HttpError err)) st)).

(** The [i]-th wait of a run. *)
Definition delay_ok (base maxDelay : Z) (i : nat) (d : Z) : Prop :=
  Z.min (base * 2 ^ Z.of_nat i) maxDelay ≤ d ≤ Z.min (base * 2 ^ Z.of_nat i + 199) maxDelay.

Lemma computeDelay_bounds base maxDelay (i : nat) j :
  0 ≤ j < 200 → delay_ok base maxDelay i (computeDelay (Z.of_nat i) base maxDelay j).
Proof. unfold delay_ok, computeDelay. lia. Qed.

(** The parts of the world a POST leaves alone. *)
Definition same_state (w w' : world) : Prop :=
  w_db w' = w_db w ∧ w_redis w' = w_redis w ∧ w_published w' = w_published w ∧
  w_jobs w' = w_jobs w.

#[export] Instance same_state_preorder : PreOrder same_state.
Proof. split; [done|]. intros ??? (?&?&?&?) (?&?&?&?); split_and!; congruence. Qed.

Section loop.
Context (E : env) (url : string) (req : http_request) (attempts base maxDelay : Z).

(** The world after one request, and after the wait that follows it. *)
Definition after_post (w : world) : world :=
  add_http (advance E w) (req, e_http E (w_step w) req).

Definition after_wait (attempt : Z) (w : world) : world :=
  let w1 := after_post w in
  let d := computeDelay attempt base maxDelay (e_random E (w_step w1) mod 200) in
  add_sleep (advance E (advance E w1)) d.

(** One iteration of the loop. *)
Lemma post_loop_iteration n attempt le ls w :
  ∃ ls',
    run E (post_loop (S n) url req attempts base maxDelay attempt le ls) w =
    match e_http E (w_step w) req with
    | Ok body => (Some (Ok body), after_post w)
    | Err err =>
        match classify err with
        | Reject s => (Some (Err (NonRetryableError url s)), after_post w)
        | Fatal => (Some (Err (DispatchFailedError url (attempt + 1) (Some (HttpError err)) None)),
                    after_post w)
        | Retry =>
            if bool_decide (attempt = attempts - 1) then
              (Some (Err (DispatchFailedError url attempts (Some (HttpError err)) ls')),
               after_post w)
            else
              run E (post_loop n url req attempts base maxDelay (attempt + 1)
                       (Some (HttpError err)) ls') (after_wait attempt w)
        end
    end.
Proof.
  unfold after_wait, after_post, classify.
  destruct (e_http E (w_step w) req) as [body|err] eqn:Hans.
  { exists ls. cbn. by rewrite Hans. }
  destruct (getStatusCode (HttpError err)) as [s|] eqn:Hs.
  - exists (Some s). cbn [post_loop run exec_op]. rewrite Hans. cbn. cbn in Hs. rewrite Hs.
    case_bool_decide; [|done]. by case_bool_decide.
  - exists ls. cbn [post_loop run exec_op]. rewrite Hans. cbn. cbn in Hs. rewrite Hs.
    destruct (isRetryableNetworkError (HttpError err)) eqn:Hi; cbn in Hi; rewrite Hi; [|done].
    by case_bool_decide.
Qed.

(** What a run of the loop entered with [errs0] failed attempts behind it
    has to satisfy. *)
Definition loop_post (errs0 : list http_err) (p : prog json) (w : world) : Prop :=
  ∃ answers delays r w',
    run E p w = (Some r, w') ∧
    same_state w w' ∧
    w_http w' = w_http w ++ (pair req <$> answers) ∧
    w_slept w' = w_slept w ++ delays ∧
    length answers = S (length delays) ∧
    Z.of_nat (length errs0 + length answers) ≤ attempts ∧
    retried url attempts ((Err <$> errs0) ++ answers) r ∧
    (∀ i d, delays !! i = Some d → delay_ok base maxDelay (length errs0 + i) d).

Lemma loop_post_stop errs0 p w r :
  run E p w = (Some r, after_post w) →
  Z.of_nat (length errs0) + 1 ≤ attempts →
  retried url attempts ((Err <$> errs0) ++ [e_http E (w_step w) req]) r →
  loop_post errs0 p w.
Proof.
  intros Hr Hlen Hret. exists [e_http E (w_step w) req], [], r, (after_post w).
  split_and!; try done; [by rewrite app_nil_r|simpl; lia].
Qed.

Lemma loop_post_wait errs0 err p p' w :
  e_http E (w_step w) req = Err err →
  run E p w = run E p' (after_wait (Z.of_nat (length errs0)) w) →
  loop_post (errs0 ++ [err]) p' (after_wait (Z.of_nat (length errs0)) w) →
  loop_post errs0 p w.
Proof.
  intros Hans Hrun (answers & delays & r & w' & Hr & Hsame & Hh & Hsl & Hl & Hle & Hret & Hd).
  exists (Err err :: answers), (computeDelay (Z.of_nat (length errs0)) base maxDelay
             (e_random E (w_step (after_post w)) mod 200) :: delays), r, w'.
  rewrite Hrun. split_and!; [done|by etrans| | |by simpl; rewrite Hl| | |].
  - rewrite Hh. cbn. by rewrite Hans, <-app_assoc.
  - rewrite Hsl. cbn. by rewrite <-app_assoc.
  - rewrite length_app in Hle. simpl in *. lia.
  - by rewrite fmap_app, <-app_assoc in Hret.
  - intros [|i] d; simpl.
    + intros [= <-]. rewrite Nat.add_0_r. apply computeDelay_bounds. by apply Z.mod_pos_bound.
    + intros Hi. apply Hd in Hi. rewrite length_app in Hi. simpl in Hi.
      by rewrite <-Nat.add_assoc in Hi.
Qed.

Lemma post_loop_spec n errs0 le ls w :
  Z.of_nat (length errs0) + Z.of_nat (S n) = attempts →
  Forall (λ e, classify e = Retry) errs0 →
  loop_post errs0
    (post_loop (S n) url req attempts base maxDelay (Z.of_nat (length errs0)) le ls) w.
Proof.
  revert errs0 le ls w. induction n as [|n IH]; intros errs0 le ls w Hn HF;
    [destruct (post_loop_iteration 0 (Z.of_nat (length errs0)) le ls w) as [ls' Hrun]
    |destruct (post_loop_iteration (S n) (Z.of_nat (length errs0)) le ls w) as [ls' Hrun]];
    destruct (e_http E (w_step w) req) as [body|err] eqn:Hans;
    try (destruct (classify err) as [|s|] eqn:Hc);
    try (eapply loop_post_stop; [exact Hrun|lia|rewrite Hans; by constructor]).
  - rewrite bool_decide_true in Hrun by lia.
    eapply loop_post_stop; [exact Hrun|lia|]. rewrite Hans.
    apply retried_exhausted; done || lia.
  - rewrite bool_decide_false in Hrun by lia.
    replace (Z.of_nat (length errs0) + 1) with (Z.of_nat (length (errs0 ++ [err]))) in Hrun
      by (rewrite length_app; simpl; lia).
    eapply loop_post_wait; [done|exact Hrun|]. apply IH.
    + rewrite length_app; simpl; lia.
    + apply Forall_app_2; [done|]. by constructor.
Qed.
End loop.

(** ** Errors *)

(** Whatever the answers, the loop throws only the two errors of [errors.ts]. *)
Definition only_retry_errors {A} (r : res A) : Prop :=
  match r with Ok _ => True | Err e => is_http_retry_error e = true end.

Lemma post_loop_errors n url req attempts base maxDelay attempt le ls :
  outcomes only_retry_errors (post_loop n url req attempts base maxDelay attempt le ls).
Proof.
  revert attempt le ls. induction n as [|n IH]; intros attempt le ls; [done|].
  cbn [post_loop outcomes]. intros [body|err] _; [done|].
  assert (N : ∀ ls', outcomes only_retry_errors
    (if bool_decide (attempt = attempts - 1) then
       Throw (DispatchFailedError url attempts (Some err) ls')
     else
       let! jitter := await Random200 in
       await (Sleep (computeDelay attempt base maxDelay jitter)) ;!
       post_loop n url req attempts base maxDelay (attempt + 1) (Some err) ls')).
  { intros ls'. case_bool_decide; [done|]. cbn.
    intros [j|e] Hj; [|done]. cbn. intros [u|e] Hu; [|done]. apply IH. }
  destruct (getStatusCode err) as [z|]; [destruct (bool_decide (z ∈ _)); [apply N|done]|].
  destruct (isRetryableNetworkError err); [apply N|done].
Qed.

Lemma post_errors url body headers opts :
  outcomes only_retry_errors (post url body headers opts).
Proof. apply post_loop_errors. Qed.

(** A POST issues no database, Redis or queue operation. *)
Definition http_only (X : Type) (op : io X) : Prop :=
  match op with HttpPost _ | Random200 | Sleep _ => True | _ => False end.

Lemma post_loop_ops n url req attempts base maxDelay attempt le ls :
  all_ops http_only (post_loop n url req attempts base maxDelay attempt le ls).
Proof.
  revert attempt le ls. induction n as [|n IH]; intros attempt le ls; [done|].
  cbn [post_loop all_ops]. split; [done|]. intros [body|err] _; [done|].
  assert (N : ∀ ls', all_ops http_only
    (if bool_decide (attempt = attempts - 1) then
       Throw (DispatchFailedError url attempts (Some err) ls')
     else
       let! jitter := await Random200 in
       await (Sleep (computeDelay attempt base maxDelay jitter)) ;!
       post_loop n url req attempts base maxDelay (attempt + 1) (Some err) ls')).
  { intros ls'. case_bool_decide; [done|]. cbn. split; [done|].
    intros [j|e] _; [|done]. cbn. split; [done|]. intros [u|e] _; [|done]. apply IH. }
  destruct (getStatusCode err) as [z|]; [destruct (bool_decide (z ∈ _)); [apply N|done]|].
  destruct (isRetryableNetworkError err); [apply N|done].
Qed.

Lemma post_ops url body headers opts : all_ops http_only (post url body headers opts).
Proof. apply post_loop_ops. Qed.

(** ** Properties *)

(** C23: with at least one attempt, [post] terminates; it sends the same request
    once per answer, at most [attempts] times; every answer but the last is a
    retryable failure (429, 500, 502, 503, 504 or a listed network code), and
    the last one decides between the body, [NonRetryableError] and
    [DispatchFailedError]; between two attempts it waits
    [base * 2^i] plus at most 199 ms, capped by [maxDelayMs]; and it touches
    nothing else. *)
Theorem post_retries E url body headers opts w :
  let n := nullish (attempts opts) 3 in
  let base := nullish (baseDelayMs opts) 500 in
  let maxDelay := nullish (maxDelayMs opts) 30000 in
  let req := mkHttpRequest url body headers (nullish (requestTimeoutMs opts) 10000) in
  1 ≤ n →
  ∃ answers delays r w',
    run E (post url body headers opts) w = (Some r, w') ∧
    same_state w w' ∧
    w_http w' = w_http w ++ (pair req <$> answers) ∧
    w_slept w' = w_slept w ++ delays ∧
    length answers = S (length delays) ∧
    Z.of_nat (length answers) ≤ n ∧
    retried url n answers r ∧
    (∀ i d, delays !! i = Some d → delay_ok base maxDelay i d).
Proof.
  intros n base maxDelay req Hn. unfold post. fold n base maxDelay req.
  replace (Z.to_nat n) with (S (Z.to_nat (n - 1))) by lia.
  apply (post_loop_spec E url req n base maxDelay (Z.to_nat (n - 1)) [] None None w).
  - simpl. lia.
  - constructor.
Qed.

(** An environment whose peer answers 503 once and then accepts. *)
Definition flaky_env : env :=
  mkEnv (λ _, no_fault) (λ _, 1%N) (λ _, 0) (λ _ _, "") (λ _, ∅) (λ _, 42)
    (λ step _, if decide (step = 0)%nat then Err (mkHttpErr true None (Some (Some 503)) "503")
               else Ok JNull).

Lemma post_retries_witness :
  let opts := mkHttpRetryOptions None None None None in
  (∃ answers delays r w',
    run flaky_env (post "http://x" JNull [] opts) initial_world = (Some r, w') ∧
    same_state initial_world w' ∧
    w_http w' = w_http initial_world ++ (pair (mkHttpRequest "http://x" JNull [] 10000) <$> answers) ∧
    w_slept w' = w_slept initial_world ++ delays ∧
    length answers = S (length delays) ∧
    Z.of_nat (length answers) ≤ 3 ∧
    retried "http://x" 3 answers r ∧
    (∀ i d, delays !! i = Some d → delay_ok 500 30000 i d)) ∧
  w_slept (run flaky_env (post "http://x" JNull [] opts) initial_world).2 = [542].
Proof.
  split.
  - apply (post_retries flaky_env "http://x" JNull [] (mkHttpRetryOptions None None None None)).
    simpl. lia.
  - vm_compute. reflexivity.
Defined.
