(* ===== verification/Idempotency.v ===== *)
(** * Idempotency: the two-phase slot of task creation

    [libs/idempotency/idempotency.service.ts]: SET NX of a sentinel (occupy),
    overwrite with the task id keeping the TTL (commit), DEL (release).  The
    store is any implementation of [KeyValueLaws]; the component promises the
    behaviour of the abstract [slot] machine below. *)
From S2P Require Import Prelude Errors Schema Database KeyValue Effects.
#[local] Open Scope Z_scope.

(** Outcome of attempting to occupy an idempotency slot. *)
Inductive OccupySlotResult : Type :=
| acquired
| pending
| duplicate (taskId : string).

Definition KEY_PREFIX : string := "idempotency".
Definition PENDING_SENTINEL : string := "__PENDING__".

Definition redisKey (key : string) : string := KEY_PREFIX +:+ ":" +:+ key.

#[export] Instance redisKey_inj : Inj (=) (=) redisKey.
Proof. intros x y H. by injection H. Qed.

Section operations.
Context {S : Type} `{KeyValueStore S}.

(** The Lua script: [{1, false}] on acquisition, [{0, existing}] otherwise. *)
Definition OCCUPY_SCRIPT (k argv1 : string) (argv2 : Z) (t : Z) (s : S)
    : (Z * option string) * S :=
  let '(ok, s1) := kv_setnx_ex t k argv1 argv2 s in
  if ok : bool then ((1, None), s1) else ((0, kv_get t k s1), s1).

(** How [occupySlot] reads the reply of the script. *)
Definition occupy_result (reply : Z * option string) : OccupySlotResult :=
  if bool_decide (reply.1 = 1) then acquired
  else match truthy reply.2 with
       | None => pending
       | Some existing =>
           if bool_decide (existing = PENDING_SENTINEL) then pending else duplicate existing
       end.

Definition occupy (key : string) (ttlSeconds : Z) (t : Z) (s : S) : OccupySlotResult * S :=
  let '(reply, s1) := OCCUPY_SCRIPT (redisKey key) PENDING_SENTINEL ttlSeconds t s in
  (occupy_result reply, s1).

Definition commit (key taskId : string) (t : Z) (s : S) : unit * S :=
  (tt, kv_set_keepttl t (redisKey key) taskId s).

Definition release (key : string) (t : Z) (s : S) : unit * S :=
  (tt, (kv_del t (redisKey key) s).2).
End operations.

(** ** The methods of [IdempotencyService] *)
Definition occupySlot (key : string) (ttlSeconds : Z) : prog OccupySlotResult :=
  let! reply := await (RedisCmd (OCCUPY_SCRIPT (redisKey key) PENDING_SENTINEL ttlSeconds)) in
  Ret (occupy_result reply).

Definition commitResult (key taskId : string) : prog unit :=
  await (RedisCmd (commit key taskId)).

Definition releaseSlot (key : string) : prog unit :=
  await (RedisCmd (release key)).

(** ** Abstract specification: a slot with a deadline *)
Inductive slot : Type :=
| Free
| InFlight (until : Z)
| Committed (taskId : string) (until : option Z).

(** What a GET at time [t] sees. *)
Definition slot_value (a : slot) (t : Z) : option string :=
  match a with
  | Free => None
  | InFlight u => if decide (t < u) then Some PENDING_SENTINEL else None
  | Committed i (Some u) => if decide (t < u) then Some i else None
  | Committed i None => Some i
  end.

Inductive slot_op : Type := Occupy (ttlSeconds : Z) | Commit (taskId : string) | Release.

Definition slot_step (t : Z) (o : slot_op) (a : slot) : option OccupySlotResult * slot :=
  match o with
  | Occupy ttl =>
      match slot_value a t with
      | None => (Some acquired, InFlight (t + ttl * 1000))
      | Some v => (Some (occupy_result (0, Some v)), a)
      end
  | Commit i =>
      (None, match slot_value a t, a with
             | Some _, InFlight u => Committed i (Some u)
             | Some _, Committed _ u => Committed i u
             | _, _ => Committed i None
             end)
  | Release => (None, Free)
  end.

(** The same operation on the store. *)
Definition store_step {S} `{KeyValueStore S} (key : string) (t : Z) (o : slot_op) (s : S)
    : option OccupySlotResult * S :=
  match o with
  | Occupy ttl => let '(r, s1) := occupy key ttl t s in (Some r, s1)
  | Commit i => (None, (commit key i t s).2)
  | Release => (None, (release key t s).2)
  end.

Fixpoint slot_run (ops : list (Z * slot_op)) (a : slot) : list (option OccupySlotResult) * slot :=
  match ops with
  | [] => ([], a)
  | (t, o) :: ops =>
      let '(r, a1) := slot_step t o a in
      let '(rs, a2) := slot_run ops a1 in (r :: rs, a2)
  end.

Fixpoint store_run {S} `{KeyValueStore S} (key : string) (ops : list (Z * slot_op)) (s : S)
    : list (option OccupySlotResult) * S :=
  match ops with
  | [] => ([], s)
  | (t, o) :: ops =>
      let '(r, s1) := store_step key t o s in
      let '(rs, s2) := store_run key ops s1 in (r :: rs, s2)
  end.

(** Operations in the order of the server's clock. *)
Fixpoint clocked (t : Z) (ops : list (Z * slot_op)) : Prop :=
  match ops with
  | [] => True
  | (t', _) :: ops => t ≤ t' ∧ clocked t' ops
  end.

(** ** The store implements the slot *)
Section refinement.
Context {S : Type} `{KeyValueLaws S}.

(** The key of [key] holds what the slot says, from [t] on. *)
Definition slot_rel (key : string) (t : Z) (a : slot) (s : S) : Prop :=
  ∀ t', t ≤ t' → kv_get t' (redisKey key) s = slot_value a t'.

Lemma slot_rel_mono key t t' a s : t ≤ t' → slot_rel key t a s → slot_rel key t' a s.
Proof. intros Ht R u Hu. apply R. lia. Qed.

Lemma store_step_refines key t o a s :
  slot_rel key t a s →
  (store_step key t o s).1 = (slot_step t o a).1 ∧
  slot_rel key t (slot_step t o a).2 (store_step key t o s).2.
Proof.
  intros R. pose proof (R t ltac:(lia)) as Rt. destruct o as [ttl|i|]; simpl.
  - unfold occupy, OCCUPY_SCRIPT. destruct (slot_value a t) as [v|] eqn:Hv.
    + destruct (setnx_taken t (redisKey key) PENDING_SENTINEL ttl s v Rt) as (s' & -> & Hs').
      simpl. rewrite Hs', Rt by lia. split; [done|]. intros t' Ht. rewrite Hs' by done. by apply R.
    + destruct (setnx_free t (redisKey key) PENDING_SENTINEL ttl s Rt) as (s' & -> & Hs').
      simpl. split; [done|]. intros t' Ht. rewrite Hs' by done. by destruct (decide (redisKey key = _)).
  - split; [done|]. intros t' Ht. destruct (slot_value a t) as [v|] eqn:Hv.
    + rewrite (keepttl_live _ _ _ _ v) by done.
      destruct (decide (redisKey key = _)); [|done]. rewrite R by done.
      destruct a as [|u|i' [u|]]; simpl in *; try done; by destruct (decide (t' < u)).
    + rewrite keepttl_absent by done. by destruct (decide (redisKey key = _)).
  - split; [done|]. intros t' Ht. rewrite del_get by done. by destruct (decide (redisKey key = _)).
Qed.

(** Operations on one key do not disturb another. *)
Lemma store_step_frame key key' t o a s :
  key ≠ key' → slot_rel key' t a s → slot_rel key' t a (store_step key t o s).2.
Proof.
  intros Hne R t' Ht. assert (redisKey key' ≠ redisKey key) by (intros ?; simplify_eq).
  destruct o as [ttl|i|]; simpl.
  - unfold occupy, OCCUPY_SCRIPT. destruct (kv_get t (redisKey key) s) as [v|] eqn:Hv.
    + destruct (setnx_taken t (redisKey key) PENDING_SENTINEL ttl s v Hv) as (s' & -> & Hs').
      simpl. rewrite Hs' by done. by apply R.
    + destruct (setnx_free t (redisKey key) PENDING_SENTINEL ttl s Hv) as (s' & -> & Hs').
      simpl. rewrite Hs', decide_False by done. by apply R.
  - destruct (kv_get t (redisKey key) s) as [v|] eqn:Hv.
    + rewrite (keepttl_live _ _ _ _ v), decide_False by done. by apply R.
    + rewrite keepttl_absent, decide_False by done. by apply R.
  - rewrite del_get, decide_False by done. by apply R.
Qed.
End refinement.

Section runs.
Context {S : Type} `{KeyValueLaws S}.

Lemma store_run_refines key t ops a s :
  slot_rel key t a s → clocked t ops →
  (store_run key ops s).1 = (slot_run ops a).1.
Proof.
  revert t a s. induction ops as [|[t' o] ops IH]; intros t a s R C; [done|].
  destruct C as [Ht C]. simpl.
  destruct (store_step_refines key t' o a s) as [E1 E2]; [by eapply slot_rel_mono|].
  destruct (store_step key t' o s) as [r s1], (slot_step t' o a) as [r' a1]. simpl in *.
  pose proof (IH t' a1 s1 E2 C) as E3.
  destruct (store_run key ops s1) as [rs s2], (slot_run ops a1) as [rs' a2]. simpl in *.
  congruence.
Qed.
End runs.

(** While a slot is live and nobody releases it, it is never acquired again. *)
Definition not_release (o : slot_op) : Prop := match o with Release => False | _ => True end.

(** The slot is held at least until [u]. *)
Definition held_until (u : Z) (a : slot) : Prop :=
  match a with
  | Free => False
  | InFlight u' => u ≤ u'
  | Committed _ (Some u') => u ≤ u'
  | Committed _ None => True
  end.

Lemma held_value u a t : held_until u a → t < u → is_Some (slot_value a t).
Proof. destruct a as [|u'|i [u'|]]; simpl; try done; intros; case_decide; eauto; lia. Qed.

Lemma occupy_result_taken v : occupy_result (0, Some v) ≠ acquired.
Proof. unfold occupy_result; simpl. destruct v; simpl; [done|]. by case_bool_decide. Qed.

Lemma slot_step_held u t o a :
  held_until u a → t < u → not_release o →
  (slot_step t o a).1 ≠ Some acquired ∧ held_until u (slot_step t o a).2.
Proof.
  intros Ha Ht Ho. destruct (held_value u a t Ha Ht) as [v Hv].
  destruct o as [ttl|i|]; simpl; [| |done]; rewrite Hv; simpl.
  - split; [|done]. intros [= E]. by eapply occupy_result_taken.
  - split; [done|]. by destruct a as [|u'|i' [u'|]].
Qed.

Lemma slot_run_held u ops t a :
  held_until u a → clocked t ops →
  Forall (λ to, to.1 < u ∧ not_release to.2) ops →
  Forall (λ r, r ≠ Some acquired) (slot_run ops a).1.
Proof.
  revert t a. induction ops as [|[t' o] ops IH]; intros t a Ha C F; [constructor|].
  destruct C as [Ht C]. apply Forall_cons in F as [[Hu Ho] F]. simpl in *.
  destruct (slot_step_held u t' o a Ha Hu Ho) as [E1 E2].
  destruct (slot_step t' o a) as [r a1]. simpl in *.
  pose proof (IH t' a1 E2 C F) as E3. destruct (slot_run ops a1) as [rs a2]. by constructor.
Qed.

(** ** Properties *)

(** C31: the service implements the abstract slot machine: from any state of the
    store, every sequence of occupy, commit and release calls on a key, in
    clock order, returns what the slot machine returns. *)
Theorem service_refines_slot {S} `{KeyValueLaws S} key t ops a (s : S) :
  slot_rel key t a s → clocked t ops →
  (store_run key ops s).1 = (slot_run ops a).1.
Proof. apply store_run_refines. Qed.

Lemma service_refines_slot_witness :
  let ops := [(0, Occupy 10); (5, Occupy 10); (6, Commit "id"); (7, Occupy 10);
              (9999, Occupy 10); (10000, Occupy 10); (10001, Release); (10001, Occupy 10)] in
  (store_run "k" ops (∅ : kv)).1 = (slot_run ops Free).1 ∧
  (slot_run ops Free).1 =
    [Some acquired; Some pending; None; Some (duplicate "id"); Some (duplicate "id");
     Some acquired; None; Some acquired].
Proof.
  split; [|reflexivity].
  apply (service_refines_slot "k" 0); [|repeat split; lia].
  intros t' _. reflexivity.
Defined.

(** C32: mutual exclusion.  Once a request has acquired the slot at time [t], no
    other occupy within the TTL acquires it, whatever commits and other
    occupies happen in between, as long as nobody releases the slot. *)
Theorem occupy_exclusive {S} `{KeyValueLaws S} key ttl t ops (s s1 : S) :
  occupy key ttl t s = (acquired, s1) → clocked t ops →
  Forall (λ to, to.1 < t + ttl * 1000 ∧ not_release to.2) ops →
  Forall (λ r, r ≠ Some acquired) (store_run key ops s1).1.
Proof.
  intros Hacq C F.
  assert (kv_get t (redisKey key) s = None) as Hfree.
  { destruct (kv_get t (redisKey key) s) as [v|] eqn:Hv; [|done]. exfalso.
    unfold occupy, OCCUPY_SCRIPT in Hacq.
    destruct (setnx_taken t (redisKey key) PENDING_SENTINEL ttl s v Hv) as (s' & E & Hs').
    rewrite E, Hs', Hv in Hacq by lia. injection Hacq as E1 _. by eapply occupy_result_taken. }
  assert (slot_rel key t (InFlight (t + ttl * 1000)) s1) as R.
  { unfold occupy, OCCUPY_SCRIPT in Hacq.
    destruct (setnx_free t (redisKey key) PENDING_SENTINEL ttl s Hfree) as (s' & E & Hs').
    rewrite E in Hacq. injection Hacq as <-. intros t' Ht. rewrite Hs' by done.
    by destruct (decide (redisKey key = _)). }
  rewrite (store_run_refines key t ops _ s1 R C).
  eapply slot_run_held; [|exact C|exact F]. simpl. lia.
Qed.

Lemma occupy_exclusive_witness :
  Forall (λ r, r ≠ Some acquired)
    (store_run "k" [(100, Occupy 10); (200, Commit "id"); (9000, Occupy 10)]
       (occupy "k" 10 0 (∅ : kv)).2).1.
Proof.
  apply (occupy_exclusive "k" 10 0 _ (∅ : kv)).
  - reflexivity.
  - repeat split; lia.
  - repeat constructor; lia.
Defined.

(** The lifetime of the answer.  A commit inside the window makes every
    later occupy until the original deadline return that task id; a commit
    that comes after the deadline re-creates the slot without any expiry, so
    that every later occupy returns that id for good. *)
Theorem commit_lifetime {S} `{KeyValueLaws S} key ttl t tc t' ttl' i (s : S) :
  kv_get t (redisKey key) s = None → t ≤ tc ≤ t' →
  i ≠ "" → i ≠ PENDING_SENTINEL →
  let s1 := (occupy key ttl t s).2 in
  let s2 := (commit key i tc s1).2 in
  (occupy key ttl' t' s2).1 =
    if decide (tc < t + ttl * 1000 ∧ t + ttl * 1000 ≤ t') then acquired else duplicate i.
Proof.
  intros Hfree Ht Hi1 Hi2 s1 s2.
  assert (slot_rel key t Free s) as R by (intros u Hu; by apply (get_expired t u)).
  pose proof (store_run_refines key t [(t, Occupy ttl); (tc, Commit i); (t', Occupy ttl')]
                Free s R ltac:(simpl; lia)) as E.
  simpl in E. unfold s2, s1. destruct (occupy key ttl t s) as [r1 s1'].
  simpl in E. destruct (occupy key ttl' t' _) as [r2 s2']. simpl in E |- *.
  assert (occupy_result (0, Some i) = duplicate i) as Hdup.
  { unfold occupy_result; simpl. destruct i; [done|]. by rewrite bool_decide_false. }
  destruct (decide (tc < t + ttl * 1000)) as [Hc|Hc]; simpl in E;
    [destruct (decide (t' < t + ttl * 1000)) as [Hc'|Hc']|]; simpl in E;
    simplify_eq; case_decide; try done; lia.
Qed.

Lemma commit_lifetime_witness :
  (occupy "k" 10 999999999 (commit "k" "id" 10001 (occupy "k" 10 0 (∅ : kv)).2).2).1 = duplicate "id".
Proof.
  rewrite (commit_lifetime "k" 10 0 10001 999999999 10 "id" (∅ : kv)); [reflexivity|done|lia|done|done].
Defined.
