(* ===== verification/JsString.v ===== *)
(** * JsString: the JavaScript string operations the program uses

    A string is a sequence of code units below 256, the range Node decodes HTTP
    headers into. *)
From Stdlib Require Import Ascii.
From S2P Require Import Prelude.

#[local] Open Scope Z_scope.

Definition char_code (c : ascii) : Z := Z.of_nat (nat_of_ascii c).

(** White space and line terminators of [trim] and [\s]: TAB, LF, VT, FF, CR,
    space and U+00A0. *)
Definition is_space (c : ascii) : bool :=
  let n := char_code c in ((9 <=? n) && (n <=? 13)) || (n =? 32) || (n =? 160).

Fixpoint trimStart (s : string) : string :=
  match s with
  | String c s' => if is_space c then trimStart s' else s
  | EmptyString => EmptyString
  end.

Fixpoint trimEnd (s : string) : string :=
  match s with
  | String c s' =>
      match trimEnd s' with
      | EmptyString => if is_space c then EmptyString else String c EmptyString
      | t => String c t
      end
  | EmptyString => EmptyString
  end.

Definition trim (s : string) : string := trimEnd (trimStart s).

(** The rest of [s] after the prefix [p]. *)
Fixpoint strip_prefix (p s : string) : option string :=
  match p, s with
  | EmptyString, _ => Some s
  | String a p', String b s' => if ascii_dec a b then strip_prefix p' s' else None
  | String _ _, EmptyString => None
  end.

Definition to_upper (c : ascii) : ascii :=
  let n := char_code c in
  if (97 <=? n) && (n <=? 122) then ascii_of_nat (Z.to_nat (n - 32)) else c.

(** [strip_prefix] of a case-insensitive match; [p] is given in upper case. *)
Fixpoint strip_prefix_i (p s : string) : option string :=
  match p, s with
  | EmptyString, _ => Some s
  | String a p', String b s' => if ascii_dec a (to_upper b) then strip_prefix_i p' s' else None
  | String _ _, EmptyString => None
  end.

(** ** [Buffer.from(s)]: UTF-8 *)
Definition utf8_char (c : ascii) : list Z :=
  let n := char_code c in
  if n <? 128 then [n] else [192 + Z.shiftr n 6; 128 + Z.land n 63].

Fixpoint Buffer_from (s : string) : list Z :=
  match s with
  | EmptyString => []
  | String c s' => utf8_char c ++ Buffer_from s'
  end.

(** [Buffer.alloc(n)] filled with [src.copy(target)]. *)
Definition copied_to (n : nat) (src : list Z) : list Z :=
  take n src ++ replicate (n - length src) 0.

(** ** Lemmas *)

Lemma char_code_bounds c : 0 ≤ char_code c < 256.
Proof. unfold char_code. pose proof (nat_ascii_bounded c). lia. Qed.

Lemma char_code_inj c d : char_code c = char_code d → c = d.
Proof.
  unfold char_code. intros H%Nat2Z.inj. rewrite <-(ascii_nat_embedding c), H.
  apply ascii_nat_embedding.
Qed.

Lemma utf8_char_inj c d l k : utf8_char c ++ l = utf8_char d ++ k → c = d ∧ l = k.
Proof.
  unfold utf8_char. pose proof (char_code_bounds c). pose proof (char_code_bounds d).
  rewrite !Z.shiftr_div_pow2, !(Z.land_ones _ 6) by lia.
  destruct (Z.ltb_spec (char_code c) 128), (Z.ltb_spec (char_code d) 128); simpl;
    intros Heq; injection Heq; intros; split; try done; try apply char_code_inj.
  all: try (subst; lia).
  all: Z.to_euclidean_division_equations; lia.
Qed.

Lemma Buffer_from_inj s t : Buffer_from s = Buffer_from t → s = t.
Proof.
  revert t. induction s as [|c s IH]; intros [|d t]; simpl; try done.
  - unfold utf8_char. case_match; simpl; done.
  - unfold utf8_char. case_match; simpl; done.
  - intros [-> H]%utf8_char_inj. f_equal. auto.
Qed.

Lemma length_copied_to n l : (length l ≤ n)%nat → length (copied_to n l) = n.
Proof. intros H. unfold copied_to. rewrite length_app, length_take, length_replicate. lia. Qed.

(** Zero-padding two buffers to their common length hides nothing but the
    length. *)
Lemma copied_to_inj n l k :
  (length l ≤ n)%nat → (length k ≤ n)%nat → length l = length k →
  copied_to n l = copied_to n k → l = k.
Proof.
  intros Hl Hk Hlk. unfold copied_to. rewrite !take_ge, Hlk by lia. apply app_inj_2. done.
Qed.

Lemma strip_prefix_Some p s t : strip_prefix p s = Some t ↔ s = p +:+ t.
Proof.
  revert s. induction p as [|a p IH]; intros s; simpl.
  - split; [by intros [= ->]|by intros ->].
  - destruct s as [|b s]; [done|]. destruct (ascii_dec a b) as [->|Hne].
    + rewrite IH. split; [by intros ->|by intros [= ->]].
    + split; [done|]. intros [= ->]. done.
Qed.

(** *** Trimming twice is trimming once *)

Lemma trimStart_head s :
  trimStart s = "" ∨ ∃ c t, trimStart s = String c t ∧ is_space c = false.
Proof.
  induction s as [|c s IH]; simpl; [by left|]. destruct (is_space c) eqn:Hc; [done|right; eauto].
Qed.

Lemma trimEnd_idem s : trimEnd (trimEnd s) = trimEnd s.
Proof.
  induction s as [|c s IH]; simpl; [done|]. destruct (trimEnd s) as [|d t] eqn:Ht.
  - destruct (is_space c) eqn:Hc; simpl; [done|]. by rewrite Hc.
  - change (trimEnd (String c (String d t))) with
      (match trimEnd (String d t) with
       | EmptyString => if is_space c then EmptyString else String c EmptyString
       | u => String c u
       end). by rewrite IH.
Qed.

Lemma trim_idem s : trim (trim s) = trim s.
Proof.
  unfold trim. destruct (trimStart_head s) as [->|(c & t & -> & Hc)]; [done|].
  assert (H : ∃ u, trimEnd (String c t) = String c u).
  { simpl. destruct (trimEnd t); [rewrite Hc|]; eauto. }
  destruct H as [u Hu]. rewrite Hu. simpl trimStart. rewrite Hc, <-Hu. apply trimEnd_idem.
Qed.
