(* ===== verification/JsNumber.v ===== *)
(** * JsNumber: reading numbers from strings

    [Number(s)] (the StringToNumber operation of ECMAScript, rounding to a double
    included), [parseInt(s, 10)], and their one user in the delivery module:
    [parseLastEventId] of [src/modules/delivery/stream.controller.ts]. *)
From Stdlib Require Import Ascii.
From S2P Require Import Prelude JsString.

#[local] Open Scope Z_scope.

(** A double: a finite one is [m * 2 ^ e] with its sign. *)
Inductive number : Type :=
| NaN
| Infinite (negative : bool)
| Finite (negative : bool) (m e : Z).

(** ** Rounding a non-negative rational to the nearest double, ties to even *)

Definition div_half_even (a b : Z) : Z :=
  let q := a / b in
  let r := a mod b in
  if 2 * r <? b then q else if b <? 2 * r then q + 1 else if Z.even q then q else q + 1.

(** [k] with [2 ^ k <= n / d < 2 ^ (k + 1)]. *)
Definition log2_ratio (n d : Z) : Z :=
  let k := Z.log2 n - Z.log2 d in
  if (if 0 <=? k then d * 2 ^ k <=? n else d <=? n * 2 ^ (- k)) then k else k - 1.

Definition round_double (negative : bool) (n d : Z) : number :=
  if n =? 0 then Finite negative 0 0
  else
    let e := Z.max (log2_ratio n d - 52) (-1074) in
    let q := if 0 <=? e then div_half_even n (d * 2 ^ e) else div_half_even (n * 2 ^ (- e)) d in
    if (0 <=? e) && (2 ^ 1024 <=? q * 2 ^ e) then Infinite negative else Finite negative q e.

Definition of_decimal (negative : bool) (m exp10 : Z) : number :=
  if 0 <=? exp10 then round_double negative (m * 10 ^ exp10) 1
  else round_double negative m (10 ^ (- exp10)).

(** ** Numeric literals *)

Definition digit_value (base : Z) (c : ascii) : option Z :=
  let n := char_code c in
  let v := if (48 <=? n) && (n <=? 57) then n - 48
           else if (97 <=? n) && (n <=? 122) then n - 87
           else if (65 <=? n) && (n <=? 90) then n - 55
           else base in
  if v <? base then Some v else None.

(** The value read, the number of digits, and what follows them. *)
Fixpoint scan_digits (base : Z) (s : string) (acc count : Z) : Z * Z * string :=
  match s with
  | String c s' =>
      match digit_value base c with
      | Some v => scan_digits base s' (acc * base + v) (count + 1)
      | None => (acc, count, s)
      end
  | EmptyString => (acc, count, s)
  end.

(** A sign, if there is one: is it a minus, and the rest. *)
Definition scan_sign (s : string) : bool * string :=
  match strip_prefix "-" s with
  | Some r => (true, r)
  | None => (false, default s (strip_prefix "+" s))
  end.

(** The exponent part; [None] when the text is no literal. *)
Definition scan_exponent (s : string) : option Z :=
  match s with
  | EmptyString => Some 0
  | String c s' =>
      if (char_code (to_upper c) =? 69) then
        let '(negative, s'') := scan_sign s' in
        let '(v, count, rest) := scan_digits 10 s'' 0 0 in
        match rest with
        | EmptyString => if count =? 0 then None else Some (if negative then - v else v)
        | _ => None
        end
      else None
  end.

(** StrDecimalLiteral. *)
Definition decimal_literal (s : string) : number :=
  let '(negative, s) := scan_sign s in
  if String.eqb s "Infinity" then Infinite negative
  else
    let '(v, whole, rest) := scan_digits 10 s 0 0 in
    let '(m, fraction, rest) :=
      match strip_prefix "." rest with
      | Some r => scan_digits 10 r v 0
      | None => (v, 0, rest)
      end in
    if whole + fraction =? 0 then NaN
    else match scan_exponent rest with
         | Some exp10 => of_decimal negative m (exp10 - fraction)
         | None => NaN
         end.

(** NonDecimalIntegerLiteral: the radix and the digits, of [0x...], [0o...] and
    [0b...]. *)
Definition radix_prefix (s : string) : option (Z * string) :=
  match s with
  | String z (String c digits) =>
      if char_code z =? 48 then
        let u := char_code (to_upper c) in
        if u =? 88 then Some (16, digits)
        else if u =? 79 then Some (8, digits)
        else if u =? 66 then Some (2, digits)
        else None
      else None
  | _ => None
  end.

Definition Number (s : string) : number :=
  let t := trim s in
  match t with
  | EmptyString => Finite false 0 0
  | _ =>
      match radix_prefix t with
      | Some (base, digits) =>
          let '(v, count, rest) := scan_digits base digits 0 0 in
          match rest with
          | EmptyString => if count =? 0 then NaN else round_double false v 1
          | _ => NaN
          end
      | None => decimal_literal t
      end
  end.

(** [parseInt(s, 10)]; [None] is [NaN].  The value is not rounded to a double:
    the callers compare it with bounds far below 2^53. *)
Definition parseInt10 (s : string) : option Z :=
  let '(negative, t) := scan_sign (trimStart s) in
  let '(v, count, _) := scan_digits 10 t 0 0 in
  if count =? 0 then None else Some (if negative then - v else v).

(** [Math.floor] of a non-negative double. *)
Definition floor (m e : Z) : Z := if 0 <=? e then m * 2 ^ e else m / 2 ^ (- e).

(** [if (!raw) return 0]; [Number.isFinite(parsed) && parsed >= 0
    ? Math.floor(parsed) : 0]. *)
Definition parseLastEventId (raw : option string) : Z :=
  match truthy raw with
  | None => 0
  | Some raw =>
      match Number raw with
      | Finite negative m e => if negative && negb (m =? 0) then 0 else floor m e
      | _ => 0
      end
  end.

(** ** Lemmas *)

Fixpoint all_chars (P : ascii → bool) (s : string) : bool :=
  match s with
  | EmptyString => true
  | String c s' => P c && all_chars P s'
  end.

Definition is_digit (c : ascii) : bool := (48 <=? char_code c) && (char_code c <=? 57).

Lemma is_digit_range c : is_digit c = true → 48 ≤ char_code c ≤ 57.
Proof. unfold is_digit. rewrite andb_true_iff, !Z.leb_le. tauto. Qed.

Lemma digit_not_space c : is_digit c = true → is_space c = false.
Proof.
  intros H%is_digit_range. unfold is_space. rewrite !orb_false_iff, andb_false_iff, Z.leb_gt.
  rewrite Z.leb_gt, !Z.eqb_neq. lia.
Qed.

Lemma trimStart_id P s : (∀ c, P c = true → is_space c = false) → all_chars P s = true →
  trimStart s = s.
Proof. intros HP. destruct s as [|c s]; simpl; [done|]. intros [Hc%HP _]%andb_true_iff. by rewrite Hc. Qed.

Lemma trimEnd_id P s : (∀ c, P c = true → is_space c = false) → all_chars P s = true →
  trimEnd s = s.
Proof.
  intros HP. induction s as [|c s IH]; simpl; [done|]. intros [Hc%HP Hs]%andb_true_iff.
  rewrite IH by done. destruct s; by rewrite ?Hc.
Qed.

Lemma trim_id P s : (∀ c, P c = true → is_space c = false) → all_chars P s = true → trim s = s.
Proof. intros HP Hs. unfold trim. by rewrite (trimStart_id P), (trimEnd_id P). Qed.

Lemma pretty_char_digit x :
  (x < 10)%N → is_digit (pretty_N_char x) = true ∧
  digit_value 10 (pretty_N_char x) = Some (Z.of_N x).
Proof.
  intros Hx. assert (x = 0 ∨ x = 1 ∨ x = 2 ∨ x = 3 ∨ x = 4 ∨ x = 5 ∨ x = 6 ∨ x = 7 ∨ x = 8 ∨ x = 9)%N
    as H by lia.
  repeat destruct H as [->|H]; try subst x; done.
Qed.

(** Reading what [String(n)] printed. *)
Lemma scan_pretty_go x s :
  ∃ k, 0 ≤ k ∧ ((0 < x)%N → 0 < k) ∧ scan_digits 10 (pretty_N_go x s) 0 0 = scan_digits 10 s (Z.of_N x) k.
Proof.
  revert s. induction (N.lt_wf_0 x) as [x _ IH]; intros s. destruct (decide (x = 0)%N) as [->|Hx].
  - exists 0. rewrite pretty_N_go_0. done.
  - rewrite pretty_N_go_step by lia.
    destruct (IH (x `div` 10)%N) with (s := String (pretty_N_char (x `mod` 10)) s)
      as (k & Hk & _ & ->); [apply N.div_lt; lia|].
    exists (k + 1). split; [lia|]. split; [lia|]. simpl.
    destruct (pretty_char_digit (x `mod` 10)%N) as [_ ->]; [apply N.mod_lt; lia|]. f_equal.
    rewrite N2Z.inj_div, N2Z.inj_mod. simpl. pose proof (Z.div_mod (Z.of_N x) 10). lia.
Qed.

Lemma digits_pretty_go x s :
  all_chars is_digit s = true → all_chars is_digit (pretty_N_go x s) = true.
Proof.
  revert s. induction (N.lt_wf_0 x) as [x _ IH]; intros s Hs. destruct (decide (x = 0)%N) as [->|Hx].
  - by rewrite pretty_N_go_0.
  - rewrite pretty_N_go_step by lia. apply IH; [apply N.div_lt; lia|]. simpl.
    destruct (pretty_char_digit (x `mod` 10)%N) as [-> _]; [apply N.mod_lt; lia|]. done.
Qed.

(** The decimal text of a natural number: digits only, at least one, and read
    back as that number. *)
Lemma String_of_Z_digits n :
  0 ≤ n → all_chars is_digit (String_of_Z n) = true ∧
  ∃ k, 0 < k ∧ scan_digits 10 (String_of_Z n) 0 0 = (n, k, "").
Proof.
  intros Hn. destruct n as [|p|p]; [|clear Hn|lia].
  - split; [vm_compute; reflexivity|]. exists 1. by split; [|vm_compute].
  - assert (String_of_Z (Z.pos p) = pretty_N_go (N.pos p) "") as ->.
    { unfold String_of_Z, pretty, pretty_Z, pretty, pretty_positive, pretty, pretty_N.
      by rewrite decide_False. }
    split.
    + by apply digits_pretty_go.
    + destruct (scan_pretty_go (N.pos p) "") as (k & _ & Hk & Hs). exists k.
      split; [lia|]. exact Hs.
Qed.

Lemma scan_sign_digit c s : is_digit c = true → scan_sign (String c s) = (false, String c s).
Proof.
  intros Hc%is_digit_range. unfold scan_sign. cbn [strip_prefix].
  destruct (ascii_dec _ c) as [<-|_]; [by destruct Hc as [Hc _]; destruct Hc|].
  destruct (ascii_dec _ c) as [<-|_]; [by destruct Hc as [Hc _]; destruct Hc|]. done.
Qed.

(** A text of digits is a decimal literal without sign, point or exponent. *)
Lemma Number_digits s v k :
  all_chars is_digit s = true → 0 < k → scan_digits 10 s 0 0 = (v, k, "") →
  Number s = of_decimal false v 0.
Proof.
  intros Hd Hk Hs. unfold Number. rewrite (trim_id is_digit) by (done || apply digit_not_space).
  destruct s as [|c s]; [injection Hs as _ <-; lia|].
  simpl in Hd. apply andb_true_iff in Hd as [Hc Hd]. pose proof (is_digit_range c Hc) as Hr.
  assert (radix_prefix (String c s) = None) as ->.
  { destruct s as [|c' s]; [done|]. simpl. case_match; [|done]. simpl in Hd.
    apply andb_true_iff in Hd as [Hc' _]. apply is_digit_range in Hc'. unfold to_upper.
    rewrite (proj2 (Z.leb_gt 97 (char_code c'))) by lia. simpl.
    by rewrite !(proj2 (Z.eqb_neq _ _)) by lia. }
  unfold decimal_literal. rewrite scan_sign_digit by done.
  assert (String.eqb (String c s) "Infinity" = false) as ->.
  { apply String.eqb_neq. intros [= -> _]. by destruct Hr as [_ Hr]; destruct Hr. }
  rewrite Hs. cbn [strip_prefix]. rewrite Z.add_0_r, (proj2 (Z.eqb_neq k 0)) by lia.
  cbn [scan_exponent]. by rewrite Z.sub_0_r.
Qed.

Lemma div_half_even_1 n : div_half_even n 1 = n.
Proof. unfold div_half_even. by rewrite Z.div_1_r, Z.mod_1_r. Qed.

(** Integers below 2^53 are doubles. *)
Lemma round_double_int n :
  0 ≤ n < 2 ^ 53 → ∃ m e, round_double false n 1 = Finite false m e ∧ floor m e = n ∧
    (0 <=? e) || (m mod 2 ^ (- e) =? 0) = true.
Proof.
  intros Hn. unfold round_double. destruct (Z.eqb_spec n 0) as [->|Hne]; [by exists 0, 0|].
  assert (Hl : Z.log2 n ≤ 52).
  { apply Z.lt_succ_r. apply Z.log2_lt_pow2; lia. }
  pose proof (Z.log2_nonneg n). pose proof (Z.log2_spec n ltac:(lia)) as [Hlo _].
  assert (log2_ratio n 1 = Z.log2 n) as ->.
  { unfold log2_ratio. change (Z.log2 1) with 0. rewrite Z.sub_0_r.
    rewrite (proj2 (Z.leb_le 0 (Z.log2 n))), Z.mul_1_l by lia.
    by rewrite (proj2 (Z.leb_le _ _)) by lia. }
  rewrite Z.max_l by lia. set (e := Z.log2 n - 52).
  destruct (Z.leb_spec 0 e) as [He|He].
  - assert (e = 0) as -> by (unfold e in *; lia). change (1 * 2 ^ 0) with 1.
    rewrite div_half_even_1, Z.mul_1_r.
    assert (Hb : n < 2 ^ 1024).
    { apply Z.lt_le_trans with (2 ^ 53); [lia|]. apply Z.pow_le_mono_r; lia. }
    rewrite (proj2 (Z.leb_gt _ _)) by done. exists n, 0. split; [done|].
    unfold floor. rewrite Z.leb_refl. split; [lia|done].
  - rewrite div_half_even_1. simpl. exists (n * 2 ^ (- e)), e. split; [done|].
    unfold floor. rewrite (proj2 (Z.leb_gt _ _)) by lia.
    assert (0 < 2 ^ (- e)) by (apply Z.pow_pos_nonneg; lia).
    rewrite Z.div_mul, Z_mod_mult by lia. by split.
Qed.

(** ** Properties *)

(** The [Last-Event-ID] round trip.  The id an SSE message carries is
    [String(seq)]; a client that sends it back resumes exactly there, for every
    number a double represents exactly. *)
Theorem last_event_id_roundtrip seq :
  0 ≤ seq < 2 ^ 53 → parseLastEventId (Some (String_of_Z seq)) = seq.
Proof.
  intros Hs. destruct (String_of_Z_digits seq ltac:(lia)) as (Hd & k & Hk & Hscan).
  unfold parseLastEventId. destruct (String_of_Z seq) as [|c s] eqn:Ht.
  - injection Hscan as <- <-. lia.
  - cbn [truthy]. rewrite (Number_digits _ seq k Hd Hk Hscan).
    unfold of_decimal. change (0 <=? 0) with true. cbn [Z.leb]. rewrite Z.mul_1_r.
    destruct (round_double_int seq Hs) as (m & e & -> & Hf & _). exact Hf.
Qed.

(** ** Instances *)

Lemma last_event_id_roundtrip_witness :
  0 ≤ 42 < 2 ^ 53 ∧ parseLastEventId (Some (String_of_Z 42)) = 42.
Proof. split; [lia|apply last_event_id_roundtrip; lia]. Defined.

Example parse_samples :
  parseLastEventId (Some " 12 ") = 12 ∧ parseLastEventId (Some "1.5e1") = 15 ∧
  parseLastEventId (Some "0x1F") = 31 ∧ parseLastEventId (Some "-3") = 0 ∧
  parseLastEventId (Some "abc") = 0 ∧ parseLastEventId (Some "Infinity") = 0 ∧
  parseLastEventId (Some "9007199254740993") = 9007199254740992.
Proof. vm_compute. done. Qed.
