(* ===== verification/Json.v ===== *)
(** * Json: [JSON.stringify] and [JSON.parse]

    The text the program publishes events as and the values it reads from it
    ([libs] and [src] call both functions in the SSE service, the executor and tasks
    services, and the sweeper).  [JSON_parse] is defined where the value is one of
    [json]: [None] is a text [JSON.parse] throws on, or one with a number that is not a
    safe integer or a code unit above 255. *)
From Stdlib Require Import Ascii.
From stdpp Require Import sorting.
From S2P Require Import Prelude JsString JsNumber.

#[local] Open Scope Z_scope.

(** ** Induction on JSON values *)

Lemma json_induction (P : json → Prop) :
  P JNull → (∀ b, P (JBool b)) → (∀ n, P (JNum n)) → (∀ s, P (JStr s)) →
  (∀ l, Forall P l → P (JArr l)) → (∀ fs, Forall (λ kv, P kv.2) fs → P (JObj fs)) →
  ∀ j, P j.
Proof.
  intros Hnull Hbool Hnum Hstr Harr Hobj. fix go 1. intros [|b|n|s|l|fs].
  - exact Hnull.
  - apply Hbool.
  - apply Hnum.
  - apply Hstr.
  - apply Harr. induction l as [|j l IH]; constructor; [apply go|exact IH].
  - apply Hobj. induction fs as [|[k j] fs IH]; constructor; [apply go|exact IH].
Qed.

(** ** Objects

    The own properties of an object are enumerated in this order: array indices
    ascending, then the other keys as they were added. *)
Definition index_key (k : string) : option Z :=
  n ← parseInt10 k;
  if (0 <=? n) && (n <? 4294967295) && bool_decide (k = String_of_Z n) then Some n else None.

Definition key_before (k k' : string) : Prop :=
  match index_key k, index_key k' with
  | Some n, Some n' => n < n'
  | None, Some _ => False
  | _, None => True
  end.

Definition ordered (keys : list string) : Prop := NoDup keys ∧ StronglySorted key_before keys.

(** Setting a property. *)
Fixpoint insert_index (n : Z) (k : string) (v : json) (fields : list (string * json)) :=
  match fields with
  | [] => [(k, v)]
  | (k', v') :: rest =>
      match index_key k' with
      | Some n' => if n' <? n then (k', v') :: insert_index n k v rest else (k, v) :: fields
      | None => (k, v) :: fields
      end
  end.

Definition set_property (fields : list (string * json)) (kv : string * json) : list (string * json) :=
  let '(k, v) := kv in
  if bool_decide (k ∈ fields.*1)
  then (λ f, if bool_decide (f.1 = k) then (k, v) else f) <$> fields
  else match index_key k with
       | Some n => insert_index n k v fields
       | None => fields ++ [(k, v)]
       end.

Definition object_of (members : list (string * json)) : json := JObj (foldl set_property [] members).

Definition MAX_SAFE : Z := 9007199254740991.

(** A value a JavaScript program can hold. *)
Fixpoint js_value (j : json) : Prop :=
  match j with
  | JNull | JBool _ | JStr _ => True
  | JNum n => Z.abs n ≤ MAX_SAFE
  | JArr l => foldr (λ x P, js_value x ∧ P) True l
  | JObj fs => ordered fs.*1 ∧ foldr (λ kv P, js_value kv.2 ∧ P) True fs
  end.

(** ** [JSON.stringify] *)

Definition quote_char : ascii := "034".
Definition backslash : ascii := "\".
Definition quote : string := String quote_char "".

(** The two-character escapes. *)
Definition short_escape (c : ascii) : option ascii :=
  let n := char_code c in
  if n =? 34 then Some quote_char else if n =? 92 then Some backslash
  else if n =? 8 then Some "b"%char else if n =? 9 then Some "t"%char
  else if n =? 10 then Some "n"%char else if n =? 12 then Some "f"%char
  else if n =? 13 then Some "r"%char else None.

Definition hex_digit (n : Z) : ascii := ascii_of_nat (Z.to_nat (if n <? 10 then 48 + n else 87 + n)).

Definition escape (c : ascii) : string :=
  match short_escape c with
  | Some e => String backslash (String e "")
  | None =>
      if char_code c <? 32 then
        String backslash ("u00" +:+ String (hex_digit (char_code c / 16)) (String (hex_digit (char_code c mod 16)) ""))
      else String c ""
  end.

Fixpoint escaped (s : string) : string :=
  match s with
  | String c s => escape c +:+ escaped s
  | EmptyString => ""
  end.

Definition QuoteJSONString (s : string) : string := quote +:+ escaped s +:+ quote.

Fixpoint commas (l : list string) : string :=
  match l with
  | [] => ""
  | [s] => s
  | s :: l => s +:+ "," +:+ commas l
  end.

Fixpoint JSON_stringify (j : json) : string :=
  match j with
  | JNull => "null"
  | JBool true => "true"
  | JBool false => "false"
  | JNum n => String_of_Z n
  | JStr s => QuoteJSONString s
  | JArr l => "[" +:+ commas (JSON_stringify <$> l) +:+ "]"
  | JObj fs => "{" +:+ commas ((λ kv, QuoteJSONString kv.1 +:+ ":" +:+ JSON_stringify kv.2) <$> fs) +:+ "}"
  end.

(** ** [JSON.parse] *)

Definition white_space (c : ascii) : bool :=
  let n := char_code c in (n =? 9) || (n =? 10) || (n =? 13) || (n =? 32).

Fixpoint skip_space (s : string) : string :=
  match s with
  | String c s' => if white_space c then skip_space s' else s
  | EmptyString => ""
  end.

Definition unescape (e : ascii) : option ascii :=
  let n := char_code e in
  if n =? 34 then Some quote_char else if n =? 92 then Some backslash
  else if n =? 47 then Some "/"%char
  else if n =? 98 then Some "008"%char else if n =? 116 then Some "009"%char
  else if n =? 110 then Some "010"%char else if n =? 102 then Some "012"%char
  else if n =? 114 then Some "013"%char else None.

(** [XXXX] of an escape; [None] also when it is above 255. *)
Definition hex4 (a b c d : ascii) : option ascii :=
  n1 ← digit_value 16 a; n2 ← digit_value 16 b; n3 ← digit_value 16 c; n4 ← digit_value 16 d;
  let n := ((n1 * 16 + n2) * 16 + n3) * 16 + n4 in
  if n <? 256 then Some (ascii_of_nat (Z.to_nat n)) else None.

(** What follows the opening quote: the string, and the rest of the text. *)
Definition prepend (c : ascii) (r : option (string * string)) : option (string * string) :=
  '(s, rest) ← r; Some (String c s, rest).

Fixpoint parse_string (s : string) : option (string * string) :=
  match s with
  | EmptyString => None
  | String c s =>
      if char_code c =? 34 then Some ("", s)
      else if char_code c =? 92 then
        match s with
        | EmptyString => None
        | String e s =>
            if char_code e =? 117 then
              match s with
              | String h1 (String h2 (String h3 (String h4 s))) =>
                  x ← hex4 h1 h2 h3 h4; prepend x (parse_string s)
              | _ => None
              end
            else x ← unescape e; prepend x (parse_string s)
        end
      else if char_code c <? 32 then None
      else prepend c (parse_string s)
  end.

(** A digit, a fraction or an exponent. *)
Definition continues_number (s : string) : bool :=
  match s with
  | String c _ => is_digit c || (char_code c =? 46) || (char_code c =? 69) || (char_code c =? 101)
  | EmptyString => false
  end.

(** No leading zeros: the digits are those of the number. *)
Definition parse_number (s : string) : option (json * string) :=
  let '(negative, t) := match strip_prefix "-" s with Some t => (true, t) | None => (false, s) end in
  let '(v, _, rest) := scan_digits 10 t 0 0 in
  if bool_decide (t = String_of_Z v +:+ rest) && negb (continues_number rest) && (v <=? MAX_SAFE)
  then Some (JNum (if negative then - v else v), rest)
  else None.

Definition literal (word : string) (j : json) (s : string) : option (json * string) :=
  rest ← strip_prefix word s; Some (j, rest).

(** The value at the head of a text, and what follows it; the members of an object
    and the elements of an array up to their closing bracket. *)
Fixpoint parse_value (fuel : nat) (s : string) : option (json * string) :=
  match fuel with
  | O => None
  | S fuel =>
      match skip_space s with
      | EmptyString => None
      | String c rest as s =>
          let n := char_code c in
          if n =? 34 then '(t, rest) ← parse_string rest; Some (JStr t, rest)
          else if n =? 91 then
            match skip_space rest with
            | String d rest' =>
                if char_code d =? 93 then Some (JArr [], rest')
                else '(l, rest) ← parse_elements fuel rest; Some (JArr l, rest)
            | EmptyString => None
            end
          else if n =? 123 then
            match skip_space rest with
            | String d rest' =>
                if char_code d =? 125 then Some (JObj [], rest')
                else '(l, rest) ← parse_members fuel rest; Some (object_of l, rest)
            | EmptyString => None
            end
          else if n =? 110 then literal "null" JNull s
          else if n =? 116 then literal "true" (JBool true) s
          else if n =? 102 then literal "false" (JBool false) s
          else parse_number s
      end
  end
with parse_elements (fuel : nat) (s : string) : option (list json * string) :=
  match fuel with
  | O => None
  | S fuel =>
      '(v, rest) ← parse_value fuel s;
      match skip_space rest with
      | String c rest =>
          if char_code c =? 93 then Some ([v], rest)
          else if char_code c =? 44 then '(l, rest) ← parse_elements fuel rest; Some (v :: l, rest)
          else None
      | EmptyString => None
      end
  end
with parse_members (fuel : nat) (s : string) : option (list (string * json) * string) :=
  match fuel with
  | O => None
  | S fuel =>
      match skip_space s with
      | String q rest =>
          if char_code q =? 34 then
            '(k, rest) ← parse_string rest;
            match skip_space rest with
            | String colon rest =>
                if char_code colon =? 58 then
                  '(v, rest) ← parse_value fuel rest;
                  match skip_space rest with
                  | String c rest =>
                      if char_code c =? 125 then Some ([(k, v)], rest)
                      else if char_code c =? 44 then
                        '(l, rest) ← parse_members fuel rest; Some ((k, v) :: l, rest)
                      else None
                  | EmptyString => None
                  end
                else None
            | EmptyString => None
            end
          else None
      | EmptyString => None
      end
  end.

(** Each level of nesting, element and member takes a character at least. *)
Definition JSON_parse (text : string) : option json :=
  '(j, rest) ← parse_value (S (String.length text)) text;
  match skip_space rest with EmptyString => Some j | _ => None end.

(** ** Lemmas *)

(** *** Strings *)

Lemma append_assoc s t u : (s +:+ t) +:+ u = s +:+ (t +:+ u).
Proof. induction s as [|c s IH]; [done|]. exact (f_equal (String c) IH). Qed.

Lemma length_append s t : String.length (s +:+ t) = (String.length s + String.length t)%nat.
Proof. induction s as [|c s IH]; [done|]. exact (f_equal S IH). Qed.

Lemma append_cons c s t : String c s +:+ t = String c (s +:+ t).
Proof. done. Qed.

(** One character, escaped or not, is read back. *)
Lemma parse_escape c rest : parse_string (escape c +:+ rest) = prepend c (parse_string rest).
Proof. by destruct c as [[] [] [] [] [] [] [] []]. Qed.

Lemma parse_quoted s rest : parse_string (escaped s +:+ quote +:+ rest) = Some (s, rest).
Proof.
  induction s as [|c s IH]; [done|]. cbn [escaped]. by rewrite append_assoc, parse_escape, IH.
Qed.

(** *** Numbers *)

Lemma not_digit c : is_digit c = false → digit_value 10 c = None.
Proof.
  unfold is_digit, digit_value. intros H. rewrite H. clear H. cbv zeta.
  destruct (_ && (char_code c <=? 122)) eqn:E1; [|destruct (_ && (char_code c <=? 90)) eqn:E2].
  - apply andb_true_iff in E1 as [E1%Z.leb_le _]. by rewrite (proj2 (Z.ltb_ge _ _)) by lia.
  - apply andb_true_iff in E2 as [E2%Z.leb_le _]. by rewrite (proj2 (Z.ltb_ge _ _)) by lia.
  - done.
Qed.

Lemma scan_digits_stop rest a k : continues_number rest = false → scan_digits 10 rest a k = (a, k, rest).
Proof.
  destruct rest as [|c rest]; [done|]. cbn [continues_number scan_digits].
  rewrite !orb_false_iff. intros [[[H _] _] _]. by rewrite not_digit.
Qed.

Lemma scan_digits_append s rest a k :
  all_chars is_digit s = true → continues_number rest = false →
  scan_digits 10 (s +:+ rest) a k = ((scan_digits 10 s a k).1, rest).
Proof.
  intros Hs Hr. revert a k Hs. induction s as [|c s IH]; intros a k Hs.
  - by apply scan_digits_stop.
  - cbn [all_chars] in Hs. apply andb_true_iff in Hs as [Hc Hs]. rewrite append_cons. cbn [scan_digits].
    destruct (digit_value 10 c) as [v|] eqn:Hv; [by apply IH|].
    exfalso. apply is_digit_range in Hc. unfold digit_value in Hv.
    assert (((48 <=? char_code c) && (char_code c <=? 57)) = true) as E by
      (rewrite andb_true_iff, !Z.leb_le; lia).
    rewrite E in Hv. case_match eqn:E'; [done|]. rewrite Z.ltb_ge in E'. lia.
Qed.

Lemma String_of_Z_neg n : 0 < n → String_of_Z (- n) = "-" +:+ String_of_Z n.
Proof. by destruct n. Qed.

Lemma parse_natural n rest :
  0 ≤ n ≤ MAX_SAFE → continues_number rest = false →
  parse_number (String_of_Z n +:+ rest) = Some (JNum n, rest) ∧
  (0 < n → parse_number (String_of_Z (- n) +:+ rest) = Some (JNum (- n), rest)).
Proof.
  intros Hn Hr. destruct (String_of_Z_digits n ltac:(lia)) as (Hd & k & Hk & Hs).
  assert (S : scan_digits 10 (String_of_Z n +:+ rest) 0 0 = (n, k, rest)).
  { by rewrite scan_digits_append, Hs. }
  assert (T : bool_decide (String_of_Z n +:+ rest = String_of_Z n +:+ rest) &&
    negb (continues_number rest) && (n <=? MAX_SAFE) = true).
  { rewrite Hr, bool_decide_true by done. apply Z.leb_le. lia. }
  split.
  - unfold parse_number. assert (strip_prefix "-" (String_of_Z n +:+ rest) = None) as ->.
    { destruct (String_of_Z n) as [|c s]; [cbn in Hs; injection Hs; lia|].
      cbn [all_chars] in Hd. apply andb_true_iff in Hd as [Hc%is_digit_range _].
      rewrite append_cons. cbn [strip_prefix]. destruct (ascii_dec "-" c) as [<-|]; [|done].
      by destruct Hc as [Hc _]. }
    by rewrite S, T.
  - intros Hpos. rewrite String_of_Z_neg by done. unfold parse_number.
    change (strip_prefix "-" (("-" +:+ String_of_Z n) +:+ rest)) with
      (Some (String_of_Z n +:+ rest)). cbv iota. by rewrite S, T.
Qed.

Lemma parse_integer n rest :
  Z.abs n ≤ MAX_SAFE → continues_number rest = false →
  parse_number (String_of_Z n +:+ rest) = Some (JNum n, rest).
Proof.
  intros Hn Hr. destruct (decide (0 ≤ n)) as [H|H].
  - apply parse_natural; [lia|done].
  - destruct (parse_natural (- n) rest) as [_ H']; [lia|done|].
    specialize (H' ltac:(lia)). by rewrite Z.opp_involutive in H'.
Qed.

(** *** Objects *)

Lemma index_key_inv k n : index_key k = Some n → k = String_of_Z n.
Proof.
  unfold index_key. destruct (parseInt10 k) as [m|]; [|done]. cbn.
  destruct (_ && _) eqn:E; [|done]. intros [= <-].
  by apply andb_true_iff in E as [_ E%bool_decide_eq_true].
Qed.

#[export] Instance key_before_trans : Transitive key_before.
Proof.
  intros x y z. unfold key_before. destruct (index_key x), (index_key y), (index_key z); try done. lia.
Qed.

Lemma ordered_snoc l k :
  ordered (l ++ [k]) ↔ ordered l ∧ k ∉ l ∧ ∀ k', k' ∈ l → key_before k' k.
Proof.
  unfold ordered. rewrite StronglySorted_snoc, NoDup_app. split.
  - intros [(H1 & H2 & _) [H3 H4]]. split_and!; try done. intros Hk. apply (H2 k Hk). set_solver.
  - intros ([H1 H2] & H3 & H4). split_and!; try done; [set_solver|apply NoDup_singleton].
Qed.

(** Keys that are not array indices have no order of their own. *)
Lemma plain_ordered keys : NoDup keys → Forall (λ k, index_key k = None) keys → ordered keys.
Proof.
  intros HN H. split; [done|]. clear HN. induction H as [|k keys _ H IH]; constructor; [done|].
  eapply Forall_impl; [exact H|]. intros k' Hk'. unfold key_before. rewrite Hk'. by destruct (index_key k).
Qed.

Lemma insert_index_last n k v fields :
  (∀ k', k' ∈ fields.*1 → ∃ n', index_key k' = Some n' ∧ n' < n) →
  insert_index n k v fields = fields ++ [(k, v)].
Proof.
  induction fields as [|[k' v'] fields IH]; intros H; [done|]. cbn [insert_index].
  destruct (H k' ltac:(set_solver)) as (n' & -> & Hn). rewrite (proj2 (Z.ltb_lt _ _)) by done.
  rewrite IH by set_solver. done.
Qed.

Lemma set_property_last fields k v :
  ordered (fields.*1 ++ [k]) → set_property fields (k, v) = fields ++ [(k, v)].
Proof.
  intros (_ & Hk & Hb)%ordered_snoc. unfold set_property. rewrite bool_decide_false by done.
  destruct (index_key k) as [n|] eqn:E; [|done]. apply insert_index_last. intros k' Hk'.
  pose proof (Hb k' Hk') as H. unfold key_before in H. rewrite E in H.
  destruct (index_key k') as [n'|]; [by exists n'|done].
Qed.

Lemma ordered_app_l l k : ordered (l ++ k) → ordered l.
Proof.
  induction k as [|x k IH] using rev_ind; [by rewrite app_nil_r|].
  rewrite app_assoc. intros [H _]%ordered_snoc. by apply IH.
Qed.

(** Adding the properties of an object one by one gives it back. *)
Lemma foldl_ordered l fields :
  ordered (fields.*1 ++ l.*1) → foldl set_property fields l = fields ++ l.
Proof.
  revert fields. induction l as [|[k v] l IH]; intros fields H; [by rewrite app_nil_r|].
  change ((k, v) :: l).*1 with (k :: l.*1) in H. rewrite cons_middle, app_assoc in H.
  cbn [foldl]. rewrite set_property_last by (by eapply ordered_app_l).
  rewrite IH; [by rewrite <-app_assoc|]. by rewrite fmap_app.
Qed.

Lemma object_ordered fs : ordered fs.*1 → object_of fs = JObj fs.
Proof. intros H. unfold object_of. by rewrite foldl_ordered. Qed.

Lemma insert_index_keys n k v fields x :
  x ∈ (insert_index n k v fields).*1 ↔ x = k ∨ x ∈ fields.*1.
Proof.
  induction fields as [|[k' v'] fields IH]; [set_solver|]. cbn [insert_index].
  destruct (index_key k') as [n'|]; [destruct (n' <? n)|]; set_solver.
Qed.

Lemma insert_index_ordered n k v fields :
  index_key k = Some n → k ∉ fields.*1 → ordered fields.*1 → ordered (insert_index n k v fields).*1.
Proof.
  intros Hk. induction fields as [|[k' v'] fields IH]; intros Hn [H1 H2].
  { cbn. split; [apply NoDup_singleton|repeat constructor]. }
  cbn [insert_index]. apply NoDup_cons in H1 as [H1 H3].
  pose proof (StronglySorted_inv H2) as [H4 H5]. rewrite Forall_forall in H5.
  assert (Hne : k' ≠ k) by set_solver.
  assert (B : key_before k k' → ordered (k :: k' :: fields.*1)).
  { intros B. split; [by apply NoDup_cons; split; [|by apply NoDup_cons]|]. constructor; [done|].
    apply Forall_forall. intros x [->|Hx]%elem_of_cons; [done|]. etrans; [exact B|auto]. }
  destruct (index_key k') as [n'|] eqn:Hk'; [destruct (n' <? n) eqn:E|].
  - apply Z.ltb_lt in E. destruct (IH ltac:(set_solver) (conj H3 H4)) as [H6 H7].
    split; cbn.
    + apply NoDup_cons. split; [|done]. rewrite insert_index_keys. naive_solver.
    + constructor; [done|]. apply Forall_forall. intros x [->|Hx]%insert_index_keys; [|auto].
      unfold key_before. by rewrite Hk, Hk'.
  - apply Z.ltb_ge in E. apply B. unfold key_before. rewrite Hk, Hk'.
    apply index_key_inv in Hk, Hk'. destruct (decide (n = n')) as [->|]; [congruence|lia].
  - apply B. unfold key_before. by rewrite Hk, Hk'.
Qed.

Lemma set_property_keys fields k v :
  k ∈ fields.*1 → (set_property fields (k, v)).*1 = fields.*1.
Proof.
  intros H. unfold set_property. rewrite bool_decide_true by done. rewrite <-list_fmap_compose.
  apply list_fmap_ext. intros i [k' v'] _. cbn. case_bool_decide; by subst.
Qed.

Lemma set_property_ordered fields kv : ordered fields.*1 → ordered (set_property fields kv).*1.
Proof.
  destruct kv as [k v]. intros H. destruct (decide (k ∈ fields.*1)) as [Hk|Hk].
  { by rewrite set_property_keys. }
  unfold set_property. rewrite bool_decide_false by done.
  destruct (index_key k) as [n|] eqn:E; [by apply insert_index_ordered|].
  rewrite fmap_app. apply ordered_snoc. split_and!; [done..|]. intros k' _.
  unfold key_before. cbn [fst]. rewrite E. by destruct (index_key k').
Qed.

Lemma set_property_values (P : json → Prop) fields k v :
  P v → Forall (λ kv, P kv.2) fields → Forall (λ kv, P kv.2) (set_property fields (k, v)).
Proof.
  intros Hv H. unfold set_property. case_bool_decide.
  - apply Forall_fmap. eapply Forall_impl; [exact H|]. intros [k' v'] Hv'. cbn. by case_bool_decide.
  - destruct (index_key k) as [n|]; [|apply Forall_app_2; [done|by constructor]].
    clear -Hv H. induction H as [|[k' v'] fields Hv' H IH]; cbn; [by constructor|].
    destruct (index_key k') as [n'|]; [destruct (n' <? n)|]; by repeat constructor.
Qed.

Lemma js_value_arr l : js_value (JArr l) ↔ Forall js_value l.
Proof. cbn. induction l as [|j l IH]; cbn; [by split|]. by rewrite Forall_cons, IH. Qed.

Lemma js_value_obj fs : js_value (JObj fs) ↔ ordered fs.*1 ∧ Forall (λ kv, js_value kv.2) fs.
Proof.
  cbn. apply and_iff_compat_l. induction fs as [|[k j] fs IH]; cbn; [by split|].
  by rewrite Forall_cons, IH.
Qed.

(** *** Reading what was written *)

(** The first character of a value. *)
Lemma stringify_head j :
  ∃ c s, JSON_stringify j = String c s ∧ white_space c = false ∧ char_code c ≠ 93 ∧
    (∀ n, j = JNum n → char_code c ≠ 34 ∧ char_code c ≠ 91 ∧ char_code c ≠ 123 ∧ char_code c ≠ 110 ∧
       char_code c ≠ 116 ∧ char_code c ≠ 102).
Proof.
  destruct j as [|[]|n|s|l|fs]; try (eexists _, _; split; [reflexivity|]; by split_and!).
  assert (H : ∃ c s, String_of_Z n = String c s ∧ (is_digit c = true ∨ c = "-"%char)).
  { destruct (decide (0 ≤ n)) as [H|H].
    - destruct (String_of_Z_digits n H) as (Hd & k & Hk & Hs).
      destruct (String_of_Z n) as [|c s]; [cbn in Hs; injection Hs; lia|].
      cbn in Hd. apply andb_true_iff in Hd as [Hd _]. eauto.
    - rewrite <-(Z.opp_involutive n), String_of_Z_neg by lia. eexists _, _. split; [reflexivity|by right]. }
  destruct H as (c & s & Hn & Hc). exists c, s. split; [exact Hn|].
  assert (45 ≤ char_code c ≤ 57) as H.
  { destruct Hc as [Hc%is_digit_range| ->]; [lia|done]. }
  unfold white_space. rewrite !orb_false_iff, !Z.eqb_neq. split_and!; lia.
Qed.

Lemma skip_space_head c s : white_space c = false → skip_space (String c s) = String c s.
Proof. intros H. cbn. by rewrite H. Qed.

Lemma commas_cons s l : l ≠ [] → commas (s :: l) = s +:+ "," +:+ commas l.
Proof. by destruct l. Qed.

(** [j] is read back from any text that goes on with [rest]. *)
Definition reads_back (j : json) : Prop :=
  ∀ fuel rest, continues_number rest = false → (String.length (JSON_stringify j) < fuel)%nat →
    parse_value fuel (JSON_stringify j +:+ rest) = Some (j, rest).

Lemma read_elements l fuel rest :
  Forall reads_back l → l ≠ [] →
  (String.length (commas (JSON_stringify <$> l)) + 1 < fuel)%nat →
  parse_elements fuel (commas (JSON_stringify <$> l) +:+ "]" +:+ rest) = Some (l, rest).
Proof.
  intros H. revert fuel. induction H as [|j l Hj _ IH]; intros fuel Hne Hf; [done|].
  destruct fuel as [|fuel]; [lia|]. cbn [parse_elements].
  destruct l as [|j' l].
  - cbn [fmap list_fmap commas] in *. rewrite Hj by (done || lia). done.
  - change (commas (JSON_stringify <$> j :: j' :: l)) with
      (JSON_stringify j +:+ "," +:+ commas (JSON_stringify <$> j' :: l)) in *.
    rewrite !length_append in Hf. change (String.length ",") with 1%nat in Hf.
    rewrite !append_assoc, Hj by (done || lia). cbn [mbind option_bind].
    change (skip_space ("," +:+ ?t)) with (String "," t). cbn -[parse_elements].
    rewrite IH by (done || lia). done.
Qed.

Definition member (kv : string * json) : string := QuoteJSONString kv.1 +:+ ":" +:+ JSON_stringify kv.2.

(** The rest of a member and of the object, after its colon. *)
Definition after_colon (fuel : nat) (k : string) (s : string) : option (list (string * json) * string) :=
  '(v, rest) ← parse_value fuel s;
  match skip_space rest with
  | String c rest =>
      if char_code c =? 125 then Some ([(k, v)], rest)
      else if char_code c =? 44 then '(l, rest) ← parse_members fuel rest; Some ((k, v) :: l, rest)
      else None
  | EmptyString => None
  end.

Lemma parse_members_key fuel k t :
  parse_members (S fuel) (String quote_char (escaped k +:+ quote +:+ String ":" t)) = after_colon fuel k t.
Proof.
  cbn [parse_members]. rewrite skip_space_head by done. change (char_code quote_char =? 34) with true.
  cbv iota. rewrite parse_quoted. reflexivity.
Qed.

Lemma read_members fs fuel rest :
  Forall (λ kv, reads_back kv.2) fs → fs ≠ [] →
  (String.length (commas (member <$> fs)) + 1 < fuel)%nat →
  parse_members fuel (commas (member <$> fs) +:+ "}" +:+ rest) = Some (fs, rest).
Proof.
  intros H. revert fuel. induction H as [|[k v] fs Hv _ IH]; intros fuel Hne Hf; [done|].
  destruct fuel as [|fuel]; [lia|]. cbn [snd] in Hv.
  assert (M : ∀ t, member (k, v) +:+ t = String quote_char (escaped k +:+ quote +:+ String ":" (JSON_stringify v +:+ t))).
  { intros t. unfold member, QuoteJSONString. cbn [fst snd]. by rewrite !append_assoc. }
  assert (L : (String.length (JSON_stringify v) < String.length (member (k, v)))%nat).
  { unfold member. cbn [fst snd]. rewrite !length_append. change (String.length ":") with 1%nat. lia. }
  destruct fs as [|kv fs].
  - cbn [fmap list_fmap commas] in *. rewrite M, parse_members_key. unfold after_colon.
    rewrite Hv by (done || lia). done.
  - change (commas (member <$> (k, v) :: kv :: fs)) with
      (member (k, v) +:+ "," +:+ commas (member <$> kv :: fs)) in *.
    rewrite !length_append in Hf. change (String.length ",") with 1%nat in Hf.
    rewrite !append_assoc, M, parse_members_key. unfold after_colon. rewrite Hv by (done || lia).
    cbn [mbind option_bind].
    change (skip_space ("," +:+ ?t)) with (String "," t). cbn -[parse_members].
    rewrite IH by (done || lia). done.
Qed.

Lemma parse_array fuel t :
  (∃ c s, t = String c s ∧ white_space c = false ∧ char_code c ≠ 93) →
  parse_value (S fuel) (String "[" t) = '(l, rest) ← parse_elements fuel t; Some (JArr l, rest).
Proof.
  intros (c & s & -> & Hw & Hc). cbn -[parse_elements skip_space]. rewrite !skip_space_head by done.
  cbn -[parse_elements]. by rewrite (proj2 (Z.eqb_neq _ _) Hc).
Qed.

Lemma parse_object fuel t :
  (∃ s, t = String quote_char s) →
  parse_value (S fuel) (String "{" t) = '(l, rest) ← parse_members fuel t; Some (object_of l, rest).
Proof. by intros (s & ->). Qed.

(** A value whose first character announces no other kind is read as a number. *)
Lemma parse_value_number fuel c s :
  white_space c = false →
  char_code c ≠ 34 ∧ char_code c ≠ 91 ∧ char_code c ≠ 123 ∧ char_code c ≠ 110 ∧ char_code c ≠ 116 ∧
    char_code c ≠ 102 →
  parse_value (S fuel) (String c s) = parse_number (String c s).
Proof.
  intros Hw (H1 & H2 & H3 & H4 & H5 & H6). cbn [parse_value]. rewrite skip_space_head by done.
  apply Z.eqb_neq in H1, H2, H3, H4, H5, H6. by rewrite H1, H2, H3, H4, H5, H6.
Qed.

Lemma Forall_mp {A} (P Q : A → Prop) l : Forall (λ x, P x → Q x) l → Forall P l → Forall Q l.
Proof. induction 1; inversion_clear 1; constructor; auto. Qed.

Lemma value_reads_back j : js_value j → reads_back j.
Proof.
  induction j as [|b|n|s|l IH|fs IH] using json_induction; intros Hj fuel rest Hr Hf;
    (destruct fuel as [|fuel]; [lia|]).
  - done.
  - by destruct b.
  - destruct (stringify_head (JNum n)) as (c & s & E & Hw & _ & H). specialize (H n eq_refl).
    change (JSON_stringify (JNum n)) with (String_of_Z n) in *.
    assert (P : parse_value (S fuel) (String_of_Z n +:+ rest) = parse_number (String_of_Z n +:+ rest)).
    { rewrite E. by apply parse_value_number. }
    rewrite P. by apply parse_integer.
  - change (JSON_stringify (JStr s)) with (quote +:+ escaped s +:+ quote). rewrite !append_assoc.
    change (parse_value (S fuel) (quote +:+ ?t)) with
      ('(u, tail) ← parse_string t; Some (JStr u, tail)). by rewrite parse_quoted.
  - apply js_value_arr in Hj. destruct (decide (l = [])) as [->|Hne]; [done|].
    change (JSON_stringify (JArr l)) with ("[" +:+ commas (JSON_stringify <$> l) +:+ "]") in *.
    rewrite !length_append in Hf. change (String.length "[") with 1%nat in Hf.
    change (String.length "]") with 1%nat in Hf. rewrite !append_assoc.
    change ("[" +:+ ?t) with (String "[" t). rewrite parse_array.
    + rewrite read_elements; [done|by eapply Forall_mp|done|lia].
    + destruct l as [|j l]; [done|]. destruct (stringify_head j) as (c & s & E & Hw & Hc & _).
      destruct l as [|j' l]; cbn [fmap list_fmap commas]; rewrite ?append_assoc, E; by eexists _, _.
  - apply js_value_obj in Hj as [Ho Hj]. destruct (decide (fs = [])) as [->|Hne]; [done|].
    change (JSON_stringify (JObj fs)) with ("{" +:+ commas (member <$> fs) +:+ "}") in *.
    rewrite !length_append in Hf. change (String.length "{") with 1%nat in Hf.
    change (String.length "}") with 1%nat in Hf. rewrite !append_assoc.
    change ("{" +:+ ?t) with (String "{" t). rewrite parse_object.
    + rewrite read_members; [|..|done|lia].
      * cbn [mbind option_bind]. by rewrite object_ordered.
      * by apply (Forall_mp (λ kv, js_value kv.2)).
    + destruct fs as [|kv fs]; [done|]. destruct fs as [|kv' fs]; cbn [fmap list_fmap commas];
        unfold member, QuoteJSONString; rewrite ?append_assoc; by eexists.
Qed.

Lemma parse_stringify j : js_value j → JSON_parse (JSON_stringify j) = Some j.
Proof.
  intros Hj. unfold JSON_parse. pose proof (value_reads_back j Hj (S (String.length (JSON_stringify j))) "" eq_refl) as H.
  rewrite append_empty in H. rewrite H by lia. done.
Qed.

(** *** What is read is a JavaScript value *)

Lemma scan_digits_nonneg s acc k : 0 ≤ acc → 0 ≤ (scan_digits 10 s acc k).1.1.
Proof.
  revert acc k. induction s as [|c s IH]; intros acc k H; [done|]. cbn [scan_digits].
  destruct (digit_value 10 c) as [v|] eqn:E; [|done]. apply IH.
  assert (0 ≤ v); [|lia]. revert E. unfold digit_value. cbv zeta.
  destruct (_ && (char_code c <=? 57)) eqn:E1.
  { apply andb_true_iff in E1 as [E1%Z.leb_le _]. case_match; [|done]. intros [= <-]. lia. }
  destruct (_ && (char_code c <=? 122)) eqn:E2.
  { apply andb_true_iff in E2 as [E2%Z.leb_le _]. case_match; [|done]. intros [= <-]. lia. }
  destruct (_ && (char_code c <=? 90)) eqn:E3; [|done].
  apply andb_true_iff in E3 as [E3%Z.leb_le _]. case_match; [|done]. intros [= <-]. lia.
Qed.

Lemma parse_number_value s j rest : parse_number s = Some (j, rest) → js_value j.
Proof.
  unfold parse_number. destruct (match strip_prefix "-" s with Some t => _ | None => _ end) as [neg t].
  pose proof (scan_digits_nonneg t 0 0 ltac:(lia)) as H.
  destruct (scan_digits 10 t 0 0) as [[v k] r]. cbn in H. destruct (_ && (v <=? MAX_SAFE)) eqn:C; [|done].
  intros [= <- _]. apply andb_true_iff in C as [_ C%Z.leb_le]. destruct neg; cbn; lia.
Qed.

Lemma literal_value word j s j' rest : js_value j → literal word j s = Some (j', rest) → js_value j'.
Proof. unfold literal. intros Hj. destruct (strip_prefix word s); [|done]. by intros [= <- _]. Qed.

Lemma object_of_value l : Forall (λ kv, js_value kv.2) l → js_value (object_of l).
Proof.
  intros H. apply js_value_obj.
  assert (G : ∀ fields, ordered fields.*1 → Forall (λ kv, js_value kv.2) fields →
    ordered (foldl set_property fields l).*1 ∧ Forall (λ kv, js_value kv.2) (foldl set_property fields l)).
  { induction H as [|[k v] l Hv _ IH]; intros fields Ho Hf; [done|]. cbn [foldl].
    apply IH; [by apply set_property_ordered|by apply set_property_values]. }
  apply G; [|done]. split; [apply NoDup_nil_2|constructor].
Qed.

Lemma parse_values fuel :
  (∀ s j rest, parse_value fuel s = Some (j, rest) → js_value j) ∧
  (∀ s l rest, parse_elements fuel s = Some (l, rest) → Forall js_value l) ∧
  (∀ s l rest, parse_members fuel s = Some (l, rest) → Forall (λ kv, js_value kv.2) l).
Proof.
  induction fuel as [|fuel (IHv & IHe & IHm)]; [done|]. split_and!.
  - intros s j rest. cbn [parse_value]. destruct (skip_space s) as [|c r]; [done|]. cbv zeta.
    destruct (char_code c =? 34); [destruct (parse_string r) as [[t r']|]; [|done]; by intros [= <- _]|].
    destruct (char_code c =? 91).
    { destruct (skip_space r) as [|d r']; [done|]. destruct (_ =? 93); [by intros [= <- _]|].
      destruct (parse_elements fuel r) as [[l r'']|] eqn:E; [|done]. intros [= <- _].
      apply js_value_arr. by eapply IHe. }
    destruct (char_code c =? 123).
    { destruct (skip_space r) as [|d r']; [done|]. destruct (_ =? 125); [intros [= <- _]; by apply (object_of_value [])|].
      destruct (parse_members fuel r) as [[l r'']|] eqn:E; [|done]. intros [= <- _].
      apply object_of_value. by eapply IHm. }
    destruct (char_code c =? 110); [by apply literal_value|].
    destruct (char_code c =? 116); [by apply literal_value|].
    destruct (char_code c =? 102); [by apply literal_value|]. apply parse_number_value.
  - intros s l rest. cbn [parse_elements].
    destruct (parse_value fuel s) as [[v r]|] eqn:E; [|done]. cbn [mbind option_bind]. apply IHv in E.
    destruct (skip_space r) as [|c r']; [done|]. destruct (_ =? 93); [intros [= <- _]; by constructor|].
    destruct (_ =? 44); [|done]. destruct (parse_elements fuel r') as [[l' r'']|] eqn:E'; [|done].
    intros [= <- _]. constructor; [done|]. by eapply IHe.
  - intros s l rest. cbn [parse_members]. destruct (skip_space s) as [|q r]; [done|].
    destruct (_ =? 34); [|done]. destruct (parse_string r) as [[k r']|]; [|done]. cbn [mbind option_bind].
    destruct (skip_space r') as [|c r'']; [done|]. destruct (_ =? 58); [|done].
    destruct (parse_value fuel r'') as [[v u]|] eqn:E; [|done]. cbn [mbind option_bind]. apply IHv in E.
    destruct (skip_space u) as [|d u']; [done|]. destruct (_ =? 125); [intros [= <- _]; by constructor|].
    destruct (_ =? 44); [|done]. destruct (parse_members fuel u') as [[l' u'']|] eqn:E'; [|done].
    intros [= <- _]. constructor; [done|]. by eapply IHm.
Qed.

Lemma parsed_value text j : JSON_parse text = Some j → js_value j.
Proof.
  unfold JSON_parse. destruct (parse_value _ text) as [[j' rest]|] eqn:E; [|done]. cbn.
  destruct (skip_space rest); [|done]. intros [= <-]. by eapply parse_values.
Qed.

(** *** One line *)

(** No control character is written. *)
Definition printable (c : ascii) : bool := 32 <=? char_code c.

Lemma all_chars_append P s t : all_chars P (s +:+ t) = all_chars P s && all_chars P t.
Proof. induction s as [|c s IH]; [done|]. rewrite append_cons. cbn [all_chars]. by rewrite IH, andb_assoc. Qed.

Lemma escape_printable c : all_chars printable (escape c) = true.
Proof. by destruct c as [[] [] [] [] [] [] [] []]. Qed.

Lemma quoted_printable s : all_chars printable (QuoteJSONString s) = true.
Proof.
  unfold QuoteJSONString. rewrite !all_chars_append. change (all_chars printable quote) with true.
  rewrite andb_true_r, andb_true_l. induction s as [|c s IH]; [done|]. cbn [escaped]. by rewrite all_chars_append, escape_printable, IH.
Qed.

Lemma digits_printable s : all_chars is_digit s = true → all_chars printable s = true.
Proof.
  induction s as [|c s IH]; [done|]. cbn. intros [Hc%is_digit_range Hs]%andb_true_iff.
  rewrite IH by done. unfold printable. by rewrite (proj2 (Z.leb_le _ _)) by lia.
Qed.

Lemma commas_printable l :
  Forall (λ s, all_chars printable s = true) l → all_chars printable (commas l) = true.
Proof.
  induction 1 as [|s l Hs Hl IH]; [done|]. destruct l as [|s' l]; [done|].
  rewrite commas_cons by done. by rewrite !all_chars_append, Hs, IH.
Qed.

Lemma stringify_printable j : all_chars printable (JSON_stringify j) = true.
Proof.
  induction j as [|b|n|s|l IH|fs IH] using json_induction.
  - done.
  - by destruct b.
  - change (JSON_stringify (JNum n)) with (String_of_Z n). destruct (decide (0 ≤ n)) as [H|H].
    + by apply digits_printable, String_of_Z_digits.
    + rewrite <-(Z.opp_involutive n), String_of_Z_neg, all_chars_append by lia.
      cbn [all_chars andb]. apply digits_printable, String_of_Z_digits. lia.
  - apply quoted_printable.
  - change (JSON_stringify (JArr l)) with ("[" +:+ commas (JSON_stringify <$> l) +:+ "]").
    rewrite !all_chars_append, commas_printable; [done|]. by apply Forall_fmap.
  - change (JSON_stringify (JObj fs)) with ("{" +:+ commas (member <$> fs) +:+ "}").
    rewrite !all_chars_append, commas_printable; [done|]. apply Forall_fmap.
    eapply Forall_impl; [exact IH|]. intros [k v] Hv. cbn [snd] in Hv.
    change (all_chars printable (QuoteJSONString k +:+ ":" +:+ JSON_stringify v) = true).
    rewrite !all_chars_append, quoted_printable. exact Hv.
Qed.
