(* ===== verification/Memo.v ===== *)
(** * Memo: get-or-create tables

    The pattern of [BullMqAdapter.getQueue] and of [getStrictSchema]: look the key
    up, otherwise build a value, store it and return it.  Building may throw, and
    every value built is a new object: [make k n] is the outcome of the [n]-th
    construction. *)
From S2P Require Import Prelude.

Section memo.
Context `{Countable K} {E V : Type} (make : K → nat → outcome E V).

Record memo : Type := mkMemo {
  entries : gmap K V;
  made : nat }.

Definition empty_memo : memo := mkMemo ∅ 0.

Definition memo_get (k : K) (m : memo) : outcome E V * memo :=
  match entries m !! k with
  | Some v => (Ok v, m)
  | None =>
      match make k (made m) with
      | Ok v => (Ok v, mkMemo (<[k := v]> (entries m)) (S (made m)))
      | Err e => (Err e, m)
      end
  end.

(** A sequence of accesses. *)
Fixpoint memo_gets (ks : list K) (m : memo) : list (outcome E V) * memo :=
  match ks with
  | [] => ([], m)
  | k :: ks =>
      let '(v, m1) := memo_get k m in
      let '(vs, m2) := memo_gets ks m1 in (v :: vs, m2)
  end.

(** Every stored value was built for its key, by a construction of its own. *)
Definition memo_wf (m : memo) : Prop :=
  made m = size (entries m) ∧
  ∃ at_ : K → nat, (∀ k v, entries m !! k = Some v → at_ k < made m ∧ make k (at_ k) = Ok v) ∧
    (∀ k k' v v', entries m !! k = Some v → entries m !! k' = Some v' → at_ k = at_ k' → k = k').

Lemma empty_memo_wf : memo_wf empty_memo.
Proof. split; [done|]. exists (λ _, 0). split; intros *; simpl; rewrite lookup_empty; done. Qed.

Lemma memo_get_wf k m : memo_wf m → memo_wf (memo_get k m).2.
Proof.
  intros (Hs & f & Hf & Hi). unfold memo_get. destruct (entries m !! k) as [v|] eqn:Hk; [by split; eauto|].
  destruct (make k (made m)) as [v|e] eqn:Hm; [|by split; eauto]. split; simpl.
  - rewrite map_size_insert_None by done. by rewrite Hs.
  - exists (λ k', if decide (k' = k) then made m else f k'). split.
    + intros k' v'. rewrite lookup_insert_Some. intros [[<- <-]|[Hne Hk']].
      * rewrite decide_True by done. split; [lia|done].
      * rewrite decide_False by done. destruct (Hf k' v' Hk'). split; [lia|done].
    + intros k1 k2 v1 v2. rewrite !lookup_insert_Some.
      intros [[<- <-]|[Hne1 H1]] [[<- <-]|[Hne2 H2]]; [done|..];
        repeat case_decide; try done; intros Heq.
      * destruct (Hf k2 v2 H2). lia.
      * destruct (Hf k1 v1 H1). lia.
      * by eapply Hi.
Qed.

Lemma memo_get_mono k m k' v : entries m !! k' = Some v → entries (memo_get k m).2 !! k' = Some v.
Proof.
  intros Hv. unfold memo_get. destruct (entries m !! k) eqn:Hk; [done|].
  destruct (make k (made m)); [|done]. simpl. rewrite lookup_insert_ne; [done|congruence].
Qed.

Lemma memo_get_stored k m v m' : memo_get k m = (Ok v, m') → entries m' !! k = Some v.
Proof.
  unfold memo_get. destruct (entries m !! k) eqn:Hk; [by intros [= <- <-]|].
  destruct (make k (made m)); intros [= <- <-]. apply lookup_insert_eq.
Qed.

(** A sequence of accesses builds one value per key, and a key that was given a
    value keeps it. *)
Lemma memo_gets_spec ks m :
  memo_wf m → memo_wf (memo_gets ks m).2 ∧
  (∀ k v, entries m !! k = Some v → entries (memo_gets ks m).2 !! k = Some v) ∧
  length (memo_gets ks m).1 = length ks ∧
  ∀ i k v, ks !! i = Some k → (memo_gets ks m).1 !! i = Some (Ok v) →
    entries (memo_gets ks m).2 !! k = Some v.
Proof.
  revert m. induction ks as [|k ks IH]; intros m W; simpl; [done|].
  pose proof (memo_get_wf k m W) as W1. pose proof (memo_get_mono k m) as M1.
  pose proof (memo_get_stored k m) as S1.
  destruct (memo_get k m) as [o m1]. simpl in W1, M1. destruct (IH m1 W1) as (W2 & M2 & L2 & G2).
  destruct (memo_gets ks m1) as [os m2]. simpl in *. split_and!; [done|auto|by rewrite L2|].
  intros [|i] k' v; simpl.
  - intros [= <-] [= ->]. eauto.
  - by apply G2.
Qed.

(** When nothing throws, the table has exactly the keys that were asked for. *)
Lemma memo_gets_dom ks m :
  (∀ k n, is_ok (make k n) = true) →
  dom (entries (memo_gets ks m).2) =@{gset K} dom (entries m) ∪ list_to_set ks ∧
  Forall (λ o, is_ok o = true) (memo_gets ks m).1.
Proof.
  intros Hok. revert m. induction ks as [|k ks IH]; intros m; simpl; [split; [set_solver|done]|].
  destruct (memo_get k m) as [o m1] eqn:Hg. specialize (IH m1).
  destruct (memo_gets ks m1) as [os m2]. simpl in IH |- *. destruct IH as [-> Hos].
  unfold memo_get in Hg. destruct (entries m !! k) as [v|] eqn:Hk.
  - injection Hg as <- <-. split; [|by constructor]. apply elem_of_dom_2 in Hk. set_solver.
  - specialize (Hok k (made m)). destruct (make k (made m)) as [v|e]; [|done].
    injection Hg as <- <-. split; [|by constructor]. simpl. set_solver.
Qed.

(** A constructor that always throws leaves the table as it is. *)
Lemma memo_gets_throwing ks m e :
  (∀ k n, make k n = Err e) → entries m = ∅ →
  memo_gets ks m = (replicate (length ks) (Err e), m).
Proof.
  intros He Hm. induction ks as [|k ks IH]; simpl; [done|].
  unfold memo_get at 1. by rewrite Hm, lookup_empty, He, IH.
Qed.
End memo.

Arguments mkMemo {K _ _ V} _ _.
Arguments empty_memo {K _ _ V}.
Arguments entries {K _ _ V} _.
Arguments made {K _ _ V} _.
