(* ===== verification/ParseDecorators.v ===== *)
(** * Parameter decorators: validation of what a request carries

    [src/common/decorators/parse.decorators.ts]: the run-time side of [ParseBody],
    [ParseQuery] and [ParseParams], the cache of strict schemas and the opt-out
    [allowUnknown].  Zod is a parameter: a schema is an object with an identity,
    [has_strict] says whether it has the method [strict], [strict s n] is the
    object its [n]-th call returns, [parse] is the method [parse]. *)
From S2P Require Import Prelude Errors ExceptionFilter Memo.

(** The [catch] of the three decorators. *)
Definition rethrown {D} (r : res D) : res D :=
  match r with
  | Ok d => Ok d
  | Err (ZodError l) => Err (ZodError l)
  | Err _ => Err (BadRequestException "Validation failed")
  end.

Section decorators.
Context {S : Type} `{Countable S} {J D : Type}.
Context (has_strict : S → bool) (strict : S → nat → S) (parse : S → J → res D).

(** The module's state: the schemas flagged with [SKIP_STRICT], and
    [strictSchemaCache]. *)
Record decorators : Type := mkDecorators {
  skip_strict : gset S;
  strictSchemaCache : @memo S _ _ S }.

Definition initial_decorators : decorators := mkDecorators ∅ empty_memo.

(** [allowUnknown]: it mutates the schema it returns. *)
Definition allowUnknown (schema : S) (st : decorators) : S * decorators :=
  (schema, mkDecorators ({[schema]} ∪ skip_strict st) (strictSchemaCache st)).

Definition make_strict (schema : S) (n : nat) : res S := Ok (strict schema n).

Definition getStrictSchema (schema : S) (st : decorators) : res S * decorators :=
  if decide (schema ∈ skip_strict st) then (Ok schema, st)
  else if negb (has_strict schema) then (Ok schema, st)
  else
    let '(cached, cache) := memo_get make_strict schema (strictSchemaCache st) in
    (cached, mkDecorators (skip_strict st) cache).

Definition ParseBody (schema : S) (body : J) (st : decorators) : res D * decorators :=
  let '(s, st') := getStrictSchema schema st in
  (rethrown (match s with Ok s => parse s body | Err e => Err e end), st').

Definition ParseQuery (schema : S) (query : J) : res D := rethrown (parse schema query).

Definition ParseParams (schema : S) (params : J) : res D := rethrown (parse schema params).

(** What the program does with them: flag a schema, or parse a body. *)
Inductive use : Type :=
| Allow (schema : S)
| Body (schema : S) (body : J).

Fixpoint run_uses (us : list use) (st : decorators) : list (res D) * decorators :=
  match us with
  | [] => ([], st)
  | Allow schema :: us => run_uses us (allowUnknown schema st).2
  | Body schema body :: us =>
      let '(r, st1) := ParseBody schema body st in
      let '(rs, st2) := run_uses us st1 in (r :: rs, st2)
  end.

(** The same without a cache: [strict_parse s] is what any strict copy of [s]
    does. *)
Fixpoint uncached (strict_parse : S → J → res D) (us : list use) (skip : gset S) : list (res D) :=
  match us with
  | [] => []
  | Allow schema :: us => uncached strict_parse us ({[schema]} ∪ skip)
  | Body schema body :: us =>
      rethrown (if decide (schema ∈ skip) then parse schema body
                else if has_strict schema then strict_parse schema body
                else parse schema body) :: uncached strict_parse us skip
  end.

Definition used_schemas (us : list use) : gset S :=
  list_to_set (omap (λ u, match u with
                          | Body s _ => if has_strict s then Some s else None
                          | Allow _ => None
                          end) us).

(** ** Lemmas *)

Lemma rethrown_status (r : res D) e : rethrown r = Err e → r_status (resolveException e) = 400%Z.
Proof. destruct r as [d|[]]; simpl; by intros [= <-]. Qed.

Lemma uncached_status strict_parse us skip e :
  Err e ∈ uncached strict_parse us skip → r_status (resolveException e) = 400%Z.
Proof.
  revert skip. induction us as [|[s|s v] us IH]; intros skip; cbn [uncached].
  - by intros ?%not_elem_of_nil.
  - apply IH.
  - intros [He|He]%elem_of_cons; [|by eapply IH]. symmetry in He. by eapply rethrown_status.
Qed.

(** A strict schema from the cache is one that a call of [strict] returned. *)
Lemma getStrictSchema_spec schema st :
  memo_wf make_strict (strictSchemaCache st) →
  let '(s, st') := getStrictSchema schema st in
  skip_strict st' = skip_strict st ∧ memo_wf make_strict (strictSchemaCache st') ∧
  dom (entries (strictSchemaCache st')) ⊆@{gset S}
    dom (entries (strictSchemaCache st)) ∪ (if has_strict schema then {[schema]} else ∅) ∧
  (if decide (schema ∈ skip_strict st) then s = Ok schema
   else if has_strict schema then ∃ n, s = Ok (strict schema n)
   else s = Ok schema).
Proof.
  intros W. unfold getStrictSchema. destruct (decide _) as [Hs|Hs].
  { split_and!; [done|done|set_solver|done]. }
  destruct (has_strict schema) eqn:Hst; simpl; [|split_and!; [done|done|set_solver|done]].
  pose proof (memo_get_wf make_strict schema _ W) as W'. unfold memo_get in *.
  destruct (entries (strictSchemaCache st) !! schema) as [v|] eqn:E; simpl in *;
    split_and!; try done; try set_solver; try by eexists.
  destruct W as (_ & f & Hf & _). destruct (Hf schema v E) as [_ [= <-]]. by eexists.
Qed.

(** For schemas whose strict copies all parse alike. *)
Context (strict_parse : S → J → res D).
Hypothesis parse_strict : ∀ s n v, parse (strict s n) v = strict_parse s v.

Lemma run_uses_uncached us st :
  memo_wf make_strict (strictSchemaCache st) →
  let '(rs, st') := run_uses us st in
  rs = uncached strict_parse us (skip_strict st) ∧ memo_wf make_strict (strictSchemaCache st') ∧
  dom (entries (strictSchemaCache st')) ⊆@{gset S}
    dom (entries (strictSchemaCache st)) ∪ used_schemas us.
Proof.
  revert st. induction us as [|[s|s v] us IH]; intros st W; cbn [run_uses uncached].
  - split_and!; [done|done|set_solver].
  - specialize (IH (allowUnknown s st).2 W). destruct (run_uses us _) as [rs st'].
    destruct IH as (-> & W' & D'). split_and!; [done|done|]. unfold used_schemas in *. csimpl. done.
  - pose proof (getStrictSchema_spec s st W) as G. unfold ParseBody.
    destruct (getStrictSchema s st) as [o st1]. destruct G as (Hk & W1 & D1 & Ho).
    specialize (IH st1 W1). destruct (run_uses us st1) as [rs st2]. destruct IH as (-> & W2 & D2).
    rewrite Hk in *. split_and!; [|done|].
    + f_equal. destruct (decide (s ∈ skip_strict st)); [by rewrite Ho|].
      destruct (has_strict s); [|by rewrite Ho]. destruct Ho as [nth ->]. by rewrite parse_strict.
    + unfold used_schemas in *. csimpl. destruct (has_strict s); set_solver.
Qed.
End decorators.

Arguments Allow {S J} _.
Arguments Body {S J} _ _.
Arguments initial_decorators {S _ _}.

(** ** Properties *)

(** The cache of strict schemas is transparent.  Over any sequence of bodies
    parsed and schemas opted out, each body is parsed by the schema itself when the
    schema has been opted out or has no strict form, and strictly otherwise,
    exactly as if [strict] were called anew each time; every failure is answered
    400; and a strict form is built at most once per schema that was used. *)
Theorem strict_cache_transparent {T : Type} `{Countable T} {J D} (has_strict : T → bool) strict
    (parse strict_parse : T → J → res D) us :
  (∀ s n v, parse (strict s n) v = strict_parse s v) →
  let '(rs, st) := run_uses has_strict strict parse us initial_decorators in
  rs = uncached has_strict parse strict_parse us ∅ ∧
  (∀ e, Err e ∈ rs → r_status (resolveException e) = 400%Z) ∧
  made (strictSchemaCache st) ≤ size (used_schemas has_strict us).
Proof.
  intros Hp. pose proof (run_uses_uncached has_strict strict parse strict_parse Hp us
    initial_decorators (empty_memo_wf _)) as G.
  destruct (run_uses _ _ _ us _) as [rs st]. destruct G as (-> & [Hm _] & Hd). split_and!; [done| |].
  - apply uncached_status.
  - rewrite Hm, <-size_dom. apply subseteq_size. etrans; [exact Hd|]. simpl. set_solver.
Qed.

(** ** Instances *)

(** Two schemas, 0 with a strict form (2 and up are its copies), 1 without; the
    body [true] has an extra field. *)
Lemma strict_cache_transparent_witness :
  let has_strict := (λ s : nat, bool_decide (s = 0)) in
  let strict := (λ s n : nat, S (S n)) in
  let parse := (λ (s : nat) (v : bool),
    if bool_decide (2 ≤ s) && v then Err (ZodError []) else Ok tt : res unit) in
  let us := [Body 0 true; Body 1 true; Body 0 true; Allow 0; Body 0 true] in
  let '(rs, st) := run_uses has_strict strict parse us initial_decorators in
  rs = [Err (ZodError []); Ok tt; Err (ZodError []); Ok tt] ∧ made (strictSchemaCache st) ≤ 1.
Proof.
  intros has_strict strict parse us.
  pose proof (strict_cache_transparent has_strict strict parse
    (λ _ v, if v then Err (ZodError []) else Ok tt : res unit) us) as G.
  destruct (run_uses has_strict strict parse us initial_decorators) as [rs st].
  destruct G as (-> & _ & Hm); [|split; [reflexivity|exact Hm]].
  intros s n []; subst parse strict; cbn -[bool_decide]; [|by rewrite andb_false_r].
  by rewrite bool_decide_eq_true_2 by lia.
Defined.
