(* ===== verification/RedisService.v ===== *)
(** * RedisService: the Redis connections of the two processes

    [libs/redis/redis.service.ts] (construction and isolated clients),
    [libs/redis/cluster-nodes.util.ts], [createBullMqConnection] of
    [libs/queue/bullmq.adapter.ts], [src/config/redis.factory.ts] and the
    cross-field rule of [src/config/env.schema.ts].  The commands are in
    RedisCommands.v.  A connection is the list of
    options an ioredis client is built with. *)
From Stdlib Require Import Ascii.
From S2P Require Import Prelude Errors JsString JsNumber.

#[local] Open Scope Z_scope.

(** ** Splitting *)

(** [s.split(c)]: never empty. *)
Fixpoint split (c : ascii) (s : string) : list string :=
  match s with
  | EmptyString => [""]
  | String d s' =>
      if ascii_dec d c then "" :: split c s'
      else match split c s' with
           | p :: ps => String d p :: ps
           | [] => [String d ""]
           end
  end.

Definition comma : ascii := ",".
Definition colon : ascii := ":".
Definition quote : string := String "034" "".

(** ** Cluster nodes *)

Record ClusterNode : Type := mkNode { node_host : string; node_port : Z }.

Definition invalid_entry (entry : string) : exn :=
  JsError ("Invalid cluster node entry: " +:+ quote +:+ trim entry +:+ quote).

(** One [entry]; parts after the second are ignored. *)
Definition parseClusterNode (entry : string) : res ClusterNode :=
  let parts := split colon (trim entry) in
  let host := default "" (parts !! 0%nat) in
  let portStr := parts !! 1%nat in
  let port := match truthy portStr with Some p => parseInt10 p | None => Some 6379 end in
  match port with
  | Some port =>
      if bool_decide (host = "") || (port <? 1) || (65535 <? port) then Err (invalid_entry entry)
      else Ok (mkNode host port)
  | None => Err (invalid_entry entry)
  end.

(** [entries.map(...)]; the first entry that throws ends it. *)
Fixpoint map_entries (entries : list string) : res (list ClusterNode) :=
  match entries with
  | [] => Ok []
  | entry :: entries =>
      match parseClusterNode entry with
      | Ok n => match map_entries entries with Ok ns => Ok (n :: ns) | Err e => Err e end
      | Err e => Err e
      end
  end.

Definition parseClusterNodes (raw : string) : res (list ClusterNode) :=
  map_entries (split comma raw).

(** ** Configuration *)

(** [AppConfig['redis']], which is also the [QueueConfig] both processes pass. *)
Record RedisConfig : Type := mkRedisConfig {
  host : string;
  port : Z;
  password : option string;
  redis_db : Z;
  clusterMode : bool;
  clusterNodes : option string }.

(** The cross-field rule of [EnvSchema]. *)
Definition redis_env_ok (cfg : RedisConfig) : bool :=
  negb (clusterMode cfg && match truthy (clusterNodes cfg) with None => true | Some _ => false end).

Record RedisModuleOptions : Type := mkRedisOptions {
  opt_host : string;
  opt_port : Z;
  opt_password : option string;
  opt_db : option Z;
  opt_clusterMode : option bool;
  opt_clusterNodes : option string }.

(** [buildRedisOptions]: an empty password or node list is left out. *)
Definition buildRedisOptions (cfg : RedisConfig) : RedisModuleOptions :=
  mkRedisOptions (host cfg) (port cfg) (truthy (password cfg)) (Some (redis_db cfg))
    (Some (clusterMode cfg)) (truthy (clusterNodes cfg)).

(** ** Clients *)

(** [new Redis(...)] and [new Cluster(...)], always with
    [maxRetriesPerRequest: null]. *)
Inductive Client : Type :=
| Redis (host : string) (port : Z) (password : option string) (db : option Z)
| Cluster (nodes : list ClusterNode) (password : option string) (db : option Z).

(** The two messages name the variable in the constructor's words and in those
    of the other two places. *)
Definition nodes_missing (flag : string) : exn :=
  JsError ("REDIS_CLUSTER_NODES must be provided when " +:+ flag +:+ " is true").

Definition new_Cluster (flag : string) (nodes : option string) (password : option string)
    (db : option Z) : res Client :=
  match truthy nodes with
  | None => Err (nodes_missing flag)
  | Some raw =>
      match parseClusterNodes raw with
      | Ok ns => Ok (Cluster ns password db)
      | Err e => Err e
      end
  end.

Record RedisService : Type := mkRedisService { isCluster : bool; client : Client }.

(** The constructor; the second component is the module variable
    [_storedOptions] it leaves behind, also when it throws. *)
Definition new_RedisService (o : RedisModuleOptions)
    : res RedisService * option RedisModuleOptions :=
  let cluster := bool_decide (opt_clusterMode o = Some true) in
  (if cluster then
     match new_Cluster "REDIS_CLUSTER_MODE" (opt_clusterNodes o) (opt_password o) (opt_db o) with
     | Ok c => Ok (mkRedisService cluster c)
     | Err e => Err e
     end
   else Ok (mkRedisService cluster (Redis (opt_host o) (opt_port o) (opt_password o) (opt_db o))),
   Some o).

(** [createIsolatedClient]; [duplicate()] is a client with the same options. *)
Definition createIsolatedClient (s : RedisService) (storedOptions : option RedisModuleOptions)
    : res Client :=
  match storedOptions with
  | None => Err (JsError "RedisService not yet initialized")
  | Some o =>
      if isCluster s then
        new_Cluster "clusterMode" (opt_clusterNodes o) (opt_password o) (opt_db o)
      else Ok (client s)
  end.

(** [db] is always set in the configuration, so [config.db ?? 0] is it. *)
Definition createBullMqConnection (config : RedisConfig) : res Client :=
  if clusterMode config then
    new_Cluster "clusterMode" (clusterNodes config) (password config) (Some (redis_db config))
  else Ok (Redis (host config) (port config) (password config) (Some (redis_db config))).

(** ** Lemmas *)

(** A client without its empty password, which ioredis does not send. *)
Definition effective (c : Client) : Client :=
  match c with
  | Redis h p pw d => Redis h p (truthy pw) d
  | Cluster ns pw d => Cluster ns (truthy pw) d
  end.

Definition not_char (c d : ascii) : bool := negb (bool_decide (d = c)).

(** The characters of a host the printed form keeps apart. *)
Definition host_char (c : ascii) : bool :=
  not_char comma c && not_char colon c && negb (is_space c).

Definition valid_node (n : ClusterNode) : Prop :=
  node_host n ≠ "" ∧ all_chars (λ c, not_char comma c && not_char colon c) (node_host n) = true ∧
  1 ≤ node_port n ≤ 65535.

Lemma truthy_idemp s : truthy (truthy s) = truthy s.
Proof. by destruct s as [[]|]. Qed.

Lemma all_chars_impl (P Q : ascii → bool) s :
  (∀ c, P c = true → Q c = true) → all_chars P s = true → all_chars Q s = true.
Proof.
  intros HPQ. induction s as [|c s IH]; simpl; [done|].
  intros [Hc Hs]%andb_true_iff. apply andb_true_iff. auto.
Qed.

Lemma all_chars_and P Q s :
  all_chars (λ c, P c && Q c) s = all_chars P s && all_chars Q s.
Proof.
  induction s as [|c s IH]; simpl; [done|]. rewrite IH.
  by destruct (P c), (Q c), (all_chars P s), (all_chars Q s).
Qed.

Lemma all_chars_app P s t : all_chars P (s +:+ t) = all_chars P s && all_chars P t.
Proof. induction s as [|c s IH]; simpl; [done|]. by rewrite IH, andb_assoc. Qed.

(** No part of a split contains the separator, and a part only has characters of
    the text. *)
Lemma split_parts c P s p :
  all_chars P s = true → p ∈ split c s → all_chars (λ d, not_char c d && P d) p = true.
Proof.
  revert p. induction s as [|d s IH]; intros p HP; simpl.
  - by intros ->%list_elem_of_singleton.
  - simpl in HP. apply andb_true_iff in HP as [Hd HP]. destruct (ascii_dec d c) as [->|Hne].
    + intros [->|Hp]%elem_of_cons; [done|auto].
    + destruct (split c s) as [|q qs]; [by intros ->%list_elem_of_singleton; simpl; unfold not_char; rewrite bool_decide_eq_false_2, Hd by done|].
      intros [->|Hp]%elem_of_cons; [|apply IH; set_solver]. simpl.
      rewrite IH, Hd by set_solver. unfold not_char. by rewrite bool_decide_eq_false_2.
Qed.

Lemma split_none c s : all_chars (not_char c) s = true → split c s = [s].
Proof.
  induction s as [|d s IH]; simpl; [done|]. intros [Hd Hs]%andb_true_iff.
  unfold not_char in Hd. case_bool_decide; [done|].
  destruct (ascii_dec d c); [done|]. by rewrite IH.
Qed.

Lemma split_cons c s t :
  all_chars (not_char c) s = true → split c (s +:+ String c t) = s :: split c t.
Proof.
  induction s as [|d s IH]; simpl.
  - intros _. by destruct (ascii_dec c c).
  - intros [Hd Hs]%andb_true_iff. unfold not_char in Hd. case_bool_decide; [done|].
    destruct (ascii_dec d c); [done|]. by rewrite IH.
Qed.

Lemma all_chars_true s : all_chars (λ _, true) s = true.
Proof. by induction s. Qed.

Lemma trimStart_chars P s : all_chars P s = true → all_chars P (trimStart s) = true.
Proof.
  induction s as [|c s IH]; simpl; [done|]. intros H. case_match; [|done].
  apply andb_true_iff in H as [_ H]. auto.
Qed.

Lemma trimEnd_chars P s : all_chars P s = true → all_chars P (trimEnd s) = true.
Proof.
  induction s as [|c s IH]; simpl; [done|]. intros [Hc Hs]%andb_true_iff. specialize (IH Hs).
  destruct (trimEnd s); [case_match; [done|]|]; simpl in *; by rewrite Hc.
Qed.

Lemma trim_chars P s : all_chars P s = true → all_chars P (trim s) = true.
Proof. intros H. by apply trimEnd_chars, trimStart_chars. Qed.

Lemma trimStart_pad l s : all_chars is_space l = true → trimStart (l +:+ s) = trimStart s.
Proof. induction l as [|c l IH]; simpl; [done|]. intros [-> Hl]%andb_true_iff. auto. Qed.

Lemma trimStart_blank r : all_chars is_space r = true → trimStart r = "".
Proof. induction r as [|c r IH]; simpl; [done|]. intros [-> Hr]%andb_true_iff. auto. Qed.

Lemma trimEnd_blank r : all_chars is_space r = true → trimEnd r = "".
Proof. induction r as [|c r IH]; simpl; [done|]. intros [-> Hr]%andb_true_iff. by rewrite IH. Qed.

Lemma trimEnd_pad s r :
  all_chars (λ c, negb (is_space c)) s = true → all_chars is_space r = true →
  trimEnd (s +:+ r) = s.
Proof.
  intros Hs Hr. induction s as [|c s IH]; simpl in *; [by apply trimEnd_blank|].
  apply andb_true_iff in Hs as [Hc Hs]. rewrite IH by done. apply negb_true_iff in Hc.
  by destruct s; rewrite ?Hc.
Qed.

(** [trim] removes exactly the blanks around a text without blanks. *)
Lemma trim_pad l s r :
  all_chars is_space l = true → all_chars is_space r = true →
  all_chars (λ c, negb (is_space c)) s = true → trim (l +:+ s +:+ r) = s.
Proof.
  intros Hl Hr Hs. unfold trim. rewrite trimStart_pad by done. destruct s as [|c s].
  - simpl. by rewrite trimStart_blank.
  - pose proof Hs as Hs'. simpl in Hs'. apply andb_true_iff in Hs' as [Hc _]. apply negb_true_iff in Hc.
    change (String c s +:+ r) with (String c (s +:+ r)). simpl trimStart. rewrite Hc.
    by apply (trimEnd_pad (String c s)).
Qed.

Lemma parseInt10_String_of_Z n : 0 ≤ n → parseInt10 (String_of_Z n) = Some n.
Proof.
  intros Hn. destruct (String_of_Z_digits n Hn) as (Hd & k & Hk & Hs). unfold parseInt10.
  rewrite (trimStart_id is_digit) by (done || apply digit_not_space).
  destruct (String_of_Z n) as [|c s]; [injection Hs; lia|].
  rewrite scan_sign_digit by (simpl in Hd; by apply andb_true_iff in Hd as [? _]).
  rewrite Hs, (proj2 (Z.eqb_neq k 0)) by lia. done.
Qed.

(** A digit is a character of a host. *)
Lemma digit_host_char c : is_digit c = true → host_char c = true.
Proof.
  intros Hc. unfold host_char. rewrite (digit_not_space c Hc). unfold not_char.
  rewrite !bool_decide_eq_false_2; [done| |]; by intros ->.
Qed.

Lemma map_entries_ok entries :
  match map_entries entries with
  | Ok ns => Forall2 (λ entry n, parseClusterNode entry = Ok n) entries ns
  | Err e => ∃ entry, entry ∈ entries ∧ parseClusterNode entry = Err e
  end.
Proof.
  induction entries as [|entry entries IH]; simpl; [constructor|].
  destruct (parseClusterNode entry) as [n|e] eqn:E.
  - destruct (map_entries entries) as [ns|e']; [by constructor|].
    destruct IH as (x & Hx & He). exists x. split; [set_solver|done].
  - exists entry. split; [set_solver|done].
Qed.

(** A node that is accepted has a host and a port in range. *)
Lemma parseClusterNode_valid entry n :
  all_chars (not_char comma) entry = true → parseClusterNode entry = Ok n → valid_node n.
Proof.
  intros Hc H. unfold parseClusterNode in H.
  destruct (match truthy _ with Some p => parseInt10 p | None => Some 6379 end) as [p|]; [|done].
  destruct (_ || _) eqn:E; [done|]. injection H as <-.
  rewrite !orb_false_iff, bool_decide_eq_false, !Z.ltb_ge in E. destruct E as [[Hh Hp1] Hp2].
  split; [done|]. split; [|simpl; lia]. simpl in *.
  destruct (split colon (trim entry) !! 0%nat) as [h|] eqn:Eh; [|done].
  apply list_elem_of_lookup_2 in Eh. apply trim_chars in Hc.
  pose proof (split_parts colon _ _ h Hc Eh) as Ha. simpl. revert Ha.
  apply all_chars_impl. intros c. by rewrite andb_comm.
Qed.

Lemma parseClusterNodes_valid raw ns :
  parseClusterNodes raw = Ok ns → length ns = length (split comma raw) ∧ Forall valid_node ns.
Proof.
  unfold parseClusterNodes. intros H. pose proof (map_entries_ok (split comma raw)) as Hm.
  rewrite H in Hm. split; [symmetry; by eapply Forall2_length|].
  apply Forall_forall. intros n [i Hi]%list_elem_of_lookup.
  destruct (Forall2_lookup_r _ _ _ _ _ Hm Hi) as (entry & He & Hn).
  eapply parseClusterNode_valid; [|exact Hn]. apply list_elem_of_lookup_2 in He.
  pose proof (split_parts comma _ _ entry (all_chars_true raw) He) as Ha.
  revert Ha. apply all_chars_impl. intros c. by rewrite andb_true_r.
Qed.

(** ** Printed entries *)

(** An entry as an operator writes it: blanks, the host, the port or none, and
    blanks. *)
Record entry : Type := mkEntry {
  before : string;
  e_host : string;
  e_port : option Z;
  after : string }.

Definition entry_text (e : entry) : string :=
  e_host e +:+ match e_port e with Some p => ":" +:+ String_of_Z p | None => "" end.

Definition print_entry (e : entry) : string := before e +:+ entry_text e +:+ after e.

Definition entry_node (e : entry) : ClusterNode := mkNode (e_host e) (default 6379 (e_port e)).

Definition entry_ok (e : entry) : Prop :=
  all_chars is_space (before e) = true ∧ all_chars is_space (after e) = true ∧
  e_host e ≠ "" ∧ all_chars host_char (e_host e) = true ∧
  (∀ p, e_port e = Some p → 1 ≤ p ≤ 65535).

Fixpoint join_entries (es : list entry) : string :=
  match es with
  | [] => ""
  | [e] => print_entry e
  | e :: es => print_entry e +:+ String comma (join_entries es)
  end.

Lemma host_char_split c : host_char c = true →
  not_char comma c = true ∧ not_char colon c = true ∧ negb (is_space c) = true.
Proof. unfold host_char. rewrite !andb_true_iff. tauto. Qed.

Lemma String_of_Z_host n : 0 ≤ n → all_chars host_char (String_of_Z n) = true.
Proof.
  intros Hn. destruct (String_of_Z_digits n Hn) as [Hd _].
  revert Hd. apply all_chars_impl, digit_host_char.
Qed.

(** The text of an entry has no blank and no comma. *)
Lemma entry_text_chars e : entry_ok e →
  all_chars (λ c, not_char comma c && negb (is_space c)) (entry_text e) = true.
Proof.
  intros (_ & _ & _ & Hh & Hp). unfold entry_text. rewrite all_chars_app. apply andb_true_iff. split.
  - revert Hh. apply all_chars_impl. intros c (-> & _ & ->)%host_char_split. done.
  - destruct (e_port e) as [p|]; [|done]. specialize (Hp p eq_refl).
    change (":" +:+ String_of_Z p) with (String colon (String_of_Z p)). simpl.
    generalize (String_of_Z_host p ltac:(lia)). apply all_chars_impl.
    intros c (-> & _ & ->)%host_char_split. done.
Qed.

Lemma print_entry_no_comma e : entry_ok e → all_chars (not_char comma) (print_entry e) = true.
Proof.
  intros He. pose proof (entry_text_chars e He) as Ht. destruct He as (Hb & Ha & _).
  unfold print_entry. rewrite !all_chars_app, !andb_true_iff. rewrite all_chars_and in Ht.
  apply andb_true_iff in Ht as [Ht _].
  assert (Hs : ∀ c, is_space c = true → not_char comma c = true).
  { intros c Hc. unfold not_char. apply negb_true_iff, bool_decide_eq_false. by intros ->. }
  split_and!; [by apply (all_chars_impl is_space)|done|by apply (all_chars_impl is_space)].
Qed.

Lemma parse_printed e : entry_ok e → parseClusterNode (print_entry e) = Ok (entry_node e).
Proof.
  intros He. pose proof (entry_text_chars e He) as Ht. rewrite all_chars_and in Ht.
  apply andb_true_iff in Ht as [_ Ht]. destruct He as (Hb & Ha & Hne & Hh & Hp).
  unfold parseClusterNode, print_entry. rewrite trim_pad by done. unfold entry_text, entry_node.
  assert (Hc : all_chars (not_char colon) (e_host e) = true).
  { revert Hh. apply all_chars_impl. intros c (_ & ? & _)%host_char_split. done. }
  destruct (e_port e) as [p|].
  - specialize (Hp p eq_refl). change (":" +:+ String_of_Z p) with (String colon (String_of_Z p)).
    rewrite split_cons by done. rewrite split_none.
    2: { generalize (String_of_Z_host p ltac:(lia)). apply all_chars_impl.
         intros c (_ & ? & _)%host_char_split. done. }
    simpl. assert (truthy (Some (String_of_Z p)) = Some (String_of_Z p)) as Htr.
    { destruct (String_of_Z_digits p ltac:(lia)) as (_ & k & Hk & Hs).
      destruct (String_of_Z p); [injection Hs; lia|done]. }
    simpl in Htr. rewrite Htr, parseInt10_String_of_Z by lia.
    rewrite bool_decide_eq_false_2 by done. rewrite !(proj2 (Z.ltb_ge _ _)) by lia. done.
  - rewrite append_empty.
    rewrite split_none by done. simpl. by rewrite bool_decide_eq_false_2.
Qed.

(** ** Properties *)

(** A cluster node list is read as it is written.  For every non-empty list of
    entries, each with a host, with or without a port between 1 and 65535, and
    with any blanks around it, [parseClusterNodes] of the comma-separated text
    returns exactly those hosts and ports, 6379 for the ones without. *)
Theorem cluster_nodes_roundtrip es :
  es ≠ [] → Forall entry_ok es → parseClusterNodes (join_entries es) = Ok (entry_node <$> es).
Proof.
  intros Hne Hes. unfold parseClusterNodes. induction Hes as [|e es He Hes IH]; [done|].
  destruct es as [|e' es].
  - simpl join_entries. rewrite split_none by by apply print_entry_no_comma.
    cbn [map_entries]. by rewrite parse_printed.
  - change (join_entries (e :: e' :: es))
      with (print_entry e +:+ String comma (join_entries (e' :: es))).
    rewrite split_cons by by apply print_entry_no_comma. cbn [map_entries].
    by rewrite parse_printed, IH by done.
Qed.

(** Every client of a process reaches the same Redis.  From one configuration
    the service's client, an isolated client for a subscriber and the BullMQ
    connection have the same endpoints, database and effective password: the
    configured host, or in cluster mode as many nodes as the list has entries,
    each with a host and a port between 1 and 65535.  The constructor throws only
    in cluster mode, and then BullMQ's does too: for a missing list, which the
    environment rule excludes, or for an entry that is no node. *)
Theorem connections_agree cfg :
  match new_RedisService (buildRedisOptions cfg) with
  | (Ok s, storedOptions) =>
      createIsolatedClient s storedOptions = Ok (client s) ∧
      (∃ c, createBullMqConnection cfg = Ok c ∧ effective c = client s) ∧
      (if clusterMode cfg then
         ∃ raw ns, clusterNodes cfg = Some raw ∧
           client s = Cluster ns (truthy (password cfg)) (Some (redis_db cfg)) ∧
           length ns = length (split comma raw) ∧ Forall valid_node ns
       else client s = Redis (host cfg) (port cfg) (truthy (password cfg)) (Some (redis_db cfg)))
  | (Err e, _) =>
      clusterMode cfg = true ∧ (∃ e', createBullMqConnection cfg = Err e') ∧
      (redis_env_ok cfg = false ∧ e = nodes_missing "REDIS_CLUSTER_MODE" ∨
       redis_env_ok cfg = true ∧ ∃ raw entry, clusterNodes cfg = Some raw ∧
         entry ∈ split comma raw ∧ parseClusterNode entry = Err e)
  end.
Proof.
  destruct cfg as [h p pw d [] nodes].
  2: { split_and!; [done| |done]. by eexists. }
  unfold new_RedisService, createIsolatedClient, createBullMqConnection, buildRedisOptions,
    redis_env_ok, new_Cluster. cbn. rewrite !truthy_idemp.
  destruct (truthy nodes) as [raw|] eqn:Hn; cbn.
  - apply truthy_Some in Hn as [-> _]. destruct (parseClusterNodes raw) as [ns|e] eqn:E; cbn.
    + split_and!; [done|by eexists|]. destruct (parseClusterNodes_valid raw ns E). by exists raw, ns.
    + split_and!; [done|by eexists|]. right. split; [done|]. unfold parseClusterNodes in E.
      pose proof (map_entries_ok (split comma raw)) as Hm. rewrite E in Hm.
      destruct Hm as (entry & ? & ?). by exists raw, entry.
  - split_and!; [done|by eexists|by left].
Qed.

(** ** Instances *)

Definition sample_entries : list entry :=
  [mkEntry " " "redis-1" (Some 7001) ""; mkEntry "" "redis-2" None " "].

Lemma cluster_nodes_roundtrip_witness :
  sample_entries ≠ [] ∧ Forall entry_ok sample_entries ∧
  parseClusterNodes (join_entries sample_entries) = Ok [mkNode "redis-1" 7001; mkNode "redis-2" 6379].
Proof.
  assert (H : Forall entry_ok sample_entries).
  { unfold sample_entries. rewrite !Forall_cons. unfold entry_ok.
    split_and!; try done; try apply Forall_nil_2; intros p Hp; inversion Hp; lia. }
  split_and!; [done|exact H|]. exact (cluster_nodes_roundtrip sample_entries ltac:(done) H).
Defined.

(** What the splitting on colons does to an IPv6 node: the host is a bracket. *)
Lemma ipv6_node_misread : parseClusterNodes "[::1]:6379" = Ok [mkNode "[" 6379].
Proof. reflexivity. Qed.
