(* ===== verification/RedisCommands.v ===== *)
(** * RedisCommands: the commands of [RedisService]

    [libs/redis/redis.service.ts] lines 83-152: [get], [set], [del], [expire],
    [scanKeys] in its two modes, and the shutdown.  The key commands run on any
    [KeyValueStore].  SCAN is a parameter of its own, the class [ScanServer], with
    what Redis documents of it as [ScanLaws]: it only returns keys that are there
    and match; a full iteration returns every key that is there all along; and an
    iteration over a keyspace of bounded size ends. *)
From S2P Require Import Prelude Errors KeyValue JsString JsNumber RedisService.

#[local] Open Scope Z_scope.

(** ** Commands on one key *)

Section commands.
Context {S : Type} `{KeyValueStore S}.

Inductive command : Type :=
| get (key : string)
| set (key value : string) (ttlSeconds : option Z)
| del (key : string)
| expire (key : string) (ttlSeconds : Z).

Inductive reply : Type :=
| Bulk (value : option string)
| OK
| Integer (n : Z).

(** A method of the service, called at time [t]. *)
Definition run_command (t : Z) (c : command) (s : S) : reply * S :=
  match c with
  | get key => (Bulk (kv_get t key s), s)
  | set key value (Some ttlSeconds) => (OK, kv_set_ex t key value ttlSeconds s)
  | set key value None => (OK, kv_set t key value s)
  | del key => let '(n, s') := kv_del t key s in (Integer n, s')
  | expire key ttlSeconds => let '(n, s') := kv_expire t key ttlSeconds s in (Integer n, s')
  end.

Fixpoint run_commands (cs : list (Z * command)) (s : S) : list reply :=
  match cs with
  | [] => []
  | (t, c) :: cs => let '(r, s') := run_command t c s in r :: run_commands cs s'
  end.
End commands.

(** [onModuleDestroy]: the client that is quit.  The isolated clients are closed by
    whoever asked for them. *)
Definition onModuleDestroy (s : RedisService) : Client := client s.

(** ** Specification of the commands

    What a GET of each key would find at each later instant. *)
Definition future : Type := Z → string → option string.

Definition write (t : Z) (key value : string) (ttlSeconds : option Z) (f : future) : future :=
  λ t' k, if decide (k = key) then
            match ttlSeconds with
            | Some ttl => if decide (t' < t + ttl * 1000) then Some value else None
            | None => Some value
            end
          else f t' k.

Definition spec_command (t : Z) (c : command) (f : future) : reply * future :=
  match c with
  | get key => (Bulk (f t key), f)
  | set key value ttlSeconds => (OK, write t key value ttlSeconds f)
  | del key =>
      (Integer (if decide (is_Some (f t key)) then 1 else 0),
       λ t' k, if decide (k = key) then None else f t' k)
  | expire key ttlSeconds =>
      match f t key with
      | Some value => (Integer 1, write t key value (Some ttlSeconds) f)
      | None => (Integer 0, f)
      end
  end.

Fixpoint spec_commands (cs : list (Z * command)) (f : future) : list reply :=
  match cs with
  | [] => []
  | (t, c) :: cs => let '(r, f') := spec_command t c f in r :: spec_commands cs f'
  end.

(** The instants of a list of commands do not decrease from [t] on. *)
Fixpoint in_order (t : Z) (cs : list (Z * command)) : Prop :=
  match cs with
  | [] => True
  | (t', _) :: cs => t ≤ t' ∧ in_order t' cs
  end.

Section commands_refine.
Context {S : Type} `{KeyValueLaws S}.

(** From [t] on, [s] answers as [f] foresees. *)
Definition foresees (t : Z) (f : future) (s : S) : Prop :=
  ∀ t' k, t ≤ t' → kv_get t' k s = f t' k.

(** A command gives the specified reply and a store that is foreseen again. *)
Lemma run_command_refines t c f s :
  foresees t f s →
  (run_command t c s).1 = (spec_command t c f).1 ∧
  foresees t (spec_command t c f).2 (run_command t c s).2.
Proof.
  intros F. pose proof (λ k, F t k (Z.le_refl t)) as F0.
  destruct c as [key|key value [ttl|]|key|key ttl]; cbn.
  - split; [by rewrite F0|done].
  - split; [done|]. intros t' k Ht. rewrite set_ex_get by done. unfold write. by rewrite F.
  - split; [done|]. intros t' k Ht. rewrite set_get by done. unfold write. by rewrite F.
  - pose proof (del_count t key s) as Hc. pose proof (λ t' k', del_get t key s t' k') as Hg.
    destruct (kv_del t key s) as [n s']. cbn in *. split; [by rewrite Hc, F0|].
    intros t' k Ht. by rewrite Hg, F by done.
  - rewrite <-F0. destruct (kv_get t key s) as [v|] eqn:E.
    + destruct (expire_live t key ttl s v E) as [Hn Hg].
      destruct (kv_expire t key ttl s) as [n s']. cbn in *. split; [by rewrite Hn|].
      intros t' k Ht. rewrite Hg by done. unfold write. by rewrite F.
    + rewrite (expire_absent t key ttl s E). by split.
Qed.
End commands_refine.

(** ** SCAN *)

Class ScanServer (N : Type) : Type := {
  (** [SCAN cursor MATCH pattern COUNT count]: the next cursor and some keys, and
      the node as the next call finds it, other clients' commands included. *)
  scan : string → string → Z → N → res (string * list string) * N;
  holds : N → string → bool;             (** the key is stored *)
  glob : string → string → bool;         (** the key matches the pattern *)
  remaining : string → N → nat }.        (** a bound on the calls left from a cursor *)

(** A complete iteration from a cursor: the keys it returns and the states of the
    node it saw. *)
Inductive iteration {N} `{ScanServer N} (pattern : string) (count : Z)
    : string → N → list string → list N → Prop :=
| iteration_last cursor n ks n' :
    scan cursor pattern count n = (Ok ("0", ks), n') → iteration pattern count cursor n ks [n]
| iteration_more cursor n c ks n' ks' ns :
    scan cursor pattern count n = (Ok (c, ks), n') → c ≠ "0" →
    iteration pattern count c n' ks' ns →
    iteration pattern count cursor n (ks ++ ks') (n :: ns).

Class ScanLaws (N : Type) `{ScanServer N} : Prop := {
  scan_sound cursor pattern count n c ks n' k :
    scan cursor pattern count n = (Ok (c, ks), n') → k ∈ ks →
    glob pattern k = true ∧ holds n k = true;
  scan_full pattern count n ks ns k :
    iteration pattern count "0" n ks ns → glob pattern k = true →
    Forall (λ m, holds m k = true) ns → k ∈ ks;
  scan_bounded cursor pattern count n c ks n' :
    scan cursor pattern count n = (Ok (c, ks), n') → c ≠ "0" →
    (remaining c n' < remaining cursor n)%nat }.

Section scanning.
Context {N : Type} `{ScanLaws N}.

(** The [do ... while (cursor !== '0')] both modes have; [None] is a loop that is
    still running. *)
Fixpoint scan_loop (fuel : nat) (pattern cursor : string) (keys : list string) (n : N)
    : option (res (list string)) :=
  match fuel with
  | O => None
  | Datatypes.S fuel =>
      match scan cursor pattern 100 n with
      | (Ok (c, ks), n') =>
          let keys := keys ++ ks in
          if bool_decide (c = "0") then Some (Ok keys) else scan_loop fuel pattern c keys n'
      | (Err e, _) => Some (Err e)
      end
  end.

Definition scanSingleKeys (fuel : nat) (pattern : string) (n : N) : option (res (list string)) :=
  scan_loop fuel pattern "0" [] n.

(** [Promise.all]: rejects with the first rejection, in the order [settled] in
    which the promises settle; resolves when all have. *)
Definition rejection {A} (r : option (res A)) : option exn :=
  match r with Some (Err e) => Some e | _ => None end.

Definition resolution {A} (r : option (res A)) : option A :=
  match r with Some (Ok a) => Some a | _ => None end.

Definition Promise_all {A} (settled : list nat) (rs : list (option (res A)))
    : option (res (list A)) :=
  match omap (λ i, rs !! i ≫= rejection) settled with
  | e :: _ => Some (Err e)
  | [] => Ok <$> mapM resolution rs
  end.

(** Every master is scanned; the results are flattened. *)
Definition scanClusterKeys (fuel : nat) (pattern : string) (settled : list nat) (masters : list N)
    : option (res (list string)) :=
  match Promise_all settled ((λ node, scan_loop fuel pattern "0" [] node) <$> masters) with
  | Some (Ok results) => Some (Ok (mjoin results))
  | Some (Err e) => Some (Err e)
  | None => None
  end.

(** [n] is the node of a standalone client, [masters] those of a cluster. *)
Definition scanKeys (fuel : nat) (pattern : string) (settled : list nat) (s : RedisService)
    (n : N) (masters : list N) : option (res (list string)) :=
  if isCluster s then scanClusterKeys fuel pattern settled masters
  else scanSingleKeys fuel pattern n.

(** The states of a node the loop's calls see. *)
Fixpoint visited (fuel : nat) (pattern cursor : string) (n : N) : list N :=
  match fuel with
  | O => []
  | Datatypes.S fuel =>
      n :: match scan cursor pattern 100 n with
           | (Ok (c, _), n') => if bool_decide (c = "0") then [] else visited fuel pattern c n'
           | (Err _, _) => []
           end
  end.

(** ** Lemmas *)

(** The loop is a complete iteration, or stops at the first call that fails. *)
Lemma scan_loop_iteration fuel pattern cursor keys n :
  (remaining cursor n < fuel)%nat →
  (∃ ks, scan_loop fuel pattern cursor keys n = Some (Ok (keys ++ ks)) ∧
     iteration pattern 100 cursor n ks (visited fuel pattern cursor n)) ∨
  (∃ e m c, scan_loop fuel pattern cursor keys n = Some (Err e) ∧
     m ∈ visited fuel pattern cursor n ∧ (scan c pattern 100 m).1 = Err e).
Proof.
  revert cursor keys n. induction fuel as [|fuel IH]; intros cursor keys n Hf; [lia|]. cbn.
  destruct (scan cursor pattern 100 n) as [[[c ks]|e] n'] eqn:E.
  - case_bool_decide as Hc.
    + subst c. left. exists ks. split; [done|]. by eapply iteration_last.
    + pose proof (scan_bounded _ _ _ _ _ _ _ E Hc).
      destruct (IH c (keys ++ ks) n') as [(ks' & -> & I)|(e & m & c' & -> & Hm & He)]; [lia| |].
      * left. exists (ks ++ ks'). rewrite (assoc_L (++)). split; [done|]. by eapply iteration_more.
      * right. exists e, m, c'. split_and!; [done|set_solver|done].
  - right. exists e, n, cursor. rewrite E. split_and!; [done|set_solver|done].
Qed.

Lemma iteration_sound pattern count cursor n ks ns k :
  iteration pattern count cursor n ks ns → k ∈ ks →
  glob pattern k = true ∧ Exists (λ m, holds m k = true) ns.
Proof.
  induction 1 as [cursor n ks n' E|cursor n c ks n' ks' ns E Hc I IH].
  - intros Hk. destruct (scan_sound _ _ _ _ _ _ _ k E Hk). split; [done|]. by apply Exists_cons_hd.
  - intros [Hk|Hk]%elem_of_app.
    + destruct (scan_sound _ _ _ _ _ _ _ k E Hk). split; [done|]. by apply Exists_cons_hd.
    + destruct (IH Hk). split; [done|]. by apply Exists_cons_tl.
Qed.

(** What is known of one node's loop started at the cursor "0". *)
Definition scanned (fuel : nat) (pattern : string) (n : N) (r : option (res (list string))) : Prop :=
  match r with
  | Some (Ok ks) =>
      (∀ k, k ∈ ks → glob pattern k = true ∧ Exists (λ m, holds m k = true) (visited fuel pattern "0" n)) ∧
      (∀ k, glob pattern k = true → Forall (λ m, holds m k = true) (visited fuel pattern "0" n) → k ∈ ks)
  | Some (Err e) => ∃ m c, m ∈ visited fuel pattern "0" n ∧ (scan c pattern 100 m).1 = Err e
  | None => False
  end.

Lemma scan_loop_scanned fuel pattern n :
  (remaining "0" n < fuel)%nat → scanned fuel pattern n (scan_loop fuel pattern "0" [] n).
Proof.
  intros Hf. destruct (scan_loop_iteration fuel pattern "0" [] n Hf) as [(ks & -> & I)|(e & m & c & -> & ? & ?)].
  - cbn. split; intros k.
    + by apply (iteration_sound _ _ _ _ _ _ k I).
    + intros Hg Hall. by eapply scan_full.
  - cbn. eauto.
Qed.

Lemma Promise_all_spec {A} settled (rs : list (option (res A))) :
  settled ≡ₚ seq 0 (length rs) → Forall is_Some rs →
  match Promise_all settled rs with
  | Some (Ok l) => rs = (λ a, Some (Ok a)) <$> l
  | Some (Err e) => Some (Err e) ∈ rs
  | None => False
  end.
Proof.
  intros Hp Hs. unfold Promise_all. destruct (omap _ settled) as [|e es] eqn:E.
  - rewrite omap_nil_iff in E.
    assert (Ha : ∃ l, rs = (λ a, Some (Ok a)) <$> l).
    { assert (Hr : ∀ r, r ∈ rs → rejection r = None).
      { intros r [i Hi]%list_elem_of_lookup. specialize (E i). rewrite Hi in E. apply E.
        rewrite Hp. apply elem_of_seq. apply lookup_lt_Some in Hi. lia. }
      clear E Hp. induction Hs as [|r rs [[a|e] ->] Hs IH]; [by exists []| |].
      - destruct IH as [l ->]; [intros r' ?; apply Hr; set_solver|]. by exists (a :: l).
      - by specialize (Hr (Some (Err e)) ltac:(set_solver)). }
    destruct Ha as [l ->]. rewrite (proj2 (mapM_Some resolution _ l)); [done|].
    clear. induction l; constructor; auto.
  - assert (Hi : e ∈ omap (λ i, rs !! i ≫= rejection) settled) by (rewrite E; set_solver).
    apply list_elem_of_omap in Hi as (i & _ & Hi). destruct (rs !! i) as [[[a|e']|]|] eqn:Hr; try done.
    injection Hi as ->. by eapply list_elem_of_lookup_2.
Qed.

Lemma loops_end fuel pattern (nodes : list N) :
  (∀ m, m ∈ nodes → scanned fuel pattern m (scan_loop fuel pattern "0" [] m)) →
  Forall is_Some (scan_loop fuel pattern "0" [] <$> nodes).
Proof.
  intros Hs. apply Forall_fmap, Forall_forall. intros m Hm%Hs. unfold compose.
  by destruct (scan_loop _ _ _ _ m).
Qed.

(** The keys of several nodes together. *)
Lemma flattened fuel pattern nodes l :
  (∀ m, m ∈ nodes → scanned fuel pattern m (scan_loop fuel pattern "0" [] m)) →
  scan_loop fuel pattern "0" [] <$> nodes = (λ ks, Some (Ok ks)) <$> l →
  (∀ k, k ∈ mjoin l → glob pattern k = true ∧
     Exists (λ m, Exists (λ m', holds m' k = true) (visited fuel pattern "0" m)) nodes) ∧
  (∀ k m, m ∈ nodes → glob pattern k = true →
     Forall (λ m', holds m' k = true) (visited fuel pattern "0" m) → k ∈ mjoin l).
Proof.
  intros Hs Hl. split.
  - intros k (ks & Hk & Hks)%list_elem_of_join.
    assert (Hi : (Some (Ok ks) : option (res (list string))) ∈ scan_loop fuel pattern "0" [] <$> nodes).
    { rewrite Hl. by apply (list_elem_of_fmap_2 (λ ks, Some (Ok ks))). }
    apply list_elem_of_fmap in Hi as (m & Hm & Hin). specialize (Hs m Hin). rewrite <-Hm in Hs.
    destruct Hs as [H1 _]. destruct (H1 k Hk) as [? ?]. split; [done|]. apply Exists_exists. eauto.
  - intros k m Hm Hg Hall.
    assert (Hi : scan_loop fuel pattern "0" [] m ∈ ((λ ks, Some (Ok ks)) <$> l : list (option (res (list string)))))
      by (rewrite <-Hl; by apply list_elem_of_fmap_2).
    apply list_elem_of_fmap in Hi as (ks & Hks & Hin). specialize (Hs m Hm). rewrite Hks in Hs.
    apply list_elem_of_join. exists ks. split; [by apply Hs|done].
Qed.
End scanning.

(** ** Properties *)

(** The service's commands are those of a map with expiry.  Over any store that
    keeps the laws of Redis, any sequence of [get], [set] with or without a TTL,
    [del] and [expire], at instants that do not decrease, gets the replies of the
    specification, which keeps nothing but what a GET would find at each instant. *)
Theorem commands_refine {S} `{KeyValueLaws S} t cs (f : future) (s : S) :
  foresees t f s → in_order t cs → run_commands cs s = spec_commands cs f.
Proof.
  revert t f s. induction cs as [|[t' c] cs IH]; intros t f s F; [done|]. intros [Ht Ho].
  assert (F' : foresees t' f s) by (intros x k Hx; apply F; lia).
  destruct (run_command_refines t' c f s F') as [Hr Hf]. cbn.
  destruct (run_command t' c s) as [r s'], (spec_command t' c f) as [r' f']. cbn in *.
  by rewrite Hr, (IH t' f' s' Hf Ho).
Qed.

(** [scanKeys] ends, and finds the keys of every shard.  Given enough
    iterations for each node it asks (one node, or every master of a cluster), it
    returns keys that match the pattern and were stored on one of the nodes while
    it was scanned, among them every matching key that stayed on its node during
    the scan; or it rejects with the error of one of its SCAN calls.  In whatever
    order the masters answer, the result is the same kind. *)
Theorem scanKeys_complete {N} `{ScanLaws N} fuel pattern settled s (n : N) masters :
  let nodes := if isCluster s then masters else [n] in
  Forall (λ m, (remaining "0" m < fuel)%nat) nodes → settled ≡ₚ seq 0 (length nodes) →
  match scanKeys fuel pattern settled s n masters with
  | Some (Ok keys) =>
      (∀ k, k ∈ keys → glob pattern k = true ∧
         Exists (λ m, Exists (λ m', holds m' k = true) (visited fuel pattern "0" m)) nodes) ∧
      (∀ k m, m ∈ nodes → glob pattern k = true →
         Forall (λ m', holds m' k = true) (visited fuel pattern "0" m) → k ∈ keys)
  | Some (Err e) =>
      ∃ m m' c, m ∈ nodes ∧ m' ∈ visited fuel pattern "0" m ∧ (scan c pattern 100 m').1 = Err e
  | None => False
  end.
Proof.
  intros nodes Hf Hp.
  assert (Hs : ∀ m, m ∈ nodes → scanned fuel pattern m (scan_loop fuel pattern "0" [] m)).
  { intros m Hm. apply scan_loop_scanned. by eapply Forall_forall in Hf. }
  unfold scanKeys, scanSingleKeys, scanClusterKeys. subst nodes. destruct (isCluster s).
  - pose proof (Promise_all_spec settled (scan_loop fuel pattern "0" [] <$> masters)) as Ha.
    rewrite length_fmap in Ha. specialize (Ha Hp). destruct (Promise_all _ _) as [[l|e]|].
    + apply flattened; [done|]. apply Ha, loops_end, Hs.
    + assert (He : Some (Err e) ∈ scan_loop fuel pattern "0" [] <$> masters) by apply Ha, loops_end, Hs.
      apply list_elem_of_fmap in He as (m & He & Hm). specialize (Hs m Hm). rewrite <-He in Hs.
      destruct Hs as (m' & c & ? & ?). by exists m, m', c.
    + apply Ha, loops_end, Hs.
  - specialize (Hs n ltac:(set_solver)). destruct (scan_loop _ _ _ _ n) as [[ks|e]|]; [| |done].
    + destruct Hs as [H1 H2]. split.
      * intros k Hk. destruct (H1 k Hk) as [? ?]. split; [done|]. by apply Exists_cons_hd.
      * intros k m ->%list_elem_of_singleton. apply H2.
    + destruct Hs as (m' & c & ? & ?). exists n, m', c. split_and!; [set_solver|done..].
Qed.

(** ** Instances *)

Definition sample_commands : list (Z * command) :=
  [(0, set "a" "1" (Some 10)); (5000, get "a"); (6000, expire "a" 10); (12000, get "a");
   (16000, get "a"); (17000, del "a"); (18000, set "b" "2" None); (19000, del "b")].

Lemma commands_refine_witness :
  foresees 0 (λ _ _, None) (∅ : kv) ∧ in_order 0 sample_commands ∧
  run_commands sample_commands (∅ : kv) = spec_commands sample_commands (λ _ _, None) ∧
  spec_commands sample_commands (λ _ _, None) =
    [OK; Bulk (Some "1"); Integer 1; Bulk (Some "1"); Bulk None; Integer 0; OK; Integer 1].
Proof.
  assert (F : foresees 0 (λ _ _, None) (∅ : kv)) by done.
  assert (O : in_order 0 sample_commands) by (cbn; lia).
  split; [exact F|split; [exact O|split; [exact (commands_refine 0 sample_commands _ _ F O)|]]].
  vm_compute. reflexivity.
Defined.

(** A node that serves its keys page by page, with the number of the next page as
    the cursor. *)
Abbreviation pages := (list (list string)).

#[local] Arguments String_of_Z : simpl never.
#[local] Arguments Z.of_nat : simpl never.

Definition page_of (cursor : string) : nat := Z.to_nat (default 0 (parseInt10 cursor)).

Definition match_all (pattern k : string) : bool := bool_decide (pattern = "*" ∨ pattern = k).

#[export] Instance pages_server : ScanServer pages := {|
  scan cursor pattern count n :=
    let i := page_of cursor in
    let c := if bool_decide (S i < length n)%nat then String_of_Z (Z.of_nat (S i)) else "0" in
    (Ok (c, filter (λ k, match_all pattern k = true) (default [] (n !! i))), n);
  holds n k := bool_decide (k ∈ mjoin n);
  glob := match_all;
  remaining cursor n := (length n - page_of cursor)%nat |}.

Lemma page_of_printed i : page_of (String_of_Z (Z.of_nat i)) = i.
Proof. unfold page_of. rewrite parseInt10_String_of_Z by lia. cbn. lia. Qed.

(** From a page on, an iteration returns what is stored on that page and on the
    later ones. *)
Lemma pages_iteration pattern count cursor n ks ns k i page :
  iteration (N := pages) pattern count cursor n ks ns → match_all pattern k = true →
  n !! i = Some page → (page_of cursor ≤ i)%nat → k ∈ page → k ∈ ks.
Proof.
  induction 1 as [cursor n ks n' E|cursor n c ks n' ks' ns E Hc I IH]; intros Hk Hi Hle Hp;
    cbn in E; injection E as Ec <- <-.
  - case_bool_decide.
    + exfalso. pose proof (page_of_printed (S (page_of cursor))) as Hq. by rewrite Ec in Hq.
    + apply lookup_lt_Some in Hi as Hlt. assert (Hc : page_of cursor = i) by lia.
      rewrite Hc, Hi. by apply list_elem_of_filter.
  - apply elem_of_app. destruct (decide (page_of cursor = i)) as [Hne|Hne].
    + left. rewrite Hne, Hi. by apply list_elem_of_filter.
    + right. apply IH; try done. rewrite <-Ec. case_bool_decide; [rewrite page_of_printed; lia|change (page_of "0") with 0%nat; lia].
Qed.

#[export] Instance pages_laws : ScanLaws pages.
Proof.
  constructor; cbn.
  - intros cursor pattern count n c ks n' k [= _ <- <-] [Hg Hk]%list_elem_of_filter.
    split; [done|]. apply bool_decide_eq_true, list_elem_of_join.
    destruct (n !! page_of cursor) as [page|] eqn:E; [|by apply elem_of_nil in Hk].
    exists page. split; [done|]. by eapply list_elem_of_lookup_2.
  - intros pattern count n ks ns k I Hg Hall.
    assert (Hn : ∃ ms, ns = n :: ms) by (destruct I; eauto). destruct Hn as [ms ->].
    apply Forall_cons in Hall as [Hk%bool_decide_eq_true _].
    apply list_elem_of_join in Hk as (page & Hk & [i Hi]%list_elem_of_lookup).
    eapply pages_iteration; [exact I|done|exact Hi|change (page_of "0") with 0%nat; lia|done].
  - intros cursor pattern count n c ks n' [= <- _ <-]. case_bool_decide; [|done]. intros _.
    rewrite page_of_printed. lia.
Qed.

Definition shards : list pages := [[["a"; "b"]; []; ["c"]]; [["d"]; ["e"]]].

Definition cluster_service : RedisService := mkRedisService true (Redis "localhost" 6379 None None).

Lemma scanKeys_complete_witness :
  Forall (λ m : pages, (remaining "0" m < 4)%nat) shards ∧ [1; 0]%nat ≡ₚ seq 0 (length shards) ∧
  scanKeys 4 "*" [1; 0]%nat cluster_service [] shards = Some (Ok ["a"; "b"; "c"; "d"; "e"]) ∧
  "e" ∈ ["a"; "b"; "c"; "d"; "e"].
Proof.
  assert (Hf : Forall (λ m : pages, (remaining "0" m < 4)%nat) shards)
    by (repeat constructor; vm_compute; lia).
  assert (Hp : [1; 0]%nat ≡ₚ seq 0 (length shards)) by apply Permutation_swap.
  pose proof (scanKeys_complete 4 "*" [1; 0]%nat cluster_service [] shards Hf Hp) as H.
  assert (Hr : scanKeys 4 "*" [1; 0]%nat cluster_service [] shards = Some (Ok ["a"; "b"; "c"; "d"; "e"]))
    by (vm_compute; reflexivity).
  rewrite Hr in H. split; [exact Hf|split; [exact Hp|split; [exact Hr|]]].
  apply (proj2 H "e" [["d"]; ["e"]]); [right; left|reflexivity|]. repeat constructor.
Defined.
