(* ===== verification/Config.v ===== *)
(** * Config: the environment of a process

    [src/config/env.schema.ts] and [src/config/app.config.ts]: the variables, their
    defaults and bounds, the [.env] file, and the configuration object built from
    them.  A variable is a text or absent; a schema of Zod maps it to a value, or
    rejects it, and a rejected variable makes [EnvSchema.parse] throw.  The list of
    issues of that error is not modelled. *)
From Stdlib Require Import Ascii.
From S2P Require Import Prelude Errors JsString JsNumber RedisService.

#[local] Open Scope Z_scope.

(** [process.env], or the contents of a [.env] file. *)
Definition variables : Type := string → option string.

(** [process.loadEnvFile()]: a variable that is set keeps its value; [None] is a
    missing file, whose error is caught. *)
Definition loadEnvFile (env : variables) (file : option variables) : variables :=
  λ name, match env name with
          | Some v => Some v
          | None => file ≫= λ vars, vars name
          end.

(** ** Schemas of a variable *)

(** [z.enum([...]).default(d)], with the value each text stands for. *)
Definition z_enum {A} (options : list (string * A)) (d : A) (raw : option string) : option A :=
  match raw with
  | None => Some d
  | Some s => snd <$> (list_find (λ o, o.1 = s) options ≫= λ o, Some o.2)
  end.

(** [z.string().default(d)], [z.string().optional()]. *)
Definition z_string (d : string) (raw : option string) : option string := Some (default d raw).

(** [z.string().min(1).default(d)]. *)
Definition z_nonempty (d : string) (raw : option string) : option string :=
  match raw with
  | None => Some d
  | Some s => if bool_decide (s = "") then None else Some s
  end.

Definition MAX_SAFE_INTEGER : Z := 2 ^ 53 - 1.

(** The integer a double is, if it is one. *)
Definition integer_of (n : number) : option Z :=
  match n with
  | Finite negative m e =>
      if (0 <=? e) || (m mod 2 ^ (- e) =? 0)
      then Some (if negative then - floor m e else floor m e)
      else None
  | _ => None
  end.

(** [z.coerce.number().int().min(lo).default(d)]; [positive()] is [min(1)] on
    integers, and [int()] takes safe integers only. *)
Definition z_int (lo d : Z) (raw : option string) : option Z :=
  match raw with
  | None => Some d
  | Some s =>
      match integer_of (Number s) with
      | Some v => if (lo <=? v) && (Z.abs v <=? MAX_SAFE_INTEGER) then Some v else None
      | None => None
      end
  end.

(** [.+]: at least one character that is no line terminator. *)
Definition some_char (s : string) : bool :=
  match s with
  | String c _ => negb ((char_code c =? 10) || (char_code c =? 13))
  | EmptyString => false
  end.

(** [/^postgre(?:s|sql):\/\/.+/i]. *)
Definition is_postgres_url (s : string) : bool :=
  match strip_prefix_i "POSTGRES://" s with
  | Some rest => some_char rest
  | None => match strip_prefix_i "POSTGRESQL://" s with
            | Some rest => some_char rest
            | None => false
            end
  end.

(** [z.string().regex(...)]: required. *)
Definition z_postgres_url (raw : option string) : option string :=
  match raw with
  | Some s => if is_postgres_url s then Some s else None
  | None => None
  end.

(** ** The environment *)

Inductive NodeEnv : Type := development | production | test.

#[export] Instance NodeEnv_eq_dec : EqDecision NodeEnv.
Proof. solve_decision. Defined.

Definition node_env_options : list (string * NodeEnv) :=
  [("development", development); ("production", production); ("test", test)].

Definition boolean_options : list (string * bool) := [("true", true); ("false", false)].

Record Env : Type := mkEnvironment {
  NODE_ENV : NodeEnv;
  PORT : Z;
  PROXY_API_KEY : option string;
  DATABASE_URL : string;
  REDIS_HOST : string;
  REDIS_PORT : Z;
  REDIS_PASSWORD : option string;
  REDIS_DB : Z;
  REDIS_CLUSTER_MODE : bool;
  REDIS_CLUSTER_NODES : option string;
  RATE_LIMIT_ENABLED : bool;
  RATE_LIMIT_CAPACITY : Z;
  DATA_RETENTION_DAYS : Z;
  TIMEOUT_SWEEPER_CRON : string;
  DATA_RETENTION_CRON : string }.

(** The object schema. *)
Definition EnvObject (env : variables) : option Env :=
  node_env ← z_enum node_env_options production (env "NODE_ENV");
  port ← z_int 1 8080 (env "PORT");
  url ← z_postgres_url (env "DATABASE_URL");
  redis_host ← z_nonempty "localhost" (env "REDIS_HOST");
  redis_port ← z_int 1 6379 (env "REDIS_PORT");
  db ← z_int 0 0 (env "REDIS_DB");
  cluster ← z_enum boolean_options false (env "REDIS_CLUSTER_MODE");
  limited ← z_enum boolean_options false (env "RATE_LIMIT_ENABLED");
  capacity ← z_int 1 1000 (env "RATE_LIMIT_CAPACITY");
  days ← z_int 1 30 (env "DATA_RETENTION_DAYS");
  sweeper ← z_string "* * * * *" (env "TIMEOUT_SWEEPER_CRON");
  retention ← z_string "0 3 * * *" (env "DATA_RETENTION_CRON");
  Some (mkEnvironment node_env port (env "PROXY_API_KEY") url redis_host redis_port
    (env "REDIS_PASSWORD") db cluster (env "REDIS_CLUSTER_NODES") limited capacity days
    sweeper retention).

(** [superRefine]: cluster mode requires a list of nodes. *)
Definition cluster_rule (data : Env) : bool :=
  negb (REDIS_CLUSTER_MODE data &&
    match truthy (REDIS_CLUSTER_NODES data) with None => true | Some _ => false end).

Definition EnvSchema (env : variables) : option Env :=
  data ← EnvObject env;
  if cluster_rule data then Some data else None.

(** ** The configuration *)

Record AppConfig : Type := mkAppConfig {
  app_env : NodeEnv;
  app_port : Z;
  app_proxyApiKey : option string;
  database_url : string;
  redis : RedisConfig;
  rateLimit_enabled : bool;
  rateLimit_capacity : Z;
  dataRetentionDays : Z;
  timeoutSweeperCron : string;
  dataRetentionCron : string }.

(** The object [appConfig] returns. *)
Definition config_of (env : Env) : AppConfig :=
  mkAppConfig (NODE_ENV env) (PORT env) (PROXY_API_KEY env) (DATABASE_URL env)
    (mkRedisConfig (REDIS_HOST env) (REDIS_PORT env) (REDIS_PASSWORD env) (REDIS_DB env)
      (REDIS_CLUSTER_MODE env) (REDIS_CLUSTER_NODES env))
    (RATE_LIMIT_ENABLED env) (RATE_LIMIT_CAPACITY env)
    (DATA_RETENTION_DAYS env) (TIMEOUT_SWEEPER_CRON env) (DATA_RETENTION_CRON env).

Definition appConfig (env : variables) (file : option variables) : option AppConfig :=
  config_of <$> EnvSchema (loadEnvFile env file).

(** ** Well-formed configurations *)

(** What every accepted configuration satisfies.  There is no upper bound on the
    ports but that of safe integers. *)
Record config_wf (c : AppConfig) : Prop := {
  wf_port : 1 ≤ app_port c ≤ MAX_SAFE_INTEGER;
  wf_url : is_postgres_url (database_url c) = true;
  wf_redis_host : host (redis c) ≠ "";
  wf_redis_port : 1 ≤ port (redis c) ≤ MAX_SAFE_INTEGER;
  wf_redis_db : 0 ≤ redis_db (redis c) ≤ MAX_SAFE_INTEGER;
  wf_cluster : redis_env_ok (redis c) = true;
  wf_capacity : 1 ≤ rateLimit_capacity c ≤ MAX_SAFE_INTEGER;
  wf_days : 1 ≤ dataRetentionDays c ≤ MAX_SAFE_INTEGER }.

Lemma z_int_bounds lo d raw v :
  0 ≤ lo ≤ d → d ≤ MAX_SAFE_INTEGER → z_int lo d raw = Some v → lo ≤ v ≤ MAX_SAFE_INTEGER.
Proof.
  intros Hlo Hd. unfold z_int. destruct raw as [s|]; [|intros [= <-]; lia].
  destruct (integer_of _) as [w|]; [|done]. destruct (_ && _) eqn:E; [|done]. intros [= <-].
  apply andb_true_iff in E as [E1%Z.leb_le E2%Z.leb_le]. lia.
Qed.

Lemma z_nonempty_ne d raw v : d ≠ "" → z_nonempty d raw = Some v → v ≠ "".
Proof.
  intros Hd. unfold z_nonempty. destruct raw as [s|]; [|by intros [= <-]].
  case_bool_decide; [done|]. by intros [= <-].
Qed.

Lemma EnvSchema_wf env data : EnvSchema env = Some data → config_wf (config_of data).
Proof.
  unfold EnvSchema, EnvObject. intros H.
  repeat match goal with
  | H : mbind _ ?o = Some _ |- _ =>
      apply bind_Some in H; let x := fresh "x" in let E := fresh "E" in destruct H as (x & E & H)
  end.
  destruct (cluster_rule x) eqn:Hr; [|done]. injection H as <-. injection E as <-.
  assert (M : 10000 ≤ MAX_SAFE_INTEGER) by (vm_compute; done).
  constructor; simpl; try (eapply z_int_bounds; [| |eassumption]; lia).
  - unfold z_postgres_url in *. repeat case_match; by simplify_eq.
  - by eapply z_nonempty_ne; [|eassumption].
  - exact Hr.
Qed.

(** ** Printed configurations *)

Fixpoint assignments (l : list (string * option string)) : variables :=
  match l with
  | [] => λ _, None
  | (name, v) :: l => λ n, if String.eqb n name then v else assignments l n
  end.

Definition print_bool (b : bool) : string := if b then "true" else "false".

Definition print_node_env (e : NodeEnv) : string :=
  match e with development => "development" | production => "production" | test => "test" end.

(** The variables an operator sets for a configuration. *)
Definition print_config (c : AppConfig) : variables :=
  assignments
    [("NODE_ENV", Some (print_node_env (app_env c))); ("PORT", Some (String_of_Z (app_port c)));
     ("PROXY_API_KEY", app_proxyApiKey c); ("DATABASE_URL", Some (database_url c));
     ("REDIS_HOST", Some (host (redis c))); ("REDIS_PORT", Some (String_of_Z (port (redis c))));
     ("REDIS_PASSWORD", password (redis c)); ("REDIS_DB", Some (String_of_Z (redis_db (redis c))));
     ("REDIS_CLUSTER_MODE", Some (print_bool (clusterMode (redis c))));
     ("REDIS_CLUSTER_NODES", clusterNodes (redis c));
     ("RATE_LIMIT_ENABLED", Some (print_bool (rateLimit_enabled c)));
     ("RATE_LIMIT_CAPACITY", Some (String_of_Z (rateLimit_capacity c)));
     ("DATA_RETENTION_DAYS", Some (String_of_Z (dataRetentionDays c)));
     ("TIMEOUT_SWEEPER_CRON", Some (timeoutSweeperCron c));
     ("DATA_RETENTION_CRON", Some (dataRetentionCron c))].

(** A printed natural number that a double represents is read back. *)
Lemma integer_of_printed n :
  0 ≤ n ≤ MAX_SAFE_INTEGER → integer_of (Number (String_of_Z n)) = Some n.
Proof.
  unfold MAX_SAFE_INTEGER. intros Hn. destruct (String_of_Z_digits n) as (Hd & k & Hk & Hs); [lia|].
  rewrite (Number_digits _ n k Hd Hk Hs). unfold of_decimal. cbn [Z.leb].
  change (0 <=? 0) with true. cbn iota. rewrite Z.mul_1_r.
  destruct (round_double_int n) as (m & e & -> & Hf & Hi); [lia|].
  unfold integer_of. by rewrite Hi, Hf.
Qed.

Lemma z_int_printed lo d n :
  0 ≤ lo ≤ n → n ≤ MAX_SAFE_INTEGER → z_int lo d (Some (String_of_Z n)) = Some n.
Proof.
  intros Hlo Hn. unfold z_int. rewrite integer_of_printed by lia.
  by rewrite (proj2 (Z.leb_le lo n)), (proj2 (Z.leb_le (Z.abs n) _)) by lia.
Qed.

Lemma z_enum_bool b d : z_enum boolean_options d (Some (print_bool b)) = Some b.
Proof. by destruct b. Qed.

Lemma z_enum_node_env e d : z_enum node_env_options d (Some (print_node_env e)) = Some e.
Proof. by destruct e. Qed.

(** ** Properties *)

(** In cluster mode an accepted configuration has a list of nodes, so that a Redis
    client can only fail to be built because of an entry of that list. *)
Lemma config_connects env file c e :
  appConfig env file = Some c → createBullMqConnection (redis c) = Err e →
  ∃ raw entry, clusterNodes (redis c) = Some raw ∧ entry ∈ split comma raw ∧
    parseClusterNode entry = Err e.
Proof.
  unfold appConfig. rewrite fmap_Some. intros (data & W%EnvSchema_wf & ->).
  destruct W as [_ _ _ _ _ Hc _ _]. unfold createBullMqConnection, new_Cluster.
  unfold redis_env_ok in Hc. destruct (clusterMode _); [|done].
  destruct (truthy _) as [raw|] eqn:Ht; [|done]. apply truthy_Some in Ht as [Ht _].
  unfold parseClusterNodes. pose proof (map_entries_ok (split comma raw)) as Hm.
  destruct (map_entries _) as [|e']; [done|]. intros [= <-].
  destruct Hm as (entry & ? & ?). by exists raw, entry.
Qed.

Lemma print_config_read c : config_wf c → appConfig (print_config c) None = Some c.
Proof.
  intros [Hp Hu Hh Hrp Hdb Hcl Hcap Hd]. destruct c as [ne p key url [h rp pw db cm cn] rl cap days c1 c2].
  simpl in *. unfold appConfig, EnvSchema, EnvObject.
  assert (L : ∀ name, loadEnvFile (print_config (mkAppConfig ne p key url (mkRedisConfig h rp pw db cm cn) rl cap days c1 c2)) None name
    = print_config (mkAppConfig ne p key url (mkRedisConfig h rp pw db cm cn) rl cap days c1 c2) name).
  { intros name. unfold loadEnvFile. by destruct (print_config _ name). }
  rewrite !L. cbn [print_config assignments String.eqb Ascii.eqb Bool.eqb app_env app_port
    app_proxyApiKey database_url redis host port password redis_db clusterMode clusterNodes
    rateLimit_enabled rateLimit_capacity dataRetentionDays timeoutSweeperCron dataRetentionCron].
  rewrite z_enum_node_env, !z_enum_bool, !z_int_printed by lia.
  unfold z_postgres_url, z_nonempty. rewrite Hu, bool_decide_eq_false_2 by done. cbn.
  unfold cluster_rule, redis_env_ok in *. cbn in *. by rewrite Hcl.
Qed.


(** ** Instances *)

Definition only_database_url : variables :=
  assignments [("DATABASE_URL", Some "postgresql://proxy@db/proxy")].

Definition default_config : AppConfig :=
  mkAppConfig production 8080 None "postgresql://proxy@db/proxy"
    (mkRedisConfig "localhost" 6379 None 0 false None) false 1000 30 "* * * * *" "0 3 * * *".

(** The defaults. *)
Example defaults : appConfig only_database_url None = Some default_config.
Proof. vm_compute. reflexivity. Qed.

Lemma default_config_wf : config_wf default_config.
Proof. by constructor. Qed.


(** A [.env] file does not override the environment, and supplies what it leaves out. *)
Example env_file_fills_in :
  app_port <$> appConfig only_database_url (Some (assignments [("PORT", Some "9000"); ("DATABASE_URL", Some "x")]))
    = Some 9000.
Proof. vm_compute. reflexivity. Qed.

(** Rejected: no URL, an empty or fractional port, a cluster without nodes. *)
Example rejected :
  appConfig (assignments []) None = None ∧
  (∀ v, v ∈ [""; "0"; "80.5"; "http"; "9007199254740992"] →
     appConfig (assignments [("PORT", Some v); ("DATABASE_URL", Some "postgres://db")]) None = None) ∧
  appConfig (assignments [("REDIS_CLUSTER_MODE", Some "true"); ("REDIS_CLUSTER_NODES", Some "");
                          ("DATABASE_URL", Some "postgres://db")]) None = None.
Proof.
  split; [vm_compute; reflexivity|split; [|vm_compute; reflexivity]]. intros v Hv.
  repeat (apply elem_of_cons in Hv as [->|Hv]; [vm_compute; reflexivity|]). by apply elem_of_nil in Hv.
Qed.

(** The validation accepts ports no socket can have. *)
Example port_above_65535 :
  app_port <$> appConfig (assignments [("PORT", Some "70000"); ("DATABASE_URL", Some "postgres://db")]) None
    = Some 70000.
Proof. vm_compute. reflexivity. Qed.
