(* ===== verification/QueueAdapter.v ===== *)
(** * QueueAdapter: the BullMQ-backed [IQueueAdapter]

    [libs/queue/bullmq.adapter.ts] and [libs/queue/queue.types.ts]: the options a
    job is added with, the pool of [Queue] instances, the probe made at startup
    and the shutdown.  The connection of a queue is [createBullMqConnection] of
    RedisService.v. *)
From S2P Require Import Prelude Errors Schema Database KeyValue Effects Memo JsString JsNumber RedisService.

Record JobOptions : Type := mkJobOptions {
  priority : option Z;
  delay : option Z;
  job_attempts : option Z;
  backoff : option Z }.

(** The third argument of [queue.add]: an absent option is left out, except
    [attempts], which defaults to 3. *)
Definition add_options (options : option JobOptions) : BullMqOptions :=
  {| o_priority := options ≫= priority;
     o_delay := options ≫= delay;
     o_attempts := nullish (options ≫= job_attempts) 3%Z;
     o_backoff := options ≫= backoff |}.

(** [enqueue] once the queue is there: the [catch] logs and rethrows.  The
    handlers use this form, which names the queue; [adapter_enqueue], below, is
    the method with its pool, and [adapter_transparent] shows that a valid
    configuration makes them the same program. *)
Definition enqueue (queueName name : string) (data : job_data) (options : option JobOptions)
    : prog unit :=
  catch (await (QueueAdd (mkJob queueName name data (add_options options))))
    (λ err, Throw err).

Definition attempts_only (n : Z) : option JobOptions :=
  Some (mkJobOptions None None (Some n) None).

(** ** The pool of queues *)

(** A BullMQ [Queue]: its name, its connection, and which construction made it. *)
Record Queue : Type := mkQueue {
  q_name : string;
  q_connection : Client;
  q_instance : nat }.

Section adapter.
Context (config : RedisConfig).

(** [new Queue(name, { connection: createBullMqConnection(this.config), ... })]. *)
Definition new_Queue (name : string) (n : nat) : res Queue :=
  match createBullMqConnection config with
  | Ok connection => Ok (mkQueue name connection n)
  | Err e => Err e
  end.

(** The field [queues]. *)
Definition BullMqAdapter : Type := @memo string _ _ Queue.

Definition new_adapter : BullMqAdapter := empty_memo.

Definition getQueue (name : string) (a : BullMqAdapter) : res Queue * BullMqAdapter :=
  memo_get new_Queue name a.

(** A sequence of accesses. *)
Definition getQueues (names : list string) (a : BullMqAdapter) : list (res Queue) * BullMqAdapter :=
  memo_gets new_Queue names a.

(** [enqueue]: [getQueue] is inside the [try]. *)
Definition adapter_enqueue (queueName name : string) (data : job_data)
    (options : option JobOptions) (a : BullMqAdapter) : prog unit * BullMqAdapter :=
  let '(queue, a') := getQueue queueName a in
  (catch (match queue with
          | Ok queue => await (QueueAdd (mkJob (q_name queue) name data (add_options options)))
          | Err e => Throw e
          end) (λ err, Throw err), a').

(** What one call of [enqueue] passes. *)
Definition enqueue_args : Type := string * string * job_data * option JobOptions.

Fixpoint adapter_enqueues (calls : list enqueue_args) (a : BullMqAdapter)
    : list (prog unit) * BullMqAdapter :=
  match calls with
  | [] => ([], a)
  | (queueName, name, data, options) :: calls =>
      let '(p, a1) := adapter_enqueue queueName name data options a in
      let '(ps, a2) := adapter_enqueues calls a1 in (p :: ps, a2)
  end.

(** [onModuleDestroy]: the instances that are closed. *)
Definition onModuleDestroy (a : BullMqAdapter) : list Queue := (map_to_list (entries a)).*2.

(** ** The probe

    The commands the probe client may be given; [reply] is what each resolves or
    rejects with, [StringOf] is [String(err)]. *)
Inductive probe_call : Type := Connect | Ping | Quit.

Context (StringOf : exn → string) (reply : probe_call → res unit).

(** A result with the commands awaited so far. *)
Definition probed : Type := res unit * list probe_call.

Definition call (c : probe_call) : probed := (reply c, [c]).

Definition and_then (p q : probed) : probed :=
  match p with
  | (Ok _, l) => (q.1, l ++ q.2)
  | (Err e, l) => (Err e, l)
  end.

(** [try { p } catch (err) { throw h(err) } finally { f }]. *)
Definition try_catch_finally (p : probed) (h : exn → exn) (f : probed) : probed :=
  let '(r, l) := p in
  (match f.1 with
   | Ok _ => match r with Ok u => Ok u | Err e => Err (h e) end
   | Err e => Err e
   end, l ++ f.2).

Definition cannot_connect (what : string) (err : exn) : exn :=
  JsError ("[BullMqAdapter] Cannot connect to " +:+ what +:+ ": " +:+ StringOf err).

Definition onModuleInit : probed :=
  if clusterMode config then
    match createBullMqConnection config with
    | Err e => (Err e, [])
    | Ok _ => try_catch_finally (call Ping) (cannot_connect "Redis cluster") (call Quit)
    end
  else
    try_catch_finally (and_then (call Connect) (call Ping)) (cannot_connect "Redis") (call Quit).

(** ** Lemmas *)

Lemma new_Queue_eq name n connection :
  createBullMqConnection config = Ok connection →
  new_Queue name n = Ok (mkQueue name connection n).
Proof. unfold new_Queue. by intros ->. Qed.

Lemma new_Queue_err name n e : createBullMqConnection config = Err e → new_Queue name n = Err e.
Proof. unfold new_Queue. by intros ->. Qed.

(** Every queue in the table has its key as its name, and the configured
    connection. *)
Definition adapter_ok (connection : Client) (a : BullMqAdapter) : Prop :=
  memo_wf new_Queue a ∧
  ∀ n q, entries a !! n = Some q → q_name q = n ∧ q_connection q = connection ∧
    ∃ k, q = mkQueue n connection k ∧ new_Queue n k = Ok q.

Lemma adapter_wf_ok connection a :
  createBullMqConnection config = Ok connection → memo_wf new_Queue a → adapter_ok connection a.
Proof.
  intros Hc W. split; [done|]. destruct W as (_ & f & Hf & _). intros n q Hq.
  destruct (Hf n q Hq) as [_ Hm]. pose proof (new_Queue_eq n (f n) _ Hc) as Hn.
  rewrite Hn in Hm. injection Hm as <-. split_and!; eauto.
Qed.

Lemma new_adapter_ok connection :
  createBullMqConnection config = Ok connection → adapter_ok connection new_adapter.
Proof. intros Hc. apply adapter_wf_ok; [done|]. apply empty_memo_wf. Qed.

(** An access to a queue of a valid configuration gives the queue of that name. *)
Lemma getQueue_ok connection name a :
  createBullMqConnection config = Ok connection → adapter_ok connection a →
  ∃ k, (getQueue name a).1 = Ok (mkQueue name connection k) ∧ adapter_ok connection (getQueue name a).2.
Proof.
  intros Hc [W H]. pose proof (memo_get_wf new_Queue name a W) as W'. unfold getQueue, memo_get in *.
  destruct (entries a !! name) as [q|] eqn:E.
  - destruct (H name q E) as (_ & _ & k & -> & _). exists k. by split.
  - rewrite (new_Queue_eq name (made a) _ Hc) in *. exists (made a). split; [done|].
    by apply adapter_wf_ok.
Qed.

Lemma adapter_enqueues_ok connection calls a :
  createBullMqConnection config = Ok connection → adapter_ok connection a →
  (adapter_enqueues calls a).1 = (λ c, let '(qn, n, d, o) := c in enqueue qn n d o) <$> calls ∧
  (adapter_enqueues calls a).2 = (getQueues ((λ c, c.1.1.1) <$> calls) a).2.
Proof.
  intros Hc. revert a. induction calls as [|[[[qn n] d] o] calls IH]; intros a Ha; [done|].
  cbn. unfold adapter_enqueue. destruct (getQueue_ok connection qn a Hc Ha) as (k & Hq & Ha').
  unfold getQueue in *. destruct (memo_get new_Queue qn a) as [q a1]. cbn in Hq, Ha'. subst q.
  destruct (IH a1 Ha') as [IH1 IH2]. unfold getQueues in *.
  destruct (adapter_enqueues calls a1) as [ps a2]. cbn in IH1, IH2.
  destruct (memo_gets new_Queue _ a1) as [qs a3]. cbn in *. split; [|done]. by rewrite IH1.
Qed.

Lemma adapter_enqueues_err e calls :
  createBullMqConnection config = Err e →
  adapter_enqueues calls new_adapter = (replicate (length calls) (Throw e), new_adapter).
Proof.
  intros He. induction calls as [|[[[qn n] d] o] calls IH]; [done|].
  cbn. unfold adapter_enqueue, getQueue, memo_get. cbn. rewrite lookup_empty.
  rewrite (new_Queue_err _ _ _ He). by rewrite IH.
Qed.

(** The table holds one queue per name asked for, each with its own instance. *)
Lemma getQueues_pool connection names :
  createBullMqConnection config = Ok connection →
  let a := (getQueues names new_adapter).2 in
  adapter_ok connection a ∧ dom (entries a) =@{gset string} list_to_set names ∧
  made a = size (list_to_set (C := gset string) names).
Proof.
  intros Hc a. assert (Hk : ∀ n k, is_ok (new_Queue n k) = true) by (intros; by rewrite (new_Queue_eq _ _ _ Hc)).
  destruct (memo_gets_spec new_Queue names new_adapter (empty_memo_wf new_Queue)) as (W & _).
  destruct (memo_gets_dom new_Queue names new_adapter Hk) as [D _].
  assert (Hd : dom (entries a) =@{gset string} list_to_set names).
  { refine (eq_trans D _). cbn. set_solver. }
  split; [by apply adapter_wf_ok|]. split; [done|]. destruct W as [Hm _].
  refine (eq_trans Hm _). rewrite <-size_dom. f_equal. exact Hd.
Qed.
End adapter.

Definition instance_of (o : res Queue) : option nat :=
  match o with Ok q => Some (q_instance q) | Err _ => None end.

(** ** Properties *)

(** The pool creates exactly one queue per name: over any sequence of
    accesses with a configuration BullMQ can connect with, every access succeeds,
    two accesses get the same instance exactly when they name the same queue, and
    as many instances exist as there are distinct names. *)
Theorem one_queue_per_name config names :
  is_ok (createBullMqConnection config) = true →
  let '(qs, a) := getQueues config names new_adapter in
  (∀ i j n m q r, names !! i = Some n → names !! j = Some m →
     qs !! i = Some q → qs !! j = Some r → instance_of q = instance_of r ↔ n = m) ∧
  length qs = length names ∧ Forall (λ q, is_ok q = true) qs ∧
  made a = size (list_to_set (C := gset string) names).
Proof.
  destruct (createBullMqConnection config) as [connection|] eqn:Hc; [intros _|done].
  destruct (getQueues_pool config connection names Hc) as ([W Ha] & _ & Hm).
  destruct (memo_gets_spec (new_Queue config) names new_adapter (empty_memo_wf _)) as (_ & _ & L & G).
  assert (Hk : ∀ n k, is_ok (new_Queue config n k) = true) by (intros; by rewrite (new_Queue_eq _ _ _ _ Hc)).
  destruct (memo_gets_dom (new_Queue config) names new_adapter Hk) as [_ F].
  unfold getQueues in *. destruct (memo_gets _ names _) as [qs a]. cbn in *.
  split_and!; [|done..]. intros i j n m q r Hi Hj Hq Hr.
  rewrite Forall_lookup in F. destruct q as [q|e]; [|by specialize (F _ _ Hq)].
  destruct r as [r|e]; [|by specialize (F _ _ Hr)].
  pose proof (G i n q Hi Hq) as E1. pose proof (G j m r Hj Hr) as E2. cbn.
  destruct W as (_ & f & Hf & Hinj).
  destruct (Hf n q E1) as [_ M1], (Hf m r E2) as [_ M2].
  rewrite (new_Queue_eq _ _ _ _ Hc) in M1. rewrite (new_Queue_eq _ _ _ _ Hc) in M2. injection M1 as <-. injection M2 as <-. cbn.
  split; [|by intros ->]. intros [= Heq]. by eapply Hinj.
Qed.

(** Callers see the queues through their names only.  With a configuration
    BullMQ can connect with, any sequence of calls of the adapter's [enqueue] on a
    fresh adapter runs exactly the programs [enqueue] of its arguments, and ends
    with one queue per name used, all on that connection; [onModuleDestroy] closes
    each of them.  With any other configuration every call rejects with the error
    of the connection, and no queue is ever created. *)
Theorem adapter_transparent config calls :
  let '(ps, a) := adapter_enqueues config calls new_adapter in
  match createBullMqConnection config with
  | Ok connection =>
      ps = ((λ c : enqueue_args, let '(qn, n, d, o) := c in enqueue qn n d o) <$> calls) ∧
      dom (entries a) =@{gset string} list_to_set ((λ c : enqueue_args, c.1.1.1) <$> calls) ∧
      Forall (λ q, q_connection q = connection ∧ entries a !! q_name q = Some q) (onModuleDestroy a) ∧
      length (onModuleDestroy a) = made a
  | Err e => ps = replicate (length calls) (Throw e) ∧ onModuleDestroy a = []
  end.
Proof.
  destruct (createBullMqConnection config) as [connection|e] eqn:Hc.
  - destruct (adapter_enqueues_ok config connection calls new_adapter Hc) as [Hp Ha];
      [by apply new_adapter_ok|].
    destruct (getQueues_pool config connection ((λ c, c.1.1.1) <$> calls) Hc) as (Hok & D & _).
    rewrite <-Ha in Hok, D. destruct (adapter_enqueues config calls new_adapter) as [ps a].
    cbn in *. destruct Hok as [[Hm _] Hok]. split_and!; [done|done| |].
    + apply Forall_forall. intros q [[n q'] [-> Hq]]%list_elem_of_fmap.
      apply elem_of_map_to_list in Hq. cbn. destruct (Hok n q' Hq) as (-> & -> & _). done.
    + unfold onModuleDestroy. by rewrite length_fmap, length_map_to_list, Hm.
  - by rewrite (adapter_enqueues_err config e calls Hc).
Qed.

(** The commands awaited until the first that rejects, and its error. *)
Fixpoint until_failure (reply : probe_call → res unit) (commands : list probe_call)
    : list probe_call * option exn :=
  match commands with
  | [] => ([], None)
  | c :: commands =>
      match reply c with
      | Ok _ => let '(l, e) := until_failure reply commands in (c :: l, e)
      | Err e => ([c], Some e)
      end
  end.

(** The startup probe.  A configuration BullMQ cannot connect with ends it before
    any client is made; otherwise the commands run until the first failure, the
    client is quit, once and last, and bootstrap goes on exactly when nothing
    failed.  A failing [connect] or [ping] is reported with the adapter's message
    unless [quit] rejects too, whose error then replaces it. *)
Theorem startup_probe config StringOf reply :
  let commands := if clusterMode config then [Ping] else [Connect; Ping] in
  let what := if clusterMode config then "Redis cluster" else "Redis" in
  let '(ran, failure) := until_failure reply commands in
  onModuleInit config StringOf reply =
  match createBullMqConnection config with
  | Err e => (Err e, [])
  | Ok _ =>
      (match reply Quit, failure with
       | Err e, _ => Err e
       | Ok _, Some e => Err (cannot_connect StringOf what e)
       | Ok _, None => Ok tt
       end, ran ++ [Quit])
  end.
Proof.
  assert (Hc : clusterMode config = false → ∃ c, createBullMqConnection config = Ok c).
  { unfold createBullMqConnection. intros ->. eauto. }
  unfold onModuleInit, try_catch_finally, and_then, call. destruct (clusterMode config).
  - destruct (createBullMqConnection config) as [k|e]; cbn;
      destruct (reply Ping) as [[]|], (reply Quit); reflexivity.
  - destruct (Hc eq_refl) as [k ->]. cbn.
    destruct (reply Connect) as [[]|], (reply Ping) as [[]|], (reply Quit); reflexivity.
Qed.

(** ** Instances *)

Definition local_redis : RedisConfig := mkRedisConfig "localhost" 6379 None 0 false None.

Lemma one_queue_per_name_witness :
  is_ok (createBullMqConnection local_redis) = true ∧
  Forall (λ q, is_ok q = true) (getQueues local_redis ["a"; "b"; "a"] new_adapter).1.
Proof.
  split; [reflexivity|].
  exact (proj1 (proj2 (proj2 (one_queue_per_name local_redis ["a"; "b"; "a"] eq_refl)))).
Defined.
