(* ===== verification/TasksService.v ===== *)
(** * TasksService: creation, status and cancellation of tasks

    [src/modules/tasks/tasks.service.ts] and [tasks.controller.ts]: the
    four-step creation (Redis slot, INSERT, enqueue, commit) with its rollbacks,
    the status query and the cancellation. *)
From S2P Require Import Prelude Errors Schema Database EventsRepository TasksRepository KeyValue Effects Samples Idempotency QueueAdapter.

(** [CreateTaskDto]. *)
Record CreateTaskDto : Type := mkCreateTaskDto {
  dto_type : string;
  dto_payload : option json;
  dto_executorUrl : string;
  dto_cancelUrl : option string;
  dto_idempotencyKey : option string;
  dto_webhookUrl : option string;
  dto_timeoutSeconds : Z }.

(** What [CreateTaskSchema] requires of it; [z.url()] is [isURL].  [type],
    [payload] and [idempotencyKey] are unrestricted columns. *)
Definition CreateTaskSchema (isURL : string → bool) (d : CreateTaskDto) : bool :=
  isURL (dto_executorUrl d)
    && match dto_cancelUrl d with Some u => isURL u | None => true end
    && match dto_webhookUrl d with Some u => isURL u | None => true end
    && ((1 <=? dto_timeoutSeconds d) && (dto_timeoutSeconds d <=? 86400))%Z.

Record TaskCreatedResponse : Type := mkResponse {
  taskId : string;
  statusUrl : string;
  streamUrl : string }.

(** Default idempotency slot TTL: 24 hours. *)
Definition IDEMPOTENCY_TTL_SECONDS : Z := 86400.

Definition DISPATCH_QUEUE : string := "dispatch".

Definition buildResponse (t baseUrl : string) : TaskCreatedResponse :=
  {| taskId := t;
     statusUrl := baseUrl +:+ "/tasks/" +:+ t;
     streamUrl := baseUrl +:+ "/tasks/" +:+ t +:+ "/stream" |}.

(** The row [create] asks for. *)
Definition new_task (dto : CreateTaskDto) (now : Z) (token : string) : TaskInsert :=
  {| ins_id := None; ins_idempotencyKey := dto_idempotencyKey dto; ins_status := None;
     ins_type := dto_type dto; ins_payload := dto_payload dto;
     ins_executorUrl := dto_executorUrl dto; ins_callbackToken := Some token;
     ins_webhookUrl := dto_webhookUrl dto; ins_cancelUrl := dto_cancelUrl dto;
     ins_result := None; ins_error := None; ins_progress := None;
     ins_timeoutSeconds := Some (dto_timeoutSeconds dto); ins_processingStartedAt := None;
     ins_expiresAt := Some (now + dto_timeoutSeconds dto * 1000)%Z; ins_completedAt := None |}.

Section service.
Context {SO : ScanOrder}.

(** [if (key) await releaseSlot(key).catch(log)]. *)
Definition release_quietly (key : option string) : prog unit :=
  match key with
  | Some k => catch (releaseSlot k) (λ _, Ret tt)
  | None => Ret tt
  end.

(** [if (key) await commitResult(key, id).catch(log)]. *)
Definition commit_quietly (key : option string) (t : string) : prog unit :=
  match key with
  | Some k => catch (commitResult k t) (λ _, Ret tt)
  | None => Ret tt
  end.

(** Step 2: the INSERT; on failure the slot is released. *)
Definition insert_step (dto : CreateTaskDto) (key : option string) : prog TaskRow :=
  catch
    (let! now := await Now in
     let! token := await RandomUUID in
     await (DbTx (λ c, insert c (new_task dto now token))))
    (λ error, release_quietly key ;! Throw error).

(** Step 3: the dispatch job; on failure the row is deleted and the slot
    released. *)
Definition enqueue_step (task : TaskRow) (key : option string) : prog unit :=
  catch
    (enqueue DISPATCH_QUEUE "dispatch" (DispatchJobData (id task) (timeoutSeconds task))
       (attempts_only 1))
    (λ error,
       finally (catch (await (DbTx (λ _, deleteById (id task)))) (λ _, Ret tt))
         (release_quietly key) ;!
       Throw error).

Definition create_task (dto : CreateTaskDto) (key : option string) (baseUrl : string)
    : prog TaskCreatedResponse :=
  let! task := insert_step dto key in
  enqueue_step task key ;!
  commit_quietly key (id task) ;!
  Ret (buildResponse (id task) baseUrl).

Definition create (dto : CreateTaskDto) (baseUrl : string) : prog TaskCreatedResponse :=
  match truthy (dto_idempotencyKey dto) with
  | Some k =>
      let! slot := occupySlot k IDEMPOTENCY_TTL_SECONDS in
      match slot with
      | pending => Throw (ConflictException
          "A task with this idempotency key is currently being created. Retry in a moment.")
      | duplicate t => Ret (buildResponse t baseUrl)
      | acquired => create_task dto (Some k) baseUrl
      end
  | None => create_task dto None baseUrl
  end.

(** The id of a request is text that Postgres reads as a [uuid]: [u] is the row id
    it denotes, [i] the text itself, which messages, channels and jobs keep.  The
    operations on an id that is written as Postgres prints it follow. *)
Definition getStatus_at (i u : string) : prog TaskRow :=
  let! task := await (DbTx (λ _, findById u)) in
  match task with
  | None => Throw (NotFoundException ("Task " +:+ i +:+ " not found"))
  | Some task => Ret task
  end.

Definition getStatus (i : string) : prog TaskRow := getStatus_at i i.

Definition cancel_at (i u : string) : prog unit :=
  let! result := await (DbTx (λ c, cancelTask c u)) in
  match result with
  | None =>
      let! currentTask := await (DbTx (λ _, findById u)) in
      match currentTask with
      | None => Throw (NotFoundException ("Task " +:+ i +:+ " not found"))
      | Some t => Throw (ConflictException
          ("Task " +:+ i +:+ " cannot be cancelled in its current state ("
             +:+ status_text (status t) +:+ ")."))
      end
  | Some (task, event) =>
      await (Publish (channel_of i) event) ;!
      match truthy (cancelUrl task) with
      | Some _ => enqueue "cancel" "cancel" (CancelJobData i) None
      | None => Ret tt
      end
  end.

Definition cancel (i : string) : prog unit := cancel_at i i.

(** ** The controller *)

(** [POST /tasks] on a validated body. *)
Definition create_handler (dto : CreateTaskDto) (protocol : string) (host : option string)
    : prog TaskCreatedResponse :=
  match truthy host with
  | None => Throw (InternalServerErrorException
      "Host header is missing - check reverse proxy config")
  | Some h => create dto (protocol +:+ "://" +:+ h)
  end.
End service.

(** The public snapshot: every column but [callbackToken]. *)
Record PublicTask : Type := mkPublicTask {
  pub_id : string; pub_idempotencyKey : option string; pub_status : TaskStatus;
  pub_type : string; pub_payload : json; pub_executorUrl : string;
  pub_webhookUrl : option string; pub_cancelUrl : option string;
  pub_result : option json; pub_error : option TaskError; pub_progress : Z;
  pub_timeoutSeconds : Z; pub_processingStartedAt : option Z; pub_expiresAt : option Z;
  pub_completedAt : option Z; pub_createdAt : Z; pub_updatedAt : Z }.

Definition publicTask (r : TaskRow) : PublicTask :=
  {| pub_id := id r; pub_idempotencyKey := idempotencyKey r; pub_status := status r;
     pub_type := type r; pub_payload := payload r; pub_executorUrl := executorUrl r;
     pub_webhookUrl := webhookUrl r; pub_cancelUrl := cancelUrl r; pub_result := result r;
     pub_error := error r; pub_progress := progress r; pub_timeoutSeconds := timeoutSeconds r;
     pub_processingStartedAt := processingStartedAt r; pub_expiresAt := expiresAt r;
     pub_completedAt := completedAt r; pub_createdAt := createdAt r;
     pub_updatedAt := updatedAt r |}.

(** [GET /tasks/:id]. *)
Definition getStatus_handler_at {SO : ScanOrder} (i u : string) : prog PublicTask :=
  let! task := getStatus_at i u in Ret (publicTask task).

Definition getStatus_handler {SO : ScanOrder} (i : string) : prog PublicTask :=
  getStatus_handler_at i i.

(** ** Lemmas on the steps of [create] *)

(** Everything but the key-value store (and the clock) is unchanged. *)
Definition only_redis (w w' : world) : Prop :=
  w_db w' = w_db w ∧ w_published w' = w_published w ∧ w_jobs w' = w_jobs w.

(** A row that [create] inserts for [dto]. *)
Definition created_from (dto : CreateTaskDto) (r : TaskRow) : Prop :=
  ∃ db_now uuid now token, r = insert_row db_now uuid (new_task dto now token).

(** The tables after that row is added. *)
Definition with_task (d : db) (r : TaskRow) : db :=
  mkDb (<[id r := r]> (tasks d)) (task_events d).

Definition dispatch_job (r : TaskRow) : job :=
  mkJob DISPATCH_QUEUE "dispatch" (DispatchJobData (id r) (timeoutSeconds r))
    (mkBullMqOptions None None 1 None).

Section create_lemmas.
Context {SO : ScanOrder} (E : env).

Lemma run_release_quietly key w :
  ∃ w', run E (release_quietly key) w = (Some (Ok tt), w') ∧ only_redis w w'.
Proof.
  destruct key as [k|]; [|by exists w]. unfold release_quietly, releaseSlot. rewrite run_catch.
  destruct (run E (await (RedisCmd (release k))) w) as [[r|] w'] eqn:H.
  - pose proof (run_redis E _ _ _ _ H) as (s & -> & _).
    destruct r as [[]|e]; eexists; split; done.
  - rewrite run_await in H. by destruct (exec_op _ _ _).
Qed.

Lemma run_commit_quietly key t w :
  ∃ w', run E (commit_quietly key t) w = (Some (Ok tt), w') ∧ only_redis w w'.
Proof.
  destruct key as [k|]; [|by exists w]. unfold commit_quietly, commitResult. rewrite run_catch.
  destruct (run E (await (RedisCmd (commit k t))) w) as [[r|] w'] eqn:H.
  - pose proof (run_redis E _ _ _ _ H) as (s & -> & _).
    destruct r as [[]|e]; eexists; split; done.
  - rewrite run_await in H. by destruct (exec_op _ _ _).
Qed.

Lemma insert_ok c dto now token d r d' :
  insert c (new_task dto now token) d = (Ok r, d') →
  created_from dto r ∧ tasks d !! id r = None ∧ d' = with_task d r.
Proof.
  intros (-> & _ & Hnew & _ & ->)%insert_task_ok. split; [|done]. by repeat eexists.
Qed.

(** The unique index: no row with the same key exists. *)
Lemma insert_ok_key c dto now token d r d' k i r0 :
  insert c (new_task dto now token) d = (Ok r, d') →
  dto_idempotencyKey dto = Some k → tasks d !! i = Some r0 → idempotencyKey r0 ≠ Some k.
Proof.
  intros (-> & _ & _ & Hkey & _)%insert_task_ok Hk Hi Hr0.
  specialize (Hkey k Hk). apply not_true_iff_false in Hkey. destruct Hkey.
  apply key_taken_spec. eauto.
Qed.

Lemma insert_err c dto d e d' : insert c dto d = (Err e, d') → d' = d.
Proof. apply insert_task_err. Qed.

Lemma insert_step_ok dto key w r w' :
  run E (insert_step dto key) w = (Some (Ok r), w') →
  created_from dto r ∧ tasks (w_db w) !! id r = None ∧ w_db w' = with_task (w_db w) r ∧
  w_published w' = w_published w ∧ w_jobs w' = w_jobs w ∧ w_redis w' = w_redis w ∧
  (db_wf (w_db w) → db_wf (w_db w')) ∧
  (∀ k i r0, dto_idempotencyKey dto = Some k → tasks (w_db w) !! i = Some r0 →
     idempotencyKey r0 ≠ Some k).
Proof.
  intros [H|(e & w1 & _ & H)]%run_catch_ok.
  - apply run_bind_ok in H as (now & w1 & H1 & H). apply run_await_inv in H1.
    injection H1 as _ <-.
    apply run_bind_ok in H as (token & w2 & H1 & H). apply run_await_inv in H1.
    injection H1 as _ <-.
    apply run_db_ok in H as (d' & Hi & ->). pose proof Hi as Hi'.
    apply insert_ok in Hi' as (? & ? & ->). split_and!; try done.
    + intros W. eapply insert_wf; [exact W|exact Hi].
    + intros *. by eapply insert_ok_key.
  - apply run_bind_ok in H as (? & ? & _ & [=]).
Qed.

(** A failed insertion leaves the tables alone, unless the connection was lost
    after the INSERT committed. *)
Lemma insert_step_err dto key w e w' :
  run E (insert_step dto key) w = (Some (Err e), w') →
  w_published w' = w_published w ∧ w_jobs w' = w_jobs w ∧
  (w_db w' = w_db w ∨
   ∃ r n, created_from dto r ∧ tasks (w_db w) !! id r = None ∧
     w_db w' = with_task (w_db w) r ∧ e_fault E n = fail_after).
Proof.
  intros (e1 & w1 & H & Hh)%run_catch_err.
  rewrite run_bind in Hh. destruct (run_release_quietly key w1) as (w2 & Hr & Hdb & Hp & Hj).
  rewrite Hr in Hh. injection Hh as <- <-. rewrite Hdb, Hp, Hj. clear Hr Hdb Hp Hj.
  apply run_bind_err in H as [H|(now & w3 & H1 & H)]; [by apply run_await_inv in H|].
  apply run_await_inv in H1. injection H1 as _ <-.
  apply run_bind_err in H as [H|(token & w3 & H1 & H)]; [by apply run_await_inv in H|].
  apply run_await_inv in H1. injection H1 as _ <-.
  apply run_db_err in H as [(d' & Hi & ->)|[(_ & -> & _)|(_ & Hf & ->)]]; simpl.
  - apply insert_err in Hi as ->. auto.
  - auto.
  - split_and!; try done. simpl in Hf |- *.
    destruct (insert _ _ (w_db w)) as [[r|e'] d'] eqn:Hi; simpl.
    + apply insert_ok in Hi as (? & ? & ->). right. eauto 10.
    + apply insert_err in Hi as ->. auto.
Qed.

Lemma enqueue_step_ok r key w u w' :
  run E (enqueue_step r key) w = (Some (Ok u), w') →
  w' = add_job (advance E w) (dispatch_job r).
Proof.
  intros [H|(e & w1 & _ & H)]%run_catch_ok.
  - apply run_catch_ok in H as [H|(? & ? & _ & [=])]. by apply run_queue_ok in H.
  - apply run_bind_ok in H as (? & ? & _ & [=]).
Qed.

(** Run the release of the slot in a hypothesis. *)
Ltac released H :=
  match type of H with
  | context [run E (release_quietly ?key) ?w] =>
      destruct (run_release_quietly key w) as (w4 & Hr & Hd4 & Hp4 & Hj4); rewrite Hr in H
  end.

(** When the job cannot be enqueued the row is deleted, unless the deletion
    itself fails. *)
Lemma enqueue_step_err r key w e w' :
  db_wf (w_db w) →
  run E (enqueue_step r key) w = (Some (Err e), w') →
  e = QueueError ∧ w_published w' = w_published w ∧
  (w_jobs w' = w_jobs w ∨ w_jobs w' = w_jobs w ++ [dispatch_job r]) ∧
  (w_db w' = mkDb (delete (id r) (tasks (w_db w))) (task_events (w_db w)) ∨
   w_db w' = w_db w ∧ ∃ n, e_fault E n = fail_before).
Proof.
  intros W (e1 & w1 & H & Hh)%run_catch_err.
  apply run_catch_err in H as (e2 & w2 & H & [= <- <-]).
  apply run_queue_err in H as [-> Hw].
  assert (Hd : w_db w2 = w_db w) by (by destruct Hw as [-> | ->]).
  assert (Hp : w_published w2 = w_published w) by (by destruct Hw as [-> | ->]).
  assert (Hj : w_jobs w2 = w_jobs w ∨ w_jobs w2 = w_jobs w ++ [dispatch_job r])
    by (destruct Hw as [-> | ->]; auto).
  clear Hw. rewrite <-Hd in *. rewrite <-Hp.
  unfold finally in Hh. rewrite !run_bind, run_catch, run_bind, run_catch in Hh.
  destruct (run E (await (DbTx (λ _, deleteById (id r)))) w2) as [[[u|e3]|] w3] eqn:Hdel.
  - apply run_db_ok in Hdel as (d' & Hdel & ->). rewrite deleteById_eq in Hdel by done.
    injection Hdel as <-. simpl in Hh. rewrite run_bind in Hh.
    released Hh. injection Hh as <- <-. rewrite Hd4, Hp4, Hj4. simpl. auto.
  - simpl in Hh. rewrite run_bind in Hh.
    released Hh. injection Hh as <- <-. rewrite Hd4, Hp4, Hj4.
    apply run_db_err in Hdel as [(d' & Hdel & ->)|[(_ & -> & Hf)|(_ & Hf & ->)]].
    + rewrite deleteById_eq in Hdel by done. done.
    + simpl. split_and!; eauto.
    + rewrite deleteById_eq by done. simpl. auto.
  - rewrite run_await in Hdel. by destruct (exec_op _ _ _).
Qed.
End create_lemmas.

Section create_spec.
Context {SO : ScanOrder} (E : env).

Lemma run_occupySlot k ttl w r w' :
  run E (occupySlot k ttl) w = (Some r, w') →
  only_redis w w' ∧
  match r with
  | Ok s => occupy k ttl (w_now w) (w_redis w) = (s, w_redis w')
  | Err e => e = RedisError
  end.
Proof.
  destruct r as [s|e].
  - intros (reply & w1 & H & [= <- <-])%run_bind_ok.
    apply run_redis in H as (s1 & -> & [(a & [= <-] & Hf)|[[=] _]]).
    split; [done|]. unfold occupy. by rewrite Hf.
  - intros [H|(? & ? & _ & [=])]%run_bind_err.
    apply run_redis in H as (s1 & -> & [(a & [=] & _)|[[= ->] _]]). done.
Qed.

Lemma create_task_ok dto key url w resp w' :
  run E (create_task dto key url) w = (Some (Ok resp), w') →
  ∃ r, created_from dto r ∧ tasks (w_db w) !! id r = None ∧
    w_db w' = with_task (w_db w) r ∧ w_published w' = w_published w ∧
    w_jobs w' = w_jobs w ++ [dispatch_job r] ∧ resp = buildResponse (id r) url ∧
    (∀ k i r0, dto_idempotencyKey dto = Some k → tasks (w_db w) !! i = Some r0 →
       idempotencyKey r0 ≠ Some k).
Proof.
  intros (r & w1 & H1 & H)%run_bind_ok.
  apply insert_step_ok in H1 as (? & ? & Hd & Hp & Hj & _ & _ & Hk).
  apply run_bind_ok in H as (u & w2 & H2 & H). apply enqueue_step_ok in H2 as ->.
  apply run_bind_ok in H as (u' & w3 & H3 & [= <- <-]).
  match type of H3 with run E _ ?w2 = _ =>
    destruct (run_commit_quietly E key (id r) w2) as (w4 & Hc & Hd4 & Hp4 & Hj4) end.
  rewrite Hc in H3. injection H3 as _ <-.
  exists r. rewrite Hd4, Hp4, Hj4. simpl. rewrite Hd, Hp, Hj. done.
Qed.

Lemma create_task_err dto key url w e w' :
  db_wf (w_db w) →
  run E (create_task dto key url) w = (Some (Err e), w') →
  w_published w' = w_published w ∧
  (w_db w' = w_db w ∨
   ∃ r n, created_from dto r ∧ tasks (w_db w) !! id r = None ∧
     w_db w' = with_task (w_db w) r ∧ e_fault E n ≠ no_fault).
Proof.
  intros W [H|(r & w1 & H1 & H)]%run_bind_err.
  { apply insert_step_err in H as (? & ? & [?|(r & n & ? & ? & ? & Hn)]); [by auto|].
    split; [done|]. right. exists r, n. by rewrite Hn. }
  apply insert_step_ok in H1 as (Hc & Hnew & Hd & Hp & Hj & Hr & W1 & _).
  apply run_bind_err in H as [H|(u & w2 & H2 & H)].
  - apply enqueue_step_err in H as (-> & Hp' & _ & Hdb); [|by auto].
    rewrite Hp', Hp. split; [done|]. destruct Hdb as [Hdb|[Hdb [n Hn]]].
    + left. rewrite Hdb, Hd. unfold with_task. simpl.
      rewrite delete_insert_id by done. by destruct (w_db w).
    + right. exists r, n. rewrite Hdb, Hn. done.
  - apply run_bind_err in H as [H|(? & ? & _ & [=])].
    destruct (run_commit_quietly E key (id r) w2) as (w4 & Hc' & _).
    by rewrite Hc' in H.
Qed.

(** *** Two creations with the same key *)

Lemma occupy_duplicate k ttl t (s s' : kv) i :
  occupy k ttl t s = (duplicate i, s') →
  kv_get t (redisKey k) s = Some i ∧ i ≠ "" ∧ i ≠ PENDING_SENTINEL.
Proof.
  unfold occupy, OCCUPY_SCRIPT. destruct (kv_get t (redisKey k) s) as [v|] eqn:Hv.
  - destruct (setnx_taken t (redisKey k) PENDING_SENTINEL ttl s v Hv) as (s1 & -> & Hs1).
    rewrite Hs1, Hv by lia. unfold occupy_result; simpl.
    destruct v as [|c v]; simpl; [done|]. case_bool_decide; [done|]. by intros [= <- _].
  - destruct (setnx_free t (redisKey k) PENDING_SENTINEL ttl s Hv) as (s1 & -> & Hs1). done.
Qed.
End create_spec.

(** *** Faultless runs *)
Section faultless.
Context {SO : ScanOrder} (E : env) (NF : ∀ n, e_fault E n = no_fault).

Lemma run_redis_ok {A} (f : Z → kv → A * kv) w :
  run E (await (RedisCmd f)) w =
    (Some (Ok (f (w_now w) (w_redis w)).1),
     set_redis (advance E w) (f (w_now w) (w_redis w)).2).
Proof. rewrite run_await. simpl. rewrite NF. by destruct (f _ _). Qed.

Lemma run_occupySlot_ok k ttl w :
  run E (occupySlot k ttl) w =
    (Some (Ok (occupy k ttl (w_now w) (w_redis w)).1),
     set_redis (advance E w) (occupy k ttl (w_now w) (w_redis w)).2).
Proof.
  unfold occupySlot, occupy. rewrite run_bind, run_redis_ok.
  by destruct (OCCUPY_SCRIPT _ _ _ _ _).
Qed.

(** The slot after a successful [create_task]. *)
Lemma create_task_commits dto k url w resp w' :
  run E (create_task dto (Some k) url) w = (Some (Ok resp), w') →
  ∃ tc, (w_now w ≤ tc ≤ w_now w')%Z ∧
    w_redis w' = (commit k (taskId resp) tc (w_redis w)).2.
Proof.
  intros (r & w1 & H1 & H)%run_bind_ok. pose proof (run_now _ _ _ _ _ H1) as T1.
  apply insert_step_ok in H1 as (_ & _ & _ & _ & _ & Hr & _).
  apply run_bind_ok in H as (u & w2 & H2 & H). pose proof (run_now _ _ _ _ _ H2) as T2.
  apply enqueue_step_ok in H2 as ->.
  apply run_bind_ok in H as (u' & w3 & H3 & [= <- <-]). pose proof (run_now _ _ _ _ _ H3) as T3.
  exists (w_now (add_job (advance E w1) (dispatch_job r))). split; [lia|].
  unfold commit_quietly, commitResult in H3. rewrite run_catch, run_redis_ok in H3.
  injection H3 as <- <-. simpl. by rewrite Hr.
Qed.
End faultless.

(** ** Properties *)

Section properties.
Context {SO : ScanOrder}.

(** How a request that succeeds is answered. *)
Lemma create_answers E dto url w resp w' :
  run E (create dto url) w = (Some (Ok resp), w') →
  (∃ k t, truthy (dto_idempotencyKey dto) = Some k ∧ resp = buildResponse t url ∧
     kv_get (w_now w) (redisKey k) (w_redis w) = Some t ∧ t ≠ PENDING_SENTINEL ∧
     w_db w' = w_db w ∧ w_jobs w' = w_jobs w ∧ w_published w' = w_published w) ∨
  (∃ r, created_from dto r ∧ tasks (w_db w) !! id r = None ∧
     w_db w' = with_task (w_db w) r ∧ w_jobs w' = w_jobs w ++ [dispatch_job r] ∧
     w_published w' = w_published w ∧ resp = buildResponse (id r) url).
Proof.
  unfold create. destruct (truthy _) as [k|] eqn:Hk.
  - intros (slot & w1 & H1 & H)%run_bind_ok.
    apply run_occupySlot in H1 as [(Hd & Hp & Hj) Hocc].
    destruct slot as [| |t]; [right|done|left; injection H as <- <-].
    + apply create_task_ok in H as (r & ? & ? & ? & ? & ? & ? & _).
      exists r. rewrite <-Hd, <-Hj, <-Hp. done.
    + apply occupy_duplicate in Hocc as (? & ? & ?). exists k, t. done.
  - intros (r & ? & ? & ? & ? & ? & ? & _)%create_task_ok. right. exists r. done.
Qed.

(** C26: a successful [create] either returns the task id its idempotency slot
    already holds and changes neither the tables nor the queues, or it has
    inserted exactly one new row, built from the request, under a fresh id,
    and enqueued exactly one dispatch job for it with a single attempt; the
    response names that task. *)
Theorem create_succeeds E dto url w resp w' :
  run E (create dto url) w = (Some (Ok resp), w') →
  (∃ k t, truthy (dto_idempotencyKey dto) = Some k ∧ resp = buildResponse t url ∧
     kv_get (w_now w) (redisKey k) (w_redis w) = Some t ∧ t ≠ PENDING_SENTINEL ∧
     w_db w' = w_db w ∧ w_jobs w' = w_jobs w ∧ w_published w' = w_published w) ∨
  (∃ r, created_from dto r ∧ tasks (w_db w) !! id r = None ∧
     w_db w' = with_task (w_db w) r ∧ w_jobs w' = w_jobs w ++ [dispatch_job r] ∧
     w_published w' = w_published w ∧ resp = buildResponse (id r) url).
Proof. apply create_answers. Qed.

(** C27: a failed [create] publishes nothing and leaves the tables as they
    were, except that a lost connection may leave one row behind: a PENDING
    row built from the request, which still carries a deadline. *)
Theorem create_fails E dto url w e w' :
  db_wf (w_db w) →
  run E (create dto url) w = (Some (Err e), w') →
  w_published w' = w_published w ∧
  (w_db w' = w_db w ∨
   ∃ r n, created_from dto r ∧ status r = PENDING ∧ is_Some (expiresAt r) ∧
     tasks (w_db w) !! id r = None ∧ w_db w' = with_task (w_db w) r ∧
     e_fault E n ≠ no_fault).
Proof.
  assert (G : ∀ key w, db_wf (w_db w) → run E (create_task dto key url) w = (Some (Err e), w') →
    w_published w' = w_published w ∧
    (w_db w' = w_db w ∨
     ∃ r n, created_from dto r ∧ status r = PENDING ∧ is_Some (expiresAt r) ∧
       tasks (w_db w) !! id r = None ∧ w_db w' = with_task (w_db w) r ∧
       e_fault E n ≠ no_fault)).
  { intros key w0 W (Hp & [Hd|(r & n & Hc & ? & ? & ?)])%create_task_err; [by auto| |done].
    split; [done|]. right. exists r, n.
    destruct Hc as (? & ? & ? & ? & ->). split_and!; [by repeat eexists|done|by eexists|done..]. }
  intros W. unfold create. destruct (truthy _) as [k|] eqn:Hk; [|by apply G].
  intros [H|(slot & w1 & H1 & H)]%run_bind_err.
  { apply run_occupySlot in H as [(Hd & Hp & _) _]. auto. }
  apply run_occupySlot in H1 as [(Hd & Hp & Hj) _].
  destruct slot as [| |t]; [|injection H as <- <-; by auto|done].
  rewrite <-Hd, <-Hp. apply G with (Some k); [by rewrite Hd|done].
Qed.


(** While a row with a given idempotency key exists, no request with that
    key can create a task once the Redis slot is gone (the TTL elapsed, or
    the key is the empty string, for which no slot is kept): it always fails. *)
Theorem create_key_retained E dto url k w i r :
  dto_idempotencyKey dto = Some k → tasks (w_db w) !! i = Some r →
  idempotencyKey r = Some k →
  k = "" ∨ kv_get (w_now w) (redisKey k) (w_redis w) = None →
  ∃ e w', run E (create dto url) w = (Some (Err e), w').
Proof.
  intros Hk Hi Hr Hslot.
  assert (total (create dto url)) as T.
  { unfold create, create_task, insert_step, enqueue_step, release_quietly, commit_quietly,
      occupySlot, commitResult, releaseSlot, enqueue. solve_total. }
  destruct (total_run E _ w T) as ([resp|e] & w' & H); [exfalso|eauto].
  unfold create in H. rewrite Hk in H. destruct (truthy (Some k)) as [k'|] eqn:Hk'.
  - apply truthy_Some in Hk' as [[= <-] Hne]. destruct Hslot as [->|Hslot]; [done|].
    apply run_bind_ok in H as (slot & w1 & H1 & H).
    apply run_occupySlot in H1 as [(Hd & _) Hocc].
    destruct slot as [| |t]; [|done|].
    + apply create_task_ok in H as (r' & _ & _ & _ & _ & _ & _ & Hkey).
      rewrite Hd in Hkey. by eapply Hkey.
    + apply occupy_duplicate in Hocc as [? _]. congruence.
  - apply create_task_ok in H as (r' & _ & _ & _ & _ & _ & _ & Hkey). by eapply Hkey.
Qed.
End properties.

(** ** Cancellation *)

(** The tables after a cancellation of task [i], and the row and event it wrote. *)
Definition cancelled_tables (d : db) (i : string) (r1 : TaskRow) (ev : TaskEventRow) (d' : db)
    : Prop :=
  ∃ r0 now, tasks d !! i = Some r0 ∧ is_terminal (status r0) = false ∧
    r1 = cancelled_row now r0 ∧
    ev_taskId ev = i ∧ ev_type ev = cancelled_ev ∧
    ev_seq ev = (Z.of_nat (length (events_of i d)) + 1)%Z ∧
    d' = mkDb (<[i := r1]> (tasks d)) (task_events d ++ [ev]).

Definition cancel_job (i : string) : job :=
  mkJob "cancel" "cancel" (CancelJobData i) (mkBullMqOptions None None 3 None).

Lemma cancelled_tables_intro c d i r0 :
  tasks d !! i = Some r0 → is_terminal (status r0) = false →
  let r1 := cancelled_row (c_now c) r0 in
  let ev := appended_event c (CancelledEventInput i) d in
  cancelled_tables d i r1 ev (mkDb (<[i := r1]> (tasks d)) (task_events d ++ [ev])).
Proof. intros. exists r0, (c_now c). by split_and!. Qed.

Section cancel_lemmas.
Context {SO : ScanOrder} (E : env) (i u : string).

(** What is left of [cancel] after its transaction has committed. *)
Definition cancel_notify (task : TaskRow) (event : TaskEventRow) : prog unit :=
  await (Publish (channel_of i) event) ;!
  match truthy (cancelUrl task) with
  | Some _ => enqueue "cancel" "cancel" (CancelJobData i) None
  | None => Ret tt
  end.

Definition cancel_explain : prog unit :=
  let! currentTask := await (DbTx (λ _, findById u)) in
  match currentTask with
  | None => Throw (NotFoundException ("Task " +:+ i +:+ " not found"))
  | Some t => Throw (ConflictException
      ("Task " +:+ i +:+ " cannot be cancelled in its current state ("
         +:+ status_text (status t) +:+ ")."))
  end.

Lemma run_cancel_notify task ev w r w' :
  run E (cancel_notify task ev) w = (Some r, w') →
  w_db w' = w_db w ∧
  match r with
  | Ok _ => w_published w' = w_published w ++ [(channel_of i, ev)] ∧
      w_jobs w' = w_jobs w ++ (if truthy (cancelUrl task) then [cancel_job i] else [])
  | Err e => e = RedisError ∨ e = QueueError
  end.
Proof.
  destruct r as [[]|e].
  - intros ([] & w2 & H2 & H)%run_bind_ok. apply run_publish_ok in H2 as ->.
    destruct (truthy (cancelUrl _)).
    + apply run_catch_ok in H as [H|(? & ? & _ & [=])]. by apply run_queue_ok in H as ->.
    + injection H as <-. simpl. by rewrite app_nil_r.
  - intros [H|([] & w2 & H2 & H)]%run_bind_err.
    + apply run_publish_err in H as [-> [-> | ->]]; auto.
    + apply run_publish_ok in H2 as ->. destruct (truthy (cancelUrl _)); [|done].
      apply run_catch_err in H as (e' & w3 & H & [= -> ->]).
      apply run_queue_err in H as [-> [-> | ->]]; auto.
Qed.

Lemma run_cancel_explain w r w' :
  db_wf (w_db w) → run E cancel_explain w = (Some r, w') →
  w_db w' = w_db w ∧ w_jobs w' = w_jobs w ∧ w_published w' = w_published w ∧
  match r with
  | Ok _ => False
  | Err (HttpException s _) =>
      (s = 404%Z ∧ tasks (w_db w) !! u = None) ∨ (s = 409%Z ∧ is_Some (tasks (w_db w) !! u))
  | Err _ => True
  end.
Proof.
  intros W. destruct r as [[]|e].
  - by intros ([t|] & w2 & _ & [=])%run_bind_ok.
  - intros [H|(t & w2 & H2 & H)]%run_bind_err.
    + apply run_db_err in H as [(d' & H & ->)|[(-> & -> & _)|(-> & _ & ->)]];
        rewrite ?findById_eq in * by done; done.
    + apply run_db_ok in H2 as (d' & H2 & ->). rewrite findById_eq in H2 by done.
      injection H2 as <- <-.
      destruct (tasks (w_db w) !! u) as [t|] eqn:Ht; injection H as <- <-; simpl; eauto 10.
Qed.
Lemma run_cancel_at w r w' :
  db_wf (w_db w) → run E (cancel_at i u) w = (Some r, w') →
  match r with
  | Ok _ => ∃ r1 ev, cancelled_tables (w_db w) u r1 ev (w_db w') ∧
      w_published w' = w_published w ++ [(channel_of i, ev)] ∧
      w_jobs w' = w_jobs w ++ (if truthy (cancelUrl r1) then [cancel_job i] else [])
  | Err (HttpException s _) => w_db w' = w_db w ∧ w_jobs w' = w_jobs w ∧
      w_published w' = w_published w ∧
      ((s = 404%Z ∧ tasks (w_db w) !! u = None) ∨
       (s = 409%Z ∧ ∃ r0, tasks (w_db w) !! u = Some r0 ∧ is_terminal (status r0) = true))
  | Err _ => w_db w' = w_db w ∨ ∃ r1 ev, cancelled_tables (w_db w) u r1 ev (w_db w')
  end.
Proof.
  intros W H. change (cancel_at i u) with (let! result := await (DbTx (λ c, cancelTask c u)) in
    match result with
    | None => cancel_explain
    | Some (task, event) => cancel_notify task event
    end) in H.
  assert (F : match r with Ok _ => True | Err e => run E (await (DbTx (λ c, cancelTask c u))) w
                = (Some (Err e), w') → match e with HttpException _ _ => False | _ =>
                w_db w' = w_db w ∨ ∃ r1 ev, cancelled_tables (w_db w) u r1 ev (w_db w') end end).
  { destruct r as [|e]; [done|].
    intros [(d' & Hc & ->)|[(-> & -> & _)|(-> & _ & ->)]]%run_db_err; simpl; [|by left|].
    - apply cancelTask_cases in Hc; [|done].
      destruct Hc as [([=] & _)|[(? & _ & _ & [=] & _)|(-> & [= ->])]]. by left.
    - destruct (cancelTask _ u (w_db w)) as [o d'] eqn:Hc. apply cancelTask_cases in Hc; [|done].
      destruct Hc as [(_ & -> & _)|[(r0 & Hi & Ht & _ & ->)|(-> & _)]]; [by left| |by left].
      right. do 2 eexists. by apply cancelled_tables_intro. }
  rewrite run_bind in H.
  destruct (run E (await (DbTx (λ c, cancelTask c u))) w) as [[[res|e]|] w1] eqn:H1; [| |done].
  - clear F. apply run_db_ok in H1 as (d' & H1 & ->). apply cancelTask_cases in H1; [|done].
    destruct H1 as [(Ho & -> & Hi)|[(r0 & Hi & Ht & Ho & ->)|(_ & [=])]]; injection Ho as ->.
    + apply run_cancel_explain in H as (Hd & Hj & Hp & H); [|done].
      destruct r as [|[]]; try done; try (by left). split_and!; try done.
      destruct H as [?|[? Hs]]; [by left|right]. destruct Hs as [r0 Hs]. simpl in Hs.
      destruct Hi as [?|?]; [congruence|auto].
    + apply run_cancel_notify in H as [Hd H].
      pose proof (cancelled_tables_intro (ctx_of E w) (w_db w) u r0 Hi Ht) as G.
      simpl in G, Hd. rewrite <-Hd in G. destruct r as [[]|e]; [naive_solver|].
      destruct H as [-> | ->]; right; eauto.
  - injection H as <- <-. specialize (F eq_refl). by destruct e.
Qed.
End cancel_lemmas.

(** C19: [cancel] on every branch, for an id [i] that denotes the row
    [u].  Success: the task was PENDING or PROCESSING,
    the row and its [cancelled] event are written together, the event is
    published on the channel of [i], and the executor is notified through the
    [cancel] queue exactly when it gave a [cancelUrl].  404: no such row, 409:
    the row is terminal; in both nothing is changed.  Any other failure is an
    infrastructure error, and the tables are either untouched or hold both the
    cancelled row and its event. *)
Theorem cancel_outcomes {SO : ScanOrder} E i u w r w' :
  db_wf (w_db w) → run E (cancel_at i u) w = (Some r, w') →
  match r with
  | Ok _ => ∃ r1 ev, cancelled_tables (w_db w) u r1 ev (w_db w') ∧
      w_published w' = w_published w ++ [(channel_of i, ev)] ∧
      w_jobs w' = w_jobs w ++ (if truthy (cancelUrl r1) then [cancel_job i] else [])
  | Err (HttpException s _) => w_db w' = w_db w ∧ w_jobs w' = w_jobs w ∧
      w_published w' = w_published w ∧
      ((s = 404%Z ∧ tasks (w_db w) !! u = None) ∨
       (s = 409%Z ∧ ∃ r0, tasks (w_db w) !! u = Some r0 ∧ is_terminal (status r0) = true))
  | Err _ => w_db w' = w_db w ∨ ∃ r1 ev, cancelled_tables (w_db w) u r1 ev (w_db w')
  end.
Proof. apply run_cancel_at. Qed.

(** ** Instances *)

Definition sample_dto (key : option string) : CreateTaskDto :=
  mkCreateTaskDto "report" None "http://executor/run" None key None 60.

Definition sample_url : string := "http://proxy".

Lemma create_succeeds_witness :
  let out := run calm_env (create (sample_dto (Some "k")) sample_url) initial_world in
  let resp := buildResponse "u3-0" sample_url in
  out.1 = Some (Ok resp) ∧
  ((∃ k t, Some "k" = Some k ∧ resp = buildResponse t sample_url ∧
      kv_get 0 (redisKey k) (w_redis initial_world) = Some t ∧ t ≠ PENDING_SENTINEL ∧
      w_db out.2 = empty_db ∧ w_jobs out.2 = [] ∧ w_published out.2 = []) ∨
   (∃ r, created_from (sample_dto (Some "k")) r ∧ tasks empty_db !! id r = None ∧
      w_db out.2 = with_task empty_db r ∧ w_jobs out.2 = [dispatch_job r] ∧
      w_published out.2 = [] ∧ resp = buildResponse (id r) sample_url)).
Proof.
  intros out resp. split; [vm_compute; reflexivity|].
  apply (create_succeeds calm_env (sample_dto (Some "k")) sample_url initial_world resp out.2).
  vm_compute. reflexivity.
Defined.

(** The queue is down. *)
Definition no_queue_env : env :=
  mkEnv (λ n, if decide (n = 3)%nat then fail_before else no_fault) (λ _, 1%N) Z.of_nat
    (λ n i, "u" +:+ pretty n) (λ _, ∅) (λ _, 0%Z) (λ _ _, Ok JNull).

Lemma create_fails_witness :
  let out := run no_queue_env (create (sample_dto None) sample_url) (sample_world empty_db) in
  w_db out.2 = empty_db ∧ w_published out.2 = [].
Proof.
  intros out. split; [vm_compute; reflexivity|].
  destruct (create_fails no_queue_env (sample_dto None) sample_url (sample_world empty_db)
              QueueError out.2 empty_db_wf) as [H _]; [vm_compute; reflexivity|exact H].
Defined.


Definition keyed_row : TaskRow :=
  insert_row 0 "a" (new_task (sample_dto (Some "k")) 0 "secret").

Lemma create_key_retained_witness :
  ∃ e w', run calm_env (create (sample_dto (Some "k")) sample_url)
            (sample_world (sample_db [keyed_row] [])) = (Some (Err e), w').
Proof.
  apply (create_key_retained calm_env (sample_dto (Some "k")) sample_url "k"
           (sample_world (sample_db [keyed_row] [])) "a" keyed_row).
  - reflexivity.
  - vm_compute. reflexivity.
  - reflexivity.
  - right. vm_compute. reflexivity.
Defined.

Definition cancel_db : db :=
  sample_db [sample_row "a" PROCESSING (Some 1000%Z) None (Some 500000%Z)]
            [sample_event "a" "e1" 1 progress_ev].

Lemma cancel_outcomes_witness :
  let out := run calm_env (cancel "a") (sample_world cancel_db) in
  ∃ r1 ev, cancelled_tables cancel_db "a" r1 ev (w_db out.2) ∧
    w_published out.2 = [("task:a", ev)] ∧
    w_jobs out.2 = (if truthy (cancelUrl r1) then [cancel_job "a"] else []).
Proof.
  intros out. assert (W : db_wf cancel_db) by check_db.
  apply (cancel_outcomes calm_env "a" "a" (sample_world cancel_db) (Ok tt) out.2 W).
  vm_compute. reflexivity.
Defined.
