(* ===== verification/MaintenanceRepository.v ===== *)
(** * MaintenanceRepository: the batch mutations of the maintenance jobs

    [src/modules/maintenance/maintenance.repository.ts]: the timeout batch (one
    transaction that fails expired tasks and appends their events in bulk) and
    the retention loop (select a batch of old terminal tasks, delete it with its
    events, repeat). *)
From S2P Require Import Prelude Errors Schema Database EventsRepository TasksRepository KeyValue Effects Samples.

#[local] Open Scope Z_scope.

Record TimeoutSweeperResult : Type := mkSweeperResult {
  expiredCount : Z;
  events : list TaskEventRow }.

Record DataRetentionResult : Type := mkRetentionResult {
  deletedEventsCount : Z;
  deletedTasksCount : Z }.

Definition RETENTION_DELETE_BATCH_SIZE : nat := 500.

Definition timeoutError : TaskError :=
  {| code := "BUSINESS_TIMEOUT";
     message := "Task exceeded its configured timeout and was automatically failed.";
     details := None |}.

(** [status IN ('PENDING', 'PROCESSING') AND expires_at < now]; a NULL deadline
    satisfies no comparison. *)
Definition expired (now : Z) (r : TaskRow) : bool :=
  status_condition (inr [PENDING; PROCESSING]) r &&
  match expiresAt r with Some t => t <? now | None => false end.

(** [UPDATE ... SET status = 'FAILED', completedAt = now, error = timeoutError]. *)
Definition timeout_sets (now : Z) : list TaskSet :=
  [Set_status FAILED; Set_completedAt (Some now); Set_error (Some timeoutError)].

(** One row of the bulk INSERT ... SELECT: [MAX(seq)] is read in the statement's
    snapshot, [ROW_NUMBER()] counts within the task's partition of [unnest(ids)]. *)
Definition bulk_event (c : dbctx) (ids : list string) (d : db) (k : nat) (i : string)
    : TaskEventRow :=
  {| ev_id := c_uuid c k; ev_taskId := i;
     ev_seq := default 0 (max_seq (filter (λ e, ev_taskId e = i) (task_events d)))
               + Z.of_nat (length (filter (λ j, j = i) (take (S k) ids)));
     ev_type := failed_ev; ev_payload := JObj [("error", TaskError_json timeoutError)];
     ev_createdAt := c_db_now c |}.

(** A multi-row INSERT ... RETURNING. *)
Fixpoint insert_event_rows (evs : list TaskEventRow) : sql (list TaskEventRow) :=
  match evs with
  | [] => sret []
  | e :: evs =>
      let$ e' := insert_event_row e in
      let$ l := insert_event_rows evs in
      sret (e' :: l)
  end.

Definition bulk_insert_events (c : dbctx) (ids : list string) : sql (list TaskEventRow) := λ d,
  insert_event_rows (imap (bulk_event c ids d) ids) d.

Section repository.
Context {SO : ScanOrder}.

(** The transaction; [now] was taken before it began. *)
Definition expire_tx (now : Z) (batchSize : nat) (c : dbctx) : sql TimeoutSweeperResult :=
  transaction
    (let$ expiredIds := select_ids_skip_locked (c_locked c) (expired now) batchSize in
     let$ expired := update_tasks (c_now c) (timeout_sets now)
                       (λ r, bool_decide (id r ∈ expiredIds)) in
     match expired with
     | [] => sret (mkSweeperResult 0 [])
     | _ =>
         let$ insertedEvents := bulk_insert_events c (id <$> expired) in
         sret (mkSweeperResult (Z.of_nat (length expired)) insertedEvents)
     end).

Definition expireTimedOutTasksBatch (batchSize : nat) : prog TimeoutSweeperResult :=
  let! now := await Now in
  await (DbTx (expire_tx now batchSize)).

(** [status IN terminal AND created_at < cutoff]. *)
Definition deletable (cutoff : Z) (r : TaskRow) : bool :=
  status_condition (inr [COMPLETED; FAILED; CANCELLED]) r && (createdAt r <? cutoff).

(** [cutoff.setDate(cutoff.getDate() - days)], the process clock being in UTC. *)
Definition retention_cutoff (now days : Z) : Z := now - days * 86400000.

Definition delete_batch (ids : list string) : sql (list TaskEventRow * list TaskRow) :=
  transaction
    (let$ events := delete_events (λ e, bool_decide (ev_taskId e ∈ ids)) in
     let$ taskRows := delete_tasks (λ r, bool_decide (id r ∈ ids)) in
     sret (events, taskRows)).

(** [do { batch } while (batch.length >= RETENTION_DELETE_BATCH_SIZE)]. *)
Fixpoint delete_loop (fuel : nat) (cutoff : Z) (acc : DataRetentionResult)
    : prog DataRetentionResult :=
  match fuel with
  | O => OutOfFuel
  | S fuel =>
      let! batch := await (DbTx (λ _,
        select_tasks_limit (deletable cutoff) RETENTION_DELETE_BATCH_SIZE)) in
      if (length batch =? 0)%nat then Ret acc
      else
        let! deleted := await (DbTx (λ _, delete_batch (id <$> batch))) in
        let acc := mkRetentionResult
          (deletedEventsCount acc + Z.of_nat (length deleted.1))
          (deletedTasksCount acc + Z.of_nat (length deleted.2)) in
        if (RETENTION_DELETE_BATCH_SIZE <=? length batch)%nat
        then delete_loop fuel cutoff acc else Ret acc
  end.

Definition deleteOldData (fuel : nat) (retentionDays : Z) : prog DataRetentionResult :=
  let! now := await Now in
  delete_loop fuel (retention_cutoff now retentionDays) (mkRetentionResult 0 0).
End repository.

(** ** The bulk INSERT *)

(** The context of the [k]-th row of a statement: its own generated id. *)
Definition nth_uuid (c : dbctx) (k : nat) : dbctx :=
  mkCtx (c_now c) (c_db_now c) (λ n, c_uuid c (k + n)%nat) (c_locked c).

(** The reference: one [insertEventInTx] per task, in turn. *)
Fixpoint insert_one_by_one (c : dbctx) (k : nat) (ids : list string)
    : sql (list TaskEventRow) :=
  match ids with
  | [] => sret []
  | i :: ids =>
      let$ e := insertEventInTx (nth_uuid c k) (FailedEventInput i timeoutError) in
      let$ l := insert_one_by_one c (S k) ids in
      sret (e :: l)
  end.

Definition timeout_event (c : dbctx) (d : db) (k : nat) (i : string) : TaskEventRow :=
  appended_event (nth_uuid c k) (FailedEventInput i timeoutError) d.

Lemma filter_eq_notin {A} `{EqDecision A} (i : A) l : i ∉ l → filter (λ j, j = i) l = [].
Proof.
  induction l as [|j l IH]; intros Hi; [done|].
  rewrite filter_cons, decide_False by set_solver. apply IH. set_solver.
Qed.

Lemma row_number_NoDup (ids : list string) k i :
  NoDup ids → ids !! k = Some i → length (filter (λ j, j = i) (take (S k) ids)) = 1%nat.
Proof.
  revert k. induction ids as [|j ids IH]; intros [|k]; [done..| |]; csimpl.
  - intros _ [= ->]. rewrite take_0, filter_cons, decide_True by done. done.
  - rewrite NoDup_cons. intros [Hj HN] Hk. rewrite filter_cons, decide_False.
    + by apply IH.
    + intros ->. destruct Hj. by eapply list_elem_of_lookup_2.
Qed.

Lemma bulk_events_eq c ids d :
  db_wf d → NoDup ids → imap (bulk_event c ids d) ids = imap (timeout_event c d) ids.
Proof.
  intros W HN. apply imap_ext. intros k i Hk. unfold bulk_event, timeout_event, appended_event.
  rewrite (row_number_NoDup ids k i HN Hk). simpl. rewrite Nat.add_0_r. f_equal.
  fold (events_of i d). by rewrite (max_seq_seqZ _ _ (wf_seq d W i)).
Qed.

Lemma timeout_event_frame c d e k i :
  ev_taskId e ≠ i →
  timeout_event c (mkDb (tasks d) (task_events d ++ [e])) k i = timeout_event c d k i.
Proof.
  intros Hne. unfold timeout_event, appended_event. f_equal. simpl.
  by rewrite events_of_app, decide_False, app_nil_r.
Qed.

Lemma bulk_sequential c ids k d :
  db_wf d → NoDup ids →
  insert_event_rows (imap (λ n i, timeout_event c d (k + n) i) ids) d =
  insert_one_by_one c k ids d.
Proof.
  revert k d. induction ids as [|i ids IH]; intros k d W HN; [done|].
  apply NoDup_cons in HN as [Hi HN]. rewrite imap_cons. simpl.
  unfold sbind at 1 3. rewrite insertEventInTx_unfold, Nat.add_0_r by done.
  change (appended_event (nth_uuid c k) (FailedEventInput i timeoutError) d)
    with (timeout_event c d k i).
  destruct (insert_event_row (timeout_event c d k i) d) as [[e|x] d1] eqn:He; [|done].
  pose proof He as He'. unfold timeout_event in He'.
  rewrite <-(insertEventInTx_unfold _ _ _ W) in He'.
  pose proof (insertEventInTx_wf _ _ _ _ _ W He') as W1.
  apply insertEventInTx_cases in He' as [(_ & [= ->] & ->)|(_ & [=] & _)]; [|done].
  unfold sbind. rewrite <-(IH (S k)) by done.
  rewrite (imap_ext (λ n i0, timeout_event c (mkDb _ _) (S k + n) i0)
             ((λ n i0, timeout_event c d (k + n) i0) ∘ S)); [done|].
  intros n j Hj. simpl. rewrite Nat.add_succ_r. apply timeout_event_frame. simpl.
  intros ->. destruct Hi. by eapply list_elem_of_lookup_2.
Qed.

Lemma insert_event_rows_ok evs d l d' :
  insert_event_rows evs d = (Ok l, d') →
  l = evs ∧ d' = mkDb (tasks d) (task_events d ++ evs).
Proof.
  revert d l. induction evs as [|e evs IH]; intros d l; simpl.
  - intros [= <- <-]. rewrite app_nil_r. by destruct d.
  - unfold sbind, sret, insert_event_row. destruct (event_conflict e d); [done|].
    destruct (insert_event_rows evs _) as [[l'|x] d1] eqn:H; [|done].
    intros [= <- <-]. apply IH in H as [-> ->]. simpl. by rewrite <-app_assoc.
Qed.

Lemma insert_one_by_one_wf c k ids d o d' :
  db_wf d → insert_one_by_one c k ids d = (o, d') → db_wf d'.
Proof.
  revert k d o d'. induction ids as [|i ids IH]; intros k d o d' W; simpl.
  - intros [= _ <-]. done.
  - unfold sbind, sret. destruct (insertEventInTx _ _ d) as [[e|x] d1] eqn:E1.
    + destruct (insert_one_by_one c (S k) ids d1) as [[l|x] d2] eqn:E2; intros [= _ <-];
        eapply IH; try exact E2; eauto with proxy.
    + intros [= _ <-]. eauto with proxy.
Qed.

Lemma bulk_insert_eq c ids d :
  db_wf d → NoDup ids → bulk_insert_events c ids d = insert_one_by_one c 0 ids d.
Proof.
  intros W HN. unfold bulk_insert_events. rewrite bulk_events_eq by done.
  by rewrite <-bulk_sequential.
Qed.

(** ** The timeout batch *)

(** Selecting the ids of a subsequence selects the subsequence. *)
Lemma filter_sublist_ids {A B} `{EqDecision B} (f : A → B) (s l : list A) :
  s `sublist_of` l → NoDup (f <$> l) → filter (λ x, f x ∈ f <$> s) l = s.
Proof.
  induction 1 as [|x s l Hs IH|x s l Hs IH]; csimpl; [done|..]; intros [Hx HN]%NoDup_cons.
  - rewrite filter_cons, decide_True by set_solver. f_equal.
    trans (filter (λ x, f x ∈ f <$> s) l); [|by apply IH].
    apply filter_ext_in. intros y Hy. split; [|set_solver].
    intros [Hxy|?]%elem_of_cons; [|done]. destruct Hx. rewrite <-Hxy.
    apply list_elem_of_fmap. eauto.
  - rewrite filter_cons, decide_False; [by apply IH|]. intros (y & Heq & Hy)%list_elem_of_fmap.
    destruct Hx. rewrite Heq. apply list_elem_of_fmap. exists y. split; [done|]. by eapply elem_of_sublist.
Qed.

Section batch.
Context {SO : ScanOrder}.

(** The rows of one batch: expired, not locked by another transaction. *)
Definition batch_rows (now : Z) (n : nat) (locked : gset string) (d : db) : list TaskRow :=
  take n (filter (λ r, expired now r = true ∧ id r ∉ locked) (rows d)).

Lemma batch_sublist now n locked d : batch_rows now n locked d `sublist_of` rows d.
Proof. unfold batch_rows. etrans; [apply sublist_take|apply sublist_filter]. Qed.

Lemma elem_of_batch now n locked d r :
  r ∈ batch_rows now n locked d → r ∈ rows d ∧ expired now r = true ∧ id r ∉ locked.
Proof.
  intros Hr. unfold batch_rows in Hr. eapply elem_of_sublist in Hr; [|apply sublist_take].
  apply list_elem_of_filter in Hr. tauto.
Qed.

(** A batch that is not full holds every expired row it may lock. *)
Lemma batch_complete now n locked d r :
  (length (batch_rows now n locked d) < n)%nat →
  r ∈ rows d → expired now r = true → id r ∉ locked → r ∈ batch_rows now n locked d.
Proof.
  unfold batch_rows. intros Hl Hr He Hlk. rewrite length_take in Hl.
  rewrite take_ge by lia. apply list_elem_of_filter. done.
Qed.

Lemma NoDup_batch_ids now n locked d : db_wf d → NoDup (id <$> batch_rows now n locked d).
Proof.
  intros W. eapply sublist_NoDup; [by apply NoDup_rows_ids|].
  apply fmap_sublist, batch_sublist.
Qed.

Lemma update_batch c now s d :
  db_wf d → s `sublist_of` rows d →
  updated_rows c (timeout_sets now) (λ r, bool_decide (id r ∈ id <$> s)) d =
  update_row c (timeout_sets now) <$> s.
Proof.
  intros W Hs. unfold updated_rows. f_equal.
  rewrite (filter_ext_in _ (λ r, id r ∈ id <$> s)) by (intros; apply bool_decide_eq_true).
  by apply filter_sublist_ids, NoDup_rows_ids.
Qed.

Lemma updated_ids c sets (s : list TaskRow) : id <$> (update_row c sets <$> s) = id <$> s.
Proof. rewrite <-list_fmap_compose. apply list_fmap_ext. intros. apply update_row_id. Qed.
End batch.

(** What the constraints say of a row the batch fails. *)
Lemma timeout_row_error now1 now r :
  task_row_ok r → expired now r = true →
  task_row_error (update_row now1 (timeout_sets now) r) =
  if bool_decide (status r = PROCESSING) then None
  else Some (check_violation "tasks_valid_state_data").
Proof.
  rewrite task_row_ok_iff. intros (Hp & Ht & Hs) He.
  apply andb_true_iff in He as [He _]. unfold status_condition in He.
  rewrite active_not_terminal in He. apply tasks_valid_state_data_spec in Hs.
  unfold task_row_error. rewrite tasks_status_check_true. simpl. rewrite Hp, Ht. simpl.
  unfold tasks_valid_state_data. simpl.
  destruct (status r); try done; simpl in *.
  - destruct Hs as [-> _]. done.
  - destruct Hs as [[x ->] _]. done.
Qed.

Section expire.
Context {SO : ScanOrder}.

(** The tables after the rows of [s] have been failed. *)
Definition failed_tables (c_now now : Z) (s : list TaskRow) (d : db) : db :=
  mkDb ((λ r, if bool_decide (id r ∈ id <$> s) then update_row c_now (timeout_sets now) r else r)
          <$> tasks d) (task_events d).

(** The UPDATE goes through exactly when the whole batch is PROCESSING. *)
Lemma update_batch_cases c now n locked d :
  db_wf d →
  let s := batch_rows now n locked d in
  update_tasks c (timeout_sets now) (λ r, bool_decide (id r ∈ id <$> s)) d =
  if forallb (λ r, bool_decide (status r = PROCESSING)) s
  then (Ok (update_row c (timeout_sets now) <$> s), failed_tables c now s d)
  else (Err (PostgresError (check_violation "tasks_valid_state_data")), d).
Proof.
  intros W s. unfold update_tasks. rewrite update_batch by (done || apply batch_sublist).
  assert (F : Forall (λ r, task_row_ok r ∧ expired now r = true) s).
  { apply Forall_forall. intros r (Hr & He & _)%elem_of_batch.
    apply elem_of_rows in Hr as [i Hi]. eauto using wf_row. }
  fold s.
  assert (omap task_row_error (update_row c (timeout_sets now) <$> s) =
          omap (λ r, if bool_decide (status r = PROCESSING) then None
                     else Some (check_violation "tasks_valid_state_data")) s) as ->.
  { induction F as [|r s' [Ho He] F IH]; [done|]. csimpl.
    by rewrite timeout_row_error, IH by done. }
  clear F. unfold failed_tables. fold s. generalize (tasks d). intros m.
  assert (G : head (omap (λ r, if bool_decide (status r = PROCESSING) then None
                else Some (check_violation "tasks_valid_state_data")) s) =
            if forallb (λ r, bool_decide (status r = PROCESSING)) s then None
            else Some (check_violation "tasks_valid_state_data")).
  { induction s as [|r s' IH]; [done|]. csimpl. case_bool_decide; [apply IH|done]. }
  rewrite G. by case_goal.
Qed.

Lemma failed_tables_wf c now n locked d :
  db_wf d → forallb (λ r, bool_decide (status r = PROCESSING)) (batch_rows now n locked d) = true →
  db_wf (failed_tables c now (batch_rows now n locked d) d).
Proof.
  intros W Hp. pose proof (update_batch_cases c now n locked d W) as Hu. simpl in Hu.
  rewrite Hp in Hu. by eapply update_tasks_wf.
Qed.

(** The reference transaction: fail the batch, then append the [failed] events
    one by one, each as [insertEventInTx] does. *)
Definition expire_reference (now : Z) (n : nat) (c : dbctx) : sql TimeoutSweeperResult :=
  transaction (λ d,
    let s := batch_rows now n (c_locked c) d in
    if forallb (λ r, bool_decide (status r = PROCESSING)) s then
      sbind (insert_one_by_one c 0 (id <$> s))
        (λ evs, sret (mkSweeperResult (Z.of_nat (length s)) evs))
        (failed_tables (c_now c) now s d)
    else (Err (PostgresError (check_violation "tasks_valid_state_data")), d)).

Lemma expire_tx_eq now n c d : db_wf d → expire_tx now n c d = expire_reference now n c d.
Proof.
  intros W. unfold expire_tx, expire_reference, transaction. set (s := batch_rows _ _ _ _).
  unfold sbind at 1, select_ids_skip_locked.
  change (take n (filter _ (rows d))) with s. unfold sbind at 1.
  pose proof (update_batch_cases (c_now c) now n (c_locked c) d W) as Hu.
  simpl in Hu. fold s in Hu. rewrite Hu. clear Hu.
  destruct (forallb _ s) eqn:Hp; [|done].
  destruct (update_row (c_now c) (timeout_sets now) <$> s) as [|r l] eqn:Hs.
  - apply fmap_nil_inv in Hs as Hs'. rewrite Hs'. done.
  - rewrite <-Hs, updated_ids, length_fmap. unfold sbind.
    rewrite bulk_insert_eq; [done|by apply failed_tables_wf|by apply NoDup_batch_ids].
Qed.

Lemma expire_tx_wf now n c d o d' : db_wf d → expire_tx now n c d = (o, d') → db_wf d'.
Proof.
  intros W. rewrite expire_tx_eq by done. unfold expire_reference.
  intros [(a & -> & H)|(e & d1 & -> & _ & ->)]%transaction_inv; [|done].
  cbv zeta in H. destruct (forallb _ _) eqn:Hp; [|done]. unfold sbind in H.
  destruct (insert_one_by_one _ _ _ _) as [[l|x] d1] eqn:E; [|done]. injection H as _ <-.
  eapply insert_one_by_one_wf; [|exact E]. by apply failed_tables_wf.
Qed.

Lemma expire_tx_ok now n c d res d' :
  db_wf d → expire_tx now n c d = (Ok res, d') →
  let s := batch_rows now n (c_locked c) d in
  let evs := imap (timeout_event c d) (id <$> s) in
  (∀ r, r ∈ s → status r = PROCESSING) ∧
  res = mkSweeperResult (Z.of_nat (length s)) evs ∧
  d' = mkDb (tasks (failed_tables (c_now c) now s d)) (task_events d ++ evs).
Proof.
  intros W H s evs. pose proof H as H'. rewrite expire_tx_eq in H' by done.
  unfold expire_reference in H'. apply transaction_inv in H' as [(a & [= <-] & H')|(? & ? & [=] & _)].
  cbv zeta in H'. fold s in H'. destruct (forallb _ s) eqn:Hp; [|done].
  assert (W1 : db_wf (failed_tables (c_now c) now s d)) by (by apply failed_tables_wf).
  unfold sbind in H'. rewrite <-(bulk_sequential c (id <$> s) 0) in H'
    by (done || by apply NoDup_batch_ids).
  destruct (insert_event_rows _ _) as [[l|x] d1] eqn:E; [|done]. injection H' as <- <-.
  apply insert_event_rows_ok in E as [-> ->]. split_and!; try done.
  intros r Hr. rewrite forallb_forall in Hp.
  apply (bool_decide_eq_true_1 _ (Hp r (proj1 (list_elem_of_In _ _) Hr))).
Qed.

(** A batch with a PENDING row is rejected as a whole. *)
Lemma expire_tx_blocked now n c d r :
  db_wf d → r ∈ batch_rows now n (c_locked c) d → status r = PENDING →
  expire_tx now n c d = (Err (PostgresError (check_violation "tasks_valid_state_data")), d).
Proof.
  intros W Hr Hs. rewrite expire_tx_eq by done. unfold expire_reference, transaction.
  destruct (forallb _ _) eqn:Hp; [|done]. rewrite forallb_forall in Hp.
  apply list_elem_of_In, Hp, bool_decide_eq_true_1 in Hr. congruence.
Qed.
End expire.

#[export] Hint Extern 1 (db_wf ?d) =>
  match goal with
  | H : expire_tx _ _ _ _ = (_, d) |- _ => wf_from H @expire_tx_wf
  end : proxy.

(** ** Retention *)

(** The tables without the tasks [ids] and their events. *)
Definition purge (ids : list string) (d : db) : db :=
  mkDb (filter (λ ir, ir.1 ∉ ids) (tasks d))
       (filter (λ e, ev_taskId e ∉ ids) (task_events d)).

Lemma purge_purge X Y d : purge Y (purge X d) = purge (X ++ Y) d.
Proof.
  unfold purge; simpl. f_equal.
  - rewrite map_filter_filter. apply map_filter_ext. intros i r _. simpl.
    rewrite elem_of_app. tauto.
  - rewrite list_filter_filter. apply list_filter_iff. intros e. rewrite elem_of_app. tauto.
Qed.

Lemma purge_nil d : purge [] d = d.
Proof.
  destruct d as [m l]. unfold purge; simpl. f_equal.
  - apply map_filter_id. intros i r _. simpl. set_solver.
  - induction l as [|e l IH]; [done|]. rewrite filter_cons, decide_True by set_solver.
    by rewrite IH.
Qed.

Lemma lookup_purge X d i r : tasks (purge X d) !! i = Some r ↔ tasks d !! i = Some r ∧ i ∉ X.
Proof. apply map_lookup_filter_Some. Qed.

Lemma events_of_purge X d t :
  events_of t (purge X d) = if decide (t ∈ X) then [] else events_of t d.
Proof.
  unfold events_of, purge. simpl. rewrite list_filter_filter. case_decide as Ht.
  - apply elem_of_nil_inv. intros e [[<- He] _]%list_elem_of_filter. done.
  - apply list_filter_iff. intros e. naive_solver.
Qed.

Lemma purge_wf X d : db_wf d → db_wf (purge X d).
Proof.
  intros W. constructor.
  - intros i r [H _]%lookup_purge. by eapply wf_id.
  - intros i r [H _]%lookup_purge. by eapply wf_row.
  - intros i j ri rj k [Hi _]%lookup_purge [Hj _]%lookup_purge. by eapply wf_key.
  - eapply sublist_NoDup; [apply (wf_ev_id d W)|]. apply fmap_sublist, sublist_filter.
  - intros t. rewrite events_of_purge. case_decide; [done|apply W].
Qed.

Section retention.
Context {SO : ScanOrder}.

Lemma length_rows d : db_wf d → length (rows d) = size (tasks d).
Proof.
  intros W. rewrite <-(length_fmap id (rows d)), rows_ids by done.
  by rewrite scan_order_perm, length_fmap, length_map_to_list.
Qed.

(** Deleting a selection of the rows. *)
Lemma size_purge X d :
  db_wf d →
  size (tasks (purge X d)) = length (filter (λ r, id r ∉ X) (rows d)).
Proof.
  intros W. rewrite <-length_rows by (by apply purge_wf). apply Permutation_length.
  apply NoDup_Permutation.
  - eapply (NoDup_fmap_1 id), NoDup_rows_ids, purge_wf, W.
  - apply NoDup_filter. eapply (NoDup_fmap_1 id), NoDup_rows_ids, W.
  - intros r. rewrite list_elem_of_filter, !elem_of_rows_wf by (done || by apply purge_wf).
    rewrite lookup_purge. tauto.
Qed.

Lemma delete_batch_eq ids d :
  db_wf d →
  delete_batch ids d =
    (Ok (filter (λ e, ev_taskId e ∈ ids) (task_events d), filter (λ r, id r ∈ ids) (rows d)),
     purge ids d).
Proof.
  intros W. unfold delete_batch, transaction, sbind, delete_events, delete_tasks, sret, purge.
  simpl. change (rows (mkDb (tasks d) _)) with (rows d). do 2 f_equal.
  - f_equal; apply list_filter_iff; intros; apply bool_decide_eq_true.
  - apply map_filter_ext. intros i r Hi. simpl. rewrite (wf_id d W _ _ Hi).
    apply bool_decide_eq_false.
  - apply list_filter_iff. intros; apply bool_decide_eq_false.
Qed.

(** Every row and event is either kept or counted as deleted. *)
Lemma purge_counts ids d :
  db_wf d →
  (size (tasks (purge ids d)) + length (filter (λ r, id r ∈ ids) (rows d))
     = size (tasks d))%nat ∧
  (length (task_events (purge ids d)) + length (filter (λ e, ev_taskId e ∈ ids) (task_events d))
     = length (task_events d))%nat.
Proof.
  intros W. split.
  - rewrite size_purge, <-length_rows by done.
    rewrite <-(filter_app_complement (λ r, id r ∈ ids) (rows d)) at 3.
    rewrite length_app. lia.
  - simpl. rewrite <-(filter_app_complement (λ e, ev_taskId e ∈ ids) (task_events d)) at 3.
    rewrite length_app. lia.
Qed.

(** The rows of one retention batch. *)
Definition old_rows (cutoff : Z) (d : db) : list TaskRow :=
  take RETENTION_DELETE_BATCH_SIZE (filter (λ r, deletable cutoff r = true) (rows d)).

Lemma elem_of_old_rows cutoff d r :
  r ∈ old_rows cutoff d → r ∈ rows d ∧ deletable cutoff r = true.
Proof.
  intros Hr. unfold old_rows in Hr. eapply elem_of_sublist in Hr; [|apply sublist_take].
  apply list_elem_of_filter in Hr. tauto.
Qed.

(** A batch that is not full holds every deletable row. *)
Lemma old_rows_complete cutoff d r :
  (length (old_rows cutoff d) < RETENTION_DELETE_BATCH_SIZE)%nat →
  r ∈ rows d → deletable cutoff r = true → r ∈ old_rows cutoff d.
Proof.
  unfold old_rows. intros Hl Hr Hd. rewrite length_take in Hl.
  rewrite take_ge by lia. by apply list_elem_of_filter.
Qed.

Lemma purge_old_decreases cutoff d :
  db_wf d → old_rows cutoff d ≠ [] →
  (size (tasks (purge (id <$> old_rows cutoff d) d)) < size (tasks d))%nat.
Proof.
  intros W Hne. destruct (old_rows cutoff d) as [|r l] eqn:Ho; [done|].
  rewrite size_purge, <-(length_rows d) by done.
  apply length_filter_lt with r; [|set_solver].
  apply (elem_of_old_rows cutoff). rewrite Ho. set_solver.
Qed.
End retention.

(** *** The loop *)

Section retention_loop.
Context {SO : ScanOrder} (cutoff : Z).

Definition all_deletable (X : list string) (d : db) : Prop :=
  ∀ i, i ∈ X → ∃ x, tasks d !! i = Some x ∧ deletable cutoff x = true.

Definition none_deletable (d : db) : Prop :=
  ∀ i x, tasks d !! i = Some x → deletable cutoff x = false.

(** The counts [acc'] exceed [acc] by what [d'] lacks of [d]. *)
Definition counted (acc acc' : DataRetentionResult) (d d' : db) : Prop :=
  deletedTasksCount acc' + Z.of_nat (size (tasks d')) =
    deletedTasksCount acc + Z.of_nat (size (tasks d)) ∧
  deletedEventsCount acc' + Z.of_nat (length (task_events d')) =
    deletedEventsCount acc + Z.of_nat (length (task_events d)).

Definition retention_post (acc : DataRetentionResult) (d d' : db) (r : res DataRetentionResult)
    : Prop :=
  ∃ X, d' = purge X d ∧ all_deletable X d ∧
    match r with Ok acc' => none_deletable d' ∧ counted acc acc' d d' | Err _ => True end.

Lemma all_deletable_old d : db_wf d → all_deletable (id <$> old_rows cutoff d) d.
Proof.
  intros W i (r & -> & (Hr & Hd)%elem_of_old_rows)%list_elem_of_fmap.
  exists r. split; [by apply elem_of_rows_wf|done].
Qed.

Lemma retention_post_trans acc acc1 d X r d' :
  all_deletable X d → counted acc acc1 d (purge X d) →
  retention_post acc1 (purge X d) d' r → retention_post acc d d' r.
Proof.
  intros HX [C1 C2] (Y & -> & HY & Hr). exists (X ++ Y). rewrite <-purge_purge.
  split_and!; [done| |].
  - intros i [Hi|Hi]%elem_of_app; [by apply HX|].
    destruct (HY i Hi) as (x & [Hx _]%lookup_purge & Hd). eauto.
  - destruct r as [acc'|]; [|done]. destruct Hr as [Hn [C3 C4]]. split; [done|].
    split; lia.
Qed.

(** After the deletion of a batch that was not full nothing is left. *)
Lemma purge_old_rest d :
  db_wf d → (length (old_rows cutoff d) < RETENTION_DELETE_BATCH_SIZE)%nat →
  none_deletable (purge (id <$> old_rows cutoff d) d).
Proof.
  intros W Hl i x [Hi Hx]%lookup_purge. apply not_true_iff_false. intros Hd.
  destruct Hx. apply list_elem_of_fmap. exists x. split; [symmetry; by eapply wf_id|].
  apply old_rows_complete; [done| |done]. apply elem_of_rows. eauto.
Qed.

Lemma none_deletable_0 d :
  db_wf d → length (old_rows cutoff d) = 0%nat → none_deletable d.
Proof.
  intros W Hl i x Hi. apply not_true_iff_false. intros Hx.
  apply nil_length_inv in Hl. cut (x ∈ old_rows cutoff d); [rewrite Hl; set_solver|].
  apply old_rows_complete; [rewrite Hl; simpl; unfold RETENTION_DELETE_BATCH_SIZE; lia| |done].
  apply elem_of_rows. eauto.
Qed.

Lemma delete_batch_counted d ids acc :
  db_wf d →
  counted acc
    (mkRetentionResult
       (deletedEventsCount acc
          + Z.of_nat (length (filter (λ e, ev_taskId e ∈ ids) (task_events d))))
       (deletedTasksCount acc + Z.of_nat (length (filter (λ r, id r ∈ ids) (rows d)))))
    d (purge ids d).
Proof.
  intros W. destruct (purge_counts ids d W) as [P1 P2].
  unfold counted, deletedTasksCount, deletedEventsCount. lia.
Qed.

Lemma delete_loop_spec E fuel acc w o w' :
  db_wf (w_db w) → (size (tasks (w_db w)) < fuel)%nat →
  run E (delete_loop fuel cutoff acc) w = (o, w') →
  ∃ r, o = Some r ∧ retention_post acc (w_db w) (w_db w') r.
Proof.
  assert (Stop : ∀ acc d (r : res DataRetentionResult),
    match r with Ok acc' => acc' = acc ∧ none_deletable d | _ => True end →
    retention_post acc d d r).
  { intros a d r Hr. exists []. rewrite purge_nil. split_and!; [done|intros i; set_solver|].
    destruct r; [|done]. destruct Hr as [-> ?]. by split. }
  revert acc w. induction fuel as [|fuel IH]; intros acc w W Hf H; [lia|].
  cbn [delete_loop] in H. rewrite run_bind in H.
  destruct (run E (await (DbTx _)) w) as [ob w1] eqn:Hb.
  apply (run_commit E _ (old_rows cutoff (w_db w)) (w_db w)) in Hb as (_ & _ & Hb); [|done].
  destruct Hb as [[-> Hd]|(e & -> & Hd)];
    [|injection H as <- <-; destruct Hd as [-> | ->]; eauto].
  destruct (length (old_rows cutoff (w_db w)) =? 0)%nat eqn:Hl.
  { injection H as <- <-. rewrite Hd. eexists. split; [done|]. apply Stop. split; [done|].
    apply Nat.eqb_eq in Hl. by apply none_deletable_0. }
  apply Nat.eqb_neq in Hl. rewrite run_bind in H.
  destruct (run E (await (DbTx _)) w1) as [oc w2] eqn:Hc.
  set (ids := id <$> old_rows cutoff (w_db w)) in *.
  pose proof (all_deletable_old _ W) as HX. pose proof (purge_wf ids _ W) as W2.
  eapply run_commit in Hc as (_ & _ & Hc); [|rewrite Hd; by apply delete_batch_eq].
  rewrite Hd in Hc. destruct Hc as [[-> Hd2]|(e & -> & Hd2)].
  - cbn [fst snd] in H. pose proof (delete_batch_counted (w_db w) ids acc W) as C.
    destruct (RETENTION_DELETE_BATCH_SIZE <=? _)%nat eqn:Hb.
    + assert (size (tasks (purge ids (w_db w))) < size (tasks (w_db w)))%nat.
      { apply purge_old_decreases; [done|]. by destruct (old_rows cutoff (w_db w)). }
      apply IH in H as (r & -> & Hp); [|by rewrite Hd2|rewrite Hd2; lia].
      exists r. split; [done|]. rewrite Hd2 in Hp. by eapply retention_post_trans.
    + injection H as <- <-. eexists. split; [done|]. rewrite Hd2.
      exists ids. split; [done|]. split; [exact HX|]. split; [|exact C]. apply Nat.leb_gt in Hb.
      by apply purge_old_rest.
  - injection H as <- <-. eexists. split; [done|].
    destruct Hd2 as [-> | ->]; [by apply Stop|]. exists ids. split_and!; done.
Qed.
End retention_loop.

(** ** Properties *)

(** C29: the retention job terminates, whatever fails on the way.  Tasks that are
    not terminal or not older than the cutoff keep their row and their log; a
    task that was removed leaves no event behind.  When it completes, no terminal
    task older than the cutoff is left, and the two counts it returns are exactly
    what the tables have lost. *)
Theorem retention_correct {SO : ScanOrder} E fuel days w o w' :
  db_wf (w_db w) → (size (tasks (w_db w)) < fuel)%nat →
  run E (deleteOldData fuel days) w = (o, w') →
  let cutoff := retention_cutoff (w_now (advance E w)) days in
  let d := w_db w in let d' := w_db w' in
  ∃ r, o = Some r ∧ db_wf d' ∧
    (∀ i x, tasks d !! i = Some x → deletable cutoff x = false →
       tasks d' !! i = Some x ∧ events_of i d' = events_of i d) ∧
    (∀ i, is_Some (tasks d !! i) → tasks d' !! i = None → events_of i d' = []) ∧
    (∀ acc, r = Ok acc →
       (∀ i x, tasks d' !! i = Some x → deletable cutoff x = false) ∧
       deletedTasksCount acc = Z.of_nat (size (tasks d)) - Z.of_nat (size (tasks d')) ∧
       deletedEventsCount acc =
         Z.of_nat (length (task_events d)) - Z.of_nat (length (task_events d'))).
Proof.
  intros W Hf H cutoff d d'. unfold deleteOldData in H. rewrite run_bind, run_await in H.
  cbn [exec_op] in H. apply delete_loop_spec in H as (r & -> & X & Hd & HX & Hr); [|done..].
  change (w_db (advance E w)) with d in *. fold cutoff in HX, Hr. fold d' in Hd, Hr.
  exists r. rewrite Hd. rewrite Hd in Hr. split_and!; [done|by apply purge_wf| | |].
  - intros i x Hi Hx. assert (Hn : i ∉ X).
    { intros Hin. destruct (HX i Hin) as (y & Hy & Hdel). congruence. }
    rewrite events_of_purge, decide_False by done. split; [by apply lookup_purge|done].
  - intros i [x Hx] Hn. rewrite events_of_purge, decide_True; [done|].
    apply dec_stable. intros HnX. assert (tasks (purge X d) !! i = Some x); [|congruence].
    by apply lookup_purge.
  - intros acc ->. destruct Hr as [Hnone [C1 C2]]. cbn [deletedTasksCount deletedEventsCount] in C1, C2.
    split; [done|]. lia.
Qed.

(** The bulk INSERT of the timeout batch, which numbers all the events of the
    batch in one statement and takes no advisory lock, is equivalent to appending
    the [failed] events one task at a time with [insertEventInTx]: the whole
    transaction computes the same result and the same tables, errors included. *)
Theorem expire_batch_sequential {SO : ScanOrder} now n c d :
  db_wf d →
  expire_tx now n c d =
  transaction (λ d,
    let s := batch_rows now n (c_locked c) d in
    if forallb (λ r, bool_decide (status r = PROCESSING)) s then
      sbind (insert_one_by_one c 0 (id <$> s))
        (λ evs, sret (mkSweeperResult (Z.of_nat (length s)) evs))
        (failed_tables (c_now c) now s d)
    else (Err (PostgresError (check_violation "tasks_valid_state_data")), d)) d.
Proof. apply expire_tx_eq. Qed.

(** ** Instances *)

Definition old_db : db := sample_db
  [sample_row "a" FAILED (Some 1000) (Some 2000) None;
   sample_row "b" PROCESSING (Some 1000) None None]
  [sample_event "a" "e1" 1 failed_ev; sample_event "b" "e2" 1 progress_ev].

Lemma retention_correct_witness :
  let out := run calm_env (deleteOldData 3 0) (sample_world old_db) in
  out.1 = Some (Ok (mkRetentionResult 1 1)) ∧ tasks (w_db out.2) !! "a" = None ∧
  tasks (w_db out.2) !! "b" = tasks old_db !! "b" ∧ events_of "a" (w_db out.2) = [].
Proof.
  intros out. assert (W : db_wf old_db) by check_db.
  assert (L : (size (tasks old_db) < 3)%nat) by (vm_compute; lia).
  pose proof (retention_correct calm_env 3 0 (sample_world old_db) out.1 out.2 W L
                (surjective_pairing out)) as (r & Hr & _ & _ & Ho & _).
  split; [vm_compute; reflexivity|]. split; [vm_compute; reflexivity|].
  split; [vm_compute; reflexivity|]. apply Ho; [by eexists|vm_compute; reflexivity].
Defined.

Lemma expire_batch_sequential_witness :
  let c := mkCtx 100000 100000 (λ n, pretty n) ∅ in
  let d := sample_db [sample_row "a" PROCESSING (Some 1000) None (Some 61000);
                      sample_row "b" PROCESSING (Some 1000) None (Some 62000)]
                     [sample_event "a" "e1" 1 progress_ev] in
  db_wf d ∧ is_ok (expire_tx 100000 500 c d).1 = true ∧
  expire_tx 100000 500 c d = expire_reference 100000 500 c d.
Proof.
  intros c d. assert (W : db_wf d) by check_db.
  split; [exact W|]. split; [vm_compute; reflexivity|].
  exact (expire_batch_sequential 100000 500 c d W).
Defined.
