(* ===== verification/MaintenanceWorkers.v ===== *)
(** * The maintenance workers

    [src/modules/maintenance/workers/timeout-sweeper.processor.ts] and
    [data-retention.processor.ts]: the sweep loop, which repeats the timeout
    batch until it finds nothing and publishes the [failed] events, and the
    retention job. *)
From S2P Require Import Prelude Errors Schema Database EventsRepository TasksRepository KeyValue Effects Samples MaintenanceRepository.

#[local] Open Scope Z_scope.

Definition SWEEP_BATCH_SIZE : nat := 500.

Section workers.
Context {SO : ScanOrder}.

(** [Promise.allSettled(events.map(publish, errors logged))]; the publications
    are independent and are modelled in list order. *)
Fixpoint publish_all (evs : list TaskEventRow) : prog unit :=
  match evs with
  | [] => Ret tt
  | event :: evs =>
      catch (await (Publish (channel_of (ev_taskId event)) event)) (λ _, Ret tt) ;!
      publish_all evs
  end.

(** [while (true)]: returns the total, which is logged. *)
Fixpoint sweep_loop (fuel : nat) (totalExpired : Z) : prog Z :=
  match fuel with
  | O => OutOfFuel
  | S fuel =>
      let! batch := expireTimedOutTasksBatch SWEEP_BATCH_SIZE in
      if expiredCount batch =? 0 then Ret totalExpired
      else publish_all (events batch) ;!
           sweep_loop fuel (totalExpired + expiredCount batch)
  end.

(** [TimeoutSweeperProcessor.process]. *)
Definition sweep (fuel : nat) : prog unit := sweep_loop fuel 0 ;! Ret tt.

(** [DataRetentionProcessor.process]: the counts are only logged. *)
Definition retain (fuel : nat) (dataRetentionDays : Z) : prog unit :=
  deleteOldData fuel dataRetentionDays ;! Ret tt.
End workers.

(** ** The sweep *)

(** Rows the sweep may still have to visit: the loop's measure. *)
Definition live_ids (d : db) : gset string :=
  dom (filter (λ ir, is_terminal (status ir.2) = false) (tasks d)).

(** Task [i] was failed by a sweep between [t0] and [t1]. *)
Definition swept_one (t0 t1 : Z) (d d' : db) (i : string) : Prop :=
  ∃ r0 x t n ev,
    tasks d !! i = Some r0 ∧ status r0 = PROCESSING ∧ expiresAt r0 = Some x ∧ x < t ∧
    t0 ≤ t ≤ t1 ∧ tasks d' !! i = Some (update_row n (timeout_sets t) r0) ∧
    events_of i d' = events_of i d ++ [ev] ∧ ev_taskId ev = i ∧ ev_type ev = failed_ev ∧
    ev_seq ev = Z.of_nat (length (events_of i d)) + 1.

Definition untouched (d d' : db) (i : string) : Prop :=
  tasks d' !! i = tasks d !! i ∧ events_of i d' = events_of i d.

Definition swept (t0 t1 : Z) (d d' : db) : Prop :=
  ∀ i, untouched d d' i ∨ swept_one t0 t1 d d' i.

Lemma swept_refl t0 t1 d : swept t0 t1 d d.
Proof. intros i. by left. Qed.

Lemma swept_mono t0 t1 t0' t1' d d' :
  t0' ≤ t0 ∧ t1 ≤ t1' → swept t0 t1 d d' → swept t0' t1' d d'.
Proof.
  intros T H i. destruct (H i) as [?|(r0 & x & t & n & ev & ? & ? & ? & ? & ? & ?)]; [by left|].
  right. exists r0, x, t, n, ev. split_and!; try done; try lia; by destruct_and?.
Qed.

Lemma swept_trans t0 t1 t2 d0 d1 d2 :
  t0 ≤ t1 ≤ t2 → swept t0 t1 d0 d1 → swept t1 t2 d1 d2 → swept t0 t2 d0 d2.
Proof.
  intros T H1 H2 i. destruct (H1 i) as [[E1 F1]|H].
  - destruct (H2 i) as [[E2 F2]|H].
    + left. split; congruence.
    + destruct H as (r0 & x & t & n & ev & ? & ? & ? & ? & ? & ? & He & ? & ? & ?). right.
      exists r0, x, t, n, ev. rewrite <-E1, <-F1. split_and!; done || lia.
  - right. destruct H as (r0 & x & t & n & ev & ? & ? & ? & ? & ? & Hi & He & ? & ? & ?).
    destruct (H2 i) as [[E2 F2]|(r1 & ? & ? & ? & ? & Hi' & Hs & _)].
    + exists r0, x, t, n, ev. rewrite E2, F2. split_and!; done || lia.
    + rewrite Hi in Hi'. injection Hi' as <-. done.
Qed.

Section sweep.
Context {SO : ScanOrder}.

Lemma events_of_batch c d ids i :
  NoDup ids →
  filter (λ e, ev_taskId e = i) (imap (timeout_event c d) ids) =
  match list_find (λ j, j = i) ids with
  | Some (k, _) => [timeout_event c d k i]
  | None => []
  end.
Proof.
  intros HN. set (f := timeout_event c d).
  assert (Hf : ∀ k j, ev_taskId (f k j) = j) by done. clearbody f. revert f Hf.
  induction ids as [|j ids IH]; intros f Hf; [done|].
  apply NoDup_cons in HN as [Hj HN]. rewrite imap_cons, filter_cons, Hf. simpl.
  case_decide as Hd.
  - subst j. f_equal. rewrite (IH HN (f ∘ S)) by (intros; apply Hf).
    destruct (list_find _ ids) as [[k j]|] eqn:E; [|done].
    apply list_find_Some in E as (E & -> & _). destruct Hj. by eapply list_elem_of_lookup_2.
  - rewrite (IH HN (f ∘ S)) by (intros; apply Hf).
    by destruct (list_find _ ids) as [[k j']|].
Qed.

(** One batch, in terms of the single tasks. *)
Lemma expire_tx_swept t t1 n c d res d' :
  db_wf d → t ≤ t1 → expire_tx t n c d = (Ok res, d') → swept t t1 d d'.
Proof.
  intros W T H. apply expire_tx_ok in H as (Hp & _ & ->); [|done]. intros i.
  set (s := batch_rows t n (c_locked c) d) in *.
  pose proof (NoDup_batch_ids t n (c_locked c) d W) as HN. fold s in HN.
  unfold swept_one, untouched, events_of at 1 2 3. simpl.
  rewrite filter_app, events_of_batch, lookup_fmap by done.
  fold (events_of i d). destruct (list_find (λ j, j = i) (id <$> s)) as [[k j]|] eqn:E.
  - right. apply list_find_Some in E as (E & -> & _).
    rewrite list_lookup_fmap in E. apply fmap_Some in E as (r & Hr & ->).
    apply list_elem_of_lookup_2 in Hr. pose proof (Hp r Hr) as Hs.
    pose proof Hr as (Hrow & He & _)%elem_of_batch. apply elem_of_rows_wf in Hrow; [|done].
    unfold expired in He. destruct (expiresAt r) as [x|] eqn:Hx;
      [|by rewrite andb_false_r in He].
    apply andb_true_iff in He as [_ He%Z.ltb_lt].
    exists r, x, t, (c_now c), (timeout_event c d k (id r)). rewrite Hrow. simpl.
    rewrite bool_decide_true by (apply list_elem_of_fmap; eauto).
    split_and!; done || lia.
  - left. rewrite app_nil_r. split; [|done].
    apply list_find_None in E. rewrite Forall_forall in E.
    destruct (tasks d !! i) as [r|] eqn:Hi; [|done]. simpl. f_equal.
    apply (wf_id d W) in Hi as Hid. rewrite bool_decide_false; [done|].
    rewrite Hid. intros Hin. by apply (E i Hin).
Qed.

Lemma elem_of_live_ids d i :
  i ∈ live_ids d ↔ ∃ r, tasks d !! i = Some r ∧ is_terminal (status r) = false.
Proof.
  unfold live_ids. rewrite elem_of_dom. split; intros [r Hr]; exists r;
    [apply map_lookup_filter_Some in Hr|apply map_lookup_filter_Some]; done.
Qed.

Lemma swept_live_ids t0 t1 d d' i :
  swept t0 t1 d d' → swept_one t0 t1 d d' i → live_ids d' ⊂ live_ids d.
Proof.
  intros Hs (r0 & x & t & n & ev & Hi & Hst & _ & _ & _ & Hi' & _).
  assert (Hi1 : i ∈ live_ids d) by (apply elem_of_live_ids; exists r0; by rewrite Hst).
  assert (Hi2 : i ∉ live_ids d').
  { intros (r & Hr & Ht)%elem_of_live_ids. rewrite Hi' in Hr. by injection Hr as <-. }
  split; [|set_solver]. intros j (r & Hr & Ht)%elem_of_live_ids.
  destruct (Hs j) as [[E _]|(r1 & ? & ? & ? & ? & Hj & Hst1 & _ & _ & _ & Hj' & _)].
  - apply elem_of_live_ids. exists r. by rewrite <-E.
  - rewrite Hj' in Hr. by injection Hr as <-.
Qed.

(** With few live tasks every batch holds all the expired rows it may lock. *)
Lemma small_batch_complete t n locked d r :
  db_wf d → (size (live_ids d) ≤ n)%nat → r ∈ rows d → expired t r = true →
  id r ∉ locked → r ∈ batch_rows t n locked d.
Proof.
  intros W Hn Hr He Hlk. unfold batch_rows. set (l := filter _ (rows d)).
  assert (Hl : (length l ≤ size (live_ids d))%nat).
  { rewrite <-(length_fmap id l), <-(size_list_to_set (C:=gset string)).
    - apply subseteq_size. intros i (x & -> & [[Hx _] Hin]%list_elem_of_filter)%elem_of_list_to_set%list_elem_of_fmap.
      apply elem_of_live_ids. exists x. apply elem_of_rows_wf in Hin; [|done]. split; [done|].
      apply andb_true_iff in Hx as [Hx _]. unfold status_condition in Hx.
      rewrite active_not_terminal in Hx. by apply negb_true_iff in Hx.
    - eapply sublist_NoDup; [by apply NoDup_rows_ids|]. apply fmap_sublist, sublist_filter. }
  rewrite take_ge by lia. by apply list_elem_of_filter.
Qed.

(** A non-empty batch shrinks the set of live tasks. *)
Lemma expire_tx_live_ids t n c d res d' :
  db_wf d → expire_tx t n c d = (Ok res, d') → expiredCount res ≠ 0 →
  live_ids d' ⊂ live_ids d.
Proof.
  intros W H Hc. pose proof (expire_tx_swept t t n c d res d' W ltac:(lia) H) as Hs.
  pose proof H as (Hp & -> & ->)%expire_tx_ok; [|done]. simpl in Hc.
  destruct (batch_rows t n (c_locked c) d) as [|r s] eqn:Hb; [done|].
  assert (Hr : r ∈ batch_rows t n (c_locked c) d) by (rewrite Hb; set_solver).
  apply elem_of_batch in Hr as (Hr & _ & _). apply elem_of_rows_wf in Hr; [|done].
  eapply (swept_live_ids t t); [exact Hs|]. destruct (Hs (id r)) as [[E _]|Hone]; [|exact Hone].
  rewrite Hr in E. simpl in E. rewrite lookup_fmap, Hr in E. simpl in E.
  rewrite bool_decide_true in E by set_solver. injection E as E.
  apply (f_equal status) in E. simpl in E. rewrite (Hp r) in E by set_solver. done.
Qed.

Definition notices (evs : list TaskEventRow) : list (string * TaskEventRow) :=
  (λ ev, (channel_of (ev_taskId ev), ev)) <$> evs.

Lemma run_publish_all E evs w :
  ∃ w', run E (publish_all evs) w = (Some (Ok tt), w') ∧ w_db w' = w_db w ∧
    ((∀ n, e_fault E n = no_fault) → w_published w' = w_published w ++ notices evs).
Proof.
  revert w. induction evs as [|ev evs IH]; intros w; cbn [publish_all].
  - exists w. simpl. rewrite app_nil_r. done.
  - set (w1 := (exec_op E (Publish (channel_of (ev_taskId ev)) ev) w).2).
    destruct (IH w1) as (w' & Hr & Hd & Hp). exists w'.
    rewrite run_bind, run_catch, run_await.
    subst w1. simpl in *. destruct (e_fault E (w_step w)) eqn:Hf; simpl in *;
      (split_and!; [exact Hr|exact Hd|intros NF]).
    + rewrite Hp by done. by rewrite <-app_assoc.
    + by rewrite NF in Hf.
    + by rewrite NF in Hf.
Qed.

Lemma run_batch E n w o w' :
  run E (expireTimedOutTasksBatch n) w = (o, w') →
  ∃ r t c, o = Some r ∧ w_published w' = w_published w ∧ w_now w ≤ t ≤ w_now w' ∧
    c_locked c = e_locked E (S (w_step w)) ∧ t = w_now (advance E w) ∧
    match r with
    | Ok res => expire_tx t n c (w_db w) = (Ok res, w_db w')
    | Err e => expire_tx t n c (w_db w) = (Err e, w_db w') ∨
        (w_db w' = w_db w ∨ ∃ res, expire_tx t n c (w_db w) = (Ok res, w_db w')) ∧
        e_fault E (S (w_step w)) ≠ no_fault
    end.
Proof.
  intros H. unfold expireTimedOutTasksBatch in H. rewrite run_bind, run_await in H.
  cbn [exec_op] in H. rewrite run_await in H. cbn [exec_op] in H.
  set (w1 := advance E w) in *. set (c := ctx_of E w1) in *.
  exists (match o with Some r => r | None => Err QueueError end), (w_now w1), c.
  assert (T : w_now w ≤ w_now w1 ≤ w_now (advance E w1)) by (subst w1; simpl; lia).
  destruct (expire_tx (w_now w1) n c (w_db w1)) as [r d'] eqn:Ht. change (w_db w1) with (w_db w) in Ht.
  change (e_fault E (S (w_step w))) with (e_fault E (w_step w1)).
  destruct (e_fault E (w_step w1)) eqn:Hf; simpl in H; injection H as <- <-;
    simpl; simpl in Ht; (split_and!; [done|done|simpl in T; lia|simpl in T; lia|done|done|]).
  - rewrite Ht. destruct r; [done|by left].
  - right. split; [by left|done].
  - rewrite Ht. right. split; [|done]. destruct r as [res|e]; [eauto|].
    left. unfold expire_tx in Ht. by apply transaction_inv in Ht as [(? & [=] & _)|(? & ? & _ & _ & ->)].
Qed.

Lemma expire_tx_err t n c d e d' : expire_tx t n c d = (Err e, d') → d' = d.
Proof. by intros [(? & [=] & _)|(? & ? & _ & _ & ->)]%transaction_inv. Qed.

Lemma expired_mono t t' r : t ≤ t' → expired t r = true → expired t' r = true.
Proof.
  unfold expired. intros T [-> H]%andb_true_iff. destruct (expiresAt r); [|done].
  apply Z.ltb_lt in H. apply Z.ltb_lt. lia.
Qed.

(** What a sweep leaves behind, whatever the environment does. *)
Definition sweep_post (E : env) (w : world) (r : res Z) (w' : world) : Prop :=
  db_wf (w_db w') ∧ swept (w_now w) (w_now w') (w_db w) (w_db w') ∧
  ∃ evs, task_events (w_db w') = task_events (w_db w) ++ evs ∧
    ((∀ n, e_fault E n = no_fault) → w_published w' = w_published w ++ notices evs) ∧
    (is_ok r = true → ∃ n, ∀ i x, tasks (w_db w') !! i = Some x →
       expired (w_now w) x = true → i ∈ e_locked E n).

Lemma sweep_post_trans E w w1 w2 r evs :
  w_now w ≤ w_now w1 ≤ w_now w2 → swept (w_now w) (w_now w1) (w_db w) (w_db w1) →
  task_events (w_db w1) = task_events (w_db w) ++ evs →
  ((∀ n, e_fault E n = no_fault) → w_published w1 = w_published w ++ notices evs) →
  sweep_post E w1 r w2 → sweep_post E w r w2.
Proof.
  intros T Hs He Hp (W & Hs' & evs' & He' & Hp' & Hx).
  split_and!; [done|by eapply swept_trans|]. exists (evs ++ evs'). split_and!.
  - by rewrite He', He, app_assoc.
  - intros NF. rewrite Hp', Hp, <-app_assoc by done. unfold notices. by rewrite fmap_app.
  - intros Hok. destruct (Hx Hok) as [n Hn]. exists n. intros i x Hi He1.
    apply (Hn i x Hi). eapply expired_mono; [|exact He1]. lia.
Qed.

(** The last batch of a sweep. *)
Lemma sweep_post_done E t c w w1 total res :
  db_wf (w_db w) → w_now w ≤ t ≤ w_now w1 → c_locked c = e_locked E (S (w_step w)) →
  w_published w1 = w_published w →
  expire_tx t SWEEP_BATCH_SIZE c (w_db w) = (Ok res, w_db w1) → expiredCount res = 0 →
  sweep_post E w (Ok total) w1.
Proof.
  intros W T Hlk Hpub Hb Hc.
  pose proof (expire_tx_swept _ _ _ _ _ _ _ W (Z.le_refl t) Hb) as Hs.
  split; [eauto using expire_tx_wf|]. split; [eapply swept_mono; [|exact Hs]; lia|].
  apply expire_tx_ok in Hb as (_ & -> & Hd); [|done]. simpl in Hc.
  destruct (batch_rows t SWEEP_BATCH_SIZE (c_locked c) (w_db w)) as [|] eqn:Es; [|done].
  exists []. rewrite Hd. split_and!; [done| |].
  - intros _. by rewrite Hpub, app_nil_r.
  - intros _. exists (S (w_step w)). intros i x Hi Hx. simpl in Hi.
    rewrite lookup_fmap in Hi. apply fmap_Some in Hi as (r0 & Hi & ->).
    apply dec_stable. intros Hn. rewrite <-Hlk in Hn.
    assert (Hin : r0 ∈ batch_rows t SWEEP_BATCH_SIZE (c_locked c) (w_db w)).
    { apply batch_complete; [rewrite Es; simpl; unfold SWEEP_BATCH_SIZE; lia| | |].
      - apply elem_of_rows. eauto.
      - eapply expired_mono; [|exact Hx]. lia.
      - by rewrite (wf_id _ W _ _ Hi). }
    rewrite Es in Hin. set_solver.
Qed.

(** A batch whose call to the database failed. *)
Lemma sweep_post_err E t n c w w1 e :
  db_wf (w_db w) → w_now w ≤ t ≤ w_now w1 → w_published w1 = w_published w →
  expire_tx t n c (w_db w) = (Err e, w_db w1) ∨
    (w_db w1 = w_db w ∨ ∃ res, expire_tx t n c (w_db w) = (Ok res, w_db w1)) ∧
    e_fault E (S (w_step w)) ≠ no_fault →
  sweep_post E w (Err e) w1.
Proof.
  intros W T Hpub Hb.
  assert (Hcase : w_db w1 = w_db w ∨
    (∃ res, expire_tx t n c (w_db w) = (Ok res, w_db w1)) ∧
    e_fault E (S (w_step w)) ≠ no_fault).
  { destruct Hb as [Hb%expire_tx_err|[[Hb|Hb] ?]]; eauto. }
  destruct Hcase as [Hd|[[res Hr] Hne]].
  - unfold sweep_post. rewrite Hd. split_and!; [done|apply swept_refl|]. exists [].
    rewrite !app_nil_r. done.
  - split; [eauto using expire_tx_wf|]. split.
    + eapply swept_mono; [|exact (expire_tx_swept _ _ _ _ _ _ _ W (Z.le_refl t) Hr)]. lia.
    + pose proof Hr as (_ & Hres & Hd)%expire_tx_ok; [|done]. eexists. rewrite Hd.
      split_and!; [done| |done]. intros NF. by rewrite NF in Hne.
Qed.

Lemma sweep_loop_spec E fuel total w o w' :
  db_wf (w_db w) → (size (live_ids (w_db w)) < fuel)%nat →
  run E (sweep_loop fuel total) w = (o, w') → ∃ r, o = Some r ∧ sweep_post E w r w'.
Proof.
  revert total w. induction fuel as [|fuel IH]; intros total w W Hf H; [lia|].
  cbn [sweep_loop] in H. rewrite run_bind in H.
  destruct (run E (expireTimedOutTasksBatch SWEEP_BATCH_SIZE) w) as [ob w1] eqn:Hb.
  apply run_batch in Hb as (rb & t & c & -> & Hpub & T & Hlk & _ & Hb).
  destruct rb as [res|e]; [|injection H as <- <-; eauto using sweep_post_err].
  destruct (expiredCount res =? 0) eqn:Hc; [apply Z.eqb_eq in Hc|apply Z.eqb_neq in Hc].
  { injection H as <- <-. eauto using sweep_post_done. }
  destruct (run_publish_all E (events res) w1) as (w2 & Hr & Hd2 & Hp2).
  rewrite run_bind, Hr in H. pose proof (run_now _ _ _ _ _ Hr) as T2.
  pose proof (run_now _ _ _ _ _ H) as T3.
  pose proof (expire_tx_live_ids _ _ _ _ _ _ W Hb Hc) as Hl%subset_size.
  apply IH in H as (r & -> & Hpost); [|rewrite Hd2; eauto using expire_tx_wf|rewrite Hd2; lia].
  exists r. split; [done|]. eapply (sweep_post_trans E w w2 _ _ (events res)); try exact Hpost;
    rewrite ?Hd2; try lia.
  - eapply swept_mono; [|exact (expire_tx_swept _ _ _ _ _ _ _ W (Z.le_refl t) Hb)]. lia.
  - apply expire_tx_ok in Hb as (_ & -> & Hd); [by rewrite Hd|done].
  - intros NF. by rewrite Hp2, Hpub.
Qed.
End sweep.

(** ** Properties *)

(** C17: the sweep terminates, whatever fails on the way, and touches nothing but
    expired PROCESSING tasks: every other task keeps its row and its event log,
    and a task that timed out has become FAILED with the timeout error and has
    got exactly one [failed] event, at the end of its log.  Without faults every
    appended event is published on its task's channel.  A sweep that completes
    leaves no task whose deadline had passed when it began, but for those some
    other transaction held a lock on at its last batch. *)
Theorem sweep_correct {SO : ScanOrder} E fuel w o w' :
  db_wf (w_db w) → (size (live_ids (w_db w)) < fuel)%nat → run E (sweep fuel) w = (o, w') →
  is_Some o ∧ db_wf (w_db w') ∧ swept (w_now w) (w_now w') (w_db w) (w_db w') ∧
  ∃ evs, task_events (w_db w') = task_events (w_db w) ++ evs ∧
    ((∀ n, e_fault E n = no_fault) → w_published w' = w_published w ++ notices evs) ∧
    (o = Some (Ok tt) → ∃ n, ∀ i x, tasks (w_db w') !! i = Some x →
       expired (w_now w) x = true → i ∈ e_locked E n).
Proof.
  intros W Hf H. unfold sweep in H. rewrite run_bind in H.
  destruct (run E (sweep_loop fuel 0) w) as [o1 w1] eqn:H1.
  apply sweep_loop_spec in H1 as (r & -> & Hw & Hs & evs & He & Hp & Hx); [|done..].
  destruct r as [total|e]; injection H as <- <-; (split_and!; [by eexists|done..|]);
    exists evs; split_and!; try done. by intros _; apply Hx.
Qed.


(** ** Instances *)

Definition sweep_db : db := sample_db
  [sample_row "a" PROCESSING (Some 1000) None (Some 61000);
   sample_row "b" PENDING None None (Some 500000)]
  [sample_event "a" "e1" 1 progress_ev].

Lemma sweep_correct_witness :
  let out := run calm_env (sweep 3) (sample_world sweep_db) in
  (status <$> tasks (w_db out.2) !! "a") = Some FAILED ∧
  (status <$> tasks (w_db out.2) !! "b") = Some PENDING ∧
  swept 100000 (w_now out.2) sweep_db (w_db out.2).
Proof.
  intros out. split; [vm_compute; reflexivity|]. split; [vm_compute; reflexivity|].
  assert (W : db_wf sweep_db) by check_db.
  assert (L : (size (live_ids sweep_db) < 3)%nat) by (vm_compute; lia).
  apply (sweep_correct calm_env 3 (sample_world sweep_db) out.1 out.2 W L
           (surjective_pairing out)).
Defined.

Definition blocked_db : db := sample_db
  [sample_row "a" PROCESSING (Some 1000) None (Some 61000);
   sample_row "b" PENDING None None (Some 60000)] [].

