(* ===== verification/Migrations.v ===== *)
(** * Migrations: the catalog of the database

    The SQL files of [src/database/drizzle/migrations/], the two [pgTable]
    declarations they are generated from, and what Postgres enforces of a table:
    column ranges, NOT NULL, defaults, CHECK constraints and unique indexes.  Schema.v
    and Database.v state these rules directly on the rows of the program; here the
    tables are data and one interpreter gives them their meaning, so that the rules
    of the model are proved to be those of the files that create the database. *)
From S2P Require Import Prelude Errors Schema Database EventsRepository TasksRepository MaintenanceRepository.

#[local] Open Scope Z_scope.

(** ** Values and conditions *)

Inductive value : Type :=
| VNull
| VUuid (s : string)
| VText (s : string)
| VInt (n : Z)
| VTime (t : Z)
| VJson (j : json).

(** A row gives each column a value. *)
Definition Row : Type := string → value.

(** The conditions of the CHECK constraints and the partial indexes. *)
Inductive cond : Type :=
| Equals (column text : string)
| In (column : string) (texts : list string)
| IsNull (column : string)
| IsNotNull (column : string)
| And (c d : cond)
| Or (c d : cond).

(** SQL's three truth values; [None] is unknown. *)
Definition and3 (a b : option bool) : option bool :=
  match a, b with
  | Some false, _ | _, Some false => Some false
  | Some true, Some true => Some true
  | _, _ => None
  end.
Definition or3 (a b : option bool) : option bool :=
  match a, b with
  | Some true, _ | _, Some true => Some true
  | Some false, Some false => Some false
  | _, _ => None
  end.

Definition eq_text (v : value) (s : string) : option bool :=
  match v with VText t => Some (bool_decide (t = s)) | VNull => None | _ => Some false end.

Fixpoint eval (c : cond) (r : Row) : option bool :=
  match c with
  | Equals column text => eq_text (r column) text
  | In column texts => foldr (λ t b, or3 (eq_text (r column) t) b) (Some false) texts
  | IsNull column => Some (match r column with VNull => true | _ => false end)
  | IsNotNull column => Some (match r column with VNull => false | _ => true end)
  | And c d => and3 (eval c r) (eval d r)
  | Or c d => or3 (eval c r) (eval d r)
  end.

(** ** Tables and indexes *)

Inductive sql_type : Type := UUID | TEXT | JSONB | INTEGER | BIGINT | TIMESTAMPTZ.

Inductive default_expr : Type :=
| GenRandomUuid
| NowExpr
| Literal (v : value).

Record column : Type := mkColumn {
  column_name : string;
  column_type : sql_type;
  primary_key : bool;
  not_null : bool;
  default_of : option default_expr }.

Record table : Type := mkTable {
  table_name : string;
  columns : list column;
  checks : list (string * cond) }.        (** in the order of their names, as Postgres runs them *)

Record index : Type := mkIndex {
  index_name : string;
  index_table : string;
  unique : bool;
  index_columns : list string;
  index_where : option cond }.

Record catalog : Type := mkCatalog {
  cat_tables : list table;
  cat_indexes : list index }.

Definition no_catalog : catalog := mkCatalog [] [].

(** ** The statements of the migrations *)

Inductive statement : Type :=
| CreateTable (t : table)
| AddColumn (table_ : string) (c : column)
| CreateIndex (i : index).

Definition find_table (name : string) (cat : catalog) : option table :=
  head (filter (λ t, table_name t = name) (cat_tables cat)).

Definition has_column (t : table) (name : string) : bool :=
  bool_decide (name ∈ column_name <$> columns t).

(** A statement fails when it names what exists, or does not name what it needs. *)
Definition execute (s : statement) (cat : catalog) : option catalog :=
  match s with
  | CreateTable t =>
      match find_table (table_name t) cat with
      | Some _ => None
      | None => Some (mkCatalog (cat_tables cat ++ [t]) (cat_indexes cat))
      end
  | AddColumn name c =>
      match find_table name cat with
      | None => None
      | Some t =>
          if has_column t (column_name c) then None
          else Some (mkCatalog
            ((λ t, if decide (table_name t = name)
                   then mkTable name (columns t ++ [c]) (checks t) else t) <$> cat_tables cat)
            (cat_indexes cat))
      end
  | CreateIndex i =>
      match find_table (index_table i) cat with
      | None => None
      | Some t =>
          if forallb (has_column t) (index_columns i)
             && negb (bool_decide (index_name i ∈ index_name <$> cat_indexes cat))
          then Some (mkCatalog (cat_tables cat) (cat_indexes cat ++ [i]))
          else None
      end
  end.

Fixpoint migrate (l : list statement) (cat : catalog) : option catalog :=
  match l with
  | [] => Some cat
  | s :: l => cat' ← execute s cat; migrate l cat'
  end.

(** *** What the two notations for a column share *)

Definition plain (name : string) (ty : sql_type) : column := mkColumn name ty false false None.
Definition required (name : string) (ty : sql_type) : column := mkColumn name ty false true None.
Definition defaulted (name : string) (ty : sql_type) (d : default_expr) : column :=
  mkColumn name ty false true (Some d).
(** [uuid PRIMARY KEY DEFAULT gen_random_uuid() NOT NULL], and
    [uuid('id').primaryKey().defaultRandom()]. *)
Definition key (name : string) : column := mkColumn name UUID true true (Some GenRandomUuid).

(** ** [0000_initial_schema.sql] *)

Definition status_check : cond :=
  In "status" ["PENDING"; "PROCESSING"; "COMPLETED"; "FAILED"; "CANCELLED"].

(** AND binds tighter than OR; both associate to the left. *)
Definition valid_state_data : cond :=
  Or (Or (Or
    (And (And (Equals "status" "PENDING") (IsNull "processing_started_at")) (IsNull "completed_at"))
    (And (And (Equals "status" "PROCESSING") (IsNotNull "processing_started_at")) (IsNull "completed_at")))
    (And (And (In "status" ["COMPLETED"; "FAILED"]) (IsNotNull "processing_started_at"))
         (IsNotNull "completed_at")))
    (And (Equals "status" "CANCELLED") (IsNotNull "completed_at")).

Definition type_check : cond := In "event_type" ["progress"; "completed"; "failed"; "cancelled"].

Definition create_tasks : statement := CreateTable (mkTable "tasks"
  [key "id";
   plain "idempotency_key" TEXT;
   defaulted "status" TEXT (Literal (VText "PENDING"));
   required "type" TEXT;
   defaulted "payload" JSONB (Literal (VJson (JObj [])));
   required "executor_url" TEXT;
   plain "callback_token" TEXT;
   plain "webhook_url" TEXT;
   plain "cancel_url" TEXT;
   plain "result" JSONB;
   plain "error" JSONB;
   defaulted "progress" INTEGER (Literal (VInt 0));
   defaulted "timeout_seconds" INTEGER (Literal (VInt 300));
   plain "processing_started_at" TIMESTAMPTZ;
   plain "completed_at" TIMESTAMPTZ;
   defaulted "created_at" TIMESTAMPTZ NowExpr;
   defaulted "updated_at" TIMESTAMPTZ NowExpr]
  [("tasks_status_check", status_check); ("tasks_valid_state_data", valid_state_data)]).

Definition create_task_events : statement := CreateTable (mkTable "task_events"
  [key "id";
   required "task_id" UUID;
   required "seq" BIGINT;
   required "event_type" TEXT;
   defaulted "payload" JSONB (Literal (VJson (JObj [])));
   defaulted "created_at" TIMESTAMPTZ NowExpr]
  [("task_events_type_check", type_check)]).

Definition initial_schema : list statement :=
  [create_tasks; create_task_events;
   CreateIndex (mkIndex "tasks_status_idx" "tasks" false ["status"] None);
   CreateIndex (mkIndex "tasks_processing_started_at_idx" "tasks" false ["processing_started_at"] None);
   CreateIndex (mkIndex "tasks_completed_at_idx" "tasks" false ["completed_at"] None);
   CreateIndex (mkIndex "tasks_idempotency_key_idx" "tasks" true ["idempotency_key"]
     (Some (IsNotNull "idempotency_key")));
   CreateIndex (mkIndex "task_events_task_id_seq_unique_idx" "task_events" true ["task_id"; "seq"] None);
   CreateIndex (mkIndex "task_events_created_at_idx" "task_events" false ["created_at"] None)].

(** ** [0001_add_sweeper_timeout_tracking.sql] *)

Definition add_expires_at : column := plain "expires_at" TIMESTAMPTZ.

Definition add_sweeper_timeout_tracking : list statement :=
  [AddColumn "tasks" add_expires_at;
   CreateIndex (mkIndex "tasks_sweeper_idx" "tasks" false ["expires_at"]
     (Some (Equals "status" "PROCESSING")))].

(** The order of [meta/_journal.json]. *)
Definition journal : list statement := initial_schema ++ add_sweeper_timeout_tracking.

(** ** The declarations [tasks] and [taskEvents] of the schema files *)

Definition tasks_table : table := mkTable "tasks"
  [key "id";
   plain "idempotency_key" TEXT;
   defaulted "status" TEXT (Literal (VText "PENDING"));
   required "type" TEXT;
   defaulted "payload" JSONB (Literal (VJson (JObj [])));
   required "executor_url" TEXT;
   plain "callback_token" TEXT;
   plain "webhook_url" TEXT;
   plain "cancel_url" TEXT;
   plain "result" JSONB;
   plain "error" JSONB;
   defaulted "progress" INTEGER (Literal (VInt 0));
   defaulted "timeout_seconds" INTEGER (Literal (VInt 300));
   plain "processing_started_at" TIMESTAMPTZ;
   plain "expires_at" TIMESTAMPTZ;
   plain "completed_at" TIMESTAMPTZ;
   defaulted "created_at" TIMESTAMPTZ NowExpr;
   defaulted "updated_at" TIMESTAMPTZ NowExpr]
  [("tasks_status_check", status_check); ("tasks_valid_state_data", valid_state_data)].

Definition sweeper_where : cond := In "status" ["PENDING"; "PROCESSING"].

Definition tasks_indexes : list index :=
  [mkIndex "tasks_status_idx" "tasks" false ["status"] None;
   mkIndex "tasks_processing_started_at_idx" "tasks" false ["processing_started_at"] None;
   mkIndex "tasks_completed_at_idx" "tasks" false ["completed_at"] None;
   mkIndex "tasks_sweeper_idx" "tasks" false ["expires_at"] (Some sweeper_where);
   mkIndex "tasks_idempotency_key_idx" "tasks" true ["idempotency_key"]
     (Some (IsNotNull "idempotency_key"))].

Definition taskEvents_table : table := mkTable "task_events"
  [key "id";
   required "task_id" UUID;
   required "seq" BIGINT;
   required "event_type" TEXT;
   defaulted "payload" JSONB (Literal (VJson (JObj [])));
   defaulted "created_at" TIMESTAMPTZ NowExpr]
  [("task_events_type_check", type_check)].

Definition taskEvents_indexes : list index :=
  [mkIndex "task_events_task_id_seq_unique_idx" "task_events" true ["task_id"; "seq"] None;
   mkIndex "task_events_created_at_idx" "task_events" false ["created_at"] None].

(** ** What Postgres enforces of a table *)

(** A value out of the range of its column. *)
Definition out_of_range (c : column) (v : value) : bool :=
  match column_type c, v with
  | INTEGER, VInt n => negb (int4 n)
  | BIGINT, VInt n => negb (int8 n)
  | _, _ => false
  end.

Definition missing (r : Row) (c : column) : bool :=
  not_null c && match r (column_name c) with VNull => true | _ => false end.

(** Why a row is refused by the table alone.  A CHECK refuses what is false, and
    lets what is unknown pass. *)
Inductive refusal : Type :=
| OutOfRange
| NotNullViolation (column : string)
| CheckViolation (constraint : string)
| UniqueViolation (index : string).

Definition row_refused (t : table) (r : Row) : option refusal :=
  if existsb (λ c, out_of_range c (r (column_name c))) (columns t) then Some OutOfRange
  else match head (List.filter (missing r) (columns t)) with
       | Some c => Some (NotNullViolation (column_name c))
       | None =>
           match head (List.filter (λ nc, bool_decide (eval nc.2 r = Some false)) (checks t)) with
           | Some (name, _) => Some (CheckViolation name)
           | None => None
           end
       end.

(** Two keys that a unique index takes for the same; NULL is different from
    everything.  No key has a [jsonb] column. *)
Definition same_key (v w : value) : bool :=
  match v, w with
  | VUuid a, VUuid b | VText a, VText b => bool_decide (a = b)
  | VInt a, VInt b | VTime a, VTime b => bool_decide (a = b)
  | _, _ => false
  end.

Definition indexed (i : index) (r : Row) : bool :=
  match index_where i with Some c => bool_decide (eval c r = Some true) | None => true end.

Definition collides (i : index) (r r' : Row) : bool :=
  unique i && indexed i r && indexed i r' && forallb (λ c, same_key (r c) (r' c)) (index_columns i).

(** The index behind the primary key of a table. *)
Definition pkey (t : table) : index :=
  mkIndex (table_name t +:+ "_pkey") (table_name t) true
    (column_name <$> List.filter primary_key (columns t)) None.

(** The indexes of a table in the order of their creation. *)
Definition indexes_of (cat : catalog) (t : table) : list index :=
  pkey t :: filter (λ i, index_table i = table_name t) (cat_indexes cat).

(** The first of some indexes that refuses a row. *)
Definition first_conflict (l : list index) (r : Row) (rs : list Row) : option index :=
  head (List.filter (λ i, existsb (collides i r) rs) l).

(** An INSERT of [r] into a table that has the rows [rs]. *)
Definition insert_refused (cat : catalog) (t : table) (rs : list Row) (r : Row) : option refusal :=
  match row_refused t r with
  | Some e => Some e
  | None =>
      match first_conflict (indexes_of cat t) r rs with
      | Some i => Some (UniqueViolation (index_name i))
      | None => None
      end
  end.

(** The row an INSERT makes of the values it names. *)
Definition default_value (now : Z) (uuid : string) (c : column) : value :=
  match default_of c with
  | Some GenRandomUuid => VUuid uuid
  | Some NowExpr => VTime now
  | Some (Literal v) => v
  | None => VNull
  end.

Definition assoc {A} (n : string) (l : list (string * A)) : option A :=
  snd <$> head (filter (λ nv, nv.1 = n) l).

Definition complete (t : table) (now : Z) (uuid : string) (named : list (string * option value)) : Row :=
  λ n, match head (filter (λ c, column_name c = n) (columns t)) with
       | Some c => default (default_value now uuid c) (mjoin (assoc n named))
       | None => VNull
       end.

(** [ALTER TABLE ... ADD COLUMN] on a row that is there. *)
Definition extended (now : Z) (uuid : string) (c : column) (r : Row) : Row :=
  λ n, if decide (n = column_name c) then default_value now uuid c else r n.

(** ** The rows of the model *)

Definition nullable {A} (f : A → value) (o : option A) : value := from_option f VNull o.

Definition task_values (r : TaskRow) : list (string * value) :=
  [("id", VUuid (id r)); ("idempotency_key", nullable VText (idempotencyKey r));
   ("status", VText (status_text (status r))); ("type", VText (type r));
   ("payload", VJson (payload r)); ("executor_url", VText (executorUrl r));
   ("callback_token", nullable VText (callbackToken r));
   ("webhook_url", nullable VText (webhookUrl r));
   ("cancel_url", nullable VText (cancelUrl r)); ("result", nullable VJson (result r));
   ("error", nullable (λ e, VJson (TaskError_json e)) (error r)); ("progress", VInt (progress r));
   ("timeout_seconds", VInt (timeoutSeconds r));
   ("processing_started_at", nullable VTime (processingStartedAt r));
   ("expires_at", nullable VTime (expiresAt r));
   ("completed_at", nullable VTime (completedAt r));
   ("created_at", VTime (createdAt r)); ("updated_at", VTime (updatedAt r))].

Definition row_of (l : list (string * value)) : Row := λ n, default VNull (assoc n l).

Definition task_row (r : TaskRow) : Row := row_of (task_values r).

Definition event_values (e : TaskEventRow) : list (string * value) :=
  [("id", VUuid (ev_id e)); ("task_id", VUuid (ev_taskId e)); ("seq", VInt (ev_seq e));
   ("event_type", VText (event_type_text (ev_type e))); ("payload", VJson (ev_payload e));
   ("created_at", VTime (ev_createdAt e))].

Definition event_row (e : TaskEventRow) : Row := row_of (event_values e).

(** What [.values(...)] names. *)
Definition task_named (v : TaskInsert) : list (string * option value) :=
  [("id", VUuid <$> ins_id v); ("idempotency_key", VText <$> ins_idempotencyKey v);
   ("status", (λ s, VText (status_text s)) <$> ins_status v); ("type", Some (VText (ins_type v)));
   ("payload", VJson <$> ins_payload v); ("executor_url", Some (VText (ins_executorUrl v)));
   ("callback_token", VText <$> ins_callbackToken v);
   ("webhook_url", VText <$> ins_webhookUrl v); ("cancel_url", VText <$> ins_cancelUrl v);
   ("result", VJson <$> ins_result v);
   ("error", (λ e, VJson (TaskError_json e)) <$> ins_error v);
   ("progress", VInt <$> ins_progress v); ("timeout_seconds", VInt <$> ins_timeoutSeconds v);
   ("processing_started_at", VTime <$> ins_processingStartedAt v);
   ("expires_at", VTime <$> ins_expiresAt v); ("completed_at", VTime <$> ins_completedAt v)].

(** The errors of the model. *)
Definition refusal_of (e : sql_error) : option refusal :=
  match e with
  | check_violation c => Some (CheckViolation c)
  | unique_violation i => Some (UniqueViolation i)
  | numeric_value_out_of_range => Some OutOfRange
  | invalid_text_representation | connection_lost => None
  end.

(** ** Lemmas *)

Definition migrated : catalog := Eval vm_compute in default no_catalog (migrate journal no_catalog).
Definition migrated_tasks : table := Eval vm_compute in default tasks_table (find_table "tasks" migrated).
Definition migrated_events : table :=
  Eval vm_compute in default taskEvents_table (find_table "task_events" migrated).

Lemma migrated_eq : migrate journal no_catalog = Some migrated.
Proof. vm_compute. reflexivity. Qed.

Lemma migrated_tasks_eq : find_table "tasks" migrated = Some migrated_tasks.
Proof. vm_compute. reflexivity. Qed.

Lemma migrated_events_eq : find_table "task_events" migrated = Some migrated_events.
Proof. vm_compute. reflexivity. Qed.

(** Only ranges and [tasks_valid_state_data] can refuse a row of the model. *)
Lemma task_refused r : row_refused migrated_tasks (task_row r) = task_row_error r ≫= refusal_of.
Proof.
  destruct r as [i k st ty pl ex ct wh ca res er p t psa exp co cr up].
  set (r := mkTask _ _ _ _ _ _ _ _ _ _ _ _ _ _ _ _ _ _). unfold row_refused.
  assert (existsb (λ c, out_of_range c (task_row r (column_name c))) (columns migrated_tasks) =
    negb (int4 p && int4 t)) as ->.
  { lazy -[int4 int8]. destruct (int4 p), (int4 t); reflexivity. }
  assert (List.filter (missing (task_row r)) (columns migrated_tasks) = []) as ->
    by (lazy; reflexivity).
  unfold task_row_error. rewrite tasks_status_check_true. cbn [negb progress timeoutSeconds r].
  destruct (int4 p && int4 t); [|done]. subst r.
  destruct st, psa, co; vm_compute; reflexivity.
Qed.

Lemma event_refused e :
  int8 (ev_seq e) = true → row_refused migrated_events (event_row e) = None.
Proof.
  intros H. destruct e as [i t s ty p cr]. cbn in H. set (e := mkEvent _ _ _ _ _ _).
  unfold row_refused.
  assert (existsb (λ c, out_of_range c (event_row e (column_name c))) (columns migrated_events) =
    negb (int8 s)) as ->.
  { lazy -[int4 int8]. destruct (int8 s); reflexivity. }
  rewrite H. subst e. by destruct ty; vm_compute.
Qed.

(** A name that is no column. *)
Lemma assoc_None {A} n (l : list (string * A)) : n ∉ l.*1 → assoc n l = None.
Proof.
  intros H. unfold assoc. assert (filter (λ nv, nv.1 = n) l = []) as ->; [|done].
  induction l as [|[m a] l IH]; [done|]. rewrite filter_cons_False by set_solver. set_solver.
Qed.

Lemma complete_other t now u named n :
  n ∉ column_name <$> columns t → complete t now u named n = VNull.
Proof.
  intros H. unfold complete. assert (filter (λ c, column_name c = n) (columns t) = []) as ->; [|done].
  induction (columns t) as [|c l IH]; [done|]. rewrite filter_cons_False by set_solver. set_solver.
Qed.

Lemma task_defaults now u v n :
  complete migrated_tasks now u (task_named v) n = task_row (insert_row now u v) n.
Proof.
  destruct (decide (n ∈ column_name <$> columns migrated_tasks)) as [H|H].
  - destruct v. cbn in H.
    repeat (apply elem_of_cons in H as [->|H]; [lazy; by repeat case_goal|]). by apply elem_of_nil in H.
  - rewrite complete_other by done. unfold task_row, row_of. rewrite assoc_None; [done|].
    contradict H. cbn in *. set_solver.
Qed.

(** *** Unique indexes *)

Lemma existsb_ext {A} (f g : A → bool) l : (∀ x, f x = g x) → existsb f l = existsb g l.
Proof. intros H. induction l as [|x l IH]; [done|]. simpl. by rewrite H, IH. Qed.

Lemma existsb_false {A} (f : A → bool) l : (∀ x, f x = false) → existsb f l = false.
Proof. intros H. induction l as [|x l IH]; [done|]. simpl. by rewrite H. Qed.

Lemma not_unique i r rs : unique i = false → existsb (collides i r) rs = false.
Proof. intros H. apply existsb_false. intros x. unfold collides. by rewrite H. Qed.

Lemma first_conflict_cons i l r rs :
  first_conflict (i :: l) r rs =
  if existsb (collides i r) rs then Some i else first_conflict l r rs.
Proof. unfold first_conflict. simpl. by destruct (existsb _ _). Qed.

Definition idempotency_index : index :=
  mkIndex "tasks_idempotency_key_idx" "tasks" true ["idempotency_key"]
    (Some (IsNotNull "idempotency_key")).
Definition seq_index : index :=
  mkIndex "task_events_task_id_seq_unique_idx" "task_events" true ["task_id"; "seq"] None.

Lemma existsb_fmap {A B} (f : B → bool) (g : A → B) l : existsb f (g <$> l) = existsb (λ x, f (g x)) l.
Proof. induction l as [|x l IH]; [done|]. simpl. by rewrite <-IH. Qed.

Lemma task_collisions r rs :
  first_conflict (indexes_of migrated migrated_tasks) (task_row r) (task_row <$> rs) =
  if existsb (λ r', bool_decide (id r = id r')) rs then Some (pkey migrated_tasks)
  else if existsb (λ r', isSome (idempotencyKey r) && bool_decide (idempotencyKey r = idempotencyKey r')) rs
  then Some idempotency_index else None.
Proof.
  change (indexes_of migrated migrated_tasks) with
    [pkey migrated_tasks; mkIndex "tasks_status_idx" "tasks" false ["status"] None;
     mkIndex "tasks_processing_started_at_idx" "tasks" false ["processing_started_at"] None;
     mkIndex "tasks_completed_at_idx" "tasks" false ["completed_at"] None; idempotency_index;
     mkIndex "tasks_sweeper_idx" "tasks" false ["expires_at"] (Some (Equals "status" "PROCESSING"))].
  rewrite !first_conflict_cons, !(not_unique (mkIndex _ _ false _ _)), !existsb_fmap by done.
  rewrite (existsb_ext _ (λ r', bool_decide (id r = id r'))), (existsb_ext (λ x, collides idempotency_index _ _)
    (λ r', isSome (idempotencyKey r) && bool_decide (idempotencyKey r = idempotencyKey r'))); [done|..].
  - intros r'. unfold collides, indexed. cbn -[bool_decide].
    change (task_row r "idempotency_key") with (nullable VText (idempotencyKey r)).
    change (task_row r' "idempotency_key") with (nullable VText (idempotencyKey r')).
    destruct (idempotencyKey r) as [k|], (idempotencyKey r') as [k'|]; try done.
    change (bool_decide (k = k') && true = bool_decide (Some k = Some k')).
    rewrite andb_true_r. apply bool_decide_ext. naive_solver.
  - intros r'. change (same_key (VUuid (id r)) (VUuid (id r')) && true = bool_decide (id r = id r')).
    apply andb_true_r.
Qed.

Lemma event_collisions e es :
  first_conflict (indexes_of migrated migrated_events) (event_row e) (event_row <$> es) =
  if existsb (λ e', bool_decide (ev_id e' = ev_id e)) es then Some (pkey migrated_events)
  else if existsb (λ e', bool_decide (ev_taskId e' = ev_taskId e) && bool_decide (ev_seq e' = ev_seq e)) es
  then Some seq_index else None.
Proof.
  change (indexes_of migrated migrated_events) with
    [pkey migrated_events; seq_index;
     mkIndex "task_events_created_at_idx" "task_events" false ["created_at"] None].
  rewrite !first_conflict_cons, !(not_unique (mkIndex _ _ false _ _)), !existsb_fmap by done.
  rewrite (existsb_ext _ (λ e', bool_decide (ev_id e' = ev_id e))), (existsb_ext (λ x, collides seq_index _ _)
    (λ e', bool_decide (ev_taskId e' = ev_taskId e) && bool_decide (ev_seq e' = ev_seq e))); [done|..].
  - intros e'. change (same_key (VUuid (ev_taskId e)) (VUuid (ev_taskId e')) &&
      (same_key (VInt (ev_seq e)) (VInt (ev_seq e')) && true) =
      bool_decide (ev_taskId e' = ev_taskId e) && bool_decide (ev_seq e' = ev_seq e)).
    rewrite andb_true_r. f_equal; apply bool_decide_ext; naive_solver.
  - intros e'. change (same_key (VUuid (ev_id e)) (VUuid (ev_id e')) && true = bool_decide (ev_id e' = ev_id e)).
    rewrite andb_true_r. apply bool_decide_ext. naive_solver.
Qed.

(** *** Statements *)

(** A statement of the model fails exactly when, and as, the catalog says. *)
Definition agrees {A} (r : res A) (o : option refusal) : Prop :=
  match r with
  | Ok _ => o = None
  | Err e => ∃ q, e = PostgresError q ∧ is_Some o ∧ refusal_of q = o
  end.

Lemma task_row_error_refusal r e : task_row_error r = Some e → is_Some (refusal_of e).
Proof. unfold task_row_error. repeat case_match; intros [= <-]; by eexists. Qed.

Lemma first_refused l :
  head (omap (λ r, row_refused migrated_tasks (task_row r)) l) =
  head (omap task_row_error l) ≫= refusal_of.
Proof.
  induction l as [|r l IH]; [done|]. csimpl. rewrite task_refused.
  destruct (task_row_error r) as [e|] eqn:He; [|exact IH].
  destruct (task_row_error_refusal r e He) as [f Hf]. cbn. by rewrite Hf.
Qed.

Section statements.
Context {SO : ScanOrder}.

Lemma insert_task_agrees d r :
  db_wf d →
  agrees (insert_task r d).1
    (insert_refused migrated migrated_tasks (task_row <$> rows d) (task_row r)).
Proof.
  intros W. unfold insert_task, insert_refused. rewrite task_refused, task_collisions.
  destruct (task_row_error r) as [e|] eqn:He.
  { destruct (task_row_error_refusal r e He) as [f Hf]. cbn. rewrite Hf. by exists e. }
  cbn [mbind option_bind].
  assert (existsb (λ r', bool_decide (id r = id r')) (rows d) = bool_decide (is_Some (tasks d !! id r))) as ->.
  { apply eq_bool_prop_intro. rewrite !Is_true_true, existsb_exists, bool_decide_eq_true. split.
    - intros (r' & Hr'%list_elem_of_In & ->%bool_decide_eq_true). apply elem_of_rows_wf in Hr'; eauto.
    - intros [r' Hr']. pose proof (wf_id d W _ _ Hr') as Hid. exists r'. split; [|by apply bool_decide_eq_true].
      apply list_elem_of_In, elem_of_rows. eauto. }
  destruct (bool_decide (is_Some _)); [by eexists|].
  unfold key_taken. destruct (idempotencyKey r) as [k|]; cbn [isSome andb].
  - rewrite (existsb_ext (λ r', bool_decide (Some k = idempotencyKey r'))
      (λ r', bool_decide (idempotencyKey r' = Some k))) by (intros; apply bool_decide_ext; naive_solver).
    destruct (existsb _ _); [by eexists|done].
  - by rewrite existsb_false.
Qed.

Lemma insert_event_agrees d e :
  int8 (ev_seq e) = true →
  agrees (insert_event_row e d).1
    (insert_refused migrated migrated_events (event_row <$> task_events d) (event_row e)).
Proof.
  intros H. unfold insert_event_row, event_conflict, insert_refused.
  rewrite event_refused, event_collisions by done.
  destruct (existsb _ _); [by eexists|]. destruct (existsb _ _); [by eexists|done].
Qed.

Lemma update_tasks_agrees now sets wh d :
  agrees (update_tasks now sets wh d).1
    (head (omap (λ r, row_refused migrated_tasks (task_row r)) (updated_rows now sets wh d))).
Proof.
  unfold update_tasks. rewrite first_refused.
  destruct (head (omap task_row_error _)) as [e|] eqn:He; [|done].
  assert (is_Some (refusal_of e)) as [f Hf].
  { apply head_Some_elem_of, list_elem_of_omap in He as (r & _ & He). by eapply task_row_error_refusal. }
  cbn. rewrite Hf. by exists e.
Qed.
End statements.

(** The columns [insertEventInTx] names; the others take their defaults. *)
Definition event_named (input : InsertEventInput) (seq : Z) : list (string * option value) :=
  [("task_id", Some (VUuid (input_taskId input))); ("seq", Some (VInt seq));
   ("event_type", Some (VText (event_type_text (input_eventType input))));
   ("payload", Some (VJson (input_payloadFields input)))].

Lemma event_defaults now u input seq n :
  complete migrated_events now u (event_named input seq) n =
  event_row (mkEvent u (input_taskId input) seq (input_eventType input) (input_payloadFields input) now) n.
Proof.
  destruct (decide (n ∈ column_name <$> columns migrated_events)) as [H|H].
  - cbn in H. repeat (apply elem_of_cons in H as [->|H]; [reflexivity|]). by apply elem_of_nil in H.
  - rewrite complete_other by done. unfold event_row, row_of. rewrite assoc_None; [done|].
    contradict H. cbn in *. set_solver.
Qed.

(** ** Properties *)



(** ** Instances *)

(** A second task with an idempotency key that is in use. *)
Definition keyed (i : string) : TaskRow :=
  mkTask i (Some "k") PENDING "" JNull "" None None None None None 0 300 None None None 0 0.


