(* ===== verification/CallbackAuth.v ===== *)
(** * The two authentication guards

    [src/modules/executor/guards/callback-auth.guard.ts] (the executor's
    callback token) and [src/common/guards/api-key.guard.ts] (the client's API
    key). *)
From S2P Require Import Prelude Errors Schema Database TasksRepository KeyValue Effects Samples JsString.

#[local] Open Scope Z_scope.

(** [crypto.timingSafeEqual]: throws unless the buffers have the same length. *)
Definition timingSafeEqual (a b : list Z) : res bool :=
  if bool_decide (length a = length b) then Ok (bool_decide (a = b))
  else Err (JsError "ERR_CRYPTO_TIMING_SAFE_EQUAL_LENGTH").

(** ** The callback guard *)

Definition extractBearerToken (authorization : option string) : option string :=
  match authorization with
  | Some auth =>
      match strip_prefix "Bearer " auth with
      | Some rest => truthy (Some (trim rest))
      | None => None
      end
  | None => None
  end.

Definition validateToken (provided : string) (stored : option string) (taskId : string)
    : res unit :=
  match truthy stored with
  | None => Err (UnauthorizedException ("Task " +:+ taskId +:+ " has no callback token configured"))
  | Some stored =>
      let providedBuf := Buffer_from provided in
      let storedBuf := Buffer_from stored in
      let maxLen := Nat.max (length providedBuf) (length storedBuf) in
      let a := copied_to maxLen providedBuf in
      let b := copied_to maxLen storedBuf in
      match timingSafeEqual a b with
      | Err e => Err e
      | Ok equal =>
          if equal && bool_decide (length providedBuf = length storedBuf) then Ok tt
          else Err (UnauthorizedException "Invalid callback token")
      end
  end.

Definition lift {A} (r : res A) : prog A :=
  match r with Ok a => Ret a | Err e => Throw e end.

(** [CallbackAuthGuard.canActivate]: the task it attaches to the request; [find]
    is the repository's [findById]. *)
Definition canActivate_by (find : string → sql (option TaskRow))
    (authorization id_param : option string) : prog TaskRow :=
  match extractBearerToken authorization with
  | None => Throw (UnauthorizedException "Bearer token is required")
  | Some token =>
      match truthy id_param with
      | None => Throw (NotFoundException "Task not found")
      | Some taskId =>
          let! task := await (DbTx (λ _, find taskId)) in
          match task with
          | None => Throw (NotFoundException "Task not found")
          | Some task =>
              lift (validateToken token (callbackToken task) taskId) ;!
              if bool_decide (status task = PROCESSING) then Ret task
              else Throw (ConflictException
                ("Task " +:+ taskId +:+ " is not in PROCESSING state (current: "
                   +:+ status_text (status task) +:+ ")"))
          end
      end
  end.

Definition canActivate {SO : ScanOrder} (authorization id_param : option string) : prog TaskRow :=
  canActivate_by findById authorization id_param.

(** ** The API-key guard *)

(** [s.replace(/^Bearer\s+/i, '')]. *)
Definition replace_bearer (s : string) : string :=
  match strip_prefix_i "BEARER" s with
  | Some (String c rest) => if is_space c then trimStart rest else s
  | _ => s
  end.

Module ApiKeyGuard.

(** [proxyApiKey] is the configured key, if any. *)
Definition canActivate (proxyApiKey x_api_key authorization : option string) : res bool :=
  match truthy proxyApiKey with
  | None => Ok true
  | Some key =>
      let expected := Buffer_from key in
      let providedKey :=
        match truthy x_api_key with
        | Some k => Some k
        | None => replace_bearer <$> authorization
        end in
      match truthy providedKey with
      | None => Err (UnauthorizedException "API key is missing")
      | Some provided =>
          let providedKeyBuffer := Buffer_from provided in
          if negb (bool_decide (length expected = length providedKeyBuffer))
          then Err (UnauthorizedException "Invalid API key")
          else match timingSafeEqual expected providedKeyBuffer with
               | Err e => Err e
               | Ok equal => if negb equal then Err (UnauthorizedException "Invalid API key")
                             else Ok true
               end
      end
  end.
End ApiKeyGuard.

(** ** Lemmas *)

(** The padded comparison decides equality and never throws. *)
Lemma validateToken_eq provided stored t :
  validateToken provided stored t =
  match truthy stored with
  | None => Err (UnauthorizedException ("Task " +:+ t +:+ " has no callback token configured"))
  | Some s => if bool_decide (provided = s) then Ok tt
              else Err (UnauthorizedException "Invalid callback token")
  end.
Proof.
  unfold validateToken. destruct (truthy stored) as [s|]; [|done]. unfold timingSafeEqual.
  set (l := Buffer_from provided). set (k := Buffer_from s).
  rewrite (bool_decide_true (length (copied_to _ _) = _)) by (rewrite !length_copied_to; lia).
  destruct (decide (provided = s)) as [Heq|Hne].
  - rewrite (bool_decide_true (provided = s)) by done. subst l k. rewrite Heq.
    by rewrite !bool_decide_true.
  - rewrite (bool_decide_false (provided = s)) by done.
    destruct (decide (length l = length k)) as [Hl|Hl].
    + rewrite (bool_decide_false (copied_to _ _ = _)); [done|]. intros Hc. apply Hne.
      apply Buffer_from_inj. fold l k. apply copied_to_inj in Hc; done || lia.
    + rewrite (bool_decide_false (length l = _)) by done. by rewrite andb_false_r.
Qed.

(** What [extractBearerToken] yields is never empty. *)
Lemma extractBearerToken_nonempty a token : extractBearerToken a = Some token → token ≠ "".
Proof.
  unfold extractBearerToken. destruct a as [a|]; [|done].
  destruct (strip_prefix _ a); [|done]. by intros [_ ?]%truthy_Some.
Qed.

Lemma run_lift E {A} (r : res A) w : run E (lift r) w = (Some r, w).
Proof. by destruct r. Qed.

(** What [canActivate] does with the row it fetched. *)
Definition admit_decision (token i : string) (row : option TaskRow) (r : res TaskRow) : Prop :=
  match row with
  | None => ∃ m, r = Err (HttpException 404 m)
  | Some task =>
      if decide (callbackToken task = Some token) then
        if decide (status task = PROCESSING) then r = Ok task
        else ∃ m, r = Err (HttpException 409 m)
      else ∃ m, r = Err (HttpException 401 m)
  end.

Lemma decide_row E token i row w r w' :
  token ≠ "" →
  run E (match row with
         | None => Throw (NotFoundException "Task not found")
         | Some task =>
             lift (validateToken token (callbackToken task) i) ;!
             if bool_decide (status task = PROCESSING) then Ret task
             else Throw (ConflictException
               ("Task " +:+ i +:+ " is not in PROCESSING state (current: "
                  +:+ status_text (status task) +:+ ")"))
         end) w = (Some r, w') →
  w' = w ∧ admit_decision token i row r.
Proof.
  intros Hne. destruct row as [task|]; [|intros [= <- <-]; simpl; eauto].
  unfold admit_decision. rewrite run_bind, run_lift, validateToken_eq.
  destruct (truthy (callbackToken task)) as [s|] eqn:Ht.
  - apply truthy_Some in Ht as [-> _]. destruct (decide (Some s = Some token)) as [[= ->]|Hs].
    + rewrite bool_decide_true by done. case_bool_decide; intros [= <- <-].
      * by rewrite decide_True.
      * rewrite decide_False by done. eauto.
    + rewrite bool_decide_false by congruence. intros [= <- <-]. eauto.
  - rewrite decide_False; [intros [= <- <-]; eauto|].
    intros Heq. rewrite Heq in Ht. by destruct token.
Qed.

(** ** Properties *)


(** The API-key guard lets a request pass exactly when no key is configured
    or the presented one, the [X-API-Key] header or else the bearer token, equals
    it; it answers 401 otherwise, and [timingSafeEqual] never throws. *)
Theorem api_key_guard_exact proxyApiKey x_api_key authorization :
  let provided :=
    match truthy x_api_key with Some k => Some k | None => replace_bearer <$> authorization end in
  match truthy proxyApiKey with
  | None => ApiKeyGuard.canActivate proxyApiKey x_api_key authorization = Ok true
  | Some key =>
      if decide (provided = Some key)
      then ApiKeyGuard.canActivate proxyApiKey x_api_key authorization = Ok true
      else ∃ m, ApiKeyGuard.canActivate proxyApiKey x_api_key authorization =
                  Err (UnauthorizedException m)
  end.
Proof.
  intros provided. unfold ApiKeyGuard.canActivate. fold provided.
  destruct (truthy proxyApiKey) as [key|] eqn:Hkey; [|done]. apply truthy_Some in Hkey as [_ Hkey].
  destruct (truthy provided) as [s|] eqn:Hp.
  - apply truthy_Some in Hp as [-> _]. unfold timingSafeEqual.
    destruct (decide (Some s = Some key)) as [[= ->]|Hne].
    + by rewrite !bool_decide_true.
    + destruct (decide (length (Buffer_from key) = length (Buffer_from s))) as [Hl|Hl].
      * rewrite !(bool_decide_true (length _ = length _)) by done. simpl.
        rewrite bool_decide_false; [simpl; eauto|]. intros Hb%Buffer_from_inj. congruence.
      * rewrite !(bool_decide_false (length _ = length _)) by done. simpl. eauto.
  - rewrite decide_False; [eauto|]. intros ->. by destruct key.
Qed.

(** ** Instances *)

Definition auth_db : db := sample_db [sample_row "a" PROCESSING (Some 1000) None None] [].

