(* ===== verification/ExecutorService.v ===== *)
(** * ExecutorService: the executor's callbacks

    [src/modules/executor/executor.service.ts] and [executor.controller.ts]: the
    final result and the progress reports, both behind the callback guard. *)
From S2P Require Import Prelude Errors Schema Database EventsRepository TasksRepository KeyValue Effects Samples QueueAdapter JsString CallbackAuth.

#[local] Open Scope Z_scope.

(** [SubmitResultDto]: a union discriminated by [status]. *)
Inductive SubmitResultDto : Type :=
| completed_dto (result : json)
| failed_dto (error : TaskError).

(** [TaskErrorSchema]: [code] has 1 to 100 characters, [message] at least one. *)
Definition TaskErrorSchema (e : TaskError) : bool :=
  (1 <=? String.length (code e))%nat && (String.length (code e) <=? 100)%nat
    && (1 <=? String.length (message e))%nat.

(** [SubmitResultSchema]: [z.record(...)] is an object. *)
Definition SubmitResultSchema (d : SubmitResultDto) : bool :=
  match d with
  | completed_dto (JObj _) => true
  | completed_dto _ => false
  | failed_dto error => TaskErrorSchema error
  end.

Record UpdateProgressDto : Type := mkProgressDto { dto_progress : Z }.

(** [z.int().min(0).max(100)]. *)
Definition UpdateProgressSchema (d : UpdateProgressDto) : bool :=
  (0 <=? dto_progress d) && (dto_progress d <=? 100).

Section service.
Context {SO : ScanOrder}.

Definition publish (taskId : string) (event : TaskEventRow) : prog unit :=
  await (Publish (channel_of taskId) event).

(** The two branches differ in the target status, the columns and the event. *)
Definition to_status (dto : SubmitResultDto) : TaskStatus :=
  match dto with completed_dto _ => COMPLETED | failed_dto _ => FAILED end.

Definition result_sets (dto : SubmitResultDto) (now : Z) : list TaskSet :=
  match dto with
  | completed_dto result => [Set_result (Some result); Set_completedAt (Some now)]
  | failed_dto error => [Set_error (Some error); Set_completedAt (Some now)]
  end.

Definition result_event (i : string) (dto : SubmitResultDto) : InsertEventInput :=
  match dto with
  | completed_dto result => CompletedEventInput i result
  | failed_dto error => FailedEventInput i error
  end.

Definition notify_webhook (task : TaskRow) : prog unit :=
  match truthy (webhookUrl task) with
  | Some _ => enqueue "webhook" "webhook" (WebhookJobData (id task)) None
  | None => Ret tt
  end.

Definition submitResult (task : TaskRow) (dto : SubmitResultDto) : prog unit :=
  let! now := await Now in
  let! updated := await (DbTx (λ c,
    updateStatus c (id task) (inl PROCESSING) (to_status dto) (result_sets dto now))) in
  match updated with
  | None => Ret tt
  | Some _ =>
      let! event := await (DbTx (λ c, insertEvent c (result_event (id task) dto))) in
      publish (id task) event ;!
      notify_webhook task
  end.

Definition updateProgress (task : TaskRow) (dto : UpdateProgressDto) : prog unit :=
  await (DbTx (λ c, TasksRepository.updateProgress c (id task) (dto_progress dto))) ;!
  let! event := await (DbTx (λ c,
    insertEvent c (ProgressEventInput (id task) (dto_progress dto)))) in
  publish (id task) event.

(** [POST /tasks/:id/result] and [PATCH /tasks/:id/progress] behind the guard. *)
Definition submitResult_handler (authorization : option string) (i : string)
    (dto : SubmitResultDto) : prog unit :=
  let! task := canActivate authorization (Some i) in
  submitResult task dto.

Definition updateProgress_handler (authorization : option string) (i : string)
    (dto : UpdateProgressDto) : prog unit :=
  let! task := canActivate authorization (Some i) in
  updateProgress task dto.
End service.

(** ** What the callbacks write *)

(** [d'] is [d] with the event of [input] appended to the log. *)
Definition event_written (input : InsertEventInput) (d d' : db) (ev : TaskEventRow) : Prop :=
  ev_taskId ev = input_taskId input ∧ ev_type ev = input_eventType input ∧
  ev_payload ev = input_payloadFields input ∧
  ev_seq ev = Z.of_nat (length (events_of (input_taskId input) d)) + 1 ∧
  d' = mkDb (tasks d) (task_events d ++ [ev]).

(** [d'] is [d] with the PROCESSING row [i] moved to the status of [dto]. *)
Definition result_written (dto : SubmitResultDto) (i : string) (d d' : db) : Prop :=
  ∃ r0 now n, tasks d !! i = Some r0 ∧ status r0 = PROCESSING ∧
    d' = mkDb (<[i := update_row n (Set_status (to_status dto) :: result_sets dto now) r0]> (tasks d))
              (task_events d).

Definition not_processing (i : string) (d : db) : Prop :=
  ∀ r, tasks d !! i = Some r → status r ≠ PROCESSING.

Definition webhook_job (i : string) : job :=
  mkJob "webhook" "webhook" (WebhookJobData i) (mkBullMqOptions None None 3 None).

Lemma result_row_ok dto now n r :
  task_row_ok r → status r = PROCESSING →
  task_row_ok (update_row n (Set_status (to_status dto) :: result_sets dto now) r).
Proof.
  rewrite !task_row_ok_iff, !tasks_valid_state_data_spec. intros (Hp & Ht & Hs) Hst.
  rewrite Hst in Hs. destruct Hs as [Hs _]. destruct dto; simpl; split_and!; done || by eexists.
Qed.

Lemma processing_or_not i d :
  (∃ r, tasks d !! i = Some r ∧ status r = PROCESSING) ∨ not_processing i d.
Proof.
  unfold not_processing. destruct (tasks d !! i) as [r|]; [|by right].
  destruct (decide (status r = PROCESSING)); [left; eauto|right]. by intros ? [= <-].
Qed.

Section lemmas.
Context {SO : ScanOrder} (E : env).

Lemma insertEvent_cases c input d o d' :
  db_wf d → insertEvent c input d = (o, d') →
  match o with
  | Ok ev => event_written input d d' ev
  | Err _ => d' = d
  end.
Proof.
  intros W [(a & -> & H)|(e & d1 & -> & _ & ->)]%transaction_inv; [|done].
  apply insertEventInTx_cases in H as [(_ & [= ->] & ->)|(_ & [=] & _)]; [|done].
  by split_and!.
Qed.

(** A call that runs one transaction: it takes effect when it returns, and it
    may have taken effect when it throws. *)
Lemma run_tx {A} (t : dbctx → sql A) (P : res A → db → Prop) w r w' :
  (∀ c o d', t c (w_db w) = (o, d') → P o d') →
  run E (await (DbTx t)) w = (Some r, w') →
  w_published w' = w_published w ∧ w_jobs w' = w_jobs w ∧
  match r with
  | Ok a => P (Ok a) (w_db w')
  | Err _ => w_db w' = w_db w ∨ ∃ o, P o (w_db w')
  end.
Proof.
  intros HP H. apply run_await_inv in H. simpl in H.
  destruct (t (ctx_of E w) (w_db w)) as [o d'] eqn:Ht. apply HP in Ht.
  destruct (e_fault E (w_step w)); injection H as <- <-; simpl; split_and!; eauto.
  destruct o; eauto.
Qed.

Lemma run_insertEvent input w r w' :
  db_wf (w_db w) → run E (await (DbTx (λ c, insertEvent c input))) w = (Some r, w') →
  w_published w' = w_published w ∧ w_jobs w' = w_jobs w ∧
  match r with
  | Ok ev => event_written input (w_db w) (w_db w') ev
  | Err _ => w_db w' = w_db w ∨ ∃ ev, event_written input (w_db w) (w_db w') ev
  end.
Proof.
  intros W H. eapply run_tx in H as (Hp & Hj & H);
    [|intros c o d' Ht; exact (insertEvent_cases c input _ o d' W Ht)].
  split_and!; [done..|]. destruct r as [ev|e]; [done|].
  destruct H as [H|[[ev|e'] H]]; eauto.
Qed.

(** The guarded UPDATE of a result. *)
Lemma run_result_update dto i now w r w' :
  db_wf (w_db w) →
  run E (await (DbTx (λ c, updateStatus c i (inl PROCESSING) (to_status dto) (result_sets dto now)))) w
    = (Some r, w') →
  w_published w' = w_published w ∧ w_jobs w' = w_jobs w ∧ db_wf (w_db w') ∧
  match r with
  | Ok None => not_processing i (w_db w) ∧ w_db w' = w_db w
  | Ok (Some _) => result_written dto i (w_db w) (w_db w')
  | Err _ => w_db w' = w_db w ∨ result_written dto i (w_db w) (w_db w')
  end.
Proof.
  intros W H. eapply (run_tx _ (λ o d', db_wf d' ∧ match o with
    | Ok None => not_processing i (w_db w) ∧ d' = w_db w
    | Ok (Some _) => result_written dto i (w_db w) d'
    | Err _ => False end)) in H as (Hp & Hj & H).
  - split_and!; [done..| |]; destruct r as [[]|]; destruct_and?; try done;
      destruct H as [H|([[]|] & ? & H)]; try done; try (by rewrite H); eauto.
    destruct H as [_ ->]. by left.
  - intros c o d' Ht. split; [eauto with proxy|].
    destruct (processing_or_not i (w_db w)) as [(r0 & Hi & Hs)|Hn].
    + rewrite (updateStatus_moves _ _ _ _ _ _ r0) in Ht; [|done|done| |].
      * injection Ht as <- <-. by repeat eexists.
      * by apply bool_decide_true.
      * apply result_row_ok; [|done]. by eapply wf_row.
    + rewrite updateStatus_skips in Ht; [by injection Ht as <- <-|done|].
      intros r0 Hi. by apply bool_decide_false, Hn.
Qed.

Lemma run_notify_webhook task w r w' :
  run E (notify_webhook task) w = (Some r, w') →
  w_db w' = w_db w ∧ w_published w' = w_published w ∧
  (is_ok r = true →
     w_jobs w' = w_jobs w ++ (if truthy (webhookUrl task) then [webhook_job (id task)] else [])).
Proof.
  unfold notify_webhook, enqueue. destruct (truthy (webhookUrl task)).
  - intros H. destruct r as [[]|e].
    + apply run_catch_ok in H as [H|(? & ? & _ & [=])]. by apply run_queue_ok in H as ->.
    + apply run_catch_err in H as (? & ? & H & [= -> ->]).
      by apply run_queue_err in H as [_ [-> | ->]].
  - intros [= <- <-]. by rewrite app_nil_r.
Qed.

Lemma run_publish t ev w r w' :
  run E (publish t ev) w = (Some r, w') →
  w_db w' = w_db w ∧ w_jobs w' = w_jobs w ∧
  (is_ok r = true → w_published w' = w_published w ++ [(channel_of t, ev)]).
Proof.
  destruct r as [[]|e]; intros H.
  - by apply run_publish_ok in H as ->.
  - by apply run_publish_err in H as [_ [-> | ->]].
Qed.
End lemmas.

(** ** Properties *)

(** The three states a result submission can leave the tables in. *)
Inductive submission (dto : SubmitResultDto) (i : string) (d : db) : db → Prop :=
| sub_none : submission dto i d d
| sub_row d1 : result_written dto i d d1 → submission dto i d d1
| sub_all d1 ev d2 :
    result_written dto i d d1 → event_written (result_event i dto) d1 d2 ev →
    submission dto i d d2.

(** C18: [submitResult] on every branch.  If the task is not PROCESSING any more
    the call is accepted and changes nothing.  Otherwise a call that succeeds has
    moved the row to COMPLETED or FAILED with the result or the error, appended
    exactly one event of that type at the end of the task's log, published that
    event on the task's channel and enqueued one webhook job exactly when the
    task has a [webhookUrl].  A call that fails left the tables as they were,
    with the row alone, or with the row and its event: never an event without
    the row. *)
Theorem submit_result_outcomes {SO : ScanOrder} E task dto w r w' :
  db_wf (w_db w) → run E (submitResult task dto) w = (Some r, w') →
  match r with
  | Ok _ =>
      (not_processing (id task) (w_db w) ∧ w_db w' = w_db w ∧
       w_published w' = w_published w ∧ w_jobs w' = w_jobs w) ∨
      ∃ d1 ev, result_written dto (id task) (w_db w) d1 ∧
        event_written (result_event (id task) dto) d1 (w_db w') ev ∧
        w_published w' = w_published w ++ [(channel_of (id task), ev)] ∧
        w_jobs w' = w_jobs w ++ (if truthy (webhookUrl task) then [webhook_job (id task)] else [])
  | Err _ => submission dto (id task) (w_db w) (w_db w')
  end.
Proof.
  intros W H. unfold submitResult in H. rewrite run_bind, run_await in H. cbn [exec_op] in H.
  set (w0 := advance E w) in *. change (w_db w) with (w_db w0) in *.
  change (w_published w) with (w_published w0). change (w_jobs w) with (w_jobs w0).
  rewrite run_bind in H.
  destruct (run E (await (DbTx _)) w0) as [[ru|] w1] eqn:H1;
    [|rewrite run_await in H1; by destruct (exec_op _ _ _)].
  apply run_result_update in H1 as (Hp1 & Hj1 & W1 & Hu); [|done].
  destruct ru as [[row|]|e]; [|injection H as <- <-; left; naive_solver
                              |injection H as <- <-; destruct Hu as [-> |]; by constructor].
  rewrite run_bind in H.
  destruct (run E (await (DbTx _)) w1) as [[re|] w2] eqn:H2;
    [|rewrite run_await in H2; by destruct (exec_op _ _ _)].
  apply run_insertEvent in H2 as (Hp2 & Hj2 & He); [|done].
  destruct re as [ev|e];
    [|injection H as <- <-; destruct He as [-> | [? ?]]; [by apply sub_row|by eapply sub_all]].
  rewrite run_bind in H. destruct (run E (publish (id task) ev) w2) as [[rp|] w3] eqn:H3;
    [|unfold publish in H3; rewrite run_await in H3; by destruct (exec_op _ _ _)].
  apply run_publish in H3 as (Hd3 & Hj3 & Hp3). rewrite <-Hd3 in He.
  destruct rp as [u|e]; [|injection H as <- <-; by eapply sub_all].
  apply run_notify_webhook in H as (Hd4 & Hp4 & Hj4). rewrite <-Hd4 in He.
  destruct r as [[]|e]; [|by eapply sub_all]. right. exists (w_db w1), ev.
  split_and!; [done|done| |].
  - by rewrite Hp4, Hp3, Hp2, Hp1.
  - by rewrite Hj4, Hj3, Hj2, Hj1.
Qed.

(** [d'] is [d] with [progress] set on row [i], if there is one. *)
Definition progress_written (i : string) (p : Z) (d d' : db) : Prop :=
  task_events d' = task_events d ∧
  ((tasks d !! i = None ∧ tasks d' = tasks d) ∨
   ∃ r0 n, tasks d !! i = Some r0 ∧ tasks d' = <[i := update_row n [Set_progress p] r0]> (tasks d)).

Lemma run_progress_update {SO : ScanOrder} E i p w r w' :
  db_wf (w_db w) → 0 <= p <= 100 →
  run E (await (DbTx (λ c, TasksRepository.updateProgress c i p))) w = (Some r, w') →
  w_published w' = w_published w ∧ w_jobs w' = w_jobs w ∧ db_wf (w_db w') ∧
  match r with
  | Ok _ => progress_written i p (w_db w) (w_db w')
  | Err _ => w_db w' = w_db w ∨ progress_written i p (w_db w) (w_db w')
  end.
Proof.
  intros W Hp H. eapply (run_tx _ _ (λ o d', db_wf d' ∧ is_ok o = true ∧
    progress_written i p (w_db w) d')) in H as (Hpub & Hj & H).
  - split_and!; [done..| |]; destruct r; destruct_and?; try done;
      destruct H as [H|(? & ? & ? & ?)]; try done; try (by rewrite H); eauto.
  - intros c o d' Ht. split; [eauto with proxy|]. rewrite updateProgress_eq in Ht by done.
    unfold progress_written. destruct (tasks (w_db w) !! i) as [r0|] eqn:Hi;
      [|injection Ht as <- <-; by auto].
    assert (task_row_ok (update_row (c_now c) [Set_progress p] r0)) as Hok.
    { pose proof (wf_row _ W _ _ Hi) as (_ & Ht0 & Hv)%task_row_ok_iff.
      apply task_row_ok_iff. split_and!; [|done|done]. simpl. unfold int4.
      apply andb_true_iff; split; apply Z.leb_le; lia. }
    simpl in Ht. rewrite Hok in Ht. injection Ht as <- <-. split_and!; [done..|].
    right. by repeat eexists.
Qed.

(** A valid progress report that succeeds has set [progress] of the row and
    nothing else (its status in particular), appended exactly one [progress] event
    carrying the number at the end of the task's log, and published that event.
    Whether the task is still PROCESSING at that time is not asked: the guard read
    the status earlier. *)
Theorem progress_outcomes {SO : ScanOrder} E task dto w r w' :
  db_wf (w_db w) → UpdateProgressSchema dto = true →
  run E (updateProgress task dto) w = (Some r, w') → r = Ok tt →
  ∃ d1 ev, progress_written (id task) (dto_progress dto) (w_db w) d1 ∧
    event_written (ProgressEventInput (id task) (dto_progress dto)) d1 (w_db w') ev ∧
    w_published w' = w_published w ++ [(channel_of (id task), ev)] ∧
    w_jobs w' = w_jobs w.
Proof.
  intros W Hv H ->. apply andb_true_iff in Hv as [H0%Z.leb_le H1%Z.leb_le].
  unfold updateProgress in H. apply run_bind_ok in H as (u & w1 & Hu & H).
  apply run_progress_update in Hu as (Hp1 & Hj1 & W1 & Hu); [|done..].
  apply run_bind_ok in H as (ev & w2 & He & H).
  apply run_insertEvent in He as (Hp2 & Hj2 & He); [|done].
  apply run_publish in H as (Hd3 & Hj3 & Hp3). exists (w_db w1), ev.
  rewrite Hd3. split_and!; [done|done| |].
  - by rewrite Hp3, Hp2, Hp1.
  - by rewrite Hj3, Hj2, Hj1.
Qed.

(** ** Instances *)

Definition executor_db : db :=
  sample_db [sample_row "a" PROCESSING (Some 1000) None (Some 500000)]
            [sample_event "a" "e1" 1 progress_ev].

Definition executor_task : TaskRow := sample_row "a" PROCESSING (Some 1000) None (Some 500000).

Lemma submit_result_outcomes_witness :
  let dto := completed_dto (JObj []) in
  let out := run calm_env (submitResult executor_task dto) (sample_world executor_db) in
  out.1 = Some (Ok tt) ∧
  ((not_processing "a" executor_db ∧ w_db out.2 = executor_db ∧
    w_published out.2 = [] ∧ w_jobs out.2 = []) ∨
   ∃ d1 ev, result_written dto "a" executor_db d1 ∧
     event_written (result_event "a" dto) d1 (w_db out.2) ev ∧
     w_published out.2 = [("task:a", ev)] ∧ w_jobs out.2 = [webhook_job "a"]).
Proof.
  intros dto out. split; [vm_compute; reflexivity|].
  assert (W : db_wf executor_db) by check_db.
  apply (submit_result_outcomes calm_env executor_task dto (sample_world executor_db) (Ok tt) out.2 W).
  vm_compute. reflexivity.
Defined.

Lemma progress_outcomes_witness :
  let dto := mkProgressDto 40 in
  let out := run calm_env (updateProgress executor_task dto) (sample_world executor_db) in
  ∃ d1 ev, progress_written "a" 40 executor_db d1 ∧
    event_written (ProgressEventInput "a" 40) d1 (w_db out.2) ev ∧
    w_published out.2 = [("task:a", ev)] ∧ w_jobs out.2 = [].
Proof.
  intros dto out. assert (W : db_wf executor_db) by check_db.
  apply (progress_outcomes calm_env executor_task dto (sample_world executor_db) (Ok tt) out.2 W);
    vm_compute; reflexivity.
Defined.
