(* ===== verification/Workers.v ===== *)
(** * The queue workers: dispatch, cancel and webhook

    [src/modules/executor/workers/dispatch.processor.ts], [cancel.processor.ts]
    and [src/modules/delivery/workers/webhook.processor.ts]: what each does with
    one job. *)
From S2P Require Import Prelude Errors Schema Database EventsRepository TasksRepository KeyValue Effects Samples HttpRetry.

#[local] Open Scope Z_scope.

Section workers.
Context {SO : ScanOrder}.

Definition bearer (task : TaskRow) : list (string * string) :=
  [("Authorization", "Bearer " +:+ nullish (callbackToken task) "")].

(** ** The dispatch queue *)

Definition dispatch_options : HttpRetryOptions := mkHttpRetryOptions (Some 3) None None None.

Definition dispatch_body (taskId : string) (task : TaskRow) : json :=
  JObj [("taskId", JStr taskId); ("payload", payload task)].

Definition started_sets (now timeoutSeconds : Z) : list TaskSet :=
  [Set_processingStartedAt (Some now); Set_expiresAt (Some (now + timeoutSeconds * 1000))].

Definition dispatch_error (err : exn) : TaskError :=
  {| code := match err with
             | NonRetryableError _ _ => "EXECUTOR_REJECTED"
             | _ => "DISPATCH_FAILED"
             end;
     message := exn_message err; details := None |}.

(** The [catch] block. *)
Definition dispatch_recover (taskId : string) (err : exn) : prog unit :=
  if is_http_retry_error err then
    let! now := await Now in
    let! _ := await (DbTx (λ c, updateStatus c taskId (inl PROCESSING) FAILED
                [Set_completedAt (Some now); Set_error (Some (dispatch_error err))])) in
    Ret tt
  else
    catch (let! _ := await (DbTx (λ c, updateStatus c taskId (inl PROCESSING) PENDING
                       [Set_processingStartedAt None; Set_expiresAt None])) in Ret tt)
      (λ _, Ret tt) ;!
    Throw err.

Definition dispatch (taskId : string) (timeoutSeconds : Z) : prog unit :=
  let! now := await Now in
  let! task := await (DbTx (λ c, updateStatus c taskId (inl PENDING) PROCESSING
                 (started_sets now timeoutSeconds))) in
  match task with
  | None => Ret tt
  | Some task =>
      catch
        (let! _ := post (executorUrl task) (dispatch_body taskId task) (bearer task)
                     dispatch_options in Ret tt)
        (dispatch_recover taskId)
  end.

(** ** The cancel queue *)

Definition cancel_options : HttpRetryOptions := mkHttpRetryOptions (Some 2) (Some 1000) None None.

(** The job keeps the text of the id, [taskId]; the row it denotes is [u]. *)
Definition cancel_notification_at (taskId u : string) : prog unit :=
  let! task := await (DbTx (λ _, findById u)) in
  match task with
  | None => Ret tt
  | Some task =>
      match truthy (cancelUrl task) with
      | None => Ret tt
      | Some url =>
          catch
            (let! _ := post url (JObj [("taskId", JStr taskId)]) (bearer task) cancel_options in
             Ret tt)
            (λ _, Ret tt)
      end
  end.

Definition cancel_notification (taskId : string) : prog unit :=
  cancel_notification_at taskId taskId.

(** ** The webhook queue *)

Definition webhook_options : HttpRetryOptions :=
  mkHttpRetryOptions (Some 5) (Some 1000) (Some 60000) None.

(** [...(v != null ? { name: v } : {})]. *)
Definition optional_field (name : string) (v : option json) : list (string * json) :=
  match v with
  | None | Some JNull => []
  | Some j => [(name, j)]
  end.

Definition webhook_body (task : TaskRow) : json :=
  JObj ([("taskId", JStr (id task)); ("status", JStr (status_text (status task)))]
          ++ optional_field "result" (result task)
          ++ optional_field "error" (TaskError_json <$> error task)).

Definition webhook_delivery (taskId : string) : prog unit :=
  let! task := await (DbTx (λ _, findById taskId)) in
  match task with
  | None => Ret tt
  | Some task =>
      match truthy (webhookUrl task) with
      | None => Ret tt
      | Some url =>
          catch
            (let! _ := post url (webhook_body task) [] webhook_options in Ret tt)
            (λ err, if is_http_retry_error err then Ret tt else Throw err)
      end
  end.
End workers.

(** ** A POST and its outcome *)

Definition request_of (url : string) (body : json) (headers : list (string * string))
    (opts : HttpRetryOptions) : http_request :=
  mkHttpRequest url body headers (nullish (requestTimeoutMs opts) 10000).

(** [w'] is [w] after the requests of one [post], whose outcome is [r]. *)
Definition posted (url : string) (body : json) (headers : list (string * string))
    (opts : HttpRetryOptions) (w w' : world) (r : res json) : Prop :=
  same_state w w' ∧
  ∃ answers, w_http w' = w_http w ++ (pair (request_of url body headers opts) <$> answers) ∧
    retried url (nullish (attempts opts) 3) answers r.

Lemma run_post E url body headers opts w :
  1 ≤ nullish (attempts opts) 3 →
  ∃ r w', run E (post url body headers opts) w = (Some r, w') ∧ posted url body headers opts w w' r.
Proof.
  intros Hn. unfold post. set (n := nullish _ 3) in *.
  replace (Z.to_nat n) with (S (Z.to_nat (n - 1))) by lia.
  destruct (post_loop_spec E url (request_of url body headers opts) n
              (nullish (baseDelayMs opts) 500) (nullish (maxDelayMs opts) 30000)
              (Z.to_nat (n - 1)) [] None None w) as (an & ds & r & w' & Hr & Hs & Hh & _ & _ & _ & Ht & _).
  - simpl. lia.
  - constructor.
  - exists r, w'. split; [exact Hr|]. split; [done|]. eauto.
Qed.

Lemma retried_error url n answers e : retried url n answers (Err e) → is_http_retry_error e = true.
Proof. by inversion 1. Qed.

(** A POST inside [try ... catch]. *)
Lemma run_try_post E url body headers opts h w o w' :
  1 ≤ nullish (attempts opts) 3 →
  run E (catch (let! _ := post url body headers opts in Ret tt) h) w = (o, w') →
  ∃ ra w1, posted url body headers opts w w1 ra ∧
    match ra with
    | Ok _ => o = Some (Ok tt) ∧ w' = w1
    | Err e => is_http_retry_error e = true ∧ run E (h e) w1 = (o, w')
    end.
Proof.
  intros Hn H. destruct (run_post E url body headers opts w Hn) as (ra & w1 & Hr & Hp).
  exists ra, w1. split; [done|]. rewrite run_catch, run_bind, Hr in H.
  destruct ra as [b|e]; simpl in H; [by injection H as <- <-|]. split; [|done].
  destruct Hp as (_ & an & _ & Hp). by eapply retried_error.
Qed.

(** ** Dispatch *)

Definition started_row (n now timeoutSeconds : Z) (r : TaskRow) : TaskRow :=
  update_row n (Set_status PROCESSING :: started_sets now timeoutSeconds) r.

Definition undelivered_row (n now : Z) (err : exn) (r : TaskRow) : TaskRow :=
  update_row n [Set_status FAILED; Set_completedAt (Some now);
                Set_error (Some (dispatch_error err))] r.

Lemma started_row_ok n now t r :
  task_row_ok r → status r = PENDING → task_row_ok (started_row n now t r).
Proof.
  rewrite !task_row_ok_iff, !tasks_valid_state_data_spec. intros (? & ? & Hs) Hst.
  rewrite Hst in Hs. destruct Hs as [_ Hs]. simpl. split_and!; done || by eexists.
Qed.

Lemma undelivered_row_ok n now e r :
  task_row_ok r → status r = PROCESSING → task_row_ok (undelivered_row n now e r).
Proof.
  rewrite !task_row_ok_iff, !tasks_valid_state_data_spec. intros (? & ? & Hs) Hst.
  rewrite Hst in Hs. destruct Hs as [Hs _]. simpl. split_and!; done || by eexists.
Qed.

Section dispatch.
Context {SO : ScanOrder} (E : env).

Definition set_task (i : string) (r : TaskRow) (d : db) : db :=
  mkDb (<[i := r]> (tasks d)) (task_events d).

(** The row of a status change that may or may not have been acknowledged. *)
Lemma run_updateStatus i s to extra r0 w o w' :
  db_wf (w_db w) → tasks (w_db w) !! i = Some r0 → status r0 = s →
  (∀ n, task_row_ok (update_row n (Set_status to :: extra) r0)) →
  run E (await (DbTx (λ c, updateStatus c i (inl s) to extra))) w = (o, w') →
  let r1 := update_row (w_now w) (Set_status to :: extra) r0 in
  w_published w' = w_published w ∧ w_jobs w' = w_jobs w ∧ w_http w' = w_http w ∧
  ((o = Some (Ok (Some r1)) ∧ w_db w' = set_task i r1 (w_db w)) ∨
   (o = Some (Err (PostgresError connection_lost)) ∧
    (w_db w' = w_db w ∨ w_db w' = set_task i r1 (w_db w)))).
Proof.
  intros W Hi Hs Hok. rewrite run_await. cbn [exec_op].
  rewrite (updateStatus_moves _ _ _ _ _ _ r0) by (done || by apply bool_decide_true || apply Hok).
  destruct (e_fault E (w_step w)); intros [= <- <-]; simpl; split_and!; auto.
Qed.

Lemma run_updateStatus_skip i s to extra w o w' :
  db_wf (w_db w) → (∀ r, tasks (w_db w) !! i = Some r → status r ≠ s) →
  run E (await (DbTx (λ c, updateStatus c i (inl s) to extra))) w = (o, w') →
  w_published w' = w_published w ∧ w_jobs w' = w_jobs w ∧ w_http w' = w_http w ∧
  w_db w' = w_db w ∧ (o = Some (Ok None) ∨ o = Some (Err (PostgresError connection_lost))).
Proof.
  intros W Hn. rewrite run_await. cbn [exec_op].
  rewrite updateStatus_skips; [|done|intros r Hi; by apply bool_decide_false, Hn].
  destruct (e_fault E (w_step w)); intros [= <- <-]; simpl; split_and!; auto.
Qed.

Lemma set_task_wf i r r0 d :
  db_wf d → tasks d !! i = Some r0 → id r = id r0 → idempotencyKey r = idempotencyKey r0 →
  task_row_ok r → db_wf (set_task i r d).
Proof.
  intros W Hi Hid Hkey Hok. apply (db_wf_tasks d); [done..|]. intros j x. simpl.
  rewrite lookup_insert_Some. intros [[<- <-]|[Hne Hj]].
  - rewrite Hid. split_and!; [by eapply wf_id|done|eauto].
  - split_and!; [by eapply wf_id|by eapply wf_row|eauto].
Qed.
End dispatch.

Section dispatch_outcome.
Context {SO : ScanOrder} (E : env).

Lemma run_dispatch_recover i e r1 w r w' :
  db_wf (w_db w) → tasks (w_db w) !! i = Some r1 → status r1 = PROCESSING →
  is_http_retry_error e = true →
  run E (dispatch_recover i e) w = (Some r, w') →
  ∃ n now, let d' := set_task i (undelivered_row n now e r1) (w_db w) in
    w_published w' = w_published w ∧ w_jobs w' = w_jobs w ∧ w_http w' = w_http w ∧
    ((r = Ok tt ∧ w_db w' = d') ∨
     (r = Err (PostgresError connection_lost) ∧ (w_db w' = w_db w ∨ w_db w' = d'))).
Proof.
  intros W Hi Hs He. unfold dispatch_recover. rewrite He, run_bind, run_await. cbn [exec_op].
  set (w0 := advance E w). rewrite run_bind.
  destruct (run E (await (DbTx _)) w0) as [o w1] eqn:H1.
  apply (run_updateStatus E _ _ _ _ r1) in H1 as (Hp & Hj & Hh & H1); try done;
    [|intros n; apply undelivered_row_ok; [by eapply wf_row|done]].
  intros H. exists (w_now w0), (w_now w0). cbn zeta.
  destruct H1 as [[-> Hd]|[-> Hd]]; simpl in H; injection H as <- <-;
    (split_and!; [exact Hp|exact Hj|exact Hh|]).
  - by left.
  - right. split; [done|]. by destruct Hd; [left|right].
Qed.

(** What [dispatch] did with the PENDING row [r0] of task [i]. *)
Definition dispatched (i : string) (r0 r1 : TaskRow) (w w' : world) (r : res unit) : Prop :=
  ∃ answers ra,
    w_http w' = w_http w ++
      (pair (request_of (executorUrl r1) (dispatch_body i r1) (bearer r1) dispatch_options)
         <$> answers) ∧
    retried (executorUrl r1) 3 answers ra ∧
    match ra with
    | Ok _ => r = Ok tt ∧ w_db w' = set_task i r1 (w_db w)
    | Err e => ∃ n now, let d2 := set_task i (undelivered_row n now e r1) (w_db w) in
        (r = Ok tt ∧ w_db w' = d2) ∨
        (r = Err (PostgresError connection_lost) ∧
         (w_db w' = set_task i r1 (w_db w) ∨ w_db w' = d2))
    end.

Lemma run_dispatch_post i r0 r1 w w1 r w' :
  db_wf (w_db w1) → w_db w1 = set_task i r1 (w_db w) → status r1 = PROCESSING →
  w_http w1 = w_http w →
  run E (catch (let! _ := post (executorUrl r1) (dispatch_body i r1) (bearer r1) dispatch_options
                in Ret tt) (dispatch_recover i)) w1 = (Some r, w') →
  w_published w' = w_published w1 ∧ w_jobs w' = w_jobs w1 ∧ dispatched i r0 r1 w w' r.
Proof.
  intros W Hd Hs Hh H. apply run_try_post in H as (ra & w2 & [Hsame (an & Hh2 & Hret)] & H);
    [|simpl; lia].
  destruct Hsame as (Hd2 & _ & Hp2 & Hj2). destruct ra as [b|e].
  - destruct H as [[= ->] ->]. split_and!; [done..|]. exists an, (Ok b).
    rewrite Hh2, Hh, Hd2. by split_and!.
  - destruct H as [He H]. apply (run_dispatch_recover _ _ r1) in H as (n & now & Hp3 & Hj3 & Hh3 & H);
      [|by rewrite Hd2|by rewrite Hd2, Hd; simpl; rewrite lookup_insert_eq|done..].
    split_and!; [by rewrite Hp3|by rewrite Hj3|]. exists an, (Err e).
    rewrite Hh3, Hh2, Hh. split_and!; [done..|]. exists n, now. cbn zeta in *.
    rewrite Hd2, Hd in H. unfold set_task in *. simpl in H. by rewrite insert_insert_eq in H.
Qed.
End dispatch_outcome.


(** ** Notifications *)

(** What a best-effort notification of [i] has to do: [target] chooses the URL
    and the request from the row. *)
Definition notified (target : TaskRow → option (string * json * list (string * string)))
    (opts : HttpRetryOptions) (i : string) (w w' : world) (r : res unit) : Prop :=
  same_state w w' ∧
  ((r = Err (PostgresError connection_lost) ∧ w_http w' = w_http w) ∨
   (r = Ok tt ∧
    match tasks (w_db w) !! i ≫= target with
    | Some (url, body, headers) => ∃ ra, posted url body headers opts w w' ra
    | None => w_http w' = w_http w
    end)).

Definition cancel_target (i : string) (task : TaskRow)
    : option (string * json * list (string * string)) :=
  (λ url, (url, JObj [("taskId", JStr i)], bearer task)) <$> truthy (cancelUrl task).

Definition webhook_target (task : TaskRow) : option (string * json * list (string * string)) :=
  (λ url, (url, webhook_body task, [])) <$> truthy (webhookUrl task).

(** The cancel worker is best-effort: it changes no state, and unless the
    look-up of the task fails it succeeds.  It sends a POST with the task's id
    and callback token to the [cancelUrl] when there is one, at most twice, and
    nothing otherwise; whatever the executor answers is swallowed. *)
Theorem cancel_notification_outcomes {SO : ScanOrder} E i w r w' :
  db_wf (w_db w) → run E (cancel_notification i) w = (Some r, w') →
  notified (cancel_target i) cancel_options i w w' r.
Proof.
  intros W. unfold cancel_notification, cancel_notification_at, notified. rewrite run_bind.
  destruct (run E (await (DbTx _)) w) as [o w1] eqn:H1.
  eapply run_query in H1 as [-> [-> | [-> _]]]; [| |by apply findById_eq].
  - destruct (tasks (w_db w) !! i) as [task|]; cbn [mbind option_bind fmap option_fmap option_map];
      [unfold cancel_target; destruct (truthy (cancelUrl task)) as [url|];
       cbn [mbind option_bind fmap option_fmap option_map]|];
      try (intros [= <- <-]; split; [done|by right]).
    intros H. apply run_try_post in H as (ra & w2 & Hp & H); [|simpl; lia].
    assert (r = Ok tt ∧ w' = w2) as [-> ->]
      by (destruct ra; [destruct H as [[= ->] ->]|destruct H as [_ [= -> ->]]]; done).
    split; [apply Hp|]. right. split; [done|]. exists ra. exact Hp.
  - intros [= <- <-]. split; [done|by left].
Qed.

(** The webhook worker is best-effort as well and changes no state.  It sends
    the current row of the task, re-read when the job runs, to the [webhookUrl]
    when there is one, at most five times; a rejection or a give-up is swallowed,
    so only the look-up can make the job fail. *)
Theorem webhook_delivery_outcomes {SO : ScanOrder} E i w r w' :
  db_wf (w_db w) → run E (webhook_delivery i) w = (Some r, w') →
  notified webhook_target webhook_options i w w' r.
Proof.
  intros W. unfold webhook_delivery, notified. rewrite run_bind.
  destruct (run E (await (DbTx _)) w) as [o w1] eqn:H1.
  eapply run_query in H1 as [-> [-> | [-> _]]]; [| |by apply findById_eq].
  - destruct (tasks (w_db w) !! i) as [task|]; cbn [mbind option_bind fmap option_fmap option_map];
      [unfold webhook_target; destruct (truthy (webhookUrl task)) as [url|];
       cbn [mbind option_bind fmap option_fmap option_map]|];
      try (intros [= <- <-]; split; [done|by right]).
    intros H. apply run_try_post in H as (ra & w2 & Hp & H); [|simpl; lia].
    assert (r = Ok tt ∧ w' = w2) as [-> ->].
    { destruct ra as [b|e]; [by destruct H as [[= ->] ->]|]. destruct H as [He H].
      rewrite He in H. by injection H as -> ->. }
    split; [apply Hp|]. right. split; [done|]. exists ra. exact Hp.
  - intros [= <- <-]. split; [done|by left].
Qed.

(** ** Instances *)

Definition worker_db : db := sample_db
  [sample_row "a" PENDING None None (Some 500000);
   sample_row "b" CANCELLED None (Some 5000) None] [].

(** A peer that rejects every request. *)
Definition rejecting_env : env :=
  mkEnv (λ _, no_fault) (λ _, 1%N) (λ _, 0) (λ _ _, "") (λ _, ∅) (λ _, 42)
    (λ _ _, Err (mkHttpErr true None (Some (Some 422)) "Request failed with status code 422")).


Lemma cancel_notification_outcomes_witness :
  let w := sample_world worker_db in
  let out := run rejecting_env (cancel_notification "b") w in
  length (w_http out.2) = 1%nat ∧
  notified (cancel_target "b") cancel_options "b" w out.2 (Ok tt).
Proof.
  intros w out. split; [vm_compute; reflexivity|]. assert (W : db_wf worker_db) by check_db.
  apply (cancel_notification_outcomes rejecting_env "b" w (Ok tt) out.2 W).
  vm_compute. reflexivity.
Defined.

Lemma webhook_delivery_outcomes_witness :
  let w := sample_world worker_db in
  let out := run calm_env (webhook_delivery "b") w in
  length (w_http out.2) = 1%nat ∧ notified webhook_target webhook_options "b" w out.2 (Ok tt).
Proof.
  intros w out. split; [vm_compute; reflexivity|]. assert (W : db_wf worker_db) by check_db.
  apply (webhook_delivery_outcomes calm_env "b" w (Ok tt) out.2 W).
  vm_compute. reflexivity.
Defined.
