(* ===== verification/Lifecycle.v ===== *)
(** * Lifecycle: one task from its creation to its result

    The handlers composed along the path of a task: [POST /tasks], the dispatch
    job it enqueues, the request the executor receives, and the executor's
    callback with the [Authorization] header of that request. *)
From S2P Require Import Prelude Errors Schema Database Samples EventsRepository TasksRepository KeyValue Effects HttpRetry Idempotency QueueAdapter TasksService JsString CallbackAuth ExecutorService Workers.

#[local] Open Scope Z_scope.

(** The value of a request header. *)
Definition header_of (name : string) (r : http_request) : option string :=
  (λ ih, ih.2.2) <$> list_find (λ h, h.1 = name) (hr_headers r).

Section lifecycle.
Context {SO : ScanOrder} (E : env).

(** The last job, when it is the notification of a webhook. *)
Definition notify (w : world) : option world :=
  match job_payload <$> last (w_jobs w) with
  | Some (WebhookJobData i) =>
      match run E (webhook_delivery i) w with
      | (Some (Ok _), w') => Some w'
      | _ => None
      end
  | _ => Some w
  end.

(** The answer to the creation, what the client reads at the end, and the world then;
    [None] as soon as a step fails. *)
Definition lifecycle (dto : CreateTaskDto) (url : string) (outcome : SubmitResultDto) (w : world)
    : option (TaskCreatedResponse * PublicTask * world) :=
  match run E (create dto url) w with
  | (Some (Ok resp), w1) =>
      match job_payload <$> last (w_jobs w1) with
      | Some (DispatchJobData i t) =>
          match run E (dispatch i t) w1 with
          | (Some (Ok _), w2) =>
              match last (w_http w2) with
              | Some (req, Ok _) =>
                  match run E (submitResult_handler (header_of "Authorization" req) i outcome) w2 with
                  | (Some (Ok _), w3) =>
                      w4 ← notify w3;
                      match run E (getStatus_handler (taskId resp)) w4 with
                      | (Some (Ok snapshot), w5) => Some (resp, snapshot, w5)
                      | _ => None
                      end
                  | _ => None
                  end
              | _ => None
              end
          | _ => None
          end
      | _ => None
      end
  | _ => None
  end.

(** ** A calm environment *)

(** No fault, executors that accept, and generated ids that are printable and
    new to the database. *)
Record calm (d : db) : Prop := {
  calm_fault n : e_fault E n = no_fault;
  calm_http n r : ∃ body, e_http E n r = Ok body;
  calm_token n k : e_uuid E n k ≠ "" ∧ trim (e_uuid E n k) = e_uuid E n k;
  calm_task n k : tasks d !! e_uuid E n k = None;
  calm_event n k : e_uuid E n k ∉ ev_id <$> task_events d }.

(** A request that names no idempotency key, or one that is not in use. *)
Definition key_free (dto : CreateTaskDto) (w : world) : Prop :=
  ∀ k, dto_idempotencyKey dto = Some k →
    kv_get (w_now w) (redisKey k) (w_redis w) = None ∧
    ∀ i r, tasks (w_db w) !! i = Some r → idempotencyKey r ≠ Some k.

Context (NF : ∀ n, e_fault E n = no_fault).

Lemma run_tx_ok {A} (t : dbctx → sql A) r d w :
  t (ctx_of E w) (w_db w) = (r, d) →
  run E (await (DbTx t)) w = (Some r, set_db (advance E w) d).
Proof. intros H. rewrite run_await. simpl. by rewrite NF, H. Qed.

Lemma run_publish_calm c ev w :
  run E (await (Publish c ev)) w = (Some (Ok tt), add_published (advance E w) (c, ev)).
Proof. rewrite run_await. simpl. by rewrite NF. Qed.

Lemma run_enqueue_calm q n data o w :
  run E (enqueue q n data o) w =
    (Some (Ok tt), add_job (advance E w) (mkJob q n data (add_options o))).
Proof. unfold enqueue. rewrite run_catch, run_await. simpl. by rewrite NF. Qed.

Lemma run_commit_calm key t w :
  ∃ w', run E (commit_quietly key t) w = (Some (Ok tt), w') ∧ only_redis w w' ∧ w_http w' = w_http w.
Proof.
  destruct key as [k|]; [|by exists w].
  cbn [commit_quietly]. unfold commitResult. rewrite run_catch, run_redis_ok by done. by eexists.
Qed.

Lemma occupy_free {S} `{KeyValueLaws S} k ttl t (s : S) :
  kv_get t (redisKey k) s = None → ∃ s', occupy k ttl t s = (acquired, s').
Proof.
  intros Hg. destruct (setnx_free t (redisKey k) PENDING_SENTINEL ttl s Hg) as (s' & Hs & _).
  exists s'. unfold occupy, OCCUPY_SCRIPT. by rewrite Hs.
Qed.

(** ** Creation *)

Lemma new_row_ok db_now uuid dto now token :
  1 ≤ dto_timeoutSeconds dto ≤ 86400 →
  task_row_ok (insert_row db_now uuid (new_task dto now token)).
Proof.
  intros Ht. apply task_row_ok_iff. simpl. unfold int4.
  rewrite tasks_valid_state_data_spec. simpl. split_and!; try done.
  apply andb_true_iff. rewrite !Z.leb_le. lia.
Qed.

Lemma insert_calm c dto now token d :
  1 ≤ dto_timeoutSeconds dto ≤ 86400 → tasks d !! c_uuid c 0 = None →
  (∀ k i r, dto_idempotencyKey dto = Some k → tasks d !! i = Some r → idempotencyKey r ≠ Some k) →
  let r := insert_row (c_db_now c) (c_uuid c 0) (new_task dto now token) in
  insert c (new_task dto now token) d = (Ok r, with_task d r).
Proof.
  intros Ht Hi Hk r. unfold insert, insert_task. fold r.
  rewrite (new_row_ok _ _ dto now token Ht : task_row_error r = None).
  assert (tasks d !! id r = None) as Hid by exact Hi.
  rewrite bool_decide_eq_false_2 by (rewrite Hid; by intros []).
  destruct (key_taken (idempotencyKey r) d) eqn:Hkt; [|done].
  destruct (dto_idempotencyKey dto) as [k|] eqn:Hd;
    unfold r in Hkt; simpl in Hkt; rewrite Hd in Hkt; [|done].
  apply key_taken_spec in Hkt as (i & x & Hx & Hxk). by destruct (Hk k i x).
Qed.

(** The task [r] was created: what [create] returned and did. *)
Definition creation (dto : CreateTaskDto) (url : string) (w : world) (r : TaskRow)
    (o : option (res TaskCreatedResponse) * world) : Prop :=
  o.1 = Some (Ok (buildResponse (id r) url)) ∧
  created_from dto r ∧ tasks (w_db w) !! id r = None ∧ id r ≠ "" ∧
  (∃ token, callbackToken r = Some token ∧ token ≠ "" ∧ trim token = token) ∧
  w_db o.2 = with_task (w_db w) r ∧ w_published o.2 = w_published w ∧
  w_jobs o.2 = w_jobs w ++ [dispatch_job r] ∧ w_http o.2 = w_http w ∧ db_wf (w_db o.2).

Lemma create_task_calm dto key url w :
  db_wf (w_db w) → calm (w_db w) → 1 ≤ dto_timeoutSeconds dto ≤ 86400 →
  (∀ k i r, dto_idempotencyKey dto = Some k → tasks (w_db w) !! i = Some r →
     idempotencyKey r ≠ Some k) →
  ∃ r, creation dto url w r (run E (create_task dto key url) w).
Proof.
  intros W C Ht Hk. unfold create_task, insert_step.
  rewrite run_bind, run_catch, run_bind, run_await. cbn [exec_op].
  rewrite run_bind, run_await. cbn [exec_op].
  match goal with |- context [run E (await (DbTx (λ c, insert c (new_task dto ?now ?token)))) ?w1] =>
    pose proof (insert_calm (ctx_of E w1) dto now token (w_db w) Ht
      (calm_task _ C _ _) Hk) as Hins end.
  erewrite run_tx_ok by exact Hins. apply insert_wf in Hins; [|done].
  cbv beta iota. unfold enqueue_step. rewrite run_bind, run_catch, run_enqueue_calm.
  cbv beta iota. rewrite run_bind.
  match goal with |- context [run E (commit_quietly ?k ?t) ?w1] =>
    destruct (run_commit_calm k t w1) as (w2 & -> & (Hd & Hp & Hj) & Hh) end.
  eexists. split; [reflexivity|]. cbn [snd run]. split_and!; [by repeat eexists|by apply C|by apply C| |..].
  - eexists. split; [done|]. by apply C.
  - exact Hd.
  - exact Hp.
  - exact Hj.
  - exact Hh.
  - by rewrite Hd.
Qed.

Lemma create_calm dto url w :
  db_wf (w_db w) → calm (w_db w) → 1 ≤ dto_timeoutSeconds dto ≤ 86400 → key_free dto w →
  ∃ r, creation dto url w r (run E (create dto url) w).
Proof.
  intros W C Ht Hk. unfold create.
  destruct (truthy (dto_idempotencyKey dto)) as [k|] eqn:Hkey.
  - apply truthy_Some in Hkey as [Hkey _]. rewrite run_bind, run_occupySlot_ok by done.
    destruct (occupy_free k IDEMPOTENCY_TTL_SECONDS (w_now w) (w_redis w)) as [s ->];
      [by apply Hk|]. cbn [fst snd].
    apply (create_task_calm dto (Some k) url (set_redis (advance E w) s)); try done.
    intros k' i x Hk'. by apply Hk.
  - apply create_task_calm; try done. intros k' i x Hk'. by apply Hk.
Qed.

(** ** Dispatch *)

(** The request the executor gets. *)
Definition dispatch_request (r : TaskRow) : http_request :=
  request_of (executorUrl r) (dispatch_body (id r) r) (bearer r) dispatch_options.

(** An executor that accepts the first request gets no second one. *)
Lemma post_accepted url body headers opts w :
  (∀ n q, ∃ b, e_http E n q = Ok b) → 1 ≤ nullish (attempts opts) 3 →
  ∃ b, run E (post url body headers opts) w =
    (Some (Ok b), add_http (advance E w) (request_of url body headers opts, Ok b)).
Proof.
  intros HH Hn. unfold post. destruct (Z.to_nat (nullish (attempts opts) 3)) eqn:Hk; [lia|].
  cbn [post_loop run exec_op]. fold (request_of url body headers opts).
  destruct (HH (w_step w) (request_of url body headers opts)) as [b ->]. by exists b.
Qed.

Lemma dispatch_calm r t w :
  db_wf (w_db w) → (∀ n q, ∃ body, e_http E n q = Ok body) →
  tasks (w_db w) !! id r = Some r → status r = PENDING →
  ∃ n now body w', let r1 := started_row n now t r in
    run E (dispatch (id r) t) w = (Some (Ok tt), w') ∧
    w_db w' = set_task (id r) r1 (w_db w) ∧ w_published w' = w_published w ∧
    w_jobs w' = w_jobs w ∧ w_http w' = w_http w ++ [(dispatch_request r, Ok body)].
Proof.
  intros W HH Hi Hs. unfold dispatch. rewrite run_bind, run_await. cbn [exec_op].
  set (now := w_now _). rewrite run_bind.
  erewrite run_tx_ok; [|apply (updateStatus_moves _ _ _ _ _ _ r);
    [done|done|by apply bool_decide_true|apply started_row_ok; [by eapply wf_row|done]]].
  cbv beta iota. rewrite run_catch, run_bind.
  match goal with |- context [run E (post ?u ?b ?h ?o) ?w1] =>
    destruct (post_accepted u b h o w1 HH) as [body ->]; [simpl; lia|] end.
  by eexists _, now, body, _.
Qed.

(** ** The callback *)

Lemma extract_bearer token :
  token ≠ "" → trim token = token → extractBearerToken (Some ("Bearer " +:+ token)) = Some token.
Proof.
  intros Hne Ht. unfold extractBearerToken.
  rewrite (proj2 (strip_prefix_Some "Bearer " _ token)), Ht by done. by destruct token.
Qed.

Lemma guard_calm token r w :
  db_wf (w_db w) → tasks (w_db w) !! id r = Some r → id r ≠ "" → status r = PROCESSING →
  callbackToken r = Some token → token ≠ "" → trim token = token →
  run E (canActivate (Some ("Bearer " +:+ token)) (Some (id r))) w = (Some (Ok r), advance E w).
Proof.
  intros W Hi Hid Hs Hc Hne Ht. unfold canActivate, canActivate_by. rewrite extract_bearer by done.
  assert (truthy (Some (id r)) = Some (id r)) as -> by by destruct (id r).
  rewrite run_bind. erewrite run_tx_ok by by apply findById_eq. cbv beta iota. rewrite Hi.
  rewrite run_bind, run_lift, validateToken_eq, Hc.
  assert (truthy (Some token) = Some token) as -> by by destruct token.
  rewrite !bool_decide_true by done. cbn. by destruct w.
Qed.

Lemma insertEvent_fresh c input d :
  db_wf d → c_uuid c 0 ∉ ev_id <$> task_events d →
  insertEvent c input d =
    (Ok (appended_event c input d), mkDb (tasks d) (task_events d ++ [appended_event c input d])).
Proof.
  intros W Hid. unfold insertEvent, transaction.
  destruct (insertEventInTx c input d) as [o d'] eqn:H.
  apply insertEventInTx_cases in H as [(_ & -> & ->)|(Hin & _)]; [done|done|done].
Qed.

(** The row of a task whose result was submitted. *)
Definition finished_row (n now : Z) (dto : SubmitResultDto) (r : TaskRow) : TaskRow :=
  update_row n (Set_status (to_status dto) :: result_sets dto now) r.

Lemma submit_calm dto r w :
  db_wf (w_db w) → tasks (w_db w) !! id r = Some r → status r = PROCESSING →
  (∀ n k, e_uuid E n k ∉ ev_id <$> task_events (w_db w)) →
  ∃ n now ev w', let d1 := set_task (id r) (finished_row n now dto r) (w_db w) in
    run E (submitResult r dto) w = (Some (Ok tt), w') ∧
    event_written (result_event (id r) dto) d1 (w_db w') ev ∧
    w_published w' = w_published w ++ [(channel_of (id r), ev)] ∧
    w_jobs w' = w_jobs w ++ (if truthy (webhookUrl r) then [webhook_job (id r)] else []) ∧
    w_http w' = w_http w ∧ db_wf (w_db w').
Proof.
  intros W Hi Hs Hev. unfold submitResult. rewrite run_bind, run_await. cbn [exec_op].
  set (now := w_now _). rewrite run_bind.
  assert (Hok : ∀ n, task_row_ok (finished_row n now dto r)).
  { intros n. apply result_row_ok; [by eapply wf_row|done]. }
  erewrite run_tx_ok; [|apply (updateStatus_moves _ _ _ _ _ _ r);
    [done|done|by apply bool_decide_true|apply Hok]].
  cbv beta iota. rewrite run_bind.
  set (w1 := set_db _ _). assert (W1 : db_wf (w_db w1)).
  { eapply (set_task_wf (id r) (finished_row _ now dto r) r); [exact W|done|by destruct dto|by destruct dto|apply Hok]. }
  pose proof (insertEvent_fresh (ctx_of E w1) (result_event (id r) dto) (w_db w1) W1 (Hev _ _)) as Hins.
  pose proof (insertEvent_wf _ _ _ _ _ W1 Hins) as W2.
  erewrite run_tx_ok by exact Hins.
  cbv beta iota. rewrite run_bind. unfold publish. rewrite run_publish_calm. cbv beta iota.
  unfold notify_webhook. destruct (truthy (webhookUrl r)) eqn:Hwh.
  - rewrite run_enqueue_calm. eexists _, now, _, _. split; [reflexivity|].
    split; [|by split_and!]. by split_and!.
  - eexists _, now, _, _. split; [reflexivity|].
    split; [|split_and!; [done|symmetry; apply app_nil_r|done|done]]. by split_and!.
Qed.

(** ** The notification and the client's read *)

(** The requests the client's webhook gets for the final row. *)
Definition webhook_requests (r : TaskRow) : list http_request :=
  match truthy (webhookUrl r) with
  | Some url => [request_of url (webhook_body r) [] webhook_options]
  | None => []
  end.

Lemma notify_calm i r w :
  db_wf (w_db w) → (∀ n q, ∃ body, e_http E n q = Ok body) → tasks (w_db w) !! i = Some r →
  (let job := job_payload <$> last (w_jobs w) in
   if truthy (webhookUrl r) then job = Some (WebhookJobData i)
   else ∀ j, job ≠ Some (WebhookJobData j)) →
  ∃ w' answers, notify w = Some w' ∧ w_db w' = w_db w ∧ w_published w' = w_published w ∧
    w_jobs w' = w_jobs w ∧ length answers = length (webhook_requests r) ∧
    w_http w' = w_http w ++ zip (webhook_requests r) (Ok <$> answers).
Proof.
  intros W HH Hi Hj. unfold notify, webhook_requests.
  destruct (truthy (webhookUrl r)) as [url|] eqn:Hurl.
  - rewrite Hj. unfold webhook_delivery. rewrite run_bind.
    erewrite run_tx_ok by (by apply findById_eq). cbv beta iota. rewrite Hi, Hurl.
    rewrite run_catch, run_bind.
    match goal with |- context [run E (post ?u ?b ?h ?o) ?w1] =>
      destruct (post_accepted u b h o w1 HH) as [body ->]; [simpl; lia|] end.
    eexists _, [body]. split; [reflexivity|]. by destruct w.
  - exists w, []. split; [|by rewrite app_nil_r].
    destruct (job_payload <$> last (w_jobs w)) as [[| |j]|]; [done..| |done]. by destruct (Hj j).
Qed.

Lemma getStatus_calm i r w :
  db_wf (w_db w) → tasks (w_db w) !! i = Some r →
  ∃ w', run E (getStatus_handler i) w = (Some (Ok (publicTask r)), w') ∧
    w_db w' = w_db w ∧ w_published w' = w_published w ∧ w_jobs w' = w_jobs w ∧ w_http w' = w_http w.
Proof.
  intros W Hi. unfold getStatus_handler, getStatus_handler_at, getStatus_at. rewrite !run_bind.
  erewrite run_tx_ok by (by apply findById_eq). cbv beta iota. rewrite Hi. eexists.
  split; [reflexivity|]. by destruct w.
Qed.

(** ** From the dispatch job on *)

Lemma dispatched_lifecycle dto outcome r w :
  db_wf (w_db w) → (∀ n q, ∃ body, e_http E n q = Ok body) →
  (∀ n k, e_uuid E n k ∉ ev_id <$> task_events (w_db w)) → created_from dto r → id r ≠ "" →
  tasks (w_db w) !! id r = Some r →
  (∃ token, callbackToken r = Some token ∧ token ≠ "" ∧ trim token = token) →
  ∃ n now n' now' ev w2 w3 body,
    let r1 := started_row n now (timeoutSeconds r) r in
    let d1 := set_task (id r) (finished_row n' now' outcome r1) (w_db w) in
    run E (dispatch (id r) (timeoutSeconds r)) w = (Some (Ok tt), w2) ∧
    w_http w2 = w_http w ++ [(dispatch_request r, Ok body)] ∧
    run E (submitResult_handler (header_of "Authorization" (dispatch_request r)) (id r) outcome) w2
      = (Some (Ok tt), w3) ∧
    event_written (result_event (id r) outcome) d1 (w_db w3) ev ∧
    w_published w3 = w_published w ++ [(channel_of (id r), ev)] ∧
    w_jobs w3 = w_jobs w ++ (if truthy (webhookUrl r) then [webhook_job (id r)] else []) ∧
    w_http w3 = w_http w2 ∧ db_wf (w_db w3).
Proof.
  intros W HH Hev Hc Hid Hi (token & Htok & Hne & Htrim).
  assert (Hs : status r = PENDING) by by destruct Hc as (? & ? & ? & ? & ->).
  destruct (dispatch_calm r (timeoutSeconds r) w W HH Hi Hs)
    as (n & now & body & w2 & H2 & Hd2 & Hp2 & Hj2 & Hh2).
  set (r1 := started_row n now (timeoutSeconds r) r) in *.
  assert (W2 : db_wf (w_db w2)).
  { rewrite Hd2. apply (set_task_wf _ r1 r); try done. by apply started_row_ok; [eapply wf_row|]. }
  assert (Hi2 : tasks (w_db w2) !! id r1 = Some r1) by (rewrite Hd2; apply lookup_insert_eq).
  destruct (submit_calm outcome r1 (advance E w2) W2 Hi2 eq_refl)
    as (n' & now' & ev & w3 & H3 & He & Hp3 & Hj3 & Hh3 & W3).
  { intros k k'. simpl. rewrite Hd2. apply Hev. }
  exists n, now, n', now', ev, w2, w3, body. cbn zeta. fold r1.
  split; [exact H2|]. split; [exact Hh2|]. split.
  - unfold submitResult_handler. rewrite run_bind.
    replace (header_of "Authorization" (dispatch_request r)) with (Some ("Bearer " +:+ token))
      by (unfold header_of; simpl; by rewrite Htok).
    change (id r) with (id r1). by rewrite (guard_calm token r1 w2).
  - split; [|split; [by rewrite Hp3, <-Hp2|split; [by rewrite Hj3, <-Hj2|done]]].
    simpl in He. rewrite Hd2 in He. unfold set_task in *. simpl in He.
    by rewrite insert_insert_eq in He.
Qed.
End lifecycle.

(** ** Properties *)

(** C12: the life of a task.  In an environment without faults, with peers that accept
    what they are sent and an executor that calls back once with the [Authorization]
    header it was given, a valid request with no idempotency key, or a new one, is
    carried through: every step succeeds, and at the end the tables hold exactly
    one more task, COMPLETED or FAILED as the executor said, started and finished
    by these handlers, and one more event, of that type, which is also the one
    message published, on the task's channel.  One dispatch job and, with a
    [webhookUrl], one webhook job were enqueued; two requests were sent, the dispatch
    to the executor and the final row to the webhook; and the client, asking with the
    id it was answered, reads that row. *)
Theorem task_lifecycle {SO : ScanOrder} E dto url outcome w :
  db_wf (w_db w) → calm E (w_db w) → 1 ≤ dto_timeoutSeconds dto ≤ 86400 → key_free dto w →
  ∃ r n now n' now' ev w' answers,
    let r' := finished_row n' now' outcome (started_row n now (timeoutSeconds r) r) in
    lifecycle E dto url outcome w = Some (buildResponse (id r) url, publicTask r', w') ∧
    created_from dto r ∧ tasks (w_db w) !! id r = None ∧
    tasks (w_db w') = <[id r := r']> (tasks (w_db w)) ∧
    task_events (w_db w') = task_events (w_db w) ++ [ev] ∧
    ev_taskId ev = id r ∧ ev_type ev = input_eventType (result_event (id r) outcome) ∧
    ev_payload ev = input_payloadFields (result_event (id r) outcome) ∧
    w_published w' = w_published w ++ [(channel_of (id r), ev)] ∧
    w_jobs w' = w_jobs w ++ [dispatch_job r]
                  ++ (if truthy (webhookUrl r) then [webhook_job (id r)] else []) ∧
    length answers = length (dispatch_request r :: webhook_requests r') ∧
    w_http w' = w_http w ++ zip (dispatch_request r :: webhook_requests r') (Ok <$> answers).
Proof.
  intros W C Ht Hk. pose proof (calm_fault _ _ C) as NF.
  destruct (create_calm E NF dto url w W C Ht Hk)
    as (r & Ho & Hc & Hnew & Hid & Htok & Hd & Hp & Hj & Hh1 & W1).
  destruct (run E (create dto url) w) as [o w1] eqn:H1. cbn [fst snd] in *. subst o.
  destruct (dispatched_lifecycle E NF dto outcome r w1)
    as (n & now & n' & now' & ev & w2 & w3 & body & H2 & Hh & H3 & He & Hp3 & Hj3 & Hh3 & W3);
    try done; [apply C|rewrite Hd; apply C|rewrite Hd; apply lookup_insert_eq|].
  destruct He as (He1 & He2 & He3 & _ & Hd3).
  set (r' := finished_row n' now' outcome (started_row n now (timeoutSeconds r) r)) in *.
  assert (Hi3 : tasks (w_db w3) !! id r = Some r') by (rewrite Hd3; apply lookup_insert_eq).
  assert (Hurl : webhookUrl r' = webhookUrl r) by (subst r'; by destruct outcome).
  destruct (notify_calm E NF (id r) r' w3) as (w4 & answers & H4 & Hd4 & Hp4 & Hj4 & Hl & Hh4); try done.
  { apply C. }
  { rewrite Hurl, Hj3. cbv zeta. destruct (truthy (webhookUrl r)); [by rewrite last_snoc|].
    rewrite app_nil_r, Hj, last_snoc. by intros j [=]. }
  destruct (getStatus_calm E NF (id r) r' w4) as (w5 & H5 & Hd5 & Hp5 & Hj5 & Hh5); [by rewrite Hd4..|].
  exists r, n, now, n', now', ev, w5, (body :: answers). cbv zeta. fold r'.
  split.
  { unfold lifecycle. rewrite H1, Hj, last_snoc. cbn [fmap option_fmap option_map job_payload dispatch_job].
    rewrite H2, Hh, last_snoc, H3, H4. cbn [mbind option_bind taskId buildResponse]. by rewrite H5. }
  rewrite Hd5, Hd4, Hd3, Hp5, Hp4, Hp3, Hj5, Hj4, Hj3, Hh5, Hh4, Hh3, Hh, Hh1, Hp, Hj, Hd.
  unfold set_task, with_task. simpl. rewrite insert_insert_eq, <-!app_assoc.
  split_and!; try done; try (by destruct outcome). by rewrite Hl.
Qed.

(** ** Instances *)

Definition plain_env : env :=
  mkEnv (λ _, no_fault) (λ _, 1%N) (λ n, Z.of_nat n) (λ _ _, "u") (λ _, ∅) (λ _, 0) (λ _ _, Ok JNull).

Definition other_db : db := sample_db
  [sample_row "a" PROCESSING (Some 1000) None (Some 61000)] [sample_event "a" "e1" 1 progress_ev].

Lemma task_lifecycle_witness :
  ∃ i snapshot w', lifecycle plain_env (sample_dto (Some "k")) sample_url (completed_dto JNull)
            (sample_world other_db) = Some (buildResponse i sample_url, snapshot, w') ∧
    pub_status snapshot = COMPLETED ∧
    ev_type <$> task_events (w_db w') = [progress_ev; completed_ev] ∧
    length (w_published w') = 1%nat.
Proof.
  assert (C : calm plain_env other_db).
  { constructor; try done.
    - intros n r. by exists JNull.
    - intros n k. apply (bool_decide_eq_true_1 _). vm_compute. reflexivity. }
  assert (K : key_free (sample_dto (Some "k")) (sample_world other_db)).
  { intros k [= <-]. split; [reflexivity|]. intros i r Hi.
    change (tasks (w_db (sample_world other_db))) with
      (<["a" := sample_row "a" PROCESSING (Some 1000) None (Some 61000)]> (∅ : gmap string TaskRow))
      in Hi.
    apply lookup_insert_Some in Hi as [[_ <-]|[_ Hi]]; [done|by rewrite lookup_empty in Hi]. }
  destruct (task_lifecycle plain_env (sample_dto (Some "k")) sample_url (completed_dto JNull)
              (sample_world other_db) ltac:(check_db) C ltac:(simpl; lia) K)
    as (r & n & now & n' & now' & ev & w' & answers & H & _ & _ & _ & He & _ & Hty & _ & Hp & _).
  eexists (id r), _, w'. split; [exact H|]. rewrite He, Hp, fmap_app.
  split; [done|]. split; [|done]. simpl. by rewrite Hty.
Defined.
