(* ===== verification/Sse.v ===== *)
(** * SseService: the event stream of a task

    [src/modules/delivery/sse.service.ts].  A connection is a state machine: the
    Observable's subscribe function sets up the closure variables ([isDone],
    [historyLoaded], [highestHistorySeq], [liveBuffer]) and every callback it
    registers, on a Pub/Sub message, on an error, on the heartbeat timer, on the
    end of the history query, on the client's disconnection, is one input.

    [emitted] is what the subscriber has passed on.  rxjs ignores every
    notification after [complete] or [error], and runs the teardown at that
    moment. *)
From stdpp Require Import sorting.
From S2P Require Import Prelude Errors Schema Database EventsRepository TasksRepository KeyValue Effects Samples.

#[local] Open Scope Z_scope.

Definition TERMINAL_EVENT_TYPES : list TaskEventType := [completed_ev; failed_ev; cancelled_ev].

Definition terminal_event (e : TaskEventRow) : bool :=
  bool_decide (ev_type e ∈ TERMINAL_EVENT_TYPES).

Definition MAX_LIVE_BUFFER_SIZE : nat := 500.

(** The SSE wire format; [me_data] is the value given to [JSON.stringify]. *)
Record MessageEvent : Type := mkMessageEvent {
  me_id : option string;
  me_type : string;
  me_data : json }.

Definition HEARTBEAT_EVENT : MessageEvent := mkMessageEvent None "ping" (JStr "").

Definition toMessageEvent (event : TaskEventRow) : MessageEvent :=
  {| me_id := Some (String_of_Z (ev_seq event));
     me_type := event_type_text (ev_type event);
     me_data := JObj [("eventType", JStr (event_type_text (ev_type event)));
                      ("payload", ev_payload event)] |}.

(** ** The connection *)

(** A notification that reached the subscriber; [Event] keeps the row beside the
    message made of it. *)
Inductive notification : Type :=
| Event (e : TaskEventRow) (m : MessageEvent)
| Heartbeat
| Complete
| Failure (e : exn).

Record stream_state : Type := mkStream {
  isDone : bool;
  historyLoaded : bool;
  highestHistorySeq : Z;
  liveBuffer : list TaskEventRow;
  closed : bool;                  (** the subscriber has stopped, the teardown has run *)
  pending : bool;                 (** the history query has not been answered *)
  emitted : list notification }.

Definition initial_stream (afterSeq : Z) : stream_state :=
  mkStream false false afterSeq [] false true [].

Inductive input : Type :=
| Subscribed (err : option exn)               (** the callback of [subscribe(channel)] *)
| Message (event : option TaskEventRow)       (** a message; [None]: [JSON.parse] throws *)
| ClientError (err : exn)                     (** [subClient.on('error')] *)
| Tick                                        (** the heartbeat interval *)
| History (events : res (list TaskEventRow))  (** [findEventsSince(...)] settles *)
| Disconnect.                                 (** the client goes away: [unsubscribe()] *)

(** *** The subscriber *)

Definition emit (n : notification) (s : stream_state) : stream_state :=
  if closed s then s
  else mkStream (isDone s) (historyLoaded s) (highestHistorySeq s) (liveBuffer s) false (pending s)
         (emitted s ++ [n]).

(** The teardown function. *)
Definition teardown (s : stream_state) : stream_state :=
  mkStream true (historyLoaded s) (highestHistorySeq s) (liveBuffer s) true (pending s) (emitted s).

Definition next (e : TaskEventRow) (s : stream_state) : stream_state :=
  emit (Event e (toMessageEvent e)) s.
Definition complete (s : stream_state) : stream_state := teardown (emit Complete s).
Definition subscriber_error (err : exn) (s : stream_state) : stream_state :=
  teardown (emit (Failure err) s).

(** *** Assignments to the closure variables *)

Definition set_isDone (s : stream_state) : stream_state :=
  mkStream true (historyLoaded s) (highestHistorySeq s) (liveBuffer s) (closed s) (pending s)
    (emitted s).
Definition set_historyLoaded (s : stream_state) : stream_state :=
  mkStream (isDone s) true (highestHistorySeq s) (liveBuffer s) (closed s) (pending s) (emitted s).
Definition set_highest (n : Z) (s : stream_state) : stream_state :=
  mkStream (isDone s) (historyLoaded s) n (liveBuffer s) (closed s) (pending s) (emitted s).
Definition set_buffer (l : list TaskEventRow) (s : stream_state) : stream_state :=
  mkStream (isDone s) (historyLoaded s) (highestHistorySeq s) l (closed s) (pending s) (emitted s).
Definition set_answered (s : stream_state) : stream_state :=
  mkStream (isDone s) (historyLoaded s) (highestHistorySeq s) (liveBuffer s) (closed s) false
    (emitted s).

(** *** The callbacks *)

(** A live event, once the history is loaded. *)
Definition on_live (event : TaskEventRow) (s : stream_state) : stream_state :=
  if highestHistorySeq s <? ev_seq event then
    let s := next event (set_highest (ev_seq event) s) in
    if terminal_event event then complete (set_isDone s) else s
  else s.

Definition on_message (event : option TaskEventRow) (s : stream_state) : stream_state :=
  if isDone s then s
  else match event with
  | None => s
  | Some event =>
      if negb (historyLoaded s) then
        if (MAX_LIVE_BUFFER_SIZE <=? length (liveBuffer s))%nat
        then subscriber_error (JsError "SSE buffer overflow") (set_isDone s)
        else set_buffer (liveBuffer s ++ [event]) s
      else on_live event s
  end.

(** [for (const event of events)]: the boolean tells whether the loop ran to its
    end, i.e. met no terminal event. *)
Fixpoint replay_history (events : list TaskEventRow) (s : stream_state) : stream_state * bool :=
  match events with
  | [] => (s, true)
  | event :: events =>
      let s := next event (set_highest (Z.max (highestHistorySeq s) (ev_seq event)) s) in
      if terminal_event event then (complete (set_isDone s), false)
      else replay_history events s
  end.

(** [for (const event of liveBuffer)]. *)
Fixpoint replay_buffer (events : list TaskEventRow) (s : stream_state) : stream_state * bool :=
  match events with
  | [] => (s, true)
  | event :: events =>
      if highestHistorySeq s <? ev_seq event then
        let s := next event (set_highest (ev_seq event) s) in
        if terminal_event event then (complete (set_buffer [] (set_isDone s)), false)
        else replay_buffer events s
      else replay_buffer events s
  end.

Definition on_history (events : res (list TaskEventRow)) (s : stream_state) : stream_state :=
  match events with
  | Err err => if negb (isDone s) then subscriber_error err s else s
  | Ok events =>
      if isDone s then s
      else match replay_history events s with
           | (s, false) => s
           | (s, true) =>
               let s := set_historyLoaded s in
               match replay_buffer (liveBuffer s) s with
               | (s, false) => s
               | (s, true) => set_buffer [] s
               end
           end
  end.

Definition on_input (i : input) (s : stream_state) : stream_state :=
  match i with
  | Subscribed None => s
  | Subscribed (Some err) => subscriber_error err s
  | Message event => on_message event s
  | ClientError err => subscriber_error err s
  | Tick => if negb (isDone s) then emit Heartbeat s else s
  | History events => if pending s then on_history events (set_answered s) else s
  | Disconnect => teardown s
  end.

Definition run_stream (afterSeq : Z) (inputs : list input) : stream_state :=
  foldl (λ s i, on_input i s) (initial_stream afterSeq) inputs.

(** *** What a connection holds

    A Redis client of its own, on which it makes these calls, and the heartbeat
    timer.  RxJS runs the teardown once, when the subscriber stops for any reason. *)
Inductive client_call : Type :=
| Subscribe (channel : string)
| Unsubscribe (channel : string)
| Quit.

Record connection_state : Type := mkConnection {
  c_stream : stream_state;
  c_calls : list client_call;
  c_heartbeat : bool }.

Definition open_connection (taskId : string) (afterSeq : Z) : connection_state :=
  mkConnection (initial_stream afterSeq) [Subscribe (channel_of taskId)] true.

(** [void subClient.quit()] in the callbacks themselves. *)
Definition quits (i : input) (s : stream_state) : list client_call :=
  match i with
  | Subscribed (Some err) => [Quit]
  | Message (Some event) =>
      if negb (isDone s) && negb (historyLoaded s) && (MAX_LIVE_BUFFER_SIZE <=? length (liveBuffer s))%nat
      then [Quit] else []
  | _ => []
  end.

(** The teardown: [clearInterval], [unsubscribe(channel)] and, whatever it gives,
    [quit()]. *)
Definition connection_input (taskId : string) (c : connection_state) (i : input) : connection_state :=
  let s := c_stream c in
  let s' := on_input i s in
  let stops := negb (closed s) && closed s' in
  mkConnection s'
    (c_calls c ++ quits i s ++ if stops then [Unsubscribe (channel_of taskId); Quit] else [])
    (c_heartbeat c && negb stops).

Definition run_connection_state (taskId : string) (afterSeq : Z) (inputs : list input) : connection_state :=
  foldl (connection_input taskId) (open_connection taskId afterSeq) inputs.

(** [stream(taskId, afterSeq)]: the Observable, when the task exists; [u] is the row
    id that the text [taskId] denotes. *)
Definition stream_at {SO : ScanOrder} (taskId u : string) (afterSeq : Z) : prog stream_state :=
  let! task := await (DbTx (λ _, findById u)) in
  match task with
  | None => Throw (NotFoundException ("Task " +:+ taskId +:+ " not found"))
  | Some _ => Ret (initial_stream afterSeq)
  end.

Definition stream {SO : ScanOrder} (taskId : string) (afterSeq : Z) : prog stream_state :=
  stream_at taskId taskId afterSeq.

(** The rows delivered to the client. *)
Definition delivered (s : stream_state) : list TaskEventRow :=
  omap (λ n, match n with Event e _ => Some e | _ => None end) (emitted s).

(** ** The specification of the delivery

    A connection forwards, of the events it is fed in turn, those above the
    highest number forwarded so far, and stops at a terminal one. *)
Fixpoint feed (h : Z) (l : list TaskEventRow) : list TaskEventRow * Z * bool :=
  match l with
  | [] => ([], h, false)
  | e :: l =>
      if h <? ev_seq e then
        if terminal_event e then ([e], ev_seq e, true)
        else let '(out, h', stop) := feed (ev_seq e) l in (e :: out, h', stop)
      else feed h l
  end.

(** What a client that has seen the first [a] events of a log is owed. *)
Fixpoint upto_terminal (l : list TaskEventRow) : list TaskEventRow :=
  match l with
  | [] => []
  | e :: l => if terminal_event e then [e] else e :: upto_terminal l
  end.

Definition has_terminal (l : list TaskEventRow) : bool := existsb terminal_event l.

Lemma feed_app h l k :
  feed h (l ++ k) =
  let '(out, h1, stop) := feed h l in
  if stop then (out, h1, true)
  else let '(out', h2, stop') := feed h1 k in (out ++ out', h2, stop').
Proof.
  revert h. induction l as [|e l IH]; intros h; simpl.
  - by destruct (feed h k) as [[? ?] ?].
  - destruct (h <? ev_seq e); [|apply IH]. destruct (terminal_event e); [done|].
    rewrite IH. destruct (feed (ev_seq e) l) as [[out h1] [|]]; [done|].
    by destruct (feed h1 k) as [[? ?] ?].
Qed.

Lemma has_terminal_app l k : has_terminal (l ++ k) = has_terminal l || has_terminal k.
Proof. apply existsb_app. Qed.

Lemma upto_terminal_app l k :
  upto_terminal (l ++ k) = if has_terminal l then upto_terminal l else l ++ upto_terminal k.
Proof.
  induction l as [|e l IH]; simpl; [done|]. destruct (terminal_event e); simpl; [done|].
  rewrite IH. by destruct (has_terminal l).
Qed.

Lemma upto_terminal_none l : has_terminal l = false → upto_terminal l = l.
Proof.
  induction l as [|e l IH]; simpl; [done|]. destruct (terminal_event e); simpl; [done|].
  intros H. by rewrite IH.
Qed.

(** Feeding a consecutively numbered segment that starts at or below the
    highest number seen. *)
Lemma feed_consecutive l p h :
  ev_seq <$> l = seqZ (p + 1) (Z.of_nat (length l)) → p ≤ h →
  feed h l =
    (upto_terminal (drop (Z.to_nat (h - p)) l),
     (feed h l).1.2, has_terminal (drop (Z.to_nat (h - p)) l)) ∧
  (has_terminal (drop (Z.to_nat (h - p)) l) = false →
     (feed h l).1.2 = Z.max h (p + Z.of_nat (length l))).
Proof.
  revert p h. induction l as [|e l IH]; intros p h Hl Hp.
  - rewrite drop_nil. simpl. split; [done|]. intros _. lia.
  - csimpl in Hl. rewrite seqZ_cons in Hl by lia. injection Hl as He Hl.
    replace (Z.pred _) with (Z.of_nat (length l)) in Hl by lia.
    replace (Z.succ (p + 1)) with ((p + 1) + 1) in Hl by lia. simpl.
    destruct (Z.ltb_spec h (ev_seq e)) as [Hlt|Hge].
    + assert (h = p) as -> by lia. replace (Z.to_nat (p - p)) with 0%nat by lia.
      destruct (IH (p + 1) (ev_seq e) Hl ltac:(lia)) as [IH1 IH2].
      replace (Z.to_nat (ev_seq e - (p + 1))) with 0%nat in IH1, IH2 by lia.
      simpl. rewrite drop_0 in IH1, IH2. destruct (terminal_event e); simpl; [done|].
      rewrite IH1. simpl. split; [done|]. intros H. rewrite IH2 by done. lia.
    + replace (Z.to_nat (h - p)) with (S (Z.to_nat (h - (p + 1)))) by lia. simpl.
      destruct (IH (p + 1) h Hl ltac:(lia)) as [IH1 IH2]. split; [done|].
      intros H. rewrite IH2 by done. lia.
Qed.

Lemma seqs_drop L p :
  ev_seq <$> L = seqZ 1 (Z.of_nat (length L)) →
  ev_seq <$> drop p L = seqZ (Z.of_nat p + 1) (Z.of_nat (length (drop p L))).
Proof.
  intros H. rewrite fmap_drop, H, length_drop. apply list_eq. intros i.
  rewrite lookup_drop. destruct (decide (i < length L - p)%nat).
  - rewrite !lookup_seqZ_lt by lia. f_equal. lia.
  - rewrite !lookup_seqZ_ge by lia. done.
Qed.

Lemma seqs_take L m :
  ev_seq <$> L = seqZ 1 (Z.of_nat (length L)) →
  ev_seq <$> take m L = seqZ 1 (Z.of_nat (length (take m L))).
Proof.
  intros H. rewrite fmap_take, H, length_take. apply list_eq. intros i.
  destruct (decide (i < m)%nat).
  - rewrite lookup_take_lt by done. destruct (decide (i < length L)%nat).
    + rewrite !lookup_seqZ_lt by lia. done.
    + rewrite !lookup_seqZ_ge by lia. done.
  - rewrite lookup_take_ge by lia. rewrite lookup_seqZ_ge by lia. done.
Qed.

(** History up to [m], live events from [k <= m] on: each event once. *)
Lemma feed_history_live L a k m :
  ev_seq <$> L = seqZ 1 (Z.of_nat (length L)) → (k ≤ m ≤ length L)%nat →
  let f := feed (Z.of_nat a) (drop a (take m L) ++ drop k L) in
  f.1.1 = upto_terminal (drop a L) ∧ f.2 = has_terminal (drop a L).
Proof.
  intros HL Hkm f. subst f. rewrite feed_app.
  pose proof (seqs_drop _ a (seqs_take L m HL)) as H1.
  destruct (feed_consecutive _ (Z.of_nat a) (Z.of_nat a) H1 ltac:(lia)) as [F1 F2].
  replace (Z.to_nat (Z.of_nat a - Z.of_nat a)) with 0%nat in F1, F2 by lia.
  rewrite drop_0 in F1, F2. rewrite F1.
  set (X := drop a (take m L)) in *. set (h := (feed (Z.of_nat a) X).1.2) in *.
  assert (HaL : drop a L = X ++ drop (Nat.max a m) L).
  { subst X. rewrite <-(take_drop m L) at 1. destruct (decide (a ≤ m)%nat).
    - rewrite drop_app_le by (rewrite length_take; lia). by rewrite Nat.max_r by lia.
    - rewrite drop_app_ge by (rewrite length_take; lia). rewrite length_take, drop_drop.
      rewrite (drop_ge (take m L)) by (rewrite length_take; lia). simpl. f_equal. lia. }
  rewrite HaL, upto_terminal_app, has_terminal_app.
  destruct (has_terminal X) eqn:HX; [done|]. specialize (F2 eq_refl).
  assert (Hh : h = Z.of_nat (Nat.max a m)).
  { rewrite F2. subst X. rewrite length_drop, length_take. lia. }
  destruct (feed_consecutive _ (Z.of_nat k) h (seqs_drop L k HL) ltac:(lia)) as [G1 _].
  rewrite G1. simpl. rewrite drop_drop.
  replace (k + Z.to_nat (h - Z.of_nat k))%nat with (Nat.max a m) by lia.
  split; [|done]. by rewrite upto_terminal_none.
Qed.

(** ** The loops implement [feed] *)

Definition open (s : stream_state) : Prop := closed s = false ∧ isDone s = false.

(** [s'] is [s] after it has been fed a list with the given outcome. *)
Definition fed (o : list TaskEventRow * Z * bool) (s s' : stream_state) : Prop :=
  delivered s' = delivered s ++ o.1.1 ∧ closed s' = o.2 ∧ isDone s' = o.2 ∧
  historyLoaded s' = historyLoaded s ∧ pending s' = pending s ∧
  if o.2 then last (emitted s') = Some Complete
  else highestHistorySeq s' = o.1.2 ∧ liveBuffer s' = liveBuffer s.

Lemma delivered_emit n s :
  closed s = false →
  delivered (emit n s) = delivered s ++ match n with Event e _ => [e] | _ => [] end.
Proof. intros H. unfold delivered, emit. rewrite H. simpl. rewrite omap_app. by destruct n. Qed.

Lemma fed_cons e out h' stop s s1 s' :
  closed s = false →
  s1 = next e (set_highest (ev_seq e) s) → fed (out, h', stop) s1 s' →
  fed (e :: out, h', stop) s s'.
Proof.
  intros Hc -> (Hd & ? & ? & Hh & Hp & Hr). unfold next in *. unfold fed.
  rewrite Hd, delivered_emit by done. simpl in *. rewrite <-app_assoc. split_and!; try done.
  - rewrite Hh. unfold emit; simpl. by rewrite Hc.
  - rewrite Hp. unfold emit; simpl. by rewrite Hc.
  - destruct stop; [done|]. destruct Hr as [? Hb]. split; [done|]. rewrite Hb.
    unfold emit; simpl. by rewrite Hc.
Qed.

Lemma fed_terminal e s g :
  closed s = false → (∀ x, closed (g x) = closed x ∧ emitted (g x) = emitted x ∧
    historyLoaded (g x) = historyLoaded x ∧ pending (g x) = pending x) →
  fed ([e], ev_seq e, true) s (complete (g (next e (set_highest (ev_seq e) s)))).
Proof.
  intros Hc Hg. set (s1 := next e _).
  assert (Hc1 : closed s1 = false) by (unfold s1, next, emit; simpl; by rewrite Hc).
  destruct (Hg s1) as (G1 & G2 & G3 & G4). unfold fed, complete, delivered.
  unfold emit. rewrite G1, Hc1. simpl. rewrite G2, G3, G4, !omap_app, last_snoc. simpl.
  subst s1. unfold next, emit. simpl. rewrite Hc. simpl. rewrite omap_app. simpl.
  by rewrite app_nil_r.
Qed.

Lemma open_next e s : open s → open (next e (set_highest (ev_seq e) s)).
Proof. intros [Hc Hd]. unfold open, next, emit. simpl. by rewrite Hc. Qed.

Lemma highest_next e s :
  closed s = false → highestHistorySeq (next e (set_highest (ev_seq e) s)) = ev_seq e.
Proof. intros Hc. unfold next, emit. simpl. by rewrite Hc. Qed.

Lemma fed_refl s : open s → fed ([], highestHistorySeq s, false) s s.
Proof. intros [Hc Hd]. unfold fed; simpl. by rewrite app_nil_r. Qed.

Lemma on_live_feed e s : open s → fed (feed (highestHistorySeq s) [e]) s (on_live e s).
Proof.
  intros Ho. pose proof Ho as [Hc Hd]. unfold on_live, feed.
  destruct (_ <? _); [|by apply fed_refl]. destruct (terminal_event e).
  - by apply (fed_terminal e s set_isDone).
  - pose proof (fed_refl _ (open_next e s Ho)) as R. rewrite highest_next in R by done.
    by eapply fed_cons; [| |exact R].
Qed.

Lemma replay_buffer_feed l s :
  open s →
  fed (feed (highestHistorySeq s) l) s (replay_buffer l s).1 ∧
  (replay_buffer l s).2 = negb (feed (highestHistorySeq s) l).2.
Proof.
  revert s. induction l as [|e l IH]; intros s Ho; simpl.
  - split; [|done]. destruct Ho. unfold fed; simpl. by rewrite app_nil_r.
  - destruct (_ <? _); [|by apply IH]. destruct (terminal_event e).
    + split; [|done]. apply (fed_terminal e s (λ x, set_buffer [] (set_isDone x))); [apply Ho|done].
    + destruct (IH _ (open_next e s Ho)) as [I1 I2]. rewrite highest_next in I1, I2 by apply Ho.
      destruct (feed (ev_seq e) l) as [[out h'] stop] eqn:Hf. split; [|done].
      by eapply fed_cons; [apply Ho| |exact I1].
Qed.

Definition seq_lt (x y : TaskEventRow) : Prop := ev_seq x < ev_seq y.

Lemma replay_history_feed l s :
  open s → StronglySorted seq_lt l → Forall (λ e, highestHistorySeq s < ev_seq e) l →
  fed (feed (highestHistorySeq s) l) s (replay_history l s).1 ∧
  (replay_history l s).2 = negb (feed (highestHistorySeq s) l).2.
Proof.
  revert s. induction l as [|e l IH]; intros s Ho HS HF; simpl.
  - split; [|done]. by apply fed_refl.
  - apply Forall_cons in HF as [He HF]. apply StronglySorted_inv in HS as [HS Hl].
    rewrite (proj2 (Z.ltb_lt _ _) He), Z.max_r by lia. destruct (terminal_event e).
    + split; [|done]. by apply (fed_terminal e s set_isDone); [apply Ho|].
    + assert (Hh := highest_next e s (proj1 Ho)).
      destruct (IH _ (open_next e s Ho)) as [I1 I2]; [done|by rewrite Hh|].
      rewrite Hh in I1, I2.
      destruct (feed (ev_seq e) l) as [[out h'] stop] eqn:Hf. split; [|done].
      by eapply fed_cons; [apply Ho| |exact I1].
Qed.

Lemma fed_open o s s' : fed o s s' → o.2 = false → open s'.
Proof. intros (_ & H1 & H2 & _) Ho. by rewrite Ho in *. Qed.

Lemma fed_trans h l k s s1 s2 :
  fed (feed h l) s s1 →
  (if (feed h l).2 then fed ([], 0, true) s1 s2
   else highestHistorySeq s1 = (feed h l).1.2 → fed (feed (highestHistorySeq s1) k) s1 s2) →
  fed (feed h (l ++ k)) s s2.
Proof.
  rewrite feed_app. destruct (feed h l) as [[out h1] [|]]; simpl.
  - intros (D1 & C1 & I1 & L1 & P1 & _) (D2 & C2 & I2 & L2 & P2 & E2). unfold fed in *; simpl in *.
    rewrite D2, D1, app_nil_r. split_and!; congruence.
  - intros (D1 & C1 & I1 & L1 & P1 & H1 & B1) H2. specialize (H2 H1). rewrite H1 in H2. cbn [fst snd] in H2.
    destruct (feed h1 k) as [[out' h2] stop] eqn:Hk.
    destruct H2 as (D2 & C2 & I2 & L2 & P2 & E2). unfold fed; simpl in *.
    rewrite D2, D1, <-app_assoc. split_and!; try congruence. destruct stop; [done|].
    destruct E2 as [? ?]. split; congruence.
Qed.

(** *** Sequences of inputs *)

(** The inputs of an undisturbed connection, the history apart. *)
Definition quiet (i : input) : Prop :=
  match i with Message (Some _) | Tick | Subscribed None => True | _ => False end.

Definition messages (ins : list input) : list TaskEventRow :=
  omap (λ i, match i with Message (Some e) => Some e | _ => None end) ins.

Definition inputs_from (s : stream_state) (ins : list input) : stream_state :=
  foldl (λ s i, on_input i s) s ins.

(** A connection that has completed stays as it is. *)
Lemma completed_stays ins s :
  Forall quiet ins → closed s = true → isDone s = true → last (emitted s) = Some Complete →
  fed ([], 0, true) s (inputs_from s ins).
Proof.
  intros HF Hc Hd Hl. assert (inputs_from s ins = s) as ->.
  - unfold inputs_from. induction HF as [|i ins Hi HF IH]; [done|]. simpl.
    assert (on_input i s = s) as ->; [|done].
    destruct i as [[]|[]| | | |]; try done; simpl.
    + unfold on_message. by rewrite Hd.
    + by rewrite Hd.
  - unfold fed; simpl. by rewrite app_nil_r.
Qed.

Lemma heartbeat_fed s : open s → fed ([], highestHistorySeq s, false) s (emit Heartbeat s).
Proof.
  intros [Hc Hd]. unfold fed. rewrite delivered_emit, app_nil_r by done. simpl.
  unfold emit. rewrite Hc. simpl. by rewrite app_nil_r.
Qed.

Lemma live_inputs_feed ins s :
  Forall quiet ins → open s → historyLoaded s = true →
  fed (feed (highestHistorySeq s) (messages ins)) s (inputs_from s ins).
Proof.
  intros HF. revert s. induction HF as [|i ins Hi HF IH]; intros s Ho Hl; [by apply fed_refl|].
  simpl. pose proof Ho as [Hc Hd].
  destruct i as [[]|[e|]| | | |]; try done; simpl.
  - by apply IH.
  - change (fed (feed (highestHistorySeq s) ([e] ++ messages ins)) s
              (inputs_from (on_message (Some e) s) ins)).
    unfold on_message. rewrite Hd, Hl. simpl negb. cbv iota.
    pose proof (on_live_feed e s Ho) as Hf. eapply fed_trans; [exact Hf|].
    destruct (feed (highestHistorySeq s) [e]).2 eqn:Hs; [|intros _; apply IH].
    + destruct Hf as (_ & C & I & _ & _ & E). rewrite Hs in C, I, E. by apply completed_stays.
    + by eapply fed_open.
    + by destruct Hf as (_ & _ & _ & -> & _).
  - rewrite Hd. simpl. eapply (fed_trans _ [] (messages ins)); [by apply heartbeat_fed|]. simpl. intros _. apply IH.
    + by eapply fed_open; [apply heartbeat_fed|].
    + pose proof (heartbeat_fed s Ho) as (_ & _ & _ & -> & _). done.
Qed.

(** Before the history is loaded, messages are buffered. *)
Lemma buffering_inputs ins s :
  Forall quiet ins → open s → historyLoaded s = false →
  (length (liveBuffer s) + length (messages ins) ≤ MAX_LIVE_BUFFER_SIZE)%nat →
  let s' := inputs_from s ins in
  open s' ∧ historyLoaded s' = false ∧ delivered s' = delivered s ∧ pending s' = pending s ∧
  highestHistorySeq s' = highestHistorySeq s ∧ liveBuffer s' = liveBuffer s ++ messages ins.
Proof.
  intros HF. revert s. induction HF as [|i ins Hi HF IH]; intros s Ho Hl Hb;
    [simpl; by rewrite app_nil_r|].
  simpl in *. pose proof Ho as [Hc Hd]. destruct i as [[]|[e|]| | | |]; try done; simpl in *.
  - by apply IH.
  - assert (on_message (Some e) s = set_buffer (liveBuffer s ++ [e]) s) as ->.
    { unfold on_message. rewrite Hd, Hl. cbn [negb].
      by rewrite (proj2 (Nat.leb_gt _ _)) by lia. }
    destruct (IH (set_buffer (liveBuffer s ++ [e]) s)) as (? & ? & ? & ? & ? & Hbuf); [done..| |].
    + simpl. rewrite length_app. simpl. lia.
    + split_and!; try done. etrans; [exact Hbuf|]. simpl. by rewrite <-app_assoc.
  - rewrite Hd. simpl. pose proof (heartbeat_fed s Ho) as Hf.
    pose proof (fed_open _ _ _ Hf eq_refl) as Ho'.
    destruct Hf as (HD & _ & _ & HL & HP & HH & HB). simpl in *. rewrite app_nil_r in HD.
    destruct (IH (emit Heartbeat s)) as (? & ? & Hdel & Hpen & Hhi & Hbuf); [done|congruence| |].
    + by rewrite HB.
    + split_and!; try done; (etrans; [eassumption|]); congruence.
Qed.

(** *** A whole connection *)

Section connection.
Context (afterSeq : Z) (hist : list TaskEventRow) (before after : list input).
Context (Hq1 : Forall quiet before) (Hq2 : Forall quiet after).
Context (Hs : StronglySorted seq_lt hist) (Hgt : Forall (λ e, afterSeq < ev_seq e) hist).
Context (Hbuf : (length (messages before) ≤ MAX_LIVE_BUFFER_SIZE)%nat).

Definition connection : list input := before ++ [History (Ok hist)] ++ after.

Definition connection_feed : list TaskEventRow * Z * bool :=
  feed afterSeq (hist ++ messages before ++ messages after).

(** The history query is answered. *)
Lemma history_input s :
  open s → pending s = true → highestHistorySeq s = afterSeq → 
  let s' := on_input (History (Ok hist)) s in
  let f := feed afterSeq (hist ++ liveBuffer s) in
  delivered s' = delivered s ++ f.1.1 ∧ closed s' = f.2 ∧ isDone s' = f.2 ∧
  if f.2 then last (emitted s') = Some Complete
  else historyLoaded s' = true ∧ highestHistorySeq s' = f.1.2.
Proof.
  intros Ho Hp Hh. set (s0 := set_answered s). assert (Ho0 : open s0) by exact Ho.
  assert (Hh0 : highestHistorySeq s0 = afterSeq) by exact Hh.
  cbn zeta. change (on_input (History (Ok hist)) s) with
    (if pending s then on_history (Ok hist) s0 else s).
  rewrite Hp. unfold on_history. rewrite (proj2 Ho0).
  destruct (replay_history_feed hist s0 Ho0 Hs) as [F1 F2]; [by rewrite Hh0|].
  rewrite Hh0 in F1, F2. rewrite feed_app.
  destruct (replay_history hist s0) as [s1 go]. simpl in F1, F2.
  destruct (feed afterSeq hist) as [[out h1] stop]. simpl in F2. subst go.
  destruct F1 as (D1 & C1 & I1 & _ & _ & E1). destruct stop; simpl in *.
  { by split_and!. }
  destruct E1 as [E1 B1]. set (s2 := set_historyLoaded s1).
  assert (Ho2 : open s2) by by split.
  destruct (replay_buffer_feed (liveBuffer s1) s2 Ho2) as [G1 G2].
  change (highestHistorySeq s2) with (highestHistorySeq s1) in G1, G2. rewrite E1, B1 in G1, G2.
  change (liveBuffer s0) with (liveBuffer s) in *. change (delivered s2) with (delivered s1) in G1.
  rewrite B1. destruct (replay_buffer (liveBuffer s) s2) as [s3 go]. simpl in G1, G2.
  destruct (feed h1 (liveBuffer s)) as [[out' h2] stop']. simpl in G2. subst go.
  destruct G1 as (D3 & C3 & I3 & L3 & _ & E3). destruct stop'; simpl in *.
  - rewrite D3, app_assoc. by split_and!; [f_equal|..].
  - destruct E3. rewrite L3. split_and!; try done. unfold delivered in *. simpl.
    by rewrite D3, app_assoc; f_equal.
Qed.

Lemma run_connection :
  let s := run_stream afterSeq connection in
  delivered s = connection_feed.1.1 ∧ closed s = connection_feed.2 ∧
  (connection_feed.2 = true → last (emitted s) = Some Complete).
Proof.
  unfold run_stream, connection, connection_feed. rewrite !foldl_app. cbn [foldl].
  destruct (buffering_inputs before (initial_stream afterSeq) Hq1) as (Ho & _ & D & P & Hh & B);
    [done|done|done|].
  set (s1 := inputs_from (initial_stream afterSeq) before) in *.
  change (foldl (λ s i, on_input i s) (initial_stream afterSeq) before) with s1.
  change (delivered (initial_stream afterSeq)) with (@nil TaskEventRow) in D.
  simpl in P, Hh, B. destruct (history_input s1 Ho P Hh) as (D2 & C2 & I2 & E2).
  rewrite B in D2, C2, I2, E2. rewrite D in D2. rewrite app_assoc, feed_app.
  set (s2 := on_input (History (Ok hist)) s1) in *.
  destruct (feed afterSeq (hist ++ messages before)) as [[out h] stop]. cbn [fst snd] in *.
  change (foldl (λ s i, on_input i s) s2 after) with (inputs_from s2 after). destruct stop.
  - destruct (completed_stays after s2 Hq2 C2 I2 E2) as (D3 & C3 & _ & _ & _ & E3).
    cbn [fst snd] in *. rewrite D3, D2, app_nil_r. done.
  - destruct E2 as [L2 E2]. pose proof (live_inputs_feed after s2 Hq2 (conj C2 I2) L2) as F.
    rewrite E2 in F. destruct (feed h (messages after)) as [[out' h'] stop'].
    destruct F as (D3 & C3 & _ & _ & _ & E3). cbn [fst snd] in *. rewrite D3, D2. split_and!; try done.
    by intros ->.
Qed.
End connection.

(** ** Safety of every connection *)

(** What a connection emits before it ends. *)
Definition plain (n : notification) : Prop :=
  match n with
  | Event e m => terminal_event e = false ∧ m = toMessageEvent e
  | Heartbeat => True
  | Complete | Failure _ => False
  end.

(** The four ways the notifications of a connection can look; the boolean tells
    whether the connection is over. *)
Inductive well_ended : bool → list notification → Prop :=
| still_open l : Forall plain l → well_ended false l
| disconnected l : Forall plain l → well_ended true l
| completed l e :
    Forall plain l → terminal_event e = true →
    well_ended true (l ++ [Event e (toMessageEvent e); Complete])
| failed l err : Forall plain l → well_ended true (l ++ [Failure err]).

Definition seqs_of (s : stream_state) : list Z := ev_seq <$> delivered s.

Record stream_ok (a : Z) (s : stream_state) : Prop := {
  ok_done : isDone s = closed s;
  ok_shape : well_ended (closed s) (emitted s);
  ok_seqs : StronglySorted Z.lt (a :: seqs_of s);
  ok_high : Forall (λ n, n ≤ highestHistorySeq s) (a :: seqs_of s);
  ok_buffer : (length (liveBuffer s) ≤ MAX_LIVE_BUFFER_SIZE)%nat }.

(** Between two inputs: an open connection either waits for its history, with
    nothing forwarded, or is live. *)
Definition phase (a : Z) (s : stream_state) : Prop :=
  closed s = false →
  historyLoaded s = negb (pending s) ∧ (pending s = true → highestHistorySeq s = a).

Lemma sorted_above l h z :
  StronglySorted Z.lt l → Forall (λ n, n ≤ h) l → h < z → StronglySorted Z.lt (l ++ [z]).
Proof.
  intros Hs HF Hz. apply StronglySorted_snoc. split; [done|]. rewrite Forall_forall in HF.
  intros y Hy%HF. lia.
Qed.

Lemma initial_ok a : stream_ok a (initial_stream a).
Proof. constructor; simpl; try done; repeat constructor; lia. Qed.

Lemma teardown_ok a s : stream_ok a s → stream_ok a (teardown s).
Proof.
  intros [Hd Hsh Hseq Hh Hb]. constructor; try done. simpl.
  destruct Hsh; by constructor.
Qed.

Lemma open_shape s : closed s = false → well_ended (closed s) (emitted s) → Forall plain (emitted s).
Proof. intros ->. by inversion 1. Qed.

Lemma subscriber_error_ok a err s :
  stream_ok a s → stream_ok a (subscriber_error err s).
Proof.
  intros Hok. unfold subscriber_error, emit. destruct (closed s) eqn:Hc; [by apply teardown_ok|].
  destruct Hok as [Hd Hsh Hseq Hh Hb]. constructor; try done; simpl.
  - apply failed. by apply open_shape.
  - unfold seqs_of, delivered in *. simpl. rewrite omap_app. simpl. by rewrite app_nil_r.
  - unfold seqs_of, delivered in *. simpl. rewrite omap_app. simpl. by rewrite app_nil_r.
Qed.

Lemma heartbeat_ok a s : stream_ok a s → stream_ok a (emit Heartbeat s).
Proof.
  intros Hok. unfold emit. destruct (closed s) eqn:Hc; [done|].
  destruct Hok as [Hd Hsh Hseq Hh Hb]. constructor; simpl; try done; try congruence.
  - constructor. apply Forall_app_2; [by apply open_shape|]. by constructor.
  - unfold seqs_of, delivered in *. simpl. rewrite omap_app. simpl. by rewrite app_nil_r.
  - unfold seqs_of, delivered in *. simpl. rewrite omap_app. simpl. by rewrite app_nil_r.
Qed.

(** One event is forwarded: the numbers stay increasing. *)
Lemma forward_ok a e s :
  stream_ok a s → closed s = false → highestHistorySeq s < ev_seq e →
  stream_ok a
    (let s1 := next e (set_highest (ev_seq e) s) in
     if terminal_event e then complete (set_isDone s1) else s1).
Proof.
  intros [Hd Hsh Hseq Hh Hb] Hc Hlt. pose proof (open_shape s Hc Hsh) as Hpl.
  assert (S1 : StronglySorted Z.lt (a :: seqs_of s ++ [ev_seq e])).
  { change (a :: seqs_of s ++ [ev_seq e]) with ((a :: seqs_of s) ++ [ev_seq e]).
    by eapply sorted_above. }
  assert (S2 : Forall (λ n, n ≤ ev_seq e) (a :: seqs_of s ++ [ev_seq e])).
  { change (a :: seqs_of s ++ [ev_seq e]) with ((a :: seqs_of s) ++ [ev_seq e]).
    apply Forall_app_2; [|constructor; [lia|done]].
    eapply Forall_impl; [exact Hh|]. simpl. lia. }
  unfold next, complete, teardown, emit. simpl. rewrite Hc.
  destruct (terminal_event e) eqn:Ht; constructor; simpl; try done; try congruence;
    try (unfold seqs_of, delivered in *; simpl; rewrite ?omap_app; simpl;
         rewrite ?app_nil_r, ?fmap_app; simpl; done).
  - rewrite <-app_assoc. by apply completed.
  - constructor. apply Forall_app_2; [done|]. by constructor.
Qed.

Lemma set_buffer_ok a l s :
  stream_ok a s → (length l ≤ MAX_LIVE_BUFFER_SIZE)%nat → stream_ok a (set_buffer l s).
Proof. intros [] ?. by constructor. Qed.

Lemma set_historyLoaded_ok a s : stream_ok a s → stream_ok a (set_historyLoaded s).
Proof. intros []. by constructor. Qed.

Lemma set_answered_ok a s : stream_ok a s → stream_ok a (set_answered s).
Proof. intros []. by constructor. Qed.

Lemma replay_history_ok a l s :
  stream_ok a s → open s → StronglySorted seq_lt l →
  Forall (λ e, highestHistorySeq s < ev_seq e) l → stream_ok a (replay_history l s).1.
Proof.
  revert s. induction l as [|e l IH]; intros s Hok Ho HS HF; simpl; [done|].
  apply Forall_cons in HF as [He HF]. apply StronglySorted_inv in HS as [HS Hl].
  rewrite Z.max_r by lia. pose proof (forward_ok a e s Hok (proj1 Ho) He) as Hf. cbn zeta in Hf.
  destruct (terminal_event e); [done|].
  apply IH; [done|by apply open_next|done|]. by rewrite highest_next by apply Ho.
Qed.

Lemma replay_buffer_ok a l s :
  stream_ok a s → open s → stream_ok a (replay_buffer l s).1.
Proof.
  revert s. induction l as [|e l IH]; intros s Hok Ho; simpl; [done|].
  destruct (Z.ltb_spec (highestHistorySeq s) (ev_seq e)) as [He|_]; [|by apply IH].
  pose proof (forward_ok a e s Hok (proj1 Ho) He) as Hf. cbn zeta in Hf.
  destruct (terminal_event e).
  - assert (∀ x, complete (set_buffer [] (set_isDone x)) = set_buffer [] (complete (set_isDone x)))
      as -> by (intros x; unfold complete, emit; simpl; by destruct (closed x)).
    apply set_buffer_ok; [done|]. simpl. lia.
  - by apply IH; [|apply open_next].
Qed.

Lemma on_live_ok a e s : stream_ok a s → open s → stream_ok a (on_live e s).
Proof.
  intros Hok Ho. unfold on_live. destruct (Z.ltb_spec (highestHistorySeq s) (ev_seq e)); [|done].
  by apply forward_ok; [|apply Ho|].
Qed.

(** The history a connection may be given: what [findEventsSince] answers. *)
Definition history_valid (a : Z) (i : input) : Prop :=
  match i with
  | History (Ok evs) => ∃ t d, db_wf d ∧ int8 a = true ∧ (findEventsSince t a d).1 = Ok evs
  | _ => True
  end.

Lemma seqZ_StronglySorted m n l : ev_seq <$> l = seqZ m n → StronglySorted seq_lt l.
Proof.
  revert m n. induction l as [|e l IH]; intros m n Hl; [constructor|]. csimpl in Hl.
  destruct (decide (0 < n)); [|by rewrite seqZ_nil in Hl by lia].
  rewrite seqZ_cons in Hl by lia. injection Hl as He Hl. constructor; [eauto|].
  apply Forall_forall. intros x Hx. unfold seq_lt.
  assert (ev_seq x ∈ ev_seq <$> l) as Hin by (apply list_elem_of_fmap; eauto).
  rewrite Hl in Hin. apply elem_of_seqZ in Hin. lia.
Qed.

Lemma history_valid_spec a evs :
  history_valid a (History (Ok evs)) → StronglySorted seq_lt evs ∧ Forall (λ e, a < ev_seq e) evs.
Proof.
  intros (t & d & W & Ha & Hf). rewrite findEventsSince_eq in Hf by done. injection Hf as <-.
  split.
  - apply StronglySorted_filter. eapply seqZ_StronglySorted, (wf_seq d W).
  - apply Forall_forall. by intros e [? _]%list_elem_of_filter.
Qed.

(** How the replay loops end. *)
Lemma replay_ends o s s' (go : bool) :
  fed o s s' → go = negb o.2 →
  closed s' = negb go ∧ isDone s' = negb go ∧ historyLoaded s' = historyLoaded s ∧
  pending s' = pending s.
Proof. intros (_ & C & I & L & P & _) ->. rewrite negb_involutive. done. Qed.

Lemma on_history_ok a evs s :
  stream_ok a s → phase a s → history_valid a (History (Ok evs)) → pending s = true →
  let s' := on_history (Ok evs) (set_answered s) in
  stream_ok a s' ∧ (closed s' = false → historyLoaded s' = true ∧ pending s' = false).
Proof.
  intros Hok Hph [HS HF]%history_valid_spec Hp. unfold on_history.
  pose proof (set_answered_ok a s Hok) as Hok0. set (s0 := set_answered s) in *.
  destruct (isDone s0) eqn:Hd.
  { split; [done|]. intros Hc. pose proof (ok_done a s0 Hok0). congruence. }
  assert (Hc : closed s = false) by (pose proof (ok_done a s0 Hok0) as H0; rewrite Hd in H0; done).
  assert (Ho : open s0) by by split.
  assert (Hh : highestHistorySeq s0 = a) by (destruct (Hph Hc) as [_ H1]; by apply H1).
  assert (HF' : Forall (λ e, highestHistorySeq s0 < ev_seq e) evs) by (by rewrite Hh).
  destruct (replay_history_feed evs s0 Ho HS HF') as [F1 F2].
  pose proof (replay_history_ok a evs s0 Hok0 Ho HS HF') as Hok1.
  destruct (replay_history evs s0) as [s1 go]. cbn [fst snd] in *.
  destruct (replay_ends _ _ _ _ F1 F2) as (C1 & I1 & _ & P1). destruct go; simpl in C1, I1.
  - pose proof (set_historyLoaded_ok a s1 Hok1) as Hok2. set (s2 := set_historyLoaded s1) in *.
    assert (Ho2 : open s2) by by split.
    destruct (replay_buffer_feed (liveBuffer s2) s2 Ho2) as [G1 G2].
    pose proof (replay_buffer_ok a (liveBuffer s2) s2 Hok2 Ho2) as Hok3.
    destruct (replay_buffer (liveBuffer s2) s2) as [s3 go']. cbn [fst snd] in *.
    destruct (replay_ends _ _ _ _ G1 G2) as (C3 & _ & L3 & P3). destruct go'; simpl in C3.
    + split; [apply set_buffer_ok; [done|simpl; lia]|]. intros _. simpl. rewrite L3, P3. done.
    + split; [done|]. rewrite C3. done.
  - split; [done|]. rewrite C1. done.
Qed.

(** The teardown makes the assignment to [isDone] before it redundant. *)
Lemma subscriber_error_done err s :
  subscriber_error err (set_isDone s) = subscriber_error err s.
Proof. unfold subscriber_error, emit. simpl. by destruct (closed s). Qed.

Lemma on_message_ok a ev s :
  stream_ok a s → phase a s → stream_ok a (on_message ev s) ∧ phase a (on_message ev s).
Proof.
  intros Hok Hph. unfold on_message. destruct (isDone s) eqn:Hd; [done|].
  assert (Ho : open s) by (split; [by rewrite <-(ok_done a s Hok)|done]).
  destruct ev as [e|]; [|done]. destruct (Hph (proj1 Ho)) as [Hl Hw].
  destruct (historyLoaded s) eqn:HL; simpl negb; cbv iota.
  - split; [by apply on_live_ok|]. intros Hc'.
    pose proof (on_live_feed e s Ho) as (_ & _ & _ & -> & -> & _). rewrite HL. split; [done|].
    intros Hp. rewrite Hp in Hl. done.
  - destruct (Nat.leb_spec MAX_LIVE_BUFFER_SIZE (length (liveBuffer s))) as [Hle|Hlt].
    + split; [|by intros Hc']. rewrite subscriber_error_done. by apply subscriber_error_ok.
    + split; [apply set_buffer_ok; [done|rewrite length_app; simpl; lia]|]. intros _.
      simpl. rewrite HL. by split.
Qed.

Lemma on_input_ok a i s :
  stream_ok a s → phase a s → history_valid a i →
  stream_ok a (on_input i s) ∧ phase a (on_input i s).
Proof.
  intros Hok Hph Hv. destruct i as [[err|]|ev|err| |[evs|err]|]; simpl.
  - split; [by apply subscriber_error_ok|by intros ?].
  - done.
  - by apply on_message_ok.
  - split; [by apply subscriber_error_ok|by intros ?].
  - destruct (isDone s); simpl; [done|]. split; [by apply heartbeat_ok|].
    unfold emit. destruct (closed s) eqn:Hc; [done|]. intros _. by apply Hph.
  - destruct (pending s) eqn:Hp; [|done].
    destruct (on_history_ok a evs s Hok Hph Hv Hp) as [H1 H2]. simpl in H1, H2. split; [exact H1|].
    intros Hc. destruct (H2 Hc) as [L P]. simpl. rewrite L, P. done.
  - destruct (pending s) eqn:Hp; [|done]. pose proof (set_answered_ok a s Hok) as Hok0.
    destruct (isDone s) eqn:Hd; simpl.
    + split; [done|]. intros Hc. pose proof (ok_done a s Hok). simpl in Hc. congruence.
    + split; [by apply subscriber_error_ok|by intros ?].
  - split; [by apply teardown_ok|by intros ?].
Qed.

Lemma run_stream_ok a ins :
  Forall (history_valid a) ins → stream_ok a (run_stream a ins) ∧ phase a (run_stream a ins).
Proof.
  intros HF. unfold run_stream.
  assert (H0 : stream_ok a (initial_stream a) ∧ phase a (initial_stream a))
    by (split; [apply initial_ok|by intros _]).
  revert H0. generalize (initial_stream a). induction HF as [|i ins Hi HF IH]; intros s [H1 H2];
    simpl; [done|]. by apply IH, on_input_ok.
Qed.

(** *** Nothing is left behind *)

(** The calls made on the client of a connection that is over, or still open. *)
Definition released (over : bool) (t : string) (calls : list client_call) : Prop :=
  if over then ∃ before after, Forall (λ c, c = Quit) (before ++ after) ∧
    calls = Subscribe (channel_of t) :: before ++ [Unsubscribe (channel_of t); Quit] ++ after
  else calls = [Subscribe (channel_of t)].

Lemma quits_Quit i s : Forall (λ c, c = Quit) (quits i s).
Proof. unfold quits. repeat case_match; by repeat constructor. Qed.

Lemma quits_close i s : quits i s ≠ [] → closed (on_input i s) = true.
Proof.
  destruct i as [[err|]|[ev|]|err| |evs|]; try done.
  cbn [on_input]. unfold quits, on_message. destruct (isDone s); [done|].
  destruct (historyLoaded s); [done|]. cbn [negb andb].
  destruct (MAX_LIVE_BUFFER_SIZE <=? length (liveBuffer s))%nat; [done|by intros []].
Qed.

Lemma on_input_closed i s : isDone s = true → closed s = true → closed (on_input i s) = true.
Proof.
  intros Hd Hc. destruct i as [[err|]|[ev|]|err| |evs|]; simpl; try done.
  - unfold on_message. by rewrite Hd.
  - unfold on_message. by rewrite Hd.
  - by rewrite Hd.
  - destruct (pending s); [|done]. unfold on_history. simpl. rewrite Hd. by destruct evs.
Qed.

Lemma connection_input_released t i c :
  isDone (c_stream c) = closed (c_stream c) → c_heartbeat c = negb (closed (c_stream c)) →
  released (closed (c_stream c)) t (c_calls c) →
  let c' := connection_input t c i in
  c_heartbeat c' = negb (closed (c_stream c')) ∧ released (closed (c_stream c')) t (c_calls c').
Proof.
  intros Hd Hh Hr. cbv zeta. unfold connection_input. cbn [c_heartbeat c_stream c_calls].
  rewrite Hh. pose proof (quits_Quit i (c_stream c)) as HQ.
  pose proof (quits_close i (c_stream c)) as HC. destruct (closed (c_stream c)) eqn:Hc.
  - rewrite on_input_closed by done. split; [done|]. destruct Hr as (l & l' & HF & ->).
    exists l, (l' ++ quits i (c_stream c)). split; [by rewrite app_assoc; apply Forall_app|].
    cbn [negb andb]. simpl. by rewrite app_nil_r, <-app_assoc.
  - destruct (closed (on_input i (c_stream c))) eqn:Hc'; cbn [negb andb]; (split; [done|]).
    + exists (quits i (c_stream c)), []. rewrite !app_nil_r. by rewrite Hr.
    + rewrite Hr. destruct (quits i (c_stream c)); [done|]. by discriminate HC.
Qed.

Lemma run_released t a ins :
  Forall (history_valid a) ins →
  let c := run_connection_state t a ins in
  c_stream c = run_stream a ins ∧ c_heartbeat c = negb (closed (c_stream c)) ∧
  released (closed (c_stream c)) t (c_calls c).
Proof.
  induction ins as [|i ins IH] using rev_ind; intros HF; [done|].
  apply Forall_app in HF as [HF _]. pose proof (run_stream_ok a ins HF) as [[Hd _ _ _ _] _].
  destruct (IH HF) as (Hs & Hh & Hr). unfold run_connection_state, run_stream in *.
  rewrite !foldl_app. simpl foldl. split; [simpl; by rewrite Hs|].
  apply connection_input_released; [by rewrite Hs|done..].
Qed.

(** ** Properties *)

(** C33: at any moment of any connection, whatever messages, errors, heartbeats and
    disconnections it met: the client has received events with strictly
    increasing numbers, all above its [Last-Event-ID]; a terminal event is
    followed by [complete] and nothing else, an error ends the stream, and there
    is no other end but the client's; nothing follows the end; and the live
    buffer never exceeds its cap.  A connection that is over has stopped its timer,
    left the channel and closed its Redis client; until then it has both. *)
Theorem stream_safe t a ins :
  Forall (history_valid a) ins →
  let s := run_stream a ins in
  let c := run_connection_state t a ins in
  well_ended (closed s) (emitted s) ∧
  StronglySorted Z.lt (a :: (ev_seq <$> delivered s)) ∧
  (length (liveBuffer s) ≤ MAX_LIVE_BUFFER_SIZE)%nat ∧
  c_stream c = s ∧ c_heartbeat c = negb (closed s) ∧ released (closed s) t (c_calls c).
Proof.
  intros HF s c. destruct (run_stream_ok a ins HF) as [[] _].
  destruct (run_released t a ins HF) as (Hs & Hh & Hr). fold c s in Hs, Hh, Hr.
  rewrite Hs in Hh, Hr. by split_and!.
Qed.

(** C34: an undisturbed connection implements its specification [feed]: with the
    history it was given, the messages received before and those received after
    it, in any order and with any repetitions, it has forwarded exactly what
    [feed] forwards of their concatenation, and it has completed exactly when
    [feed] stopped at a terminal event. *)
Theorem stream_refines_feed a hist before after :
  Forall quiet before → Forall quiet after → history_valid a (History (Ok hist)) →
  (length (messages before) ≤ MAX_LIVE_BUFFER_SIZE)%nat →
  let s := run_stream a (before ++ [History (Ok hist)] ++ after) in
  let f := feed a (hist ++ messages before ++ messages after) in
  delivered s = f.1.1 ∧ closed s = f.2 ∧ (f.2 = true → last (emitted s) = Some Complete).
Proof.
  intros Hq1 Hq2 [Hs Hgt]%history_valid_spec Hb.
  exact (run_connection a hist before after Hq1 Hq2 Hs Hgt Hb).
Qed.

(** C10: exactly once.  Let [L] be a task's log, of which the history query sees a
    prefix, and let the connection receive, from an event that is not beyond that
    prefix on, the rest of the log in order.  Then a client that announced it has
    the first [a] events receives all the others once, in order and without a
    gap, up to the first terminal one; the stream completes there, and stays open
    when the log has no terminal event yet. *)
Theorem stream_exactly_once a k t d d' before after hist :
  db_wf d → db_wf d' → int8 (Z.of_nat a) = true →
  events_of t d `prefix_of` events_of t d' → (k ≤ length (events_of t d))%nat →
  (findEventsSince t (Z.of_nat a) d).1 = Ok hist →
  Forall quiet before → Forall quiet after →
  messages before ++ messages after = drop k (events_of t d') →
  (length (messages before) ≤ MAX_LIVE_BUFFER_SIZE)%nat →
  let s := run_stream (Z.of_nat a) (before ++ [History (Ok hist)] ++ after) in
  let owed := drop a (events_of t d') in
  delivered s = upto_terminal owed ∧ closed s = has_terminal owed ∧
  (has_terminal owed = true → last (emitted s) = Some Complete).
Proof.
  intros W W' Ha Hpre Hk Hhist Hq1 Hq2 Hm Hb s owed.
  assert (Hv : history_valid (Z.of_nat a) (History (Ok hist))) by (exists t, d; done).
  apply history_valid_spec in Hv as [Hs Hgt].
  pose proof (run_connection _ hist before after Hq1 Hq2 Hs Hgt Hb) as R. fold s in R.
  unfold connection_feed in R. rewrite Hm in R.
  assert (Hh : hist = drop a (take (length (events_of t d)) (events_of t d'))).
  { rewrite findEventsSince_eq in Hhist by done. injection Hhist as <-.
    rewrite (filter_gt_seqZ _ 1) by (apply (wf_seq d W) || lia).
    replace (Z.to_nat (Z.of_nat a + 1 - 1)) with a by lia. f_equal.
    destruct Hpre as [rest ->]. by rewrite take_app_length. }
  destruct (feed_history_live (events_of t d') a k (length (events_of t d))) as [F1 F2].
  - apply (wf_seq d' W').
  - destruct Hpre as [rest ->]. rewrite length_app. lia.
  - rewrite <-Hh in F1, F2. rewrite F1, F2 in R. exact R.
Qed.

(** What is not forwarded when a higher number has passed never will be. *)
Lemma late_step a e i s :
  stream_ok a s → phase a s → historyLoaded s = true → ev_seq e ≤ highestHistorySeq s →
  e ∉ delivered s →
  let s' := on_input i s in
  historyLoaded s' = true ∧ ev_seq e ≤ highestHistorySeq s' ∧ e ∉ delivered s'.
Proof.
  intros Hok Hph HL Hle Hn. destruct (closed s) eqn:Hc.
  - assert (Hd : isDone s = true) by (by rewrite (ok_done a s Hok)).
    destruct i as [[err|]|ev|err| |evs|]; simpl;
      unfold subscriber_error, on_message, on_history, emit; simpl; rewrite ?Hd, ?Hc; simpl;
      try done. destruct (pending s); [|done]. by destruct evs; simpl; rewrite ?Hd.
  - destruct (Hph Hc) as [Hpe _]. rewrite HL in Hpe.
    destruct (pending s) eqn:Hp; [done|]. assert (Hd : isDone s = false) by (by rewrite (ok_done a s Hok)).
    destruct i as [[err|]|[ev|]|err| |evs|]; simpl; rewrite ?Hd, ?Hp;
      unfold subscriber_error, emit; simpl; rewrite ?Hc; try done;
      try (unfold delivered in *; simpl; rewrite omap_app; simpl; rewrite app_nil_r; done).
    2: { unfold on_message. by rewrite Hd. }
    unfold on_message. rewrite Hd, HL. simpl. unfold on_live.
    destruct (Z.ltb_spec (highestHistorySeq s) (ev_seq ev)) as [Hlt|]; [|done].
    assert (Hne : e ≠ ev) by (intros ->; lia).
    unfold next, complete, teardown, emit, delivered in *; simpl. rewrite Hc.
    destruct (terminal_event ev); simpl; rewrite !omap_app; simpl; rewrite ?app_nil_r;
      (split_and!; [done|lia|set_solver]).
Qed.

(** Order matters.  Once a connection is live, an event that has not been
    forwarded and whose number is not above the highest one seen, because a later
    event of the task was published first, is never delivered to that client,
    whatever the connection still receives, this event included. *)
Theorem stream_late_event_lost a ins e ins' :
  Forall (history_valid a) (ins ++ ins') →
  let s := run_stream a ins in
  historyLoaded s = true → ev_seq e ≤ highestHistorySeq s → e ∉ delivered s →
  e ∉ delivered (run_stream a (ins ++ ins')).
Proof.
  intros [HF HF']%Forall_app s. destruct (run_stream_ok a ins HF) as [Hok Hph].
  unfold run_stream. rewrite foldl_app. fold (run_stream a ins). fold s in Hok, Hph |- *.
  clearbody s. revert s Hok Hph. induction HF' as [|i ins' Hi HF' IH]; intros s Hok Hph HL Hle Hn;
    simpl; [done|].
  destruct (late_step a e i s Hok Hph HL Hle Hn) as (? & ? & ?).
  destruct (on_input_ok a i s Hok Hph Hi). by apply IH.
Qed.

Lemma ticks_open n s :
  open s →
  open (inputs_from s (replicate n Tick)) ∧
  emitted (inputs_from s (replicate n Tick)) = emitted s ++ replicate n Heartbeat.
Proof.
  revert s. induction n as [|n IH]; intros s Ho; [simpl; by rewrite app_nil_r|].
  simpl. rewrite (proj2 Ho). simpl.
  destruct (IH (emit Heartbeat s)) as [Ho' ->].
  - by eapply fed_open; [apply heartbeat_fed|].
  - split; [done|]. destruct Ho as [Hc _]. unfold emit. rewrite Hc. simpl. by rewrite <-app_assoc.
Qed.

(** A client that already has the whole log of a finished task and reconnects
    with the number of the terminal event, as [EventSource] does, is never told
    that the stream is over: it receives heartbeats and nothing else. *)
Theorem stream_reconnect_never_ends t d a hist n :
  db_wf d → int8 a = true → Z.of_nat (length (events_of t d)) ≤ a →
  (findEventsSince t a d).1 = Ok hist →
  let s := run_stream a (Subscribed None :: History (Ok hist) :: replicate n Tick) in
  closed s = false ∧ emitted s = replicate n Heartbeat.
Proof.
  intros W Ha Hle Hf. rewrite findEventsSince_eq in Hf by done. injection Hf as <-.
  rewrite (filter_gt_seqZ _ 1), drop_ge by (apply (wf_seq d W) || lia).
  unfold run_stream. cbn [foldl].
  set (s0 := on_input _ (on_input _ _)). assert (H0 : open s0) by done.
  destruct (ticks_open n s0 H0) as [[Hc _] He]. split; [exact Hc|exact He].
Qed.

(** ** Instances *)

Definition stream_log : list TaskEventRow :=
  [sample_event "a" "e1" 1 progress_ev; sample_event "a" "e2" 2 progress_ev;
   sample_event "a" "e3" 3 completed_ev].

Definition stream_db (n : nat) : db :=
  sample_db [sample_row "a" COMPLETED (Some 1000) (Some 2000) None] (take n stream_log).

Definition msg (n : nat) : input := Message (stream_log !! n).

Lemma stream_safe_witness :
  let s := run_stream 1 [msg 0; Tick; History (Ok (drop 1 stream_log)); msg 1; Tick; Disconnect] in
  emitted s = Heartbeat :: ((λ e, Event e (toMessageEvent e)) <$> drop 1 stream_log) ++ [Complete] ∧
  StronglySorted Z.lt (1 :: (ev_seq <$> delivered s)).
Proof.
  intros s. split; [vm_compute; reflexivity|].
  apply (stream_safe "a" 1 [msg 0; Tick; History (Ok (drop 1 stream_log)); msg 1; Tick; Disconnect]).
  repeat constructor. exists "a", (stream_db 3). split; [check_db|]. by split; vm_compute.
Defined.

Lemma stream_refines_feed_witness :
  let s := run_stream 0 ([msg 0; msg 0] ++ [History (Ok (take 2 stream_log))] ++ [Tick; msg 2]) in
  delivered s = stream_log ∧ closed s = true ∧ last (emitted s) = Some Complete.
Proof.
  intros s.
  destruct (stream_refines_feed 0 (take 2 stream_log) [msg 0; msg 0] [Tick; msg 2]) as (D & C & E).
  - by repeat constructor.
  - by repeat constructor.
  - exists "a", (stream_db 2). split; [check_db|]. by split; vm_compute.
  - vm_compute. lia.
  - split; [exact D|]. split; [exact C|]. apply E. vm_compute. reflexivity.
Defined.

Lemma stream_exactly_once_witness :
  let s := run_stream 1 ([msg 1] ++ [History (Ok [sample_event "a" "e2" 2 progress_ev])]
             ++ [Tick; msg 2]) in
  delivered s = drop 1 stream_log ∧ closed s = true.
Proof.
  intros s.
  destruct (stream_exactly_once 1 1 "a" (stream_db 2) (stream_db 3) [msg 1] [Tick; msg 2]
              [sample_event "a" "e2" 2 progress_ev]) as (D & C & _).
  - check_db.
  - check_db.
  - vm_compute. reflexivity.
  - exists (drop 2 stream_log). vm_compute. reflexivity.
  - vm_compute. lia.
  - vm_compute. reflexivity.
  - by repeat constructor.
  - by repeat constructor.
  - vm_compute. reflexivity.
  - vm_compute. lia.
  - split; [exact D|exact C].
Defined.

(** Event 2 is published before event 1. *)
Lemma stream_late_event_lost_witness :
  let s := run_stream 0 ([History (Ok []); msg 1] ++ [msg 0; msg 2]) in
  delivered s = drop 1 stream_log ∧ sample_event "a" "e1" 1 progress_ev ∉ delivered s.
Proof.
  intros s. split; [vm_compute; reflexivity|].
  apply (stream_late_event_lost 0 [History (Ok []); msg 1] (sample_event "a" "e1" 1 progress_ev)
           [msg 0; msg 2]).
  - repeat constructor. exists "a", empty_db. split; [apply empty_db_wf|]. by split; vm_compute.
  - vm_compute. reflexivity.
  - vm_compute. done.
  - change (sample_event "a" "e1" 1 progress_ev ∉ [sample_event "a" "e2" 2 progress_ev]).
    rewrite list_elem_of_singleton. done.
Defined.

Lemma stream_reconnect_never_ends_witness :
  let s := run_stream 3 (Subscribed None :: History (Ok []) :: replicate 2 Tick) in
  closed s = false ∧ emitted s = [Heartbeat; Heartbeat].
Proof.
  apply (stream_reconnect_never_ends "a" (stream_db 3) 3 [] 2).
  - check_db.
  - vm_compute. reflexivity.
  - vm_compute. done.
  - vm_compute. reflexivity.
Defined.
