(* ===== verification/Http.v ===== *)
(** * Http: a request, from its guard to its response

    The composition Nest makes of the decorators of [tasks.controller.ts],
    [stream.controller.ts] and [executor.controller.ts]: the guard of the
    controller, the pipes of the parameters, the handler, and
    [ZodExceptionFilter] around all of it.  Routing, the version prefix, CORS and
    the parsing of JSON bodies are Nest's and Express's: a request is a route with
    its parameters. *)
From S2P Require Import Prelude Errors ExceptionFilter Schema Database EventsRepository TasksRepository KeyValue Effects Samples Idempotency QueueAdapter ParseDecorators TasksService JsString JsNumber CallbackAuth ExecutorService Sse.

#[local] Open Scope Z_scope.

(** ** What the program delegates

    Zod's parsers of the three bodies, with the schemas they enforce; Zod's URL
    test; the test of Nest's [ParseUUIDPipe]; and how Postgres reads the text of a
    [uuid], [None] when it rejects it: as the text it prints for the value. *)
Class Validation : Type := {
  isURL : string → bool;
  isUUID : string → bool;
  uuid_in : string → option string;
  parse_create : json → res CreateTaskDto;
  parse_result : json → res SubmitResultDto;
  parse_progress : json → res UpdateProgressDto;
  isUUID_in i : isUUID i = true → is_Some (uuid_in i);
  uuid_in_idem i u : uuid_in i = Some u → uuid_in u = Some u;
  parse_create_ok b d : parse_create b = Ok d → CreateTaskSchema isURL d = true;
  parse_result_ok b d : parse_result b = Ok d → SubmitResultSchema d = true;
  parse_progress_ok b d : parse_progress b = Ok d → UpdateProgressSchema d = true }.

(** ** Requests and responses *)

Inductive route : Type :=
| PostTask (body : json) (protocol : string) (host : option string)
| GetTask (i : string)
| DeleteTask (i : string)
| GetStream (i : string) (lastEventId : option string)
| PostResult (i : string) (body : json)
| PatchProgress (i : string) (body : json).

Record request : Type := mkRequest {
  rq_route : route;
  rq_url : string;
  rq_x_api_key : option string;
  rq_authorization : option string }.

Inductive response : Type :=
| Accepted (body : TaskCreatedResponse)
| Snapshot (body : PublicTask)
| Streaming (s : stream_state)
| NoContent
| Failed (status : Z) (body : ErrorBody).

Definition response_status (r : response) : Z :=
  match r with
  | Accepted _ => 202
  | Snapshot _ | Streaming _ => 200
  | NoContent => 204
  | Failed status _ => status
  end.

Section http.
Context {SO : ScanOrder} {V : Validation} (proxyApiKey : option string).

(** [ParseUUIDPipe]. *)
Definition ParseUUIDPipe (i : string) : res string :=
  if isUUID i then Ok i else Err (BadRequestException "Validation failed (uuid is expected)").

(** The row id a text denotes. *)
Definition row_id (i : string) : string := default i (uuid_in i).

(** [findById] with the text of the request as its parameter: the guard of the
    executor's routes runs before the pipe. *)
Definition findById_text (i : string) : sql (option TaskRow) :=
  match uuid_in i with
  | Some u => findById u
  | None => sfail (PostgresError invalid_text_representation)
  end.

Definition api_key_guard (req : request) : prog bool :=
  lift (ApiKeyGuard.canActivate proxyApiKey (rq_x_api_key req) (rq_authorization req)).

Definition callback_guard (req : request) (i : string) : prog TaskRow :=
  canActivate_by findById_text (rq_authorization req) (Some i).

(** The endpoints, each with its guard and its pipes.  [POST /tasks]: *)
Definition create_endpoint (req : request) (body : json) (protocol : string) (host : option string)
    : prog response :=
  api_key_guard req ;!
  let! dto := lift (rethrown (parse_create body)) in
  let! r := create_handler dto protocol host in Ret (Accepted r).

(** [GET /tasks/:id]. *)
Definition getStatus_endpoint (req : request) (i : string) : prog response :=
  api_key_guard req ;!
  let! i := lift (ParseUUIDPipe i) in
  let! t := getStatus_handler_at i (row_id i) in Ret (Snapshot t).

(** [DELETE /tasks/:id]. *)
Definition cancel_endpoint (req : request) (i : string) : prog response :=
  api_key_guard req ;!
  let! i := lift (ParseUUIDPipe i) in
  cancel_at i (row_id i) ;! Ret NoContent.

(** [GET /tasks/:id/stream]. *)
Definition stream_endpoint (req : request) (i : string) (lastEventId : option string)
    : prog response :=
  api_key_guard req ;!
  let! i := lift (ParseUUIDPipe i) in
  let! s := stream_at i (row_id i) (parseLastEventId lastEventId) in Ret (Streaming s).

(** [POST /tasks/:id/result]. *)
Definition submitResult_endpoint (req : request) (i : string) (body : json) : prog response :=
  let! task := callback_guard req i in
  lift (ParseUUIDPipe i) ;!
  let! dto := lift (rethrown (parse_result body)) in
  submitResult task dto ;! Ret NoContent.

(** [PATCH /tasks/:id/progress]. *)
Definition updateProgress_endpoint (req : request) (i : string) (body : json) : prog response :=
  let! task := callback_guard req i in
  lift (ParseUUIDPipe i) ;!
  let! dto := lift (rethrown (parse_progress body)) in
  updateProgress task dto ;! Ret NoContent.

Definition handle (req : request) : prog response :=
  match rq_route req with
  | PostTask body protocol host => create_endpoint req body protocol host
  | GetTask i => getStatus_endpoint req i
  | DeleteTask i => cancel_endpoint req i
  | GetStream i lastEventId => stream_endpoint req i lastEventId
  | PostResult i body => submitResult_endpoint req i body
  | PatchProgress i body => updateProgress_endpoint req i body
  end.

(** With the global filter. *)
Definition serve (req : request) : prog response :=
  catch (handle req)
    (λ err, let! now := await Now in
            let '(_, status, body) := catch_exception err (rq_url req) now in
            Ret (Failed status body)).

(** ** Lemmas *)

(** Nothing but the clock has moved. *)
Definition untouched (w w' : world) : Prop :=
  w_db w' = w_db w ∧ w_redis w' = w_redis w ∧ w_published w' = w_published w ∧
  w_jobs w' = w_jobs w ∧ w_http w' = w_http w.

Lemma untouched_only_redis w w' : untouched w w' → only_redis w w'.
Proof. unfold untouched, only_redis. naive_solver. Qed.

Lemma only_redis_trans w1 w2 w3 : only_redis w1 w2 → only_redis w2 w3 → only_redis w1 w3.
Proof. unfold only_redis. intros (-> & -> & ->) (-> & -> & ->). done. Qed.

Context (E : env).

Definition exn_status (e : exn) : Z := r_status (resolveException e).

(** A program that leaves tables, publications and jobs alone. *)
Definition quiet {A} (p : prog A) : Prop :=
  ∀ w r w', db_wf (w_db w) → run E p w = (Some r, w') → only_redis w w'.

(** A program that does so when it fails with the client's error. *)
Definition inert {A} (p : prog A) : Prop :=
  ∀ w e w', db_wf (w_db w) → run E p w = (Some (Err e), w') → exn_status e < 500 →
    only_redis w w'.

(** A program every error of which satisfies [Q]. *)
Fixpoint throws {A} (Q : exn → Prop) (p : prog A) : Prop :=
  match p with
  | Throw e => Q e
  | Vis op k => ∀ w r w', exec_op E op w = (r, w') → throws Q (k r)
  | _ => True
  end.

Lemma throws_mono {A} (Q Q' : exn → Prop) (p : prog A) :
  (∀ e, Q e → Q' e) → throws Q p → throws Q' p.
Proof. intros HQ. induction p; simpl; eauto. Qed.

Lemma throws_bind {A B} Q (p : prog A) (f : A → prog B) :
  throws Q p → (∀ a, throws Q (f a)) → throws Q (bind p f).
Proof. intros Hp Hf. induction p; simpl in *; eauto. Qed.

Lemma throws_catch {A} Q (p : prog A) h : (∀ e, throws Q (h e)) → throws Q (catch p h).
Proof. intros Hh. induction p; simpl in *; eauto. Qed.

Lemma throws_catch_keep {A} Q (p : prog A) h :
  throws Q p → (∀ e, Q e → throws Q (h e)) → throws Q (catch p h).
Proof. intros Hp Hh. induction p; simpl in *; eauto. Qed.

Lemma throws_finally {A} Q (p : prog A) (f : prog unit) :
  throws Q p → throws Q f → throws Q (finally p f).
Proof.
  intros Hp Hf. unfold finally. induction p; simpl in *; try apply throws_bind; eauto.
Qed.

Lemma throws_await {X} (Q : exn → Prop) (op : io X) :
  (∀ w e w', exec_op E op w = (Err e, w') → Q e) → throws Q (await op).
Proof. intros H w [x|e] w' He; simpl; eauto. Qed.

Lemma throws_run {A} Q (p : prog A) w e w' :
  throws Q p → run E p w = (Some (Err e), w') → Q e.
Proof.
  revert w. induction p as [a|e'| |X op k IH]; intros w Ht Hr; simpl in *; try naive_solver.
  destruct (exec_op E op w) as [r w1] eqn:He. eauto.
Qed.

Lemma quiet_bind_inert {A B} (p : prog A) (f : A → prog B) :
  quiet p → (∀ a, inert (f a)) → inert (bind p f).
Proof.
  intros Hp Hf w e w' W [H|(a & w1 & H1 & H)]%run_bind_err Hs; [by eapply Hp|].
  apply Hp in H1 as Hr; [|done]. eapply only_redis_trans; [done|].
  eapply Hf; [|done..]. by destruct Hr as (-> & _).
Qed.

Lemma inert_bind_ret {A B} (p : prog A) (f : A → B) : inert p → inert (bind p (λ a, Ret (f a))).
Proof. intros Hp w e w' W [H|(a & w1 & H1 & [=])]%run_bind_err Hs. by eapply Hp. Qed.

Lemma throws_inert {A} (p : prog A) : throws (λ e, 500 ≤ exn_status e) p → inert p.
Proof. intros Ht w e w' _ Hr Hs. eapply throws_run in Hr; [|done]. simpl in Hr. lia. Qed.

Lemma quiet_inert {A} (p : prog A) : quiet p → inert p.
Proof. intros Hp w e w' W Hr _. by eapply Hp. Qed.

Lemma lift_quiet {A} (r : res A) : quiet (lift r).
Proof. intros w o w' _. rewrite run_lift. intros [= _ <-]. by split_and!. Qed.

(** *** What fails is infrastructure *)

Definition internal (e : exn) : Prop := exn_status e = 500.

(** A statement only rejects with an error of Postgres. *)
Definition pg_errors {A} (t : sql A) : Prop :=
  ∀ d e d', t d = (Err e, d') → ∃ s, e = PostgresError s.

Lemma pg_errors_ret {A} (a : A) : pg_errors (sret a).
Proof. by intros d e d' [=]. Qed.

Lemma pg_errors_bind {A B} (m : sql A) (f : A → sql B) :
  pg_errors m → (∀ a, pg_errors (f a)) → pg_errors (sbind m f).
Proof.
  intros Hm Hf d e d'. unfold sbind. destruct (m d) as [[a|e1] d1] eqn:H.
  - intros H2. eapply Hf, H2.
  - intros [= <- <-]. eapply Hm, H.
Qed.

Lemma pg_errors_transaction {A} (m : sql A) : pg_errors m → pg_errors (transaction m).
Proof.
  intros Hm d e d'. unfold transaction. destruct (m d) as [[a|e1] d1] eqn:H; intros [= <- <-].
  eapply Hm, H.
Qed.

Lemma pg_errors_statements :
  (∀ r, pg_errors (insert_task r)) ∧ (∀ now sets wh, pg_errors (update_tasks now sets wh)) ∧
  (∀ wh, pg_errors (delete_tasks wh)) ∧ (∀ e, pg_errors (insert_event_row e)) ∧
  (∀ wh, pg_errors (select_events wh)).
Proof.
  split_and!; intros *; intros d e' d'.
  - unfold insert_task. repeat case_goal; intros [=]; eauto.
  - unfold update_tasks. repeat case_goal; intros [=]; eauto.
  - by intros [=].
  - unfold insert_event_row. repeat case_goal; intros [=]; eauto.
  - by intros [=].
Qed.

Lemma throws_db {A} (t : dbctx → sql A) :
  (∀ c, pg_errors (t c)) → throws internal (await (DbTx t)).
Proof.
  intros Ht. apply throws_await. intros w e w' He. simpl in He.
  destruct (t (ctx_of E w) (w_db w)) as [o d] eqn:Hd.
  destruct (e_fault E (w_step w)); simplify_eq/=; try done. by apply Ht in Hd as [s ->].
Qed.

(** Operations whose failure is an infrastructure error. *)
Lemma throws_infra :
  throws internal (await Now) ∧ throws internal (await RandomUUID) ∧
  (∀ c ev, throws internal (await (Publish c ev))) ∧
  (∀ j, throws internal (await (QueueAdd j))) ∧
  (∀ A (f : Z → kv → A * kv), throws internal (await (RedisCmd f))).
Proof.
  split_and!; intros *; apply throws_await; intros w e w' He; simpl in He; try done;
    try (destruct (f _ _)); destruct (e_fault E (w_step w)); by simplify_eq/=.
Qed.
End http.

(** A request down to the guard and the body of its endpoint. *)
Ltac unfold_handle :=
  unfold handle, create_endpoint, getStatus_endpoint, cancel_endpoint, stream_endpoint,
    submitResult_endpoint, updateProgress_endpoint.

#[export] Hint Resolve pg_errors_ret pg_errors_bind pg_errors_transaction : proxy.

(** Every failure of a handler's operations is an infrastructure error. *)
Ltac throws_step :=
  lazymatch goal with
  | |- throws _ _ (await _) =>
      first [ apply throws_infra | apply throws_db; intros ? ]
  | |- throws _ _ (catch _ (λ _, Ret _)) => apply throws_catch; by intros ?
  | |- throws _ _ (catch _ (λ x, Throw x)) => apply throws_catch_keep; [|by intros ? ?]
  | |- throws _ _ (catch _ _) => apply throws_catch_keep; [|intros ? ?]
  | |- throws _ _ (finally _ _) => apply throws_finally
  | |- throws _ _ (bind _ _) => apply throws_bind; [|intros ?]
  | |- throws _ _ (Ret _) => exact I
  | |- throws _ _ (Throw _) => assumption
  | |- throws _ _ _ => case_goal
  end.

Section requests.
Context {SO : ScanOrder} {V : Validation} (proxyApiKey : option string) (E : env).

Lemma pg_errors_repositories c :
  (∀ dto, pg_errors (insert c dto)) ∧ (∀ i, pg_errors (deleteById i)) ∧
  (∀ i from to extra, pg_errors (updateStatus c i from to extra)) ∧
  (∀ i p, pg_errors (TasksRepository.updateProgress c i p)) ∧
  (∀ input, pg_errors (insertEvent c input)).
Proof.
  destruct pg_errors_statements as (Hi & Hu & Hd & He & Hs). split_and!; intros *.
  - apply Hi.
  - unfold deleteById. eauto with proxy.
  - unfold updateStatus. eauto with proxy.
  - unfold TasksRepository.updateProgress. eauto with proxy.
  - unfold insertEvent, insertEventInTx, next_seq. eauto 6 with proxy.
Qed.

Lemma create_task_throws dto key url : throws E internal (create_task dto key url).
Proof.
  unfold create_task, insert_step, enqueue_step, release_quietly, commit_quietly, releaseSlot,
    commitResult, enqueue. repeat throws_step; apply pg_errors_repositories.
Qed.

Lemma submitResult_throws task dto : throws E internal (submitResult task dto).
Proof.
  unfold submitResult, publish, notify_webhook, enqueue.
  repeat throws_step; apply pg_errors_repositories.
Qed.

Lemma updateProgress_throws task dto : throws E internal (updateProgress task dto).
Proof.
  unfold updateProgress, publish. repeat throws_step; apply pg_errors_repositories.
Qed.

(** *** Reading *)

Lemma quiet_ret {A} (a : A) : quiet E (Ret a).
Proof. intros w r w' _ [= _ <-]. by split_and!. Qed.

Lemma quiet_throw {A} e : quiet E (Throw e : prog A).
Proof. intros w r w' _ [= _ <-]. by split_and!. Qed.

Lemma quiet_bind {A B} (p : prog A) (f : A → prog B) :
  quiet E p → (∀ a, quiet E (f a)) → quiet E (bind p f).
Proof.
  intros Hp Hf w r w' W. rewrite run_bind. destruct (run E p w) as [[[a|e]|] w1] eqn:H1; [|..|done].
  - intros H. apply Hp in H1 as Hr; [|done]. eapply only_redis_trans; [done|].
    eapply Hf; [|exact H]. by destruct Hr as (-> & _).
  - intros [= _ <-]. by eapply Hp.
Qed.

Lemma quiet_query {A} (t : dbctx → sql A) :
  (∀ c d o d', db_wf d → t c d = (o, d') → d' = d) → quiet E (await (DbTx t)).
Proof.
  intros Ht w r w' W. rewrite run_await. simpl.
  destruct (t (ctx_of E w) (w_db w)) as [o d] eqn:Hd. apply Ht in Hd; [|done]. subst d.
  destruct (e_fault E (w_step w)); intros [= _ <-]; by split_and!.
Qed.

Lemma findById_text_reads i d o d' : db_wf d → findById_text i d = (o, d') → d' = d.
Proof.
  intros W. unfold findById_text. destruct (uuid_in i); [rewrite findById_eq by done|];
    by intros [= _ <-].
Qed.

Lemma findById_reads i d o d' : db_wf d → findById i d = (o, d') → d' = d.
Proof. intros W. rewrite findById_eq by done. by intros [= _ <-]. Qed.

Lemma callback_guard_quiet req i : quiet E (callback_guard req i).
Proof.
  unfold callback_guard, canActivate_by. destruct (extractBearerToken _); [|apply quiet_throw].
  destruct (truthy _); [|apply quiet_throw].
  apply quiet_bind; [apply quiet_query; intros ? ? ? ?; apply findById_text_reads|].
  intros [task|]; [|apply quiet_throw].
  apply quiet_bind; [apply lift_quiet|intros _]. case_bool_decide; [apply quiet_ret|apply quiet_throw].
Qed.

Lemma getStatus_at_quiet i u : quiet E (getStatus_at i u).
Proof.
  unfold getStatus_at. apply quiet_bind; [apply quiet_query; intros ? ? ? ?; apply findById_reads|].
  intros []; [apply quiet_ret|apply quiet_throw].
Qed.

Lemma stream_at_quiet i u n : quiet E (stream_at i u n).
Proof.
  unfold stream_at. apply quiet_bind; [apply quiet_query; intros ? ? ? ?; apply findById_reads|].
  intros []; [apply quiet_ret|apply quiet_throw].
Qed.

(** *** Writing *)

Lemma internal_not_client e : internal e → exn_status e < 500 → False.
Proof. unfold internal. lia. Qed.

Lemma internal_inert {A} (p : prog A) : throws E internal p → inert E p.
Proof.
  intros Ht w e w' _ Hr Hs. eapply throws_run in Hr; [|done]. simpl in Hr.
  by destruct (internal_not_client e).
Qed.

Lemma create_inert dto url : inert E (create dto url).
Proof.
  unfold create. destruct (truthy _) as [k|]; [|apply internal_inert, create_task_throws].
  apply quiet_bind_inert.
  - intros w r w' _ H. by eapply run_occupySlot.
  - intros []; [apply internal_inert, create_task_throws|apply quiet_inert, quiet_throw|
      apply quiet_inert, quiet_ret].
Qed.

Lemma cancelTask_pg_errors c i : pg_errors (cancelTask c i).
Proof.
  destruct pg_errors_statements as (_ & Hu & _ & He & Hs). unfold cancelTask.
  apply pg_errors_transaction, pg_errors_bind; [apply Hu|]. intros [|r l]; [apply pg_errors_ret|].
  unfold insertEventInTx, next_seq. eauto 6 with proxy.
Qed.

Lemma findById_pg_errors i : pg_errors (findById i).
Proof. by intros d e d' [=]. Qed.

Lemma cancel_throws i u :
  throws E (λ e, internal e ∨ ∃ s m, e = HttpException s m ∧ s ∈ [404; 409]) (cancel_at i u).
Proof.
  assert (M : ∀ A (p : prog A), throws E internal p →
            throws E (λ e, internal e ∨ ∃ s m, e = HttpException s m ∧ s ∈ [404; 409]) p).
  { intros A p. apply throws_mono. auto. }
  unfold cancel_at. apply throws_bind.
  - apply M, throws_db. intros c. apply cancelTask_pg_errors.
  - intros [[task ev]|].
    + apply M. unfold enqueue. repeat throws_step.
    + apply throws_bind; [apply M, throws_db; intros c; apply findById_pg_errors|].
      intros [t|]; simpl; right; eexists _, _; (split; [done|set_solver]).
Qed.

Lemma cancel_inert i u : inert E (cancel_at i u).
Proof.
  intros w e w' W H Hs. pose proof (throws_run E _ _ w e w' (cancel_throws i u) H) as Hq.
  apply run_cancel_at in H; [|done]. simpl in Hq.
  destruct Hq as [Hq|(s & m & -> & _)]; [by destruct (internal_not_client e)|].
  by destruct H as (? & ? & ? & _).
Qed.

Lemma handle_inert req : inert E (handle proxyApiKey req).
Proof.
  unfold_handle; unfold api_key_guard. destruct (rq_route req) as [b p h|i|i|i l|i b|i b];
    (apply quiet_bind_inert; [first [apply lift_quiet|apply callback_guard_quiet]|intros ?]);
    (apply quiet_bind_inert; [apply lift_quiet|intros ?]).
  - apply inert_bind_ret. unfold create_handler. destruct (truthy h); [apply create_inert|].
    apply quiet_inert, quiet_throw.
  - apply inert_bind_ret. unfold getStatus_handler_at.
    apply inert_bind_ret, quiet_inert, getStatus_at_quiet.
  - apply inert_bind_ret, cancel_inert.
  - apply inert_bind_ret, quiet_inert, stream_at_quiet.
  - apply quiet_bind_inert; [apply lift_quiet|intros d].
    apply inert_bind_ret, internal_inert, submitResult_throws.
  - apply quiet_bind_inert; [apply lift_quiet|intros d].
    apply inert_bind_ret, internal_inert, updateProgress_throws.
Qed.

(** *** Every request is answered *)

Lemma total_lift {A} (r : res A) : total (lift r).
Proof. by destruct r. Qed.

Lemma handle_total req : total (handle proxyApiKey req).
Proof.
  unfold_handle; unfold api_key_guard, callback_guard, canActivate_by. destruct (rq_route req);
    unfold create_handler, create, create_task, insert_step, enqueue_step, release_quietly,
      commit_quietly, occupySlot, releaseSlot, commitResult, enqueue, getStatus_handler_at,
      getStatus_at, cancel_at, stream_at, submitResult, updateProgress, publish, notify_webhook;
    repeat first [apply total_lift | exact I | progress intros | apply total_await
                 | apply total_finally | apply total_catch | apply total_bind | case_goal].
Qed.

(** The statuses of the errors a route answers with. *)
Definition error_statuses (r : route) : list Z :=
  match r with
  | PostTask _ _ _ => [400; 401; 409; 500]
  | GetTask _ | GetStream _ _ => [400; 401; 404; 500]
  | DeleteTask _ | PostResult _ _ | PatchProgress _ _ => [400; 401; 404; 409; 500]
  end.

Definition answered (ss : list Z) (e : exn) : Prop := exn_status e ∈ ss.

Lemma answered_in {A} (ss ss' : list Z) (p : prog A) :
  throws E (answered ss) p → ss ⊆ ss' → throws E (answered ss') p.
Proof. intros H Hs. eapply throws_mono; [|exact H]. intros e. apply Hs. Qed.

Lemma answered_infra {A} (p : prog A) : throws E internal p → throws E (answered [500]) p.
Proof. apply throws_mono. unfold internal, answered. intros e ->. set_solver. Qed.

Lemma throws_lift {A} (Q : exn → Prop) (r : res A) : (∀ e, r = Err e → Q e) → throws E Q (lift r).
Proof. destruct r; simpl; auto. Qed.

Lemma api_key_guard_throws req :
  throws E (λ e, exn_status e = 401) (api_key_guard proxyApiKey req).
Proof.
  apply throws_lift. intros e. unfold ApiKeyGuard.canActivate, timingSafeEqual.
  destruct (truthy proxyApiKey) as [k|]; [|done]. destruct (truthy _) as [p|]; [|by intros [= <-]].
  case_bool_decide; simpl; [|by intros [= <-]]. case_bool_decide; simpl; [done|by intros [= <-]].
Qed.

Lemma api_key_guard_answered req : throws E (answered [401]) (api_key_guard proxyApiKey req).
Proof.
  eapply throws_mono; [|apply api_key_guard_throws]. unfold answered. intros e ->. set_solver.
Qed.

Lemma callback_guard_answered req i :
  throws E (answered [401; 404; 409; 500]) (callback_guard req i).
Proof.
  unfold callback_guard, canActivate_by. destruct (extractBearerToken _); [|unfold answered; simpl; set_solver].
  destruct (truthy _) as [t|]; [|unfold answered; simpl; set_solver]. apply throws_bind.
  - eapply answered_in; [apply answered_infra, throws_db|set_solver]. intros _. unfold findById_text.
    destruct (uuid_in t); [apply findById_pg_errors|]. intros d e d' [= <- <-]. eauto.
  - intros [task|]; [|unfold answered; simpl; set_solver]. apply throws_bind.
    + apply throws_lift. intros e. rewrite validateToken_eq. unfold answered.
      repeat case_goal; intros [= <-]; set_solver.
    + intros _. case_bool_decide; simpl; [done|]. unfold answered; simpl; set_solver.
Qed.

Lemma pipe_answered i : throws E (answered [400]) (lift (ParseUUIDPipe i)).
Proof.
  apply throws_lift. intros e. unfold ParseUUIDPipe. destruct (isUUID i); intros [= <-].
  unfold answered; simpl; set_solver.
Qed.

Lemma body_answered {A} (r : res A) : throws E (answered [400]) (lift (rethrown r)).
Proof.
  apply throws_lift. intros e He. apply rethrown_status in He. unfold answered, exn_status.
  rewrite He. set_solver.
Qed.

Lemma read_answered {A} u (f : option TaskRow → prog A) :
  (∀ r, throws E (answered [404; 500]) (f (Some r))) → throws E (answered [404; 500]) (f None) →
  throws E (answered [404; 500]) (bind (await (DbTx (λ _, findById u))) f).
Proof.
  intros Hs Hn. apply throws_bind; [|by intros []].
  eapply answered_in; [apply answered_infra, throws_db|set_solver]. intros c. apply findById_pg_errors.
Qed.

Lemma handler_answered :
  (∀ dto p h, throws E (answered [409; 500]) (create_handler dto p h)) ∧
  (∀ i u, throws E (answered [404; 500]) (getStatus_handler_at i u)) ∧
  (∀ i u, throws E (answered [404; 409; 500]) (cancel_at i u)) ∧
  (∀ i u n, throws E (answered [404; 500]) (stream_at i u n)).
Proof.
  assert (I : ∀ A (p : prog A), throws E internal p → throws E (answered [409; 500]) p).
  { intros A p H. eapply answered_in; [by apply answered_infra|set_solver]. }
  split_and!; intros *.
  - unfold create_handler, create. destruct (truthy h); [|unfold answered; simpl; set_solver].
    destruct (truthy _) as [k|]; [|apply I, create_task_throws]. apply throws_bind.
    + apply I. unfold occupySlot. repeat throws_step.
    + intros []; [apply I, create_task_throws|unfold answered; simpl; set_solver|done].
  - unfold getStatus_handler_at, getStatus_at. apply throws_bind; [|done].
    apply read_answered; [done|]. unfold answered; simpl; set_solver.
  - eapply throws_mono; [|apply cancel_throws]. unfold internal, answered.
    intros e [->|(s & m & -> & Hs)]; [set_solver|]. unfold exn_status. simpl. set_solver.
  - unfold stream_at. apply read_answered; [done|]. unfold answered; simpl; set_solver.
Qed.

Lemma handle_answered req :
  throws E (answered (error_statuses (rq_route req))) (handle proxyApiKey req).
Proof.
  destruct handler_answered as (Hc & Hg & Hd & Hs).
  unfold_handle. destruct (rq_route req) as [b p h|i|i|i l|i b|i b]; cbn [error_statuses];
    (apply throws_bind; [eapply answered_in; [first [apply api_key_guard_answered|apply callback_guard_answered]|set_solver]|intros ?]);
    (apply throws_bind; [eapply answered_in; [first [apply pipe_answered|apply body_answered]|set_solver]|intros ?]);
    (apply throws_bind; [|try by intros ?]).
  1-4: eapply answered_in; [eauto|set_solver].
  1, 3: eapply answered_in; [apply body_answered|set_solver].
  - intros d. apply throws_bind; [|by intros ?].
    eapply answered_in; [apply answered_infra, submitResult_throws|set_solver].
  - intros d. apply throws_bind; [|by intros ?].
    eapply answered_in; [apply answered_infra, updateProgress_throws|set_solver].
Qed.

(** [serve] runs [handle]; a thrown error is answered by the filter. *)
Lemma run_serve req w :
  ∃ resp w', run E (serve proxyApiKey req) w = (Some (Ok resp), w') ∧
    ((run E (handle proxyApiKey req) w = (Some (Ok resp), w')) ∨
     ∃ e w1, run E (handle proxyApiKey req) w = (Some (Err e), w1) ∧ answered (error_statuses (rq_route req)) e ∧
       response_status resp = exn_status e ∧ w' = advance E w1).
Proof.
  destruct (total_run E (handle proxyApiKey req) w (handle_total req)) as (r & w1 & Hr).
  unfold serve. rewrite run_catch, Hr. destruct r as [resp|e]; [eauto 10|].
  exists (Failed (exn_status e) (catch_exception e (rq_url req) (w_now (advance E w1))).2), (advance E w1).
  split; [reflexivity|]. right. exists e, w1. split_and!; try done.
  eapply throws_run; [|exact Hr]. apply handle_answered.
Qed.

Definition route_success (r : route) (resp : response) : Prop :=
  match r with
  | PostTask _ _ _ => ∃ body, resp = Accepted body
  | GetTask _ => ∃ t, resp = Snapshot t
  | GetStream _ _ => ∃ s, resp = Streaming s
  | DeleteTask _ | PostResult _ _ | PatchProgress _ _ => resp = NoContent
  end.

Lemma handle_success req w resp w' :
  run E (handle proxyApiKey req) w = (Some (Ok resp), w') → route_success (rq_route req) resp.
Proof.
  unfold_handle. destruct (rq_route req);
    intros (? & ? & _ & (? & ? & _ & (? & ? & _ & H)%run_bind_ok)%run_bind_ok)%run_bind_ok;
    try (apply run_bind_ok in H as (? & ? & _ & H)); injection H as <- _; simpl; eauto.
Qed.

(** *** Who may change what *)

Definition client_route (r : route) : bool :=
  match r with PostResult _ _ | PatchProgress _ _ => false | _ => true end.

Definition has_api_key (req : request) : Prop :=
  match truthy proxyApiKey with
  | None => True
  | Some key =>
      match truthy (rq_x_api_key req) with
      | Some k => k = key
      | None => replace_bearer <$> rq_authorization req = Some key
      end
  end.

(** How a request without them is refused. *)
Definition refusals (r : route) : list Z :=
  if client_route r then [401] else [401; 404; 409; 500].

(** The credentials a route asks for: the API key, or the callback token of the
    task, while it is PROCESSING. *)
Definition authenticated (req : request) (d : db) : Prop :=
  match rq_route req with
  | PostResult i _ | PatchProgress i _ =>
      ∃ token u r, extractBearerToken (rq_authorization req) = Some token ∧
        uuid_in i = Some u ∧ tasks d !! u = Some r ∧ callbackToken r = Some token ∧
        status r = PROCESSING
  | _ => has_api_key req
  end.

Lemma api_key_guard_admits req b w w' :
  run E (api_key_guard proxyApiKey req) w = (Some (Ok b), w') → has_api_key req.
Proof.
  unfold api_key_guard, has_api_key. rewrite run_lift.
  unfold ApiKeyGuard.canActivate, timingSafeEqual.
  destruct (truthy proxyApiKey) as [key|]; [|done].
  destruct (truthy (match truthy _ with Some _ => _ | None => _ end)) as [k|] eqn:Hk; [|done].
  case_bool_decide as Hl; [|done]. simpl. case_bool_decide as Hb; [|done]. intros _.
  apply Buffer_from_inj in Hb as ->. apply truthy_Some in Hk as [Hk _].
  destruct (truthy (rq_x_api_key req)); congruence.
Qed.

Lemma callback_guard_admits req i task w w' :
  db_wf (w_db w) → run E (callback_guard req i) w = (Some (Ok task), w') →
  ∃ token u, extractBearerToken (rq_authorization req) = Some token ∧ uuid_in i = Some u ∧
    tasks (w_db w) !! u = Some task ∧ callbackToken task = Some token ∧ status task = PROCESSING.
Proof.
  intros W. unfold callback_guard, canActivate_by.
  destruct (extractBearerToken _) as [token|] eqn:Ha; [|done].
  destruct (truthy (Some i)) as [i'|] eqn:Hi; [|done]. apply truthy_Some in Hi as [[= <-] _].
  intros (row & w1 & H1 & H)%run_bind_ok. apply run_db_ok in H1 as (d & H1 & ->).
  unfold findById_text in H1. destruct (uuid_in i) as [u|]; [|done].
  rewrite findById_eq in H1 by done. injection H1 as <- <-.
  eapply decide_row in H as [_ H]; [|by eapply extractBearerToken_nonempty].
  destruct (tasks (w_db w) !! u) as [r|] eqn:Hr; [|by destruct H].
  simpl in H. destruct (decide _) as [Ht|]; [|by destruct H].
  destruct (decide _) as [Hs|]; [|by destruct H]. injection H as ->. by exists token, u.
Qed.

(** A guard that never admits leaves its handler unrun. *)
Lemma run_guard_rejects {A B} (g : prog A) (f : A → prog B) Q w r w' :
  quiet E g → throws E Q g → db_wf (w_db w) →
  (∀ a w1, run E g w ≠ (Some (Ok a), w1)) → run E (bind g f) w = (Some r, w') →
  only_redis w w' ∧ ∃ e, r = Err e ∧ Q e.
Proof.
  intros Hq Ht W Hg. rewrite run_bind.
  destruct (run E g w) as [[[a|e]|] w1] eqn:H1; [by destruct (Hg a w1)| |done].
  intros [= <- <-]. split; [by eapply Hq|]. exists e. split; [done|]. by eapply throws_run.
Qed.

Lemma client_rejected {B} req (f : bool → prog B) w r w' :
  db_wf (w_db w) → ¬ has_api_key req →
  run E (bind (api_key_guard proxyApiKey req) f) w = (Some r, w') →
  only_redis w w' ∧ ∃ e, r = Err e ∧ answered [401] e.
Proof.
  intros W Hn. apply run_guard_rejects; [apply lift_quiet|apply api_key_guard_answered|done|].
  intros a w1 Ha. destruct Hn. by eapply api_key_guard_admits.
Qed.

Lemma callback_rejected {B} req i (f : TaskRow → prog B) w r w' :
  db_wf (w_db w) →
  (∀ task w1, run E (callback_guard req i) w ≠ (Some (Ok task), w1)) →
  run E (bind (callback_guard req i) f) w = (Some r, w') → only_redis w w' ∧ ∃ e, r = Err e ∧ answered [401; 404; 409; 500] e.
Proof.
  intros W. apply run_guard_rejects; [apply callback_guard_quiet|apply callback_guard_answered|done].
Qed.

Lemma handle_unauthenticated req w r w' :
  db_wf (w_db w) → ¬ authenticated req (w_db w) →
  run E (handle proxyApiKey req) w = (Some r, w') →
  only_redis w w' ∧ ∃ e, r = Err e ∧ answered (refusals (rq_route req)) e.
Proof.
  intros W Hn. unfold_handle. intros H. unfold authenticated in *. destruct (rq_route req) as [b p h|i|i|i l|i b|i b].
  1-4: apply client_rejected in H as (? & e & -> & ?); [|done..]; eauto.
  all: apply callback_rejected in H as (? & e & -> & ?);
    [split; [done|exists e; split; done]|done|];
    intros task w1 (token & u & ? & ? & ? & ? & ?)%callback_guard_admits; [|done];
    apply Hn; by exists token, u, task.
Qed.
End requests.

(** ** Properties *)

(** C13: the response contract.  Whatever the request, the state and the faults, a
    response is sent: the success of its route (202 with the links of the task, 200
    with the snapshot or the stream, 204), or an error with a status of its route
    ([error_statuses]: 400, 401, 404, 409 or 500, without 404 for POST /tasks and
    without 409 for the reads); and a client error (400 to 409) means that the request changed no
    table, published nothing and enqueued nothing. *)
Theorem response_contract {SO : ScanOrder} {V : Validation} key E req w :
  db_wf (w_db w) →
  ∃ resp w', run E (serve key req) w = (Some (Ok resp), w') ∧
    (response_status resp < 400 ∧ route_success (rq_route req) resp ∨
     response_status resp ∈ error_statuses (rq_route req)) ∧
    (400 ≤ response_status resp < 500 → only_redis w w').
Proof.
  intros W. destruct (run_serve key E req w) as (resp & w' & Hr & [H|(e & w1 & H & Ha & Hs & ->)]).
  - exists resp, w'. apply handle_success in H. split; [done|].
    assert (Hlt : response_status resp < 400).
    { destruct (rq_route req); simpl in H; [destruct H as [x ->]|destruct H as [x ->]|subst|destruct H as [x ->]|subst|subst]; simpl; lia. }
    split; [by left|lia].
  - exists resp, (advance E w1). split; [done|]. rewrite Hs. split; [by right|].
    intros [_ Hlt]. eapply handle_inert in H; [|done..]. by destruct H as (? & ? & ?).
Qed.

(** C14: only the holders of a credential change anything.  A request to the client's
    routes without the configured API key is answered 401; a callback whose bearer
    token is not the one of the addressed task, or whose task is not PROCESSING,
    is answered 401, 404, 409 or 500; and either leaves the tables, the publications and the queues as
    they are. *)
Theorem unauthenticated_inert {SO : ScanOrder} {V : Validation} key E req w resp w' :
  db_wf (w_db w) → ¬ authenticated key req (w_db w) →
  run E (serve key req) w = (Some (Ok resp), w') →
  only_redis w w' ∧ response_status resp ∈ refusals (rq_route req).
Proof.
  intros W Hn Hr. destruct (run_serve key E req w) as (resp' & w'' & Hr' & Hc).
  rewrite Hr in Hr'. injection Hr' as <- <-. destruct Hc as [H|(e & w1 & H & Ha & Hs & ->)].
  - apply handle_unauthenticated in H as (_ & e & [=] & _); done.
  - apply handle_unauthenticated in H as (Ho & e' & [= <-] & He); [|done..]. rewrite Hs.
    split; [by destruct Ho as (? & ? & ?)|done].
Qed.

(** ** Instances *)

(** One-letter task ids, in two spellings each. *)
Definition sample_uuid (i : string) : option string :=
  if bool_decide (i ∈ ["a"; "A"]) then Some "a"
  else if bool_decide (i ∈ ["b"; "B"]) then Some "b" else None.

Definition sample_parse_create (b : json) : res CreateTaskDto :=
  match b with
  | JObj ((k1, JStr t) :: (k2, JStr u) :: rest) =>
      let key := match rest with [(_, JStr k)] => Some k | _ => None end in
      if bool_decide (u = "http://executor/run") && bool_decide (k1 = "type" ∧ k2 = "executorUrl")
      then Ok (mkCreateTaskDto t None u None key None 300) else Err (ZodError [])
  | _ => Err (ZodError [])
  end.

Definition sample_parse_result (b : json) : res SubmitResultDto :=
  match b with
  | JObj [(k1, JStr s); (k2, JObj fields)] =>
      if bool_decide (k1 = "status" ∧ s = "completed" ∧ k2 = "result")
      then Ok (completed_dto (JObj fields)) else Err (ZodError [])
  | _ => Err (ZodError [])
  end.

Definition sample_parse_progress (b : json) : res UpdateProgressDto :=
  match b with
  | JObj [(k, JNum n)] =>
      if bool_decide (k = "progress") && UpdateProgressSchema (mkProgressDto n) then Ok (mkProgressDto n) else Err (ZodError [])
  | _ => Err (ZodError [])
  end.

#[export, refine] Instance sample_validation : Validation :=
  {| isURL u := bool_decide (u = "http://executor/run");
     isUUID i := bool_decide (is_Some (sample_uuid i));
     uuid_in := sample_uuid;
     parse_create := sample_parse_create;
     parse_result := sample_parse_result;
     parse_progress := sample_parse_progress |}.
Proof.
  - intros i H%bool_decide_eq_true_1. exact H.
  - intros i u. unfold sample_uuid at 1. destruct (bool_decide _); [by intros [= <-]|].
    destruct (bool_decide _); by intros [= <-].
  - intros b d. unfold sample_parse_create. repeat (case_match; try done);
      repeat match goal with H : _ && _ = true |- _ => apply andb_true_iff in H as [->%bool_decide_eq_true_1 _] end;
      by intros [= <-].
  - intros b d. unfold sample_parse_result. repeat (case_match; try done). by intros [= <-].
  - intros b d. unfold sample_parse_progress. repeat (case_match; try done). intros [= <-].
    by apply andb_true_iff in H4 as [_ ?].
Defined.

Definition http_db : db :=
  sample_db [sample_row "a" PROCESSING (Some 1000) None (Some 500000);
             sample_row "b" PENDING None None (Some 500000)] [].

Definition progress_request (token : string) : request :=
  mkRequest (PatchProgress "A" (JObj [("progress", JNum 40)])) "/v1/tasks/A/progress" None
    (Some ("Bearer " +:+ token)).

Lemma response_contract_witness :
  ∃ resp w', run calm_env (serve (Some "key") (progress_request "secret")) (sample_world http_db)
      = (Some (Ok resp), w') ∧ resp = NoContent ∧
    ev_payload <$> task_events (w_db w') = [JObj [("progress", JNum 40)]].
Proof.
  assert (W : db_wf http_db) by check_db.
  destruct (response_contract (Some "key") calm_env (progress_request "secret")
    (sample_world http_db) W) as (resp & w' & Hr & _ & _).
  exists resp, w'. split; [exact Hr|]. vm_compute in Hr. injection Hr as <- <-.
  split; reflexivity.
Defined.

Lemma unauthenticated_inert_witness :
  let out := run calm_env (serve (Some "key") (progress_request "guess")) (sample_world http_db) in
  w_db out.2 = http_db ∧ ∃ resp, out.1 = Some (Ok resp) ∧ response_status resp ∈ [401; 404; 409; 500].
Proof.
  intros out. assert (W : db_wf http_db) by check_db.
  destruct out.1 as [[resp|e]|] eqn:Ho; [|vm_compute in Ho; discriminate|vm_compute in Ho; discriminate].
  destruct (unauthenticated_inert (Some "key") calm_env (progress_request "guess")
    (sample_world http_db) resp out.2 W) as ((Hd & _) & Hs).
  - intros (token & u & r & Ht & Hu & Hi & Hc & _). vm_compute in Ht, Hu. injection Ht as <-.
    injection Hu as <-. vm_compute in Hi. injection Hi as <-. discriminate Hc.
  - rewrite <-Ho. exact (surjective_pairing out).
  - split; [exact Hd|]. by exists resp.
Defined.

(** The channel of a cancellation is named after the text of the request, not
    after the task: followers of the canonical id are not told. *)
Lemma cancel_other_spelling :
  let out := run calm_env (serve None (mkRequest (DeleteTask "B") "/v1/tasks/B" None None))
               (sample_world http_db) in
  out.1 = Some (Ok NoContent) ∧
  (status <$> tasks (w_db out.2) !! "b") = Some CANCELLED ∧
  fst <$> w_published out.2 = [channel_of "B"] ∧ channel_of "B" ≠ channel_of "b".
Proof. split_and!; [vm_compute; reflexivity..|done]. Qed.
