(* ===== verification/OpenApi.v ===== *)
(** * OpenApi: what the API documents, and what it answers

    [src/common/decorators/swagger.decorators.ts], the Swagger side of
    [parse.decorators.ts], and the descriptions the controllers attach to their
    endpoints, against the statuses that Http.v shows they answer.  The generator
    of [zod-to-openapi] is a parameter. *)
From S2P Require Import Prelude Errors Schema Database Samples KeyValue Effects Idempotency TasksService CallbackAuth ExecutorService Sse Http.

#[local] Open Scope Z_scope.

(** ** Objects *)

Definition object : Type := list (string * json).

(** [o[k]], [undefined] without that property. *)
Fixpoint property (k : string) (o : object) : option json :=
  match o with
  | [] => None
  | (k', v) :: o => if bool_decide (k' = k) then Some v else property k o
  end.

Definition as_object (v : option json) : option object :=
  match v with Some (JObj o) => Some o | _ => None end.

(** [s as string | undefined], tested as a condition. *)
Definition text (v : option json) : option string :=
  match v with Some (JStr s) => truthy (Some s) | _ => None end.

(** ** Metadata of an endpoint *)

(** [number | 'default']. *)
Inductive response_key : Type := code (status : Z) | default_response.

Inductive metadata : Type :=
| ApiOperation (summary : string)
| ApiHeader (name description : string) (required : bool)
| ApiBody (description : option string) (schema : object)
| ApiResponse (status : response_key) (description : option string) (schema : option object)
| ApiQuery (name : string) (required : bool) (schema : json) (description : option string)
| ApiParam (name : string) (schema : json) (description : option string)
| ApiTags (tag : string)
| ApiSecurity (scheme : string).               (** [@ApiBearerAuth()] names [bearer] *)

Section swagger.
Context {S : Type} (generateComponents : list (string * S) → object).

(** [doc.components?.schemas?.['Temp']]. *)
Definition zodToOpenAPI (schema : S) : option object :=
  let doc := generateComponents [("Temp", schema)] in
  components ← as_object (property "components" doc);
  schemas ← as_object (property "schemas" components);
  as_object (property "Temp" schemas).

(** [applyDecorators()] decorates nothing. *)
Definition ApiZodBody (schema : S) (description : option string) : list metadata :=
  match zodToOpenAPI schema with
  | None => []
  | Some openApiSchema => [ApiBody (truthy description) openApiSchema]
  end.

Definition ApiZodResponse (status : response_key) (schema : S) (description : option string) : list metadata :=
  match zodToOpenAPI schema with
  | None => []
  | Some openApiSchema => [ApiResponse status (truthy description) (Some openApiSchema)]
  end.

(** The decorators of parameters; [descriptor] tells whether the method has a
    property descriptor. *)
Definition ParseBody_metadata (descriptor : bool) (schema : S) : list metadata :=
  match descriptor, zodToOpenAPI schema with
  | true, Some openApiSchema => [ApiBody None openApiSchema]
  | _, _ => []
  end.

(** The guard of the loops over [properties], whose entries it returns. *)
Definition documented_properties (descriptor : bool) (schema : S) : option (object * object) :=
  match descriptor, zodToOpenAPI schema with
  | true, Some openApiSchema =>
      match property "type" openApiSchema, property "properties" openApiSchema with
      | Some (JStr "object"), Some (JObj properties) => Some (openApiSchema, properties)
      | _, _ => None
      end
  | _, _ => None
  end.

(** [(propSchema as { description?: string }).description]. *)
Definition description_of (propSchema : json) : option string :=
  match propSchema with JObj o => text (property "description" o) | _ => None end.

Definition requiredFields (openApiSchema : object) : list string :=
  match property "required" openApiSchema with
  | Some (JArr l) => omap (λ v, match v with JStr s => Some s | _ => None end) l
  | _ => []
  end.

Definition ParseQuery_metadata (descriptor : bool) (schema : S) : list metadata :=
  match documented_properties descriptor schema with
  | None => []
  | Some (openApiSchema, properties) =>
      (λ '(key, propSchema),
         ApiQuery key (bool_decide (key ∈ requiredFields openApiSchema)) propSchema
           (description_of propSchema)) <$> properties
  end.

Definition ParseParams_metadata (descriptor : bool) (schema : S) : list metadata :=
  match documented_properties descriptor schema with
  | None => []
  | Some (_, properties) =>
      (λ '(key, propSchema), ApiParam key propSchema (description_of propSchema)) <$> properties
  end.

(** ** The endpoints *)

Inductive endpoint : Type := create_ | getStatus_ | cancel_ | stream_ | submitResult_ | updateProgress_.

Context (CreateTaskSchema TaskCreatedResponseSchema TaskResponseSchema SubmitResultSchema
  UpdateProgressSchema : S).

Definition create_metadata : list metadata :=
  [ApiOperation "Create a new task"] ++
  ApiZodResponse (code 202) TaskCreatedResponseSchema (Some "Task accepted for processing") ++
  ParseBody_metadata true CreateTaskSchema.

Definition getStatus_metadata : list metadata :=
  [ApiOperation "Get task status"] ++
  ApiZodResponse (code 200) TaskResponseSchema (Some "Returns the task snapshot") ++
  [ApiResponse (code 404) (Some "Task not found") None].

Definition cancel_metadata : list metadata :=
  [ApiOperation "Cancel a pending task";
   ApiResponse (code 204) (Some "Task cancelled successfully") None;
   ApiResponse (code 409) (Some "Task is already processing or finished") None].

Definition stream_metadata : list metadata :=
  [ApiOperation "Open SSE stream for real-time task events";
   ApiHeader "Last-Event-ID" "Resume replay from this event sequence number (inclusive)" false;
   ApiResponse (code 200) (Some "SSE stream opened; events follow task lifecycle") None;
   ApiResponse (code 404) (Some "Task not found") None].

Definition submitResult_metadata : list metadata :=
  [ApiOperation "Submit task result or failure from executor";
   ApiResponse (code 204) (Some "Result accepted") None;
   ApiResponse (code 401) (Some "Invalid or missing callback token") None;
   ApiResponse (code 409) (Some "Task is not in PROCESSING state") None] ++
  ParseBody_metadata true SubmitResultSchema.

Definition updateProgress_metadata : list metadata :=
  [ApiOperation "Update task progress from executor";
   ApiResponse (code 204) (Some "Progress updated") None;
   ApiResponse (code 401) (Some "Invalid or missing callback token") None;
   ApiResponse (code 409) (Some "Task is not in PROCESSING state") None] ++
  ParseBody_metadata true UpdateProgressSchema.

(** What the decorators of a controller add to each of its endpoints. *)
Definition TasksController_metadata : list metadata := [ApiTags "tasks"; ApiSecurity "api-key"].
Definition StreamController_metadata : list metadata := [ApiTags "tasks"; ApiSecurity "api-key"].
Definition ExecutorController_metadata : list metadata := [ApiTags "executor"; ApiSecurity "bearer"].

Definition metadata_of (e : endpoint) : list metadata :=
  match e with
  | create_ => TasksController_metadata ++ create_metadata
  | getStatus_ => TasksController_metadata ++ getStatus_metadata
  | cancel_ => TasksController_metadata ++ cancel_metadata
  | stream_ => StreamController_metadata ++ stream_metadata
  | submitResult_ => ExecutorController_metadata ++ submitResult_metadata
  | updateProgress_ => ExecutorController_metadata ++ updateProgress_metadata
  end.

(** What the [DocumentBuilder] is told; a scheme is declared with [addApiKey] or
    [addBearerAuth]. *)
Record DocumentConfig : Type := mkDocumentConfig {
  title : string;
  description : string;
  version : string;
  securitySchemes : list string }.

Definition swaggerConfig : DocumentConfig :=
  mkDocumentConfig "Async Long Request Proxy"
    "API for queuing and managing long-running asynchronous tasks" "1.0" [].

(** [src/main.ts]: the document, outside production, has the endpoints of
    [TasksModule] and [ExecutorModule]. *)
Definition document (env : string) : option (DocumentConfig * list (endpoint * list metadata)) :=
  if bool_decide (env = "production") then None
  else Some (swaggerConfig,
             (λ e, (e, metadata_of e)) <$>
             [create_; getStatus_; cancel_; submitResult_; updateProgress_]).

(** The security schemes an endpoint asks for. *)
Definition security (e : endpoint) : list string :=
  omap (λ m, match m with ApiSecurity s => Some s | _ => None end) (metadata_of e).

(** The statuses an endpoint is described with. *)
Definition documented (e : endpoint) : list Z :=
  omap (λ m, match m with ApiResponse (code s) _ _ => Some s | _ => None end) (metadata_of e).
End swagger.

(** ** What the endpoints answer *)

Definition endpoint_of (r : route) : endpoint :=
  match r with
  | PostTask _ _ _ => create_
  | GetTask _ => getStatus_
  | DeleteTask _ => cancel_
  | GetStream _ _ => stream_
  | PostResult _ _ => submitResult_
  | PatchProgress _ _ => updateProgress_
  end.

Definition statuses (e : endpoint) : list Z :=
  match e with
  | create_ => [202; 400; 401; 409; 500]
  | getStatus_ | stream_ => [200; 400; 401; 404; 500]
  | cancel_ | submitResult_ | updateProgress_ => [204; 400; 401; 404; 409; 500]
  end.

(** Those its description leaves out. *)
Definition undocumented (e : endpoint) : list Z :=
  match e with
  | create_ => [400; 401; 409; 500]
  | getStatus_ | stream_ => [400; 401; 500]
  | cancel_ => [400; 401; 404; 500]
  | submitResult_ | updateProgress_ => [400; 404; 500]
  end.

(** The status a request is answered with. *)
Definition answer {SO : ScanOrder} {V : Validation} key E req w : option Z :=
  match (run E (serve key req) w).1 with
  | Some (Ok resp) => Some (response_status resp)
  | _ => None
  end.

Lemma answer_statuses {SO : ScanOrder} {V : Validation} key E req w :
  ∃ s, answer key E req w = Some s ∧ s ∈ statuses (endpoint_of (rq_route req)).
Proof.
  destruct (run_serve key E req w) as (resp & w' & Hr & Hc). unfold answer. rewrite Hr.
  exists (response_status resp). split; [done|]. destruct Hc as [H|(e & w1 & _ & Ha & -> & _)].
  - apply handle_success in H. destruct (rq_route req); simpl in H;
      [destruct H as [x ->]|destruct H as [x ->]|subst|destruct H as [x ->]|subst|subst]; simpl; set_solver.
  - unfold answered in Ha. destruct (rq_route req); simpl in *; set_solver.
Qed.

(** ** Requests that get each answer *)

Definition down_env : env :=
  mkEnv (λ _, fail_before) (λ _, 1%N) (λ n, Z.of_nat n) (λ _ _, "a") (λ _, ∅) (λ _, 0)
    (λ _ _, Ok JNull).

Definition create_body : json :=
  JObj [("type", JStr "report"); ("executorUrl", JStr "http://executor/run"); ("idempotencyKey", JStr "k")].

Definition result_body : json := JObj [("status", JStr "completed"); ("result", JObj [])].

Definition progress_body : json := JObj [("progress", JNum 40)].

(** Task ["a"] is PROCESSING, ["b"] is COMPLETED. *)
Definition answers_db : db :=
  sample_db [sample_row "a" PROCESSING (Some 1000) None (Some 500000);
             sample_row "b" COMPLETED (Some 1000) (Some 2000) None] [].

(** The key ["k"] is being used by a creation in flight. *)
Definition slot_taken : world :=
  (run calm_env (occupySlot "k" IDEMPOTENCY_TTL_SECONDS) (sample_world empty_db)).2.

Definition ask (r : route) : request := mkRequest r "/v1/tasks" (Some "key") (Some "Bearer secret").

(** For each endpoint and status: what happens in a sound world, an empty one, ... *)
Definition exhibits (e : endpoint) (s : Z) : env * request * world :=
  let on d r := (calm_env, ask r, sample_world d) in
  let forged d r := (calm_env, mkRequest r "/v1/tasks" None (Some "Bearer guess"), sample_world d) in
  let down r := (down_env, ask r, sample_world answers_db) in
  match e, s with
  | create_, 202 => on empty_db (PostTask create_body "http" (Some "proxy"))
  | create_, 400 => on empty_db (PostTask JNull "http" (Some "proxy"))
  | create_, 401 => forged empty_db (PostTask create_body "http" (Some "proxy"))
  | create_, 409 => (calm_env, ask (PostTask create_body "http" (Some "proxy")), slot_taken)
  | create_, _ => on empty_db (PostTask create_body "http" None)
  | getStatus_, 200 => on answers_db (GetTask "A")
  | getStatus_, 400 => on answers_db (GetTask "no uuid")
  | getStatus_, 401 => forged answers_db (GetTask "a")
  | getStatus_, 404 => on empty_db (GetTask "a")
  | getStatus_, _ => down (GetTask "a")
  | cancel_, 204 => on answers_db (DeleteTask "a")
  | cancel_, 400 => on answers_db (DeleteTask "no uuid")
  | cancel_, 401 => forged answers_db (DeleteTask "a")
  | cancel_, 404 => on empty_db (DeleteTask "a")
  | cancel_, 409 => on answers_db (DeleteTask "b")
  | cancel_, _ => down (DeleteTask "a")
  | stream_, 200 => on answers_db (GetStream "a" None)
  | stream_, 400 => on answers_db (GetStream "no uuid" None)
  | stream_, 401 => forged answers_db (GetStream "a" None)
  | stream_, 404 => on empty_db (GetStream "a" None)
  | stream_, _ => down (GetStream "a" None)
  | submitResult_, 204 => on answers_db (PostResult "a" result_body)
  | submitResult_, 400 => on answers_db (PostResult "a" JNull)
  | submitResult_, 401 => forged answers_db (PostResult "a" result_body)
  | submitResult_, 404 => on empty_db (PostResult "a" result_body)
  | submitResult_, 409 => on answers_db (PostResult "b" result_body)
  | submitResult_, _ => on answers_db (PostResult "no uuid" result_body)
  | updateProgress_, 204 => on answers_db (PatchProgress "a" progress_body)
  | updateProgress_, 400 => on answers_db (PatchProgress "a" JNull)
  | updateProgress_, 401 => forged answers_db (PatchProgress "a" progress_body)
  | updateProgress_, 404 => on empty_db (PatchProgress "a" progress_body)
  | updateProgress_, 409 => on answers_db (PatchProgress "b" progress_body)
  | updateProgress_, _ => on answers_db (PatchProgress "no uuid" progress_body)
  end.

Lemma exhibits_answer e s :
  s ∈ statuses e →
  let '(E, req, w) := exhibits e s in
  db_wf (w_db w) ∧ endpoint_of (rq_route req) = e ∧ answer (Some "key") E req w = Some s.
Proof.
  assert (We : db_wf empty_db) by exact empty_db_wf. assert (Wa : db_wf answers_db) by check_db.
  assert (Hs : w_db slot_taken = empty_db) by (vm_compute; reflexivity).
  destruct e; cbn [statuses]; rewrite !elem_of_cons, elem_of_nil;
    intros Hin; repeat (destruct Hin as [->|Hin]); try done;
    cbn [exhibits]; (split; [first [exact We|exact Wa|rewrite Hs; exact We]|]);
    (split; [reflexivity|vm_compute; reflexivity]).
Qed.

(** ** Properties *)

(** C15: what the API documents.  Every request is answered with a status of its
    endpoint, and each of these statuses is the answer to some request.  Provided
    the generator yields a schema for each body, the description of an endpoint has
    its success and only answers it gives, and leaves out exactly [undocumented]:
    400 and 500, 401 where the API key is asked for, 404 for cancellations and
    callbacks, and 409 for creations; and the published document has every endpoint
    but the stream, and is not served in production.  Each endpoint names the scheme
    of its guard, the API key or the bearer token, which the document does not
    declare. *)
Theorem statuses_documented {S : Type} (generateComponents : list (string * S) → object)
    (c cr tr sr up : S) :
  (∀ schema, is_Some (zodToOpenAPI generateComponents schema)) →
  (∀ (SO : ScanOrder) (V : Validation) key E req w,
     ∃ s, answer key E req w = Some s ∧ s ∈ statuses (endpoint_of (rq_route req))) ∧
  (∀ e s, s ∈ statuses e → ∃ E req w,
     db_wf (w_db w) ∧ endpoint_of (rq_route req) = e ∧ answer (Some "key") E req w = Some s) ∧
  (∀ e s, s ∈ statuses e ↔
     s ∈ documented generateComponents c cr tr sr up e ∨ s ∈ undocumented e) ∧
  (∀ e s, s ∈ documented generateComponents c cr tr sr up e → s ∉ undocumented e) ∧
  (∀ env e, e ∈ (default [] (snd <$> document generateComponents c cr tr sr up env)).*1 ↔
     env ≠ "production" ∧ e ≠ stream_) ∧
  (∀ r, security generateComponents c cr tr sr up (endpoint_of r)
        = [if client_route r then "api-key" else "bearer"]) ∧
  (∀ env doc, document generateComponents c cr tr sr up env = Some doc →
     securitySchemes doc.1 = []).
Proof.
  intros Hg.
  assert (D : ∀ e, documented generateComponents c cr tr sr up e =
    match e with
    | create_ => [202] | getStatus_ | stream_ => [200; 404] | cancel_ => [204; 409]
    | submitResult_ | updateProgress_ => [204; 401; 409]
    end).
  { unfold documented, metadata_of, create_metadata, getStatus_metadata, submitResult_metadata,
      updateProgress_metadata, ApiZodResponse, ParseBody_metadata.
    destruct (Hg c) as [? ->], (Hg cr) as [? ->], (Hg tr) as [? ->], (Hg sr) as [? ->], (Hg up) as [? ->].
    by intros []. }
  split_and!.
  - intros SO V. apply answer_statuses.
  - intros e s Hs. apply exhibits_answer in Hs. destruct (exhibits e s) as [[E req] w]. by exists E, req, w.
  - intros e s. rewrite D. destruct e; simpl; set_solver.
  - intros e s. rewrite D. destruct e; simpl; set_solver.
  - intros env e. unfold document. case_bool_decide; simpl; [set_solver|].
    destruct e; set_solver.
  - unfold security, metadata_of, create_metadata, getStatus_metadata, submitResult_metadata,
      updateProgress_metadata, ApiZodResponse, ParseBody_metadata, ApiZodBody.
    destruct (Hg c) as [? ->], (Hg cr) as [? ->], (Hg tr) as [? ->], (Hg sr) as [? ->], (Hg up) as [? ->].
    by intros [].
  - intros env doc. unfold document. case_bool_decide; [done|]. by intros [= <-].
Qed.

(** ** Instances *)

(** A generator that takes its schemas as they are. *)
Definition sample_generator (l : list (string * object)) : object :=
  [("components", JObj [("schemas", JObj ((λ '(k, s), (k, JObj s)) <$> l))])].

Lemma statuses_documented_witness :
  documented sample_generator [] [] [] [] [] cancel_ = [204; 409] ∧ 404 ∈ undocumented cancel_ ∧
  ∃ E req w, endpoint_of (rq_route req) = cancel_ ∧ answer (Some "key") E req w = Some 404.
Proof.
  destruct (statuses_documented sample_generator [] [] [] [] []) as (_ & He & _);
    [by intros schema; exists schema|].
  split; [reflexivity|]. split; [by right; right; left|].
  destruct (He cancel_ 404) as (E & req & w & _ & Hr & Ha); [by right; right; right; left|].
  exists E, req, w. split; [exact Hr|exact Ha].
Defined.

(** The fields of a query, one parameter each. *)
Lemma query_parameters :
  ParseQuery_metadata sample_generator true
    [("type", JStr "object");
     ("properties", JObj [("limit", JObj [("type", JStr "integer"); ("description", JStr "page size")]);
                          ("after", JObj [("type", JStr "string"); ("description", JStr "")])]);
     ("required", JArr [JStr "limit"])] =
  [ApiQuery "limit" true (JObj [("type", JStr "integer"); ("description", JStr "page size")]) (Some "page size");
   ApiQuery "after" false (JObj [("type", JStr "string"); ("description", JStr "")]) None].
Proof. reflexivity. Qed.
