(* ===== verification/Handlers.v ===== *)
(** * Handlers: everything that may run, and the operations it is made of

    A request is [serve]; a job of each queue and a cron tick are the workers; a
    connection of the stream queries the log.  [program_op] lists the operations
    the program is made of, with what is known of their arguments; every handler
    is shown to be made of them only, so that an invariant of the shared state has
    to be checked against this list, not against each handler. *)
From S2P Require Import Prelude Errors ExceptionFilter Schema Database EventsRepository TasksRepository KeyValue Effects HttpRetry Idempotency QueueAdapter ParseDecorators TasksService MaintenanceRepository MaintenanceWorkers JsString JsNumber CallbackAuth ExecutorService Workers Sse Http.

#[local] Open Scope Z_scope.

Section handlers.
Context {SO : ScanOrder} {V : Validation} (proxyApiKey : option string).

(** The history query of a connection. *)
Definition history (taskId : string) (afterSeq : Z) : prog unit :=
  let! _ := await (DbTx (λ _, findEventsSince taskId afterSeq)) in Ret tt.

Inductive handler : prog unit → Prop :=
| h_request req : handler (serve proxyApiKey req ;! Ret tt)
| h_history i a : handler (history i a)
| h_dispatch i t : handler (dispatch i t)
| h_cancel_job i u : handler (cancel_notification_at i u)
| h_webhook_job i : handler (webhook_delivery i)
| h_sweep fuel : handler (sweep fuel)
| h_retain fuel days : handler (retain fuel days).

(** ** The operations *)

(** What may be logged, sent and enqueued. *)
Record allowance : Type := mkAllowance {
  al_event : InsertEventInput → Prop;
  al_post : http_request → Prop;
  al_job : job → Prop }.

Definition allowed_in (a b : allowance) : Prop :=
  (∀ x, al_event a x → al_event b x) ∧ (∀ x, al_post a x → al_post b x) ∧
  (∀ x, al_job a x → al_job b x).

Definition reads {A} (t : dbctx → sql A) : Prop :=
  ∀ c d o d', db_wf d → t c d = (o, d') → d' = d.

Inductive program_op (al : allowance) : ∀ X, io X → Prop :=
| op_now : program_op al _ Now
| op_uuid : program_op al _ RandomUUID
| op_random : program_op al _ Random200
| op_sleep ms : program_op al _ (Sleep ms)
| op_redis A (f : Z → kv → A * kv) : program_op al _ (RedisCmd f)
| op_publish c ev : program_op al _ (Publish c ev)
| op_job j : al_job al j → program_op al _ (QueueAdd j)
| op_post r : al_post al r → program_op al _ (HttpPost r)
| op_insert dto now token :
    CreateTaskSchema isURL dto = true → program_op al _ (DbTx (λ c, insert c (new_task dto now token)))
| op_delete i : program_op al _ (DbTx (λ _, deleteById i))
| op_start i now t :
    program_op al _ (DbTx (λ c, updateStatus c i (inl PENDING) PROCESSING (started_sets now t)))
| op_finish i dto now :
    SubmitResultSchema dto = true →
    program_op al _ (DbTx (λ c, updateStatus c i (inl PROCESSING) (to_status dto) (result_sets dto now)))
| op_give_up i now err :
    is_http_retry_error err = true →
    program_op al _ (DbTx (λ c, updateStatus c i (inl PROCESSING) FAILED
      [Set_completedAt (Some now); Set_error (Some (dispatch_error err))]))
| op_progress i p :
    0 ≤ p ≤ 100 → program_op al _ (DbTx (λ c, TasksRepository.updateProgress c i p))
| op_cancel i : program_op al _ (DbTx (λ c, cancelTask c i))
| op_event input : al_event al input → program_op al _ (DbTx (λ c, insertEvent c input))
| op_expire now n : program_op al _ (DbTx (expire_tx now n))
| op_purge ids : program_op al _ (DbTx (λ _, delete_batch ids))
| op_read A (t : dbctx → sql A) : reads t → program_op al _ (DbTx t).

Definition made_of (al : allowance) {A} (p : prog A) : Prop := all_ops (program_op al) p.

Lemma program_op_mono a b X (op : io X) : allowed_in a b → program_op a X op → program_op b X op.
Proof. intros (H1 & H2 & H3). destruct 1; solve [constructor; auto]. Qed.

Lemma made_of_mono {A} a b (p : prog A) : allowed_in a b → made_of a p → made_of b p.
Proof. intros Hab. apply all_ops_mono. intros X op. by apply program_op_mono. Qed.

(** ** Structure *)

Lemma made_of_bind {A B} al (p : prog A) (f : A → prog B) :
  made_of al p → (∀ a, made_of al (f a)) → made_of al (bind p f).
Proof. apply all_ops_bind. Qed.

Lemma made_of_catch {A} al (p : prog A) h :
  made_of al p → (∀ e, made_of al (h e)) → made_of al (catch p h).
Proof. apply all_ops_catch. Qed.

Lemma made_of_finally {A} al (p : prog A) f :
  made_of al p → made_of al f → made_of al (finally p f).
Proof. apply all_ops_finally. Qed.

Lemma made_of_lift {A} al (r : res A) : made_of al (lift r).
Proof. by destruct r. Qed.

(** Continue only with the values a fallible computation may return. *)
Lemma made_of_lift_bind {A B} al (r : res A) (f : A → prog B) :
  (∀ a, r = Ok a → made_of al (f a)) → made_of al (bind (lift r) f).
Proof. destruct r; simpl; auto. by intros. Qed.

Lemma made_of_post al url body headers opts :
  al_post al (request_of url body headers opts) → made_of al (post url body headers opts).
Proof.
  intros Hal. unfold post. fold (request_of url body headers opts).
  generalize (nullish (attempts opts) 3) at 2 as n. generalize 0.
  generalize (None : option Z). generalize (None : option exn).
  induction (Z.to_nat (nullish (attempts opts) 3)) as [|k IH]; intros e s a n; [done|].
  split; [by constructor|]. intros [b|err] _; [done|]. cbv zeta.
  assert (N : ∀ s', made_of al (if bool_decide (a = n - 1)
     then Throw (DispatchFailedError url n (Some err) s')
     else let! jitter := await Random200 in
          await (Sleep (computeDelay a (nullish (baseDelayMs opts) 500) (nullish (maxDelayMs opts) 30000) jitter)) ;!
          post_loop k url (request_of url body headers opts) n (nullish (baseDelayMs opts) 500)
            (nullish (maxDelayMs opts) 30000) (a + 1) (Some err) s')).
  { intros s'. destruct (bool_decide _); [done|].
    apply made_of_bind; [apply all_ops_await; constructor|intros j].
    apply made_of_bind; [apply all_ops_await; constructor|intros _]. apply IH. }
  repeat case_goal; try done; apply N.
Qed.

(** A POST whose failure is handled. *)
Lemma made_of_post_catch {A} al url body headers opts (k : json → prog A) h :
  al_post al (request_of url body headers opts) → (∀ b, made_of al (k b)) →
  (∀ b, outcomes (λ r, is_ok r = true) (k b)) →
  (∀ e, is_http_retry_error e = true → made_of al (h e)) →
  made_of al (catch (let! b := post url body headers opts in k b) h).
Proof.
  intros Hal Hk Ho Hh. apply all_ops_catch_outcomes.
  - apply all_ops_bind; [by apply made_of_post|done].
  - apply outcomes_bind. eapply outcomes_mono; [|apply post_errors].
    intros [b|e] He; [|by apply Hh].
    eapply outcomes_mono; [|apply Ho]. by intros [].
Qed.

(** ** What each handler is allowed *)

Definition nothing : allowance := mkAllowance (λ _, False) (λ _, False) (λ _, False).

(** A job lies on the queue whose worker expects its data; a dispatch job is never
    retried by BullMQ. *)
Definition addressed (j : job) : bool :=
  match job_payload j with
  | DispatchJobData _ _ =>
      bool_decide (job_queue j = DISPATCH_QUEUE) && (o_attempts (job_options j) =? 1)
  | CancelJobData _ => bool_decide (job_queue j = "cancel")
  | WebhookJobData _ => bool_decide (job_queue j = "webhook")
  end.

Definition jobs_only (ok : job_data → Prop) : allowance :=
  mkAllowance (λ _, False) (λ _, False) (λ j, ok (job_payload j) ∧ addressed j = true).

Definition posts_only (ok : json → Prop) : allowance :=
  mkAllowance (λ _, False) (λ r, ok (hr_body r)) (λ _, False).

(** Inputs the API produces from validated bodies; the [cancelled] event is written
    by [cancelTask] only. *)
Definition valid_event (input : InsertEventInput) : Prop :=
  match input with
  | ProgressEventInput _ p => 0 ≤ p ≤ 100
  | CompletedEventInput _ d => ∃ fields, d = JObj fields
  | FailedEventInput _ e => TaskErrorSchema e = true
  | CancelledEventInput _ => False
  end.

Definition create_al : allowance := jobs_only (λ d, ∃ i t, d = DispatchJobData i t).
Definition cancel_al : allowance := jobs_only (λ d, ∃ i, d = CancelJobData i).
Definition result_al (i : string) (dto : SubmitResultDto) : allowance :=
  mkAllowance (λ input, input = result_event i dto ∧ valid_event input) (λ _, False)
    (λ j, job_payload j = WebhookJobData i ∧ addressed j = true).
Definition progress_al (i : string) : allowance :=
  mkAllowance (λ input, (∃ p, input = ProgressEventInput i p) ∧ valid_event input) (λ _, False)
    (λ _, False).
Definition dispatch_al (i : string) : allowance := posts_only (λ b, ∃ task, b = dispatch_body i task).
Definition notify_al (i : string) : allowance := posts_only (λ b, b = JObj [("taskId", JStr i)]).
Definition webhook_al : allowance := posts_only (λ b, ∃ task, b = webhook_body task).

(** The allowance of the whole program. *)
Definition program_al : allowance := mkAllowance valid_event (λ _, True) (λ _, True).

Lemma result_event_valid i dto : SubmitResultSchema dto = true → valid_event (result_event i dto).
Proof. destruct dto as [[]|]; simpl; eauto; done. Qed.
End handlers.

(** Follow the structure of a handler down to its operations. *)
Ltac made_step :=
  lazymatch goal with
  | |- program_op _ _ _ => constructor
  | |- made_of _ (Ret _) => exact I
  | |- made_of _ (Throw _) => exact I
  | |- made_of _ OutOfFuel => exact I
  | |- made_of _ (lift _) => apply made_of_lift
  | |- made_of _ (await _) => apply all_ops_await
  | |- made_of _ (finally _ _) => apply made_of_finally
  | |- made_of _ (bind (lift _) _) => apply made_of_lift_bind; intros ? ?
  | |- made_of _ (catch (bind (post _ _ _ _) _) _) =>
      apply made_of_post_catch; [|by intros ?|by intros ?|intros ? ?]
  | |- made_of _ (bind _ _) => apply made_of_bind; [|intros ?]
  | |- made_of _ (catch _ _) => apply made_of_catch; [|intros ?]
  | |- made_of _ _ => case_goal
  end.

Section made_of.
Context {SO : ScanOrder} {V : Validation} (proxyApiKey : option string).

Lemma findById_text_read i : reads (λ _, findById_text i).
Proof. intros c d o d' W. by apply findById_text_reads. Qed.

Lemma findById_read i : reads (λ _, findById i).
Proof. intros c d o d' W. by apply findById_reads. Qed.

Lemma findEventsSince_read i a : reads (λ _, findEventsSince i a).
Proof.
  intros c d o d' W. unfold findEventsSince, sbind, select_events, sret, sfail.
  case_match; by intros [= _ <-].
Qed.

Lemma create_made_of dto url :
  CreateTaskSchema isURL dto = true → made_of create_al (create dto url).
Proof.
  intros Hd. unfold create, create_task, insert_step, enqueue_step, release_quietly, commit_quietly,
    occupySlot, commitResult, releaseSlot, enqueue. repeat made_step; try done; simpl; eauto.
Qed.

Lemma cancel_made_of i u : made_of cancel_al (cancel_at i u).
Proof. unfold cancel_at, enqueue. repeat made_step; try apply findById_read; simpl; eauto. Qed.

Lemma submitResult_made_of task dto :
  SubmitResultSchema dto = true → made_of (result_al (id task) dto) (submitResult task dto).
Proof.
  intros Hd. unfold submitResult, publish, notify_webhook, enqueue. repeat made_step; try done.
  split; [done|by apply result_event_valid].
Qed.

Lemma updateProgress_made_of task dto :
  UpdateProgressSchema dto = true → made_of (progress_al (id task)) (updateProgress task dto).
Proof.
  unfold UpdateProgressSchema. rewrite andb_true_iff, !Z.leb_le. intros Hd.
  unfold updateProgress, publish. repeat made_step; try done. split; [by eexists|done].
Qed.

Lemma dispatch_made_of i t : made_of (dispatch_al i) (dispatch i t).
Proof.
  unfold dispatch. repeat made_step; simpl; eauto. unfold dispatch_recover.
  replace (is_http_retry_error e) with true. by repeat made_step.
Qed.

Lemma notification_made_of i u : made_of (notify_al i) (cancel_notification_at i u).
Proof. unfold cancel_notification_at. repeat made_step; try apply findById_read; done. Qed.

Lemma webhook_made_of i : made_of webhook_al (webhook_delivery i).
Proof.
  unfold webhook_delivery. repeat made_step; try apply findById_read; simpl; eauto; done.
Qed.

Lemma publish_all_made_of al evs : made_of al (publish_all evs).
Proof. induction evs as [|e evs IH]; cbn [publish_all]; repeat made_step; apply IH. Qed.

Lemma sweep_made_of fuel : made_of nothing (sweep fuel).
Proof.
  unfold sweep. apply made_of_bind; [|done]. generalize 0.
  induction fuel as [|fuel IH]; intros n; [done|]. cbn [sweep_loop].
  unfold expireTimedOutTasksBatch. repeat made_step; [apply publish_all_made_of|apply IH].
Qed.

Lemma select_tasks_limit_read wh n : reads (λ _, select_tasks_limit wh n).
Proof. unfold select_tasks_limit. by intros c d o d' W [= _ <-]. Qed.

Lemma retain_made_of fuel days : made_of nothing (retain fuel days).
Proof.
  unfold retain, deleteOldData. apply made_of_bind; [|done]. made_step; [by repeat made_step|].
  cbv zeta. generalize (mkRetentionResult 0 0), (retention_cutoff a days). intros acc cutoff.
  revert acc. induction fuel as [|fuel IH]; intros acc; [done|]. cbn [delete_loop]. cbv zeta.
  repeat made_step; try apply IH. apply select_tasks_limit_read.
Qed.

Lemma history_made_of i a : made_of nothing (history i a).
Proof. unfold history. repeat made_step. apply findEventsSince_read. Qed.

Lemma callback_guard_made_of req i : made_of nothing (callback_guard req i).
Proof.
  unfold callback_guard, canActivate_by. repeat made_step. apply findById_text_read.
Qed.

Lemma nothing_allowed al : allowed_in nothing al.
Proof. by split_and!. Qed.

Lemma rethrown_ok {A} (r : res A) a : rethrown r = Ok a → r = Ok a.
Proof. destruct r as [|[]]; simpl; congruence. Qed.

(** What a request may log, send and enqueue. *)
Definition route_al (r : route) : allowance :=
  match r with
  | PostTask _ _ _ => create_al
  | DeleteTask _ => cancel_al
  | GetTask _ | GetStream _ _ => nothing
  | PostResult _ _ =>
      mkAllowance valid_event (λ _, False)
        (λ j, (∃ i, job_payload j = WebhookJobData i) ∧ addressed j = true)
  | PatchProgress _ _ =>
      mkAllowance (λ input, (∃ i p, input = ProgressEventInput i p) ∧ valid_event input)
        (λ _, False) (λ _, False)
  end.

Lemma handle_made_of req : made_of (route_al (rq_route req)) (handle proxyApiKey req).
Proof.
  unfold_handle; unfold api_key_guard. destruct (rq_route req) as [b p h|i|i|i l|i b|i b]; cbn [route_al].
  - made_step. apply made_of_lift_bind. intros dto Hd%rethrown_ok%parse_create_ok.
    unfold create_handler. repeat made_step. by apply create_made_of.
  - unfold getStatus_handler_at, getStatus_at. repeat made_step. apply findById_read.
  - made_step. made_step. apply made_of_bind; [apply cancel_made_of|done].
  - unfold stream_at. repeat made_step. apply findById_read.
  - apply made_of_bind; [eapply made_of_mono, callback_guard_made_of; apply nothing_allowed|].
    intros task. made_step. apply made_of_lift_bind. intros dto Hd%rethrown_ok%parse_result_ok.
    apply made_of_bind; [|done]. eapply made_of_mono; [|by apply submitResult_made_of].
    split_and!; simpl; [by intros ? [_ ?]|done|by intros ? [? ?]; eauto].
  - apply made_of_bind; [eapply made_of_mono, callback_guard_made_of; apply nothing_allowed|].
    intros task. made_step. apply made_of_lift_bind. intros dto Hd%rethrown_ok%parse_progress_ok.
    apply made_of_bind; [|done]. eapply made_of_mono; [|by apply updateProgress_made_of].
    split_and!; simpl; [|done|done]. intros input [[p ->] ?]. eauto.
Qed.

Lemma serve_made_of req : made_of (route_al (rq_route req)) (serve proxyApiKey req ;! Ret tt).
Proof.
  apply made_of_bind; [|done]. unfold serve. apply made_of_catch; [apply handle_made_of|].
  intros e. repeat made_step.
Qed.

(** Every handler is made of the operations of [program_op]. *)
Lemma handlers_made_of p : handler proxyApiKey p → made_of program_al p.
Proof.
  destruct 1 as [req| | | | | |]; (eapply made_of_mono; [|first
    [ apply serve_made_of | apply history_made_of | apply dispatch_made_of
    | apply notification_made_of | apply webhook_made_of | apply sweep_made_of
    | apply retain_made_of ]]); try (by split_and!).
  destruct (rq_route req); split_and!; try done. by intros input [_ ?].
Qed.

(** Every job is enqueued where its worker is. *)
Definition addressed_al : allowance :=
  mkAllowance (λ _, True) (λ _, True) (λ j, addressed j = true).

Lemma handlers_addressed p : handler proxyApiKey p → made_of addressed_al p.
Proof.
  destruct 1 as [req| | | | | |]; (eapply made_of_mono; [|first
    [ apply serve_made_of | apply history_made_of | apply dispatch_made_of
    | apply notification_made_of | apply webhook_made_of | apply sweep_made_of
    | apply retain_made_of ]]); try (by split_and!).
  destruct (rq_route req); split_and!; simpl; try done; by intros j [_ ?].
Qed.

(** An invariant of the world that every operation keeps holds in every execution. *)
Lemma program_invariant E (Inv : world → Prop) w0 c :
  Inv w0 → (∀ X (op : io X), program_op program_al X op → op_keeps E Inv X op) →
  reachable E (handler proxyApiKey) w0 c → Inv (the_world c).
Proof.
  intros H0 Hop. apply reachable_invariant; [done|]. intros p Hp%handlers_made_of.
  by eapply all_ops_mono.
Qed.
End made_of.
