(* ===== verification/Tokens.v ===== *)
(** * Tokens: callback tokens are opaque

    A callback token is drawn when a task is created, sent to the executor in an
    [Authorization] header, and compared with what a callback presents.  Nothing
    else depends on it: executions are equivariant under renamings of the tokens.
    If every stored token is replaced by its image under an injection, and executors
    present and are sent the images, then every response, message, job, webhook and
    table column is the same. *)
From S2P Require Import Prelude Errors ExceptionFilter Schema Database EventsRepository TasksRepository KeyValue Effects Samples HttpRetry Idempotency QueueAdapter ParseDecorators TasksService MaintenanceRepository MaintenanceWorkers JsString JsNumber CallbackAuth ExecutorService Workers Sse Http Handlers.

#[local] Open Scope Z_scope.

(** ** Renaming *)
Section renaming.
Context (f : string → string).

Definition ren_row (r : TaskRow) : TaskRow :=
  {| id := id r; idempotencyKey := idempotencyKey r; status := status r; type := type r;
     payload := payload r; executorUrl := executorUrl r; callbackToken := f <$> callbackToken r;
     webhookUrl := webhookUrl r; cancelUrl := cancelUrl r; result := result r;
     error := error r; progress := progress r; timeoutSeconds := timeoutSeconds r;
     processingStartedAt := processingStartedAt r; expiresAt := expiresAt r;
     completedAt := completedAt r; createdAt := createdAt r; updatedAt := updatedAt r |}.

Definition ren_db (d : db) : db := mkDb (ren_row <$> tasks d) (task_events d).

(** Bearer credentials of the requests sent. *)
Definition ren_header (h : string * string) : string * string :=
  if bool_decide (h.1 = "Authorization")
  then match strip_prefix "Bearer " h.2 with
       | Some t => (h.1, "Bearer " +:+ f t)
       | None => h
       end
  else h.

Definition ren_http (r : http_request) : http_request :=
  mkHttpRequest (hr_url r) (hr_body r) (ren_header <$> hr_headers r) (hr_timeoutMs r).

Definition ren_world (w : world) : world :=
  mkWorld (ren_db (w_db w)) (w_redis w) (w_published w) (w_jobs w)
    ((λ ra, (ren_http ra.1, ra.2)) <$> w_http w) (w_slept w) (w_now w) (w_step w).

(** A callback presents the image of its credential; another request is the same. *)
Definition ren_authorization (a : option string) : option string :=
  match extractBearerToken a with
  | Some t => Some ("Bearer " +:+ f t)
  | None => a
  end.

Definition ren_request (rq : request) : request :=
  if client_route (rq_route rq) then rq
  else mkRequest (rq_route rq) (rq_url rq) (rq_x_api_key rq) (ren_authorization (rq_authorization rq)).

(** The same environment, but for the peers of the POSTs. *)
Definition with_http (E : env) (http : nat → http_request → outcome http_err json) : env :=
  mkEnv (e_fault E) (e_tick E) (e_db_clock E) (e_uuid E) (e_locked E) (e_random E) http.

(** Stored and presented tokens are renamed alike; those drawn later are kept. *)
Record renaming (E : env) : Prop := {
  rn_inj : Inj (=) (=) f;
  rn_empty : f "" = "";
  rn_trim s : trim (f (trim s)) = f (trim s);
  rn_generated n k : f (e_uuid E n k) = e_uuid E n k }.
End renaming.

Definition res_map {A B} (h : A → B) (r : res A) : res B :=
  match r with Ok a => Ok (h a) | Err e => Err e end.

Lemma res_map_id {A} (r : res A) : res_map (λ a, a) r = r.
Proof. by destruct r. Qed.

(** ** Statements *)
Section statements.
Context {SO : ScanOrder} (f : string → string).
(** The scan order of the tables does not depend on the tokens. *)
Context (order : ∀ m, scan_order (ren_row f <$> m) = scan_order m).

#[local] Abbreviation ren := (ren_row f).

(** [t'], on the renamed tables, does what [t] does. *)
Definition sql_tracks {A B} (h : A → B) (t : sql A) (t' : sql B) : Prop :=
  ∀ d, t' (ren_db f d) = let '(r, d1) := t d in (res_map h r, ren_db f d1).

Definition blind (wh : TaskRow → bool) : Prop := ∀ r, wh (ren r) = wh r.

Lemma sret_tracks {A B} (h : A → B) a : sql_tracks h (sret a) (sret (h a)).
Proof. by intros d. Qed.

Lemma sbind_tracks {A A' B B'} (g : A → A') (h : B → B') m m' k k' :
  sql_tracks g m m' → (∀ a, sql_tracks h (k a) (k' (g a))) → sql_tracks h (sbind m k) (sbind m' k').
Proof.
  intros Hm Hk d. unfold sbind. rewrite Hm. destruct (m d) as [[a|e] d1]; simpl; [apply Hk|done].
Qed.

Lemma transaction_tracks {A B} (h : A → B) t t' :
  sql_tracks h t t' → sql_tracks h (transaction t) (transaction t').
Proof. intros Ht d. unfold transaction. rewrite Ht. by destruct (t d) as [[a|e] d1]. Qed.

Lemma rows_renamed d : rows (ren_db f d) = ren <$> rows d.
Proof.
  unfold rows. simpl. rewrite order. induction (scan_order (tasks d)) as [|i l IH]; [done|].
  csimpl. rewrite lookup_fmap. destruct (tasks d !! i); csimpl; [|done]. by rewrite IH.
Qed.

Lemma filter_renamed (P Q : TaskRow → Prop) `{∀ r, Decision (P r)} `{∀ r, Decision (Q r)} (l : list TaskRow) :
  (∀ r, P (ren r) ↔ Q r) → filter P (ren <$> l) = ren <$> filter Q l.
Proof.
  intros HP. induction l as [|r l IH]; [done|]. csimpl. rewrite !filter_cons.
  specialize (HP r). destruct (decide (P (ren r))), (decide (Q r)); try tauto; csimpl; by rewrite IH.
Qed.

Lemma selected_renamed wh d :
  blind wh → filter (λ r, wh r = true) (rows (ren_db f d)) = ren <$> filter (λ r, wh r = true) (rows d).
Proof. intros Hw. rewrite rows_renamed. apply filter_renamed. intros r. by rewrite Hw. Qed.

Lemma select_tasks_limit_tracks wh n :
  blind wh → sql_tracks (fmap ren) (select_tasks_limit wh n) (select_tasks_limit wh n).
Proof.
  intros Hw d. unfold select_tasks_limit. rewrite selected_renamed by done. by rewrite firstn_map.
Qed.

Lemma select_ids_tracks locked wh n :
  blind wh → sql_tracks (λ l, l) (select_ids_skip_locked locked wh n) (select_ids_skip_locked locked wh n).
Proof.
  intros Hw d. unfold select_ids_skip_locked. rewrite rows_renamed. simpl. do 2 f_equal.
  rewrite (filter_renamed _ (λ r, wh r = true ∧ id r ∉ locked)) by (intros r; by rewrite Hw).
  rewrite firstn_map, <-list_fmap_compose. by apply list_fmap_ext.
Qed.

Lemma update_row_renamed now sets r : ren (update_row now sets r) = update_row now sets (ren r).
Proof.
  unfold update_row. assert (H : ∀ r, ren (foldl apply_set r sets) = foldl apply_set (ren r) sets).
  { clear r. induction sets as [|s sets IH]; intros r; [done|]. simpl. rewrite IH. by destruct s. }
  rewrite <-H. done.
Qed.

Lemma row_error_renamed r : task_row_error (ren r) = task_row_error r.
Proof. done. Qed.

Lemma update_tasks_tracks now sets wh :
  blind wh → sql_tracks (fmap ren) (update_tasks now sets wh) (update_tasks now sets wh).
Proof.
  intros Hw d. unfold update_tasks.
  assert (Hn : updated_rows now sets wh (ren_db f d) = ren <$> updated_rows now sets wh d).
  { unfold updated_rows. rewrite selected_renamed by done. rewrite <-!list_fmap_compose.
    apply list_fmap_ext. intros _ r _. symmetry. apply update_row_renamed. }
  rewrite Hn. assert (He : omap task_row_error (ren <$> updated_rows now sets wh d)
                           = omap task_row_error (updated_rows now sets wh d)).
  { clear Hn. induction (updated_rows now sets wh d) as [|r l IH]; [done|]. csimpl. by rewrite IH. }
  rewrite He. destruct (head _); [done|]. simpl. f_equal. unfold ren_db. simpl. f_equal.
  rewrite <-!map_fmap_compose. apply map_fmap_ext. intros i r _. simpl. rewrite Hw.
  destruct (wh r); [|done]. symmetry. apply update_row_renamed.
Qed.

Lemma delete_tasks_tracks wh :
  blind wh → sql_tracks (fmap ren) (delete_tasks wh) (delete_tasks wh).
Proof.
  intros Hw d. unfold delete_tasks. rewrite selected_renamed by done. simpl. f_equal.
  unfold ren_db. simpl. f_equal. rewrite map_filter_fmap. f_equal.
  apply map_filter_ext. intros i r _. simpl. by rewrite Hw.
Qed.

Lemma insert_task_tracks r : sql_tracks ren (insert_task r) (insert_task (ren r)).
Proof.
  intros d. unfold insert_task. rewrite row_error_renamed. destruct (task_row_error r); [done|]. simpl.
  rewrite lookup_fmap, (bool_decide_ext _ (is_Some (tasks d !! id r))) by apply fmap_is_Some.
  case_bool_decide; [done|].
  assert (Hk : key_taken (idempotencyKey r) (ren_db f d) = key_taken (idempotencyKey r) d).
  { unfold key_taken. destruct (idempotencyKey r) as [k|]; [|done]. rewrite rows_renamed.
    induction (rows d) as [|x l IH]; [done|]. csimpl. by rewrite IH. }
  rewrite Hk. destruct (key_taken _ d); [done|]. f_equal. unfold ren_db. simpl. by rewrite fmap_insert.
Qed.

(** Statements on events see the same log. *)
Definition on_log {A} (t : sql A) : Prop :=
  ∀ d m, t (mkDb m (task_events d)) = let '(r, d1) := t d in (r, mkDb m (task_events d1)).

Lemma on_log_tracks {A} (t : sql A) : on_log t → (∀ d, tasks (t d).2 = tasks d) → sql_tracks (λ a, a) t t.
Proof.
  intros Hl Ht d. unfold ren_db at 1. rewrite Hl. specialize (Ht d).
  destruct (t d) as [r d1]. simpl in *. rewrite res_map_id. unfold ren_db. by rewrite Ht.
Qed.

Lemma event_statements_track :
  (∀ wh, sql_tracks (λ l, l) (select_events wh) (select_events wh)) ∧
  (∀ wh, sql_tracks (λ l, l) (delete_events wh) (delete_events wh)) ∧
  (∀ e, sql_tracks (λ e, e) (insert_event_row e) (insert_event_row e)).
Proof.
  split_and!; intros *; apply on_log_tracks; try done; unfold insert_event_row, event_conflict;
    intros d; try intros m; simpl; repeat case_match; simplify_eq/=; done.
Qed.
End statements.

(** ** The repositories *)
Section repositories.
Context {SO : ScanOrder} (f : string → string).
Context (order : ∀ m, scan_order (ren_row f <$> m) = scan_order m).

#[local] Abbreviation ren := (ren_row f).

Lemma first_tracks (t : sql (list TaskRow)) :
  sql_tracks f (fmap ren) t t →
  sql_tracks f (fmap ren) (let$ l := t in sret (head l)) (let$ l := t in sret (head l)).
Proof.
  intros Ht. eapply sbind_tracks; [exact Ht|]. intros l.
  replace (head (ren <$> l)) with (ren <$> head l) by (by destruct l). apply sret_tracks.
Qed.

Lemma findById_tracks i : sql_tracks f (fmap ren) (findById i) (findById i).
Proof. apply first_tracks. by apply select_tasks_limit_tracks. Qed.

Lemma updateStatus_tracks c i from to extra :
  sql_tracks f (fmap ren) (updateStatus c i from to extra) (updateStatus c i from to extra).
Proof. apply first_tracks. apply update_tasks_tracks; [done|]. by destruct from. Qed.

Lemma unit_tracks {A B} (h : A → B) t t' :
  sql_tracks f h t t' → sql_tracks f (λ u : unit, u) (let$ _ := t in sret tt) (let$ _ := t' in sret tt).
Proof. intros Ht. eapply sbind_tracks; [exact Ht|]. intros _. apply (sret_tracks f (λ u, u)). Qed.

Lemma deleteById_tracks i : sql_tracks f (λ u, u) (deleteById i) (deleteById i).
Proof. eapply unit_tracks. by apply delete_tasks_tracks. Qed.

Lemma updateProgress_tracks c i p :
  sql_tracks f (λ u, u) (TasksRepository.updateProgress c i p) (TasksRepository.updateProgress c i p).
Proof. eapply unit_tracks. by apply update_tasks_tracks. Qed.

Lemma insertEventInTx_tracks c input :
  sql_tracks f (λ e, e) (insertEventInTx c input) (insertEventInTx c input).
Proof.
  destruct (event_statements_track f) as (Hs & _ & Hi). unfold insertEventInTx, next_seq.
  eapply sbind_tracks; [|intros n; apply Hi]. eapply sbind_tracks; [apply Hs|].
  intros l. apply (sret_tracks f (λ n, n)).
Qed.

Lemma insertEvent_tracks c input :
  sql_tracks f (λ e, e) (insertEvent c input) (insertEvent c input).
Proof. apply transaction_tracks, insertEventInTx_tracks. Qed.

Lemma cancelTask_tracks c i :
  sql_tracks f (fmap (λ te : TaskRow * TaskEventRow, (ren te.1, te.2))) (cancelTask c i) (cancelTask c i).
Proof.
  apply transaction_tracks. eapply sbind_tracks; [by apply update_tasks_tracks|].
  intros [|task l]; csimpl; [by intros d|]. eapply sbind_tracks; [apply insertEventInTx_tracks|].
  by intros e d.
Qed.

Lemma insert_tracks c dto now token :
  sql_tracks f ren (insert c (new_task dto now token)) (insert c (new_task dto now (f token))).
Proof. apply (insert_task_tracks f order). Qed.

Lemma insert_event_rows_tracks evs :
  sql_tracks f (λ l, l) (insert_event_rows evs) (insert_event_rows evs).
Proof.
  destruct (event_statements_track f) as (_ & _ & Hi).
  induction evs as [|e evs IH]; cbn [insert_event_rows]; [by intros d|].
  eapply sbind_tracks; [apply Hi|intros e']. eapply sbind_tracks; [exact IH|intros l].
  apply (sret_tracks f (λ l, l)).
Qed.

Lemma bulk_insert_tracks c ids :
  sql_tracks f (λ l, l) (bulk_insert_events c ids) (bulk_insert_events c ids).
Proof. intros d. apply (insert_event_rows_tracks (imap (bulk_event c ids d) ids)). Qed.

Lemma expire_tx_tracks now n c : sql_tracks f (λ x, x) (expire_tx now n c) (expire_tx now n c).
Proof.
  apply transaction_tracks. eapply sbind_tracks; [by apply (select_ids_tracks f order)|].
  intros ids. eapply sbind_tracks; [by apply (update_tasks_tracks f order)|].
  intros [|r l]; csimpl; [by intros d|].
  assert (Hid : id <$> (ren <$> l) = id <$> l).
  { rewrite <-list_fmap_compose. by apply list_fmap_ext. }
  rewrite Hid, length_fmap. eapply sbind_tracks; [apply bulk_insert_tracks|].
  intros evs. apply (sret_tracks f (λ x, x)).
Qed.

Lemma delete_batch_tracks ids :
  sql_tracks f (λ x, (x.1, ren <$> x.2)) (delete_batch ids) (delete_batch ids).
Proof.
  destruct (event_statements_track f) as (_ & Hd & _). apply transaction_tracks.
  eapply sbind_tracks; [apply Hd|]. intros evs.
  eapply sbind_tracks; [by apply (delete_tasks_tracks f order)|]. by intros l d.
Qed.

Lemma findEventsSince_tracks i a :
  sql_tracks f (λ l, l) (findEventsSince i a) (findEventsSince i a).
Proof.
  destruct (event_statements_track f) as (Hs & _ & _). unfold findEventsSince. case_match.
  - eapply sbind_tracks; [apply Hs|]. intros l. apply (sret_tracks f (λ l, l)).
  - by intros d.
Qed.
End repositories.

(** ** Programs *)
Section programs.
Context {SO : ScanOrder} (f : string → string) (E : env).
Context (http : nat → http_request → outcome http_err json).
Context (peers : ∀ n r, http n (ren_http f r) = e_http E n r).
Context (R : renaming f E).

#[local] Abbreviation E' := (with_http E http).

(** [op'], in the renamed world, does what [op] does. *)
Definition op_tracks {X Y} (h : X → Y) (op : io X) (op' : io Y) : Prop :=
  ∀ w, exec_op E' op' (ren_world f w) =
       let '(r, w1) := exec_op E op w in (res_map h r, ren_world f w1).

(** [p'] is [p] with the replies and the result renamed. *)
Fixpoint tracks {A B} (g : A → B) (p : prog A) (p' : prog B) : Prop :=
  match p, p' with
  | Ret a, Ret b => b = g a
  | Throw e, Throw e' => e' = e
  | OutOfFuel, OutOfFuel => True
  | @Vis _ X op k, @Vis _ Y op' k' =>
      ∃ h : X → Y, op_tracks h op op' ∧ ∀ r, tracks g (k r) (k' (res_map h r))
  | _, _ => False
  end.

Lemma run_tracks {A B} (g : A → B) p p' w :
  tracks g p p' →
  run E' p' (ren_world f w) = let '(o, w1) := run E p w in (res_map g <$> o, ren_world f w1).
Proof.
  revert p' w. induction p as [a|e| |X op k IH]; intros [b|e'| |Y op' k'] w; simpl; try done.
  - by intros ->.
  - by intros ->.
  - intros (h & Ho & Hk). rewrite Ho. destruct (exec_op E op w) as [r w1]. apply IH, Hk.
Qed.

Lemma tracks_bind {A A' B B'} (g : A → A') (h : B → B') p p' k k' :
  tracks g p p' → (∀ a, tracks h (k a) (k' (g a))) → tracks h (bind p k) (bind p' k').
Proof.
  revert p'. induction p as [a|e| |X op q IH]; intros [b|e'| |Y op' q']; simpl; try done.
  - by intros ->.
  - intros (j & Ho & Hq) Hk. exists j. split; [done|]. intros r. by apply IH.
Qed.

Lemma tracks_catch {A B} (g : A → B) p p' (h : exn → prog A) h' :
  tracks g p p' → (∀ e, tracks g (h e) (h' e)) → tracks g (catch p h) (catch p' h').
Proof.
  revert p'. induction p as [a|e| |X op q IH]; intros [b|e'| |Y op' q']; simpl; try done.
  - by intros ->.
  - intros (j & Ho & Hq) Hk. exists j. split; [done|]. intros r. by apply IH.
Qed.

Definition sum_map {A B} (g : A → B) (s : A + exn) : B + exn :=
  match s with inl a => inl (g a) | inr e => inr e end.

Lemma tracks_finally {A B} (g : A → B) p p' (t t' : prog unit) :
  tracks g p p' → tracks (λ u, u) t t' → tracks g (finally p t) (finally p' t').
Proof.
  intros Hp Ht. unfold finally. apply (tracks_bind (sum_map g)).
  - apply tracks_catch; [|done]. by apply (tracks_bind g).
  - intros a. apply (tracks_bind (λ u, u)); [done|]. intros _. by destruct a.
Qed.

Lemma tracks_await {X Y} (h : X → Y) op op' : op_tracks h op op' → tracks h (await op) (await op').
Proof. intros Ho. exists h. split; [done|]. by intros [x|e]. Qed.

Lemma tracks_lift {A} (r : res A) : tracks (λ a, a) (lift r) (lift r).
Proof. by destruct r. Qed.

(** *** Operations *)

(** Operations that neither read nor write a token. *)
Definition token_free {X} (op : io X) : bool :=
  match op with
  | Now | Random200 | RedisCmd _ | Publish _ _ | QueueAdd _ | Sleep _ => true
  | RandomUUID | DbTx _ | HttpPost _ => false
  end.

Lemma token_free_tracks {X} (op : io X) : token_free op = true → op_tracks (λ x, x) op op.
Proof.
  intros Ht w. destruct op as [| | |? t|? g|c ev|j|r|ms]; try done; simpl; rewrite ?res_map_id; try done.
  - destruct (g _ _) as [a s]. by destruct (e_fault E (w_step w)).
  - by destruct (e_fault E (w_step w)).
  - by destruct (e_fault E (w_step w)).
Qed.

Lemma uuid_tracks : op_tracks f RandomUUID RandomUUID.
Proof. intros w. simpl. by rewrite (rn_generated f E R). Qed.

Lemma tx_tracks {A B} (h : A → B) (t : dbctx → sql A) (t' : dbctx → sql B) :
  (∀ c, sql_tracks f h (t c) (t' c)) → op_tracks h (DbTx t) (DbTx t').
Proof.
  intros Ht w. simpl. change (ctx_of E' (ren_world f w)) with (ctx_of E w). rewrite Ht.
  destruct (t (ctx_of E w) (w_db w)) as [r d]. by destruct (e_fault E (w_step w)).
Qed.

Lemma post_op_tracks r : op_tracks (λ b, b) (HttpPost r) (HttpPost (ren_http f r)).
Proof.
  intros w. simpl. rewrite peers. destruct (e_http E (w_step w) r); simpl; f_equal;
    unfold ren_world, add_http; simpl; by rewrite fmap_app.
Qed.

Lemma post_tracks url body headers opts :
  tracks (λ b, b) (post url body headers opts) (post url body (ren_header f <$> headers) opts).
Proof.
  unfold post. set (r := mkHttpRequest url body headers _).
  change (mkHttpRequest url body (ren_header f <$> headers) _) with (ren_http f r).
  generalize (nullish (attempts opts) 3) at 2 4 as n. generalize 0.
  generalize (None : option Z). generalize (None : option exn).
  induction (Z.to_nat (nullish (attempts opts) 3)) as [|k IH]; intros e s a n; [done|].
  exists (λ b, b). split; [apply post_op_tracks|]. intros [b|err]; [done|].
  cbn [res_map]. cbv zeta. repeat case_goal; try done;
    (apply (tracks_bind (λ x, x)); [by apply tracks_await, token_free_tracks|intros j];
     apply (tracks_bind (λ x, x)); [by apply tracks_await, token_free_tracks|intros _]; apply IH).
Qed.

Lemma bearer_tracks task : ren_header f <$> bearer task = bearer (ren_row f task).
Proof.
  unfold bearer. destruct task as [? ? ? ? ? ? [t|] ? ? ? ? ? ? ? ? ? ? ?]; csimpl; [done|].
  unfold ren_header. simpl.
  change ("" +:+ "") with "". by rewrite (rn_empty f E R).
Qed.
End programs.

(** Follow the structure of two programs down to their operations. *)
Ltac track_step :=
  lazymatch goal with
  | |- tracks _ _ _ _ (Ret _) _ => reflexivity
  | |- tracks _ _ _ _ (Throw _) _ => reflexivity
  | |- tracks _ _ _ _ OutOfFuel _ => exact I
  | |- tracks _ _ _ _ (lift _) _ => apply tracks_lift
  | |- tracks _ _ _ _ (await (DbTx _)) _ => apply tracks_await, tx_tracks; intros ?
  | |- tracks _ _ _ _ (await RandomUUID) _ => by eapply tracks_await, uuid_tracks
  | |- tracks _ _ _ _ (await _) _ => by apply tracks_await, token_free_tracks
  | |- tracks _ _ _ _ (finally _ _) _ => apply tracks_finally
  | |- tracks _ _ _ _ (catch _ _) _ => apply tracks_catch; [|intros ?]
  | |- tracks _ _ _ _ (bind _ _) _ => eapply tracks_bind; [|intros ?]
  end.

(** ** The handlers *)
Section handlers.
Context {SO : ScanOrder} {V : Validation} (key : option string) (f : string → string) (E : env).
Context (order : ∀ m, scan_order (ren_row f <$> m) = scan_order m).
Context (http : nat → http_request → outcome http_err json).
Context (peers : ∀ n r, http n (ren_http f r) = e_http E n r).
Context (R : renaming f E).

#[local] Abbreviation ren := (ren_row f).
#[local] Abbreviation tracked := (tracks f E http).

Lemma release_tracks k : tracked (λ u, u) (release_quietly k) (release_quietly k).
Proof. unfold release_quietly, releaseSlot. case_match; repeat track_step. Qed.

Lemma create_tracks dto url : tracked (λ r, r) (create dto url) (create dto url).
Proof.
  assert (H : ∀ k, tracked (λ r, r) (create_task dto k url) (create_task dto k url)).
  { intros k. unfold create_task. apply (tracks_bind _ _ _ ren).
    - unfold insert_step. track_step; [|eapply tracks_bind; [apply release_tracks|done]].
      apply (tracks_bind _ _ _ (λ n, n)); [track_step|intros now].
      apply (tracks_bind _ _ _ f); [by eapply tracks_await, uuid_tracks|intros token].
      track_step. by apply insert_tracks.
    - intros task. apply (tracks_bind _ _ _ (λ u, u)).
      + unfold enqueue_step, enqueue. track_step; [track_step; [track_step|done]|].
        eapply tracks_bind; [|done]. apply tracks_finally; [|apply release_tracks].
        track_step; [track_step; by apply deleteById_tracks|done].
      + intros _. apply (tracks_bind _ _ _ (λ u, u)); [|done].
        unfold commit_quietly, commitResult. case_match; [|done]. track_step; [track_step|done]. }
  unfold create. case_match; [|apply H]. apply (tracks_bind _ _ _ (λ s, s)).
  - unfold occupySlot. apply (tracks_bind _ _ _ (λ r, r)); [track_step|done].
  - intros []; [apply H|done|done].
Qed.

(** A look-up by id, and what follows when there is a row. *)
Lemma lookup_tracks {A B} (g : A → B) i (k : option TaskRow → prog A) k' :
  tracked g (k None) (k' None) → (∀ task, tracked g (k (Some task)) (k' (Some (ren task)))) →
  tracked g (let! t := await (DbTx (λ _, findById i)) in k t)
    (let! t := await (DbTx (λ _, findById i)) in k' t).
Proof.
  intros HN HS. eapply tracks_bind; [track_step; by apply findById_tracks|]. by intros [task|].
Qed.

Lemma getStatus_tracks i u :
  tracked (λ p, p) (getStatus_handler_at i u) (getStatus_handler_at i u).
Proof.
  unfold getStatus_handler_at, getStatus_at. apply (tracks_bind _ _ _ ren); [|done].
  by apply lookup_tracks.
Qed.

Lemma cancel_tracks i u : tracked (λ x, x) (cancel_at i u) (cancel_at i u).
Proof.
  unfold cancel_at. eapply tracks_bind; [track_step; by apply cancelTask_tracks|].
  intros [[task ev]|]; cbn [fmap option_fmap option_map fst snd]; [|by apply lookup_tracks].
  apply (tracks_bind _ _ _ (λ x, x)); [track_step|intros _].
  change (cancelUrl (ren task)) with (cancelUrl task).
  case_match; [|done]. unfold enqueue. track_step; [track_step|done].
Qed.

Lemma stream_tracks i u a : tracked (λ x, x) (stream_at i u a) (stream_at i u a).
Proof. by apply lookup_tracks. Qed.

Lemma truthy_renamed s : truthy (f <$> s) = f <$> truthy s.
Proof.
  destruct s as [[|c s]|]; csimpl; [by rewrite (rn_empty f E R)| |done].
  destruct (f (String c s)) eqn:H; [|done]. exfalso.
  pose proof (rn_inj f E R (String c s) "") as HI. rewrite (rn_empty f E R) in HI. by apply HI in H.
Qed.

Lemma validateToken_renamed t task i :
  validateToken (f t) (callbackToken (ren task)) i = validateToken t (callbackToken task) i.
Proof.
  rewrite !validateToken_eq. change (callbackToken (ren task)) with (f <$> callbackToken task).
  rewrite truthy_renamed. destruct (truthy (callbackToken task)) as [x|]; csimpl; [|done].
  by rewrite (bool_decide_ext (f t = f x) (t = x)) by (split; [apply (rn_inj f E R)|by intros ->]).
Qed.

Lemma extract_renamed a :
  extractBearerToken (ren_authorization f a) = f <$> extractBearerToken a.
Proof.
  unfold ren_authorization. destruct (extractBearerToken a) as [t|] eqn:Ht; [|by rewrite Ht].
  unfold extractBearerToken in *.
  rewrite (proj2 (strip_prefix_Some _ _ _) eq_refl). destruct a as [a|]; [|done]. destruct (strip_prefix _ a) as [s|]; [|done].
  pose proof (truthy_Some _ _ Ht) as [[= <-] _]. rewrite (rn_trim f E R), <-Ht.
  apply (truthy_renamed (Some (trim s))).
Qed.

Lemma guard_tracks rq i :
  client_route (rq_route rq) = false →
  tracked ren (callback_guard rq i) (callback_guard (ren_request f rq) i).
Proof.
  intros Hr. unfold callback_guard, canActivate_by, ren_request. rewrite Hr.
  cbn [rq_authorization]. rewrite extract_renamed.
  destruct (extractBearerToken (rq_authorization rq)) as [t|]; [|done].
  cbn [fmap option_fmap option_map]. destruct (truthy (Some i)); [|done]. eapply (tracks_bind _ _ _ (fmap ren)).
  - track_step. unfold findById_text. case_match; [by apply findById_tracks|by intros d].
  - intros [task|]; cbn [fmap option_fmap option_map]; [|done]. rewrite validateToken_renamed.
    apply (tracks_bind _ _ _ (λ u, u)); [track_step|intros _].
    change (status (ren task)) with (status task). by case_match.
Qed.

Lemma submitResult_tracks task dto :
  tracked (λ u, u) (submitResult task dto) (submitResult (ren task) dto).
Proof.
  unfold submitResult. apply (tracks_bind _ _ _ (λ n, n)); [track_step|intros now].
  eapply tracks_bind; [track_step; by apply updateStatus_tracks|].
  intros [r|]; cbn [fmap option_fmap option_map]; [|done].
  apply (tracks_bind _ _ _ (λ e, e)); [track_step; by apply insertEvent_tracks|intros ev].
  apply (tracks_bind _ _ _ (λ u, u)); [unfold publish; track_step|intros _].
  unfold notify_webhook, enqueue. change (webhookUrl (ren task)) with (webhookUrl task).
  case_match; [|done]. track_step; [track_step|done].
Qed.

Lemma progress_tracks task dto :
  tracked (λ u, u) (ExecutorService.updateProgress task dto) (ExecutorService.updateProgress (ren task) dto).
Proof.
  unfold ExecutorService.updateProgress.
  apply (tracks_bind _ _ _ (λ u, u)); [track_step; by apply updateProgress_tracks|intros _].
  apply (tracks_bind _ _ _ (λ e, e)); [track_step; by apply insertEvent_tracks|intros ev].
  unfold publish. track_step.
Qed.

Lemma handle_tracks rq :
  tracked (λ r, r) (handle key rq) (handle key (ren_request f rq)).
Proof.
  assert (Hroute : rq_route (ren_request f rq) = rq_route rq)
    by (unfold ren_request; by case_match).
  unfold handle. rewrite Hroute. pose proof (guard_tracks rq) as HG.
  destruct (rq_route rq) as [b p h|i|i|i l|i b|i b] eqn:Hr;
    try (replace (ren_request f rq) with rq by (unfold ren_request; by rewrite Hr));
    unfold_handle; unfold api_key_guard.
  - apply (tracks_bind _ _ _ (λ x, x)); [track_step|intros _].
    apply (tracks_bind _ _ _ (λ x, x)); [track_step|intros dto].
    apply (tracks_bind _ _ _ (λ x, x)); [|done]. unfold create_handler.
    case_match; [apply create_tracks|done].
  - apply (tracks_bind _ _ _ (λ x, x)); [track_step|intros _].
    apply (tracks_bind _ _ _ (λ x, x)); [track_step|intros j].
    apply (tracks_bind _ _ _ (λ x, x)); [apply getStatus_tracks|done].
  - apply (tracks_bind _ _ _ (λ x, x)); [track_step|intros _].
    apply (tracks_bind _ _ _ (λ x, x)); [track_step|intros j].
    apply (tracks_bind _ _ _ (λ x, x)); [apply cancel_tracks|done].
  - apply (tracks_bind _ _ _ (λ x, x)); [track_step|intros _].
    apply (tracks_bind _ _ _ (λ x, x)); [track_step|intros j].
    apply (tracks_bind _ _ _ (λ x, x)); [apply stream_tracks|done].
  - eapply tracks_bind; [by apply HG|intros task].
    apply (tracks_bind _ _ _ (λ x, x)); [track_step|intros _].
    apply (tracks_bind _ _ _ (λ x, x)); [track_step|intros dto].
    apply (tracks_bind _ _ _ (λ x, x)); [apply submitResult_tracks|done].
  - eapply tracks_bind; [by apply HG|intros task].
    apply (tracks_bind _ _ _ (λ x, x)); [track_step|intros _].
    apply (tracks_bind _ _ _ (λ x, x)); [track_step|intros dto].
    apply (tracks_bind _ _ _ (λ x, x)); [apply progress_tracks|done].
Qed.

Lemma serve_tracks rq : tracked (λ r, r) (serve key rq) (serve key (ren_request f rq)).
Proof.
  unfold serve. apply tracks_catch; [apply handle_tracks|]. intros e.
  replace (rq_url (ren_request f rq)) with (rq_url rq) by (unfold ren_request; by case_match).
  apply (tracks_bind _ _ _ (λ x, x)); [track_step|intros now]. by repeat case_match.
Qed.

(** *** The workers *)

Lemma dispatch_tracks i t : tracked (λ u, u) (dispatch i t) (dispatch i t).
Proof.
  unfold dispatch. apply (tracks_bind _ _ _ (λ n, n)); [track_step|intros now].
  eapply tracks_bind; [track_step; by apply updateStatus_tracks|].
  intros [task|]; cbn [fmap option_fmap option_map]; [|done]. apply tracks_catch.
  - rewrite <-(bearer_tracks f E R). apply (tracks_bind _ _ _ (λ b, b)); [by apply post_tracks|done].
  - intros e. unfold dispatch_recover. case_match.
    + apply (tracks_bind _ _ _ (λ n, n)); [track_step|intros n].
      eapply tracks_bind; [track_step; by apply updateStatus_tracks|done].
    + apply (tracks_bind _ _ _ (λ u, u)); [|done]. apply tracks_catch; [|done].
      eapply tracks_bind; [track_step; by apply updateStatus_tracks|done].
Qed.

Lemma notification_tracks i u :
  tracked (λ u, u) (cancel_notification_at i u) (cancel_notification_at i u).
Proof.
  apply lookup_tracks; [done|]. intros task. change (cancelUrl (ren task)) with (cancelUrl task).
  case_match; [|done]. apply tracks_catch; [|done]. rewrite <-(bearer_tracks f E R).
  apply (tracks_bind _ _ _ (λ b, b)); [by apply post_tracks|done].
Qed.

Lemma webhook_tracks i : tracked (λ u, u) (webhook_delivery i) (webhook_delivery i).
Proof.
  apply lookup_tracks; [done|]. intros task. change (webhookUrl (ren task)) with (webhookUrl task).
  case_match; [|done]. apply tracks_catch; [|intros e; by case_match].
  apply (tracks_bind _ _ _ (λ b, b)); [by apply post_tracks|done].
Qed.

Lemma publish_all_tracks evs : tracked (λ u, u) (publish_all evs) (publish_all evs).
Proof.
  induction evs as [|e evs IH]; cbn [publish_all]; [done|].
  apply (tracks_bind _ _ _ (λ u, u)); [|intros _; apply IH]. track_step; [track_step|done].
Qed.

Lemma sweep_tracks fuel : tracked (λ u, u) (sweep fuel) (sweep fuel).
Proof.
  unfold sweep. apply (tracks_bind _ _ _ (λ n, n)); [|done]. generalize 0.
  induction fuel as [|fuel IH]; intros n; [done|]. cbn [sweep_loop].
  apply (tracks_bind _ _ _ (λ b, b)).
  - unfold expireTimedOutTasksBatch. apply (tracks_bind _ _ _ (λ n, n)); [track_step|intros now].
    track_step. by apply expire_tx_tracks.
  - intros b. case_match; [done|].
    apply (tracks_bind _ _ _ (λ u, u)); [apply publish_all_tracks|intros _; apply IH].
Qed.

Lemma retain_tracks fuel days : tracked (λ u, u) (retain fuel days) (retain fuel days).
Proof.
  unfold retain. apply (tracks_bind _ _ _ (λ n, n)); [|done]. unfold deleteOldData.
  apply (tracks_bind _ _ _ (λ n, n)); [track_step|intros now].
  generalize (mkRetentionResult 0 0). induction fuel as [|fuel IH]; intros acc; [done|].
  cbn [delete_loop].
  eapply tracks_bind; [track_step; by apply (select_tasks_limit_tracks f order)|intros batch].
  rewrite length_fmap. case_match; [done|].
  assert (Hid : id <$> (ren <$> batch) = id <$> batch).
  { rewrite <-list_fmap_compose. by apply list_fmap_ext. }
  rewrite Hid. eapply tracks_bind; [track_step; by apply delete_batch_tracks|intros deleted].
  cbn [fst snd]. rewrite length_fmap. cbv zeta. case_match; [apply IH|done].
Qed.

(** A handler on the renamed input is a handler. *)
Lemma handler_tracks p : handler key p → ∃ p', handler key p' ∧ tracked (λ u, u) p p'.
Proof.
  destruct 1 as [rq|i a|i t|i u|i|fuel|fuel days].
  - exists (serve key (ren_request f rq) ;! Ret tt). split; [constructor|].
    by eapply tracks_bind; [apply serve_tracks|].
  - exists (history i a). split; [constructor|]. unfold history.
    eapply tracks_bind; [track_step; by apply findEventsSince_tracks|done].
  - eexists. split; [constructor|apply dispatch_tracks].
  - eexists. split; [constructor|apply notification_tracks].
  - eexists. split; [constructor|apply webhook_tracks].
  - eexists. split; [constructor|apply sweep_tracks].
  - eexists. split; [constructor|apply retain_tracks].
Qed.

(** *** Executions *)

Definition config_tracks (c c' : config) : Prop :=
  Forall2 (tracked (λ u, u)) (pool c) (pool c') ∧ the_world c' = ren_world f (the_world c).

Lemma step_tracks c d c' :
  config_tracks c c' → step E (handler key) c d →
  ∃ d', step (with_http E http) (handler key) c' d' ∧ config_tracks d d'.
Proof.
  destruct c' as [ts' w']. intros [HF Hw] Hs. simpl in Hw. subst w'.
  destruct Hs as [p ts w Hp|ts i X op k r w w1 Hi He|ts i p w Hi]; simpl in *.
  - apply handler_tracks in Hp as (p' & Hp' & Ht). eexists. split; [by apply step_start|].
    split; [|done]. simpl. by apply Forall2_app; [|constructor].
  - destruct (Forall2_lookup_l _ _ _ _ _ HF Hi) as (p' & Hi' & Ht).
    destruct p' as [| | |Y op' k']; try done. destruct Ht as (h & Ho & Hk).
    specialize (Ho w). rewrite He in Ho. eexists. split; [by eapply step_op|].
    split; [|done]. simpl. apply Forall2_insert; [done|]. apply Hk.
  - destruct (Forall2_lookup_l _ _ _ _ _ HF Hi) as (p' & Hi' & _). eexists.
    split; [by eapply step_crash|]. split; [|done]. simpl. by apply Forall2_delete.
Qed.

Lemma reachable_tracks w0 c :
  reachable E (handler key) w0 c →
  ∃ c', reachable (with_http E http) (handler key) (ren_world f w0) c' ∧ config_tracks c c'.
Proof.
  intros H. unfold reachable in H. remember (mkConfig [] w0) as c0 eqn:Hc0.
  assert (H0 : config_tracks c0 (mkConfig [] (ren_world f w0))) by (subst; by split).
  unfold reachable. revert H0. generalize (mkConfig [] (ren_world f w0)). clear Hc0.
  induction H as [c|c d e Hs _ IH]; intros c' Hc; [by exists c'; split; [apply rtc_refl|]|].
  destruct (step_tracks _ _ _ Hc Hs) as (d' & Hs' & Hd). destruct (IH d' Hd) as (e' & He & Ht).
  exists e'. split; [|done]. by eapply rtc_l.
Qed.
End handlers.

(** C6: callback tokens are opaque.  Take an injection on tokens that keeps the ones
    drawn later, replace by their images the tokens stored and the credentials that
    callbacks present, and let the peers of the POSTs see the images: every request
    gets the very same response, and every concurrent execution has a counterpart
    whose tables, Redis, messages, jobs and requests sent are the same but for the
    images in the token column and in the [Authorization] headers.  So nothing that a
    client, a webhook, a stream or a queue sees depends on a token. *)
Theorem tokens_opaque {SO : ScanOrder} {V : Validation} key f E http w0 :
  (∀ m, scan_order (ren_row f <$> m) = scan_order m) →
  (∀ n r, http n (ren_http f r) = e_http E n r) →
  renaming f E →
  let E' := with_http E http in
  (∀ rq w o w', run E (serve key rq) w = (o, w') →
     run E' (serve key (ren_request f rq)) (ren_world f w) = (o, ren_world f w')) ∧
  (∀ c, reachable E (handler key) w0 c →
     ∃ c', reachable E' (handler key) (ren_world f w0) c' ∧
           the_world c' = ren_world f (the_world c)).
Proof.
  intros order peers R E'. split.
  - intros rq w o w' H. subst E'. rewrite (run_tracks f E http (λ r, r) (serve key rq)), H.
    + destruct o as [o|]; csimpl; [by rewrite res_map_id|done].
    + by apply serve_tracks.
  - intros c H. eapply reachable_tracks in H as (c' & H & _ & Hw); [by exists c'|done..].
Qed.

(** ** Instances *)

(** Postgres visits the rows in the order of their ids. *)
#[local, refine] Instance scan_by_id : ScanOrder := {| scan_order m := elements (dom m) |}.
Proof.
  intros m. apply NoDup_Permutation; [apply NoDup_elements|apply NoDup_fst_map_to_list|].
  intros i. rewrite elem_of_elements, elem_of_dom, list_elem_of_fmap. split.
  - intros [r Hr]. exists (i, r). split; [done|]. by apply elem_of_map_to_list.
  - intros ([j r] & -> & Hr%elem_of_map_to_list). by eexists.
Defined.

(** Exchange two tokens. *)
Definition exchange (a b s : string) : string :=
  if decide (s = a) then b else if decide (s = b) then a else s.

Lemma exchange_renaming :
  renaming (exchange "secret" "other") calm_env.
Proof.
  constructor; unfold exchange.
  - intros x y. repeat case_decide; congruence.
  - done.
  - intros s. repeat case_decide; [done..|]. apply trim_idem.
  - intros n k. by rewrite !decide_False by done.
Qed.

Definition guarded_world : world :=
  sample_world (sample_db [sample_row "a" PROCESSING (Some 1000) None (Some 500000)] []).

(** The callback that presents the stored token is accepted after both are exchanged. *)
Lemma tokens_opaque_witness :
  let f := exchange "secret" "other" in
  let rq := mkRequest (PatchProgress "a" (JObj [])) "/v1/tasks/a/progress" None (Some "Bearer secret") in
  rq_authorization (ren_request f rq) = Some "Bearer other" ∧
  run calm_env (serve None (ren_request f rq)) (ren_world f guarded_world) =
    let '(o, w') := run calm_env (serve None rq) guarded_world in (o, ren_world f w').
Proof.
  intros f rq. split; [vm_compute; reflexivity|].
  destruct (tokens_opaque None f calm_env (e_http calm_env) guarded_world) as [H _].
  - intros m. simpl. by rewrite dom_fmap_L.
  - done.
  - apply exchange_renaming.
  - destruct (run calm_env (serve None rq) guarded_world) as [o w'] eqn:Hr. by apply H.
Defined.
