(* ===== verification/Wiring.v ===== *)
(** * Wiring: the modules of the two processes

    The decorators [@Module] and the constructors of [src/] and [libs/]: which
    classes a module provides and exports, and what each class asks Nest to inject.
    Nest's container is not part of the program.  The class [Container] states the
    documented scope of a provider: a module sees its own providers, what the
    modules it imports export, and what global modules export; a module has one
    instance of each of its providers.  The rest of the development takes for
    granted that a handler reaches the repositories, the queue adapter and Redis
    through its constructor; this file shows that both processes can be put
    together. *)
From S2P Require Import Prelude.

(** ** Vocabulary *)

(** What names a provider: a class of the program, a [Symbol], or a class of a
    package. *)
Inductive token : Type :=
| Class_ (name : string)
| Symbol (description : string)
| Package (name : string).

#[export] Instance token_eq_dec : EqDecision token.
Proof. solve_decision. Defined.

(** A class: the parameters of its constructor, and whether it has an
    [onModuleInit]. *)
Record class_ : Type := mkClass {
  class_name : string;
  constructor : list token;
  has_init : bool }.

Inductive Provider : Type :=
| useClass (provide : token) (c : class_)
| useValue (provide : token)
| useFactory (provide : token) (inject : list token)
| useExisting (provide existing : token).

Definition provided (p : Provider) : token :=
  match p with
  | useClass t _ | useValue t | useFactory t _ | useExisting t _ => t
  end.

Definition injected (p : Provider) : list token :=
  match p with
  | useClass _ c => constructor c
  | useValue _ => []
  | useFactory _ inject => inject
  | useExisting _ existing => [existing]
  end.

(** A class listed as a provider is provided under its own name. *)
Definition class (c : class_) : Provider := useClass (Class_ (class_name c)) c.

(** An endpoint of a controller: the path under the controller's, the method that
    handles it, and the code of [@HttpCode]. *)
Inductive verb : Type := GET | POST | PATCH | DELETE.

Record Endpoint : Type := mkEndpoint {
  method : verb;
  path : list string;
  handled_by : string;
  http_code : option Z;
  headers : list (string * string) }.          (** [@Header] *)

(** A controller with its guards. *)
Record Controller : Type := mkController {
  controller_class : class_;
  prefix : list string;
  useGuards : list class_;
  endpoints : list Endpoint }.

Inductive Module_ : Type :=
| module_ (name : string) (is_global : bool) (imports : list Module_) (providers : list Provider)
    (controllers : list Controller) (exports : list token)
| package (name : string).                        (** a module of a package *)

Definition name (m : Module_) : string :=
  match m with module_ n _ _ _ _ _ | package n => n end.
Definition is_global (m : Module_) : bool :=
  match m with module_ _ g _ _ _ _ => g | package _ => false end.
Definition imports (m : Module_) : list Module_ :=
  match m with module_ _ _ l _ _ _ => l | package _ => [] end.
Definition providers (m : Module_) : list Provider :=
  match m with module_ _ _ _ l _ _ => l | package _ => [] end.
Definition controllers (m : Module_) : list Controller :=
  match m with module_ _ _ _ _ l _ => l | package _ => [] end.
Definition exports (m : Module_) : list token :=
  match m with module_ _ _ _ _ _ l => l | package _ => [] end.

(** The modules of an application, from its root; one that is imported twice is one
    module. *)
Fixpoint reached (m : Module_) : list Module_ :=
  match m with
  | module_ _ _ l _ _ _ => m :: flat_map reached l
  | package _ => [m]
  end.

Fixpoint once (l : list Module_) : list Module_ :=
  match l with
  | [] => []
  | m :: l => m :: filter (λ n, name n ≠ name m) (once l)
  end.

Definition scan (root : Module_) : list Module_ := once (reached root).

(** ** The tokens *)

Definition APP_CONFIG : token := Symbol "APP_CONFIG".
Definition DB_CONNECTION : token := Symbol "DB_CONNECTION".
Definition REDIS_OPTIONS : token := Symbol "REDIS_OPTIONS".
Definition QUEUE_CONFIG : token := Symbol "QUEUE_CONFIG".
Definition QUEUE_ADAPTER : token := Symbol "IQueueAdapter".
Definition APP_FILTER : token := Package "APP_FILTER".

(** [@InjectDb()] and [@InjectConfig()]. *)
Definition InjectDb : token := DB_CONNECTION.
Definition InjectConfig : token := APP_CONFIG.

(** ** The classes *)

Definition DrizzleService : class_ := mkClass "DrizzleService" [] false.
Definition BullMqAdapter : class_ := mkClass "BullMqAdapter" [QUEUE_CONFIG] true.
Definition IdempotencyService : class_ :=
  mkClass "IdempotencyService" [Class_ "RedisService"] false.
Definition HttpRetryService : class_ := mkClass "HttpRetryService" [Package "HttpService"] false.

Definition EventsRepository : class_ := mkClass "EventsRepository" [InjectDb] false.
Definition TasksRepository : class_ :=
  mkClass "TasksRepository" [InjectDb; Class_ "EventsRepository"] false.
Definition MaintenanceRepository : class_ := mkClass "MaintenanceRepository" [InjectDb] false.

Definition TasksService : class_ :=
  mkClass "TasksService"
    [Class_ "TasksRepository"; Class_ "IdempotencyService"; Class_ "RedisService"; QUEUE_ADAPTER]
    false.
Definition ExecutorService : class_ :=
  mkClass "ExecutorService"
    [Class_ "TasksRepository"; Class_ "EventsRepository"; Class_ "RedisService"; QUEUE_ADAPTER]
    false.
Definition SseService : class_ :=
  mkClass "SseService"
    [Class_ "RedisService"; Class_ "TasksRepository"; Class_ "EventsRepository"] false.

Definition ApiKeyGuard : class_ := mkClass "ApiKeyGuard" [APP_CONFIG] false.
Definition CallbackAuthGuard : class_ :=
  mkClass "CallbackAuthGuard" [Class_ "TasksRepository"] false.
Definition ZodExceptionFilter : class_ := mkClass "ZodExceptionFilter" [] false.

(** *** The endpoints and the controllers *)

Definition create : Endpoint := mkEndpoint POST [] "create" (Some 202%Z) [].
Definition getStatus : Endpoint := mkEndpoint GET [":id"] "getStatus" None [].
Definition cancel : Endpoint := mkEndpoint DELETE [":id"] "cancel" (Some 204%Z) [].
Definition stream : Endpoint := mkEndpoint GET [":id"; "stream"] "stream" None
  [("X-Accel-Buffering", "no"); ("Cache-Control", "no-cache")].
Definition submitResult : Endpoint := mkEndpoint POST ["result"] "submitResult" (Some 204%Z) [].
Definition updateProgress : Endpoint :=
  mkEndpoint PATCH ["progress"] "updateProgress" (Some 204%Z) [].
Definition live : Endpoint := mkEndpoint GET ["live"] "live" None [].
Definition ready : Endpoint := mkEndpoint GET ["ready"] "ready" None [].

Definition TasksController : Controller :=
  mkController (mkClass "TasksController" [Class_ "TasksService"] false) ["tasks"] [ApiKeyGuard]
    [create; getStatus; cancel].
Definition ExecutorController : Controller :=
  mkController (mkClass "ExecutorController" [Class_ "ExecutorService"] false) ["tasks"; ":id"]
    [CallbackAuthGuard] [submitResult; updateProgress].
Definition StreamController : Controller :=
  mkController (mkClass "StreamController" [Class_ "SseService"] false) ["tasks"] [ApiKeyGuard]
    [stream].
Definition HealthController : Controller :=
  mkController (mkClass "HealthController"
    [Package "HealthCheckService"; Class_ "PostgresHealthIndicator"; Class_ "RedisHealthIndicator"]
    false) ["health"] [] [live; ready].
(** Its constructor, which takes nothing, and its endpoint are those of
    [PrometheusController]. *)
Definition MetricsController : Controller :=
  mkController (mkClass "MetricsController" [] false) ["metrics"] [] [].

Definition PostgresHealthIndicator : class_ :=
  mkClass "PostgresHealthIndicator" [Package "HealthIndicatorService"; Class_ "DrizzleService"] false.
Definition RedisHealthIndicator : class_ :=
  mkClass "RedisHealthIndicator" [Package "HealthIndicatorService"; Class_ "RedisService"] false.

Definition DispatchProcessor : class_ :=
  mkClass "DispatchProcessor" [QUEUE_CONFIG; Class_ "TasksRepository"; Class_ "HttpRetryService"] true.
Definition CancelProcessor : class_ :=
  mkClass "CancelProcessor" [QUEUE_CONFIG; Class_ "TasksRepository"; Class_ "HttpRetryService"] true.
Definition WebhookProcessor : class_ :=
  mkClass "WebhookProcessor" [QUEUE_CONFIG; Class_ "TasksRepository"; Class_ "HttpRetryService"] true.
Definition TimeoutSweeperProcessor : class_ :=
  mkClass "TimeoutSweeperProcessor"
    [QUEUE_CONFIG; Class_ "RedisService"; Class_ "MaintenanceRepository"; InjectConfig] true.
Definition DataRetentionProcessor : class_ :=
  mkClass "DataRetentionProcessor" [QUEUE_CONFIG; Class_ "MaintenanceRepository"; InjectConfig] true.

(** ** The modules *)

(** [ConfigProviderModule.forRoot(config)]. *)
Definition ConfigProviderModule_forRoot : Module_ :=
  module_ "ConfigProviderModule" true [] [useValue APP_CONFIG] [] [APP_CONFIG].

(** [DrizzleProvider]. *)
Definition DrizzleProvider : Provider :=
  useFactory DB_CONNECTION [Class_ "DrizzleService"; APP_CONFIG].

Definition DrizzleModule : Module_ :=
  module_ "DrizzleModule" true [] [class DrizzleService; DrizzleProvider] []
    [DB_CONNECTION; Class_ "DrizzleService"].

(** [RedisModule.forRootAsync({ inject, useFactory })]; [inject ?? []]. *)
Definition RedisModule_forRootAsync (inject : option (list token)) : Module_ :=
  module_ "RedisModule" true []
    [useFactory REDIS_OPTIONS (nullish inject []);
     useFactory (Class_ "RedisService") [REDIS_OPTIONS]] []
    [Class_ "RedisService"].

(** [QueueModule.build(options)]; the options of [forRoot(config)] have no
    [inject]. *)
Definition QueueModule_build (inject : option (list token)) : Module_ :=
  module_ "QueueModule" true []
    [useFactory QUEUE_CONFIG (nullish inject []); class BullMqAdapter;
     useExisting QUEUE_ADAPTER (Class_ "BullMqAdapter")] []
    [QUEUE_ADAPTER; QUEUE_CONFIG].

Definition QueueModule_forRoot : Module_ := QueueModule_build None.
Definition QueueModule_forRootAsync (inject : option (list token)) : Module_ :=
  QueueModule_build inject.

Definition HttpRetryModule : Module_ :=
  module_ "HttpRetryModule" true [package "HttpModule"] [class HttpRetryService] []
    [Class_ "HttpRetryService"].

Definition IdempotencyModule : Module_ :=
  module_ "IdempotencyModule" true [] [class IdempotencyService] [] [Class_ "IdempotencyService"].

Definition ObservabilityModule : Module_ :=
  module_ "ObservabilityModule" false [package "TerminusModule"; package "PrometheusModule"]
    [class PostgresHealthIndicator; class RedisHealthIndicator]
    [HealthController; MetricsController] [].

Definition TasksModule : Module_ :=
  module_ "TasksModule" false []
    [class TasksService; class TasksRepository; class EventsRepository]
    [TasksController] [].

Definition DeliveryModule : Module_ :=
  module_ "DeliveryModule" false []
    [class SseService; class TasksRepository; class EventsRepository]
    [StreamController] [Class_ "EventsRepository"].

Definition ExecutorModule : Module_ :=
  module_ "ExecutorModule" false [DeliveryModule]
    [class TasksRepository; class CallbackAuthGuard; class ExecutorService]
    [ExecutorController] [].

Definition ExecutorWorkerModule : Module_ :=
  module_ "ExecutorWorkerModule" false []
    [class TasksRepository; class EventsRepository; class DispatchProcessor;
     class CancelProcessor] [] [].

Definition DeliveryWorkerModule : Module_ :=
  module_ "DeliveryWorkerModule" false []
    [class WebhookProcessor; class TasksRepository; class EventsRepository] [] [].

Definition MaintenanceModule : Module_ :=
  module_ "MaintenanceModule" false []
    [class MaintenanceRepository; class EventsRepository; class TimeoutSweeperProcessor;
     class DataRetentionProcessor] [] [].

Definition AppModule : Module_ :=
  module_ "AppModule" false
    [ConfigProviderModule_forRoot; DrizzleModule; RedisModule_forRootAsync (Some [APP_CONFIG]);
     QueueModule_forRoot; ObservabilityModule; IdempotencyModule; TasksModule; ExecutorModule;
     DeliveryModule]
    [useClass APP_FILTER ZodExceptionFilter] [] [].

Definition WorkerModule : Module_ :=
  module_ "WorkerModule" false
    [ConfigProviderModule_forRoot; DrizzleModule; RedisModule_forRootAsync (Some [APP_CONFIG]);
     QueueModule_forRoot; HttpRetryModule; ExecutorWorkerModule; DeliveryWorkerModule;
     MaintenanceModule]
    [] [] [].

(** ** The container *)

(** The instance of a token in a module. *)
Definition instance_ : Type := string * token.

(** What the program relies on the packages to export. *)
Definition relied : list (string * token) :=
  [("TerminusModule", Package "HealthCheckService");
   ("TerminusModule", Package "HealthIndicatorService");
   ("HttpModule", Package "HttpService")].

Definition provides (m : Module_) (t : token) : bool :=
  bool_decide (t ∈ (provided <$> providers m)).

Definition exported (t : token) (m : Module_) : bool :=
  match m with
  | package p => bool_decide ((p, t) ∈ relied)
  | module_ _ _ _ _ _ _ => bool_decide (t ∈ exports m) && provides m t
  end.

Definition importing (m : Module_) (t : token) : list Module_ :=
  filter (λ n, exported t n = true) (imports m).
Definition globals (root : Module_) (t : token) : list Module_ :=
  filter (λ n, is_global n && exported t n = true) (scan root).

(** [n] is the only candidate, by name. *)
Definition only (n : Module_) (l : list Module_) : Prop := n ∈ l ∧ ∀ n', n' ∈ l → name n' = name n.

(** [resolve root m t]: what the module [m] of the application gets for [t]. *)
Class Container : Type := {
  resolve : Module_ → Module_ → token → option instance_;
  resolve_own root m t : m ∈ scan root → provides m t = true → resolve root m t = Some (name m, t);
  resolve_import root m n t :
    m ∈ scan root → provides m t = false → only n (importing m t) →
    resolve root m t = Some (name n, t);
  resolve_global root m n t :
    m ∈ scan root → provides m t = false → importing m t = [] → only n (globals root t) →
    resolve root m t = Some (name n, t) }.

(** What Nest has to create for a module, with what it injects: the providers, the
    controllers and their guards. *)
Definition units (m : Module_) : list (token * list token) :=
  ((λ p, (provided p, injected p)) <$> providers m) ++
  ((λ c, (Class_ (class_name c), constructor c)) <$>
     flat_map (λ c, controller_class c :: useGuards c) (controllers m)).

(** The classes with an [onModuleInit], in the order of the modules. *)
Definition initialised (root : Module_) : list string :=
  flat_map (λ m, omap (λ p, match p with
                            | useClass _ c => if has_init c then Some (class_name c) else None
                            | _ => None
                            end) (providers m)) (scan root).

(** The modules that have an instance of their own. *)
Definition homes (root : Module_) (t : token) : list string :=
  name <$> filter (λ m, provides m t = true) (scan root).

(** The providers that hold a connection, a cache or the configuration. *)
Definition shared : list (token * string) :=
  [(APP_CONFIG, "ConfigProviderModule"); (DB_CONNECTION, "DrizzleModule");
   (Class_ "DrizzleService", "DrizzleModule"); (Class_ "RedisService", "RedisModule");
   (QUEUE_CONFIG, "QueueModule"); (QUEUE_ADAPTER, "QueueModule");
   (Class_ "IdempotencyService", "IdempotencyModule");
   (Class_ "HttpRetryService", "HttpRetryModule")].

(** ** Lemmas *)

(** The scope rules, computed. *)
Definition candidate (l : list Module_) : option Module_ :=
  match l with
  | n :: l => if forallb (λ n', bool_decide (name n' = name n)) l then Some n else None
  | [] => None
  end.

Definition scope (root m : Module_) (t : token) : option instance_ :=
  if provides m t then Some (name m, t)
  else match importing m t with
       | [] => (λ n, (name n, t)) <$> candidate (globals root t)
       | l => (λ n, (name n, t)) <$> candidate l
       end.

Lemma candidate_only l n : candidate l = Some n → only n l.
Proof.
  destruct l as [|x l]; [done|]. simpl. destruct (forallb _ l) eqn:H; [|done]. intros [= <-].
  split; [by left|]. rewrite forallb_forall in H. intros n' [->|Hn]%elem_of_cons; [done|].
  apply list_elem_of_In, H, bool_decide_eq_true in Hn. done.
Qed.

Lemma only_candidate l n : only n l → ∃ n', candidate l = Some n' ∧ name n' = name n.
Proof.
  intros [Hn H]. destruct l as [|x l]; [by apply elem_of_nil in Hn|]. exists x.
  assert (Hx : name x = name n) by (apply H; by left). split; [|done]. simpl.
  rewrite (proj2 (forallb_forall _ _)); [done|]. intros y Hy%list_elem_of_In.
  apply bool_decide_eq_true. rewrite Hx. apply H. by right.
Qed.

Lemma resolve_scope `{Container} root m t y :
  m ∈ scan root → scope root m t = Some y → resolve root m t = Some y.
Proof.
  intros Hm. unfold scope. destruct (provides m t) eqn:Hp.
  - intros <-. by apply resolve_own.
  - destruct (importing m t) as [|x l] eqn:Hi; intros (n & Hn%candidate_only & ->)%fmap_Some.
    + by apply resolve_global.
    + apply resolve_import; [done..|]. by rewrite Hi.
Qed.

(** The rules can be met. *)
#[local, refine] Instance scoped : Container := {| resolve := scope |}.
Proof.
  - intros root m t _ Hp. unfold scope. by rewrite Hp.
  - intros root m n t _ Hp Hn. unfold scope. rewrite Hp. pose proof Hn as [Hin _].
    apply only_candidate in Hn as (n' & Hn' & Hname).
    destruct (importing m t); [by apply elem_of_nil in Hin|]. rewrite Hn'. csimpl. by rewrite Hname.
  - intros root m n t _ Hp Hi Hn. unfold scope. rewrite Hp, Hi.
    apply only_candidate in Hn as (n' & -> & Hname). csimpl. by rewrite Hname.
Defined.

(** *** The order of creation *)

(** [y] comes before [x]. *)
Definition before (order : list instance_) (y x : instance_) : Prop :=
  ∃ i j, order !! i = Some y ∧ order !! j = Some x ∧ (i < j)%nat.

Definition of_package (t : token) : bool :=
  match t with Package _ => true | _ => false end.

(** One pass over what remains to be created. *)
Definition can_create (root m : Module_) (created : list instance_) (t : token) : bool :=
  match scope root m t with
  | Some y => of_package t || bool_decide (y ∈ created)
  | None => false
  end.

Definition create_unit (root : Module_) (created : list instance_)
    (u : Module_ * (token * list token)) : list instance_ :=
  let '(m, (t, deps)) := u in
  if bool_decide ((name m, t) ∈ created) then created
  else if forallb (can_create root m created) deps then created ++ [(name m, t)] else created.

Definition all_units (root : Module_) : list (Module_ * (token * list token)) :=
  flat_map (λ m, pair m <$> units m) (scan root).

Fixpoint creation (passes : nat) (root : Module_) (created : list instance_) : list instance_ :=
  match passes with
  | O => created
  | S n => creation n root (foldl (create_unit root) created (all_units root))
  end.

Definition position (order : list instance_) (x : instance_) : option nat :=
  fst <$> list_find (λ y, y = x) order.

(** [order] creates every unit after what it is injected. *)
Definition unit_ok (root : Module_) (order : list instance_)
    (u : Module_ * (token * list token)) : bool :=
  let '(m, (t, deps)) := u in
  match position order (name m, t) with
  | Some j => forallb (λ d,
      match scope root m d with
      | Some y => of_package d ||
          match position order y with Some i => (i <? j)%nat | None => false end
      | None => false
      end) deps
  | None => false
  end.

Lemma position_lookup order x i : position order x = Some i → order !! i = Some x.
Proof.
  unfold position. intros ([k y] & (Hk & -> & _)%list_find_Some & ->)%fmap_Some. exact Hk.
Qed.

(** The units of an application, one by one. *)
Lemma units_forall root (P : Module_ * (token * list token) → bool) m u :
  forallb P (all_units root) = true → m ∈ scan root → u ∈ units m → P (m, u) = true.
Proof.
  rewrite forallb_forall. intros H Hm Hu. apply H, in_flat_map. exists m.
  split; [by apply list_elem_of_In|]. apply list_elem_of_In, list_elem_of_fmap. by exists u.
Qed.

Lemma unit_ok_spec `{Container} root order m t deps :
  m ∈ scan root → unit_ok root order (m, (t, deps)) = true →
  (name m, t) ∈ order ∧
  ∀ d, d ∈ deps → ∃ y, resolve root m d = Some y ∧
    (of_package d = true ∨ before order y (name m, t)).
Proof.
  intros Hm. unfold unit_ok. destruct (position order (name m, t)) as [j|] eqn:Hj; [|done].
  apply position_lookup in Hj. rewrite forallb_forall. intros H0.
  split; [by eapply list_elem_of_lookup_2|]. intros d Hd. specialize (H0 d).
  rewrite <-list_elem_of_In in H0. specialize (H0 Hd).
  destruct (scope root m d) as [y|] eqn:Hs; [|done]. exists y.
  split; [by apply resolve_scope|]. apply orb_true_iff in H0 as [?|H0]; [by left|right].
  destruct (position order y) as [i|] eqn:Hi; [|done]. apply position_lookup in Hi.
  apply Nat.ltb_lt in H0. by exists i, j.
Qed.

(** What is shared comes from its one home. *)
Definition shared_ok (root : Module_) (u : Module_ * (token * list token)) : bool :=
  let '(m, (_, deps)) := u in
  forallb (λ d, forallb (λ th, negb (bool_decide (th.1 = d)) ||
    bool_decide (scope root m d = Some (th.2, d))) shared) deps.

(** ** Properties *)

(** C35: both processes can be put together.  There is an order in which Nest can
    create everything a module provides, the controllers and their guards, each after
    the providers it is injected, so that no dependency is missing or circular; in a
    process, everything that asks for the configuration, the database, Redis, the
    queues, the idempotency service or the HTTP client gets the same instance.  The
    five processors are created, and started, in the worker process only, which has
    no controller.  The repositories, which hold nothing but the database, are
    created once per module: [EventsRepository] twice in the API. *)
Theorem processes_wired `{Container} root :
  root ∈ [AppModule; WorkerModule] →
  (∃ order, NoDup order ∧ ∀ m t deps, m ∈ scan root → (t, deps) ∈ units m →
     (name m, t) ∈ order ∧
     ∀ d, d ∈ deps → ∃ y, resolve root m d = Some y ∧
       (of_package d = true ∨ before order y (name m, t))) ∧
  (∀ d home m t deps, (d, home) ∈ shared → m ∈ scan root → (t, deps) ∈ units m → d ∈ deps →
     resolve root m d = Some (home, d)) ∧
  initialised AppModule = ["BullMqAdapter"] ∧
  initialised WorkerModule =
    ["BullMqAdapter"; "DispatchProcessor"; "CancelProcessor"; "WebhookProcessor";
     "TimeoutSweeperProcessor"; "DataRetentionProcessor"] ∧
  flat_map controllers (scan WorkerModule) = [] ∧
  homes AppModule (Class_ "EventsRepository") = ["TasksModule"; "DeliveryModule"].
Proof.
  intros Hroot.
  assert (C : forallb (unit_ok root (creation 4 root [])) (all_units root) = true ∧
              NoDup (creation 4 root []) ∧
              forallb (shared_ok root) (all_units root) = true).
  { apply elem_of_cons in Hroot as [->|Hroot%list_elem_of_singleton]; [|subst root];
      (split; [vm_compute; reflexivity|split; [|vm_compute; reflexivity]];
       apply (bool_decide_unpack _); vm_compute; exact I). }
  destruct C as (Ho & HN & Hs). split_and!; try (vm_compute; reflexivity).
  - exists (creation 4 root []). split; [done|]. intros m t deps Hm Hu.
    by apply unit_ok_spec, (units_forall root).
  - intros d home m t deps Hd Hm Hu Hin. apply resolve_scope; [done|].
    pose proof (units_forall root _ m (t, deps) Hs Hm Hu) as Hok. unfold shared_ok in Hok.
    rewrite forallb_forall in Hok. specialize (Hok d (proj1 (list_elem_of_In _ _) Hin)).
    rewrite forallb_forall in Hok. specialize (Hok (d, home) (proj1 (list_elem_of_In _ _) Hd)).
    cbn [fst snd] in Hok.
    rewrite bool_decide_true in Hok by done. by apply bool_decide_eq_true in Hok.
Qed.

(** ** Instances *)

Lemma processes_wired_witness :
  resolve (Container := scoped) WorkerModule MaintenanceModule QUEUE_CONFIG
    = Some ("QueueModule", QUEUE_CONFIG) ∧
  initialised AppModule = ["BullMqAdapter"].
Proof.
  destruct (processes_wired (H := scoped) WorkerModule) as (_ & H & Hi & _).
  - by right; left.
  - split; [|exact Hi].
    apply (H QUEUE_CONFIG "QueueModule" MaintenanceModule (Class_ "DataRetentionProcessor")
             (constructor DataRetentionProcessor)).
    + apply (bool_decide_unpack _). vm_compute. exact I.
    + apply list_elem_of_In. simpl. repeat first [left; reflexivity | right].
    + apply (bool_decide_unpack _). vm_compute. exact I.
    + by left.
Defined.
