(* ===== verification/Processors.v ===== *)
(** * Processors: the worker process

    What the five processors of [src/modules/*/workers/] set up in [onModuleInit]
    and tear down in [onModuleDestroy], the modules of [src/worker.module.ts] that
    hold them, and what a worker runs for a job.  BullMQ's schedulers of repeated
    jobs, kept in Redis, are the class [JobSchedulers].  The jobs a handler
    enqueues are those of the world of Effects.v, so that the end of this file
    relates the two processes: every job gets to a worker that understands it. *)
From S2P Require Import Prelude Errors ExceptionFilter Schema Database EventsRepository TasksRepository KeyValue Effects HttpRetry Idempotency RedisService Config QueueAdapter TasksService MaintenanceRepository MaintenanceWorkers CallbackAuth ExecutorService Workers Sse Http Handlers.

#[local] Open Scope Z_scope.

(** ** Workers *)

(** [new Worker(name, processor, { connection, concurrency })]. *)
Record Worker : Type := mkWorker {
  worker_queue : string;
  worker_connection : Client;
  concurrency : nat }.

Definition new_Worker (name : string) (config : RedisConfig) (n : nat) : res Worker :=
  match createBullMqConnection config with
  | Ok connection => Ok (mkWorker name connection n)
  | Err e => Err e
  end.

(** [DispatchProcessor.onModuleInit], and those of the cancel and webhook
    processors. *)
Definition dispatch_onModuleInit (config : RedisConfig) : res Worker := new_Worker "dispatch" config 10.
Definition cancel_onModuleInit (config : RedisConfig) : res Worker := new_Worker "cancel" config 5.
Definition webhook_onModuleInit (config : RedisConfig) : res Worker := new_Worker "webhook" config 20.

(** ** Repeated jobs *)

(** The arguments of [upsertJobScheduler] after the scheduler's id. *)
Record JobSchedule : Type := mkSchedule {
  cron : string;
  tz : string;
  scheduled_name : string;
  scheduled_attempts : Z }.

(** BullMQ: a scheduler has an id in its queue; registering one replaces the one of
    that id. *)
Class JobSchedulers (S : Type) : Type := {
  upsertJobScheduler : string → string → JobSchedule → S → S;
  job_scheduler : string → string → S → option JobSchedule;
  upsert_spec q k s st q' k' :
    job_scheduler q' k' (upsertJobScheduler q k s st) =
      if decide ((q', k') = (q, k)) then Some s else job_scheduler q' k' st }.

Definition SWEEP_QUEUE : string := "maintenance-timeout-sweep".
Definition RETENTION_QUEUE : string := "maintenance-data-retention".

Definition sweep_schedule (config : AppConfig) : JobSchedule :=
  mkSchedule (timeoutSweeperCron config) "UTC" "sweep" 1.
Definition retention_schedule (config : AppConfig) : JobSchedule :=
  mkSchedule (dataRetentionCron config) "UTC" "retain" 1.

Section schedulers.
Context {S : Type} `{JobSchedulers S}.

(** The [Queue] and the [Worker] of a maintenance processor. *)
Record MaintenanceProcessor : Type := mkMaintenance {
  m_queue : string * Client;
  m_worker : Worker }.

(** The part the two [onModuleInit] share: the queue, the worker, the registration,
    which is not awaited; [registered] says whether it succeeds. *)
Definition maintenance_init (name key : string) (sch : JobSchedule) (queueConfig : RedisConfig)
    (registered : bool) (st : S) : res MaintenanceProcessor * S :=
  match createBullMqConnection queueConfig with
  | Err e => (Err e, st)
  | Ok connection =>
      match new_Worker name queueConfig 1 with
      | Err e => (Err e, st)
      | Ok worker =>
          (Ok (mkMaintenance (name, connection) worker),
           if registered then upsertJobScheduler name key sch st else st)
      end
  end.

Definition sweeper_onModuleInit (config : AppConfig) (registered : bool) (st : S)
    : res MaintenanceProcessor * S :=
  maintenance_init SWEEP_QUEUE "timeout-sweep" (sweep_schedule config) (redis config) registered st.

Definition retention_onModuleInit (config : AppConfig) (registered : bool) (st : S)
    : res MaintenanceProcessor * S :=
  maintenance_init RETENTION_QUEUE "data-retention" (retention_schedule config) (redis config)
    registered st.

(** ** The process *)

Record WorkerProcess : Type := mkProcess {
  p_workers : list Worker;               (** dispatch, cancel, webhook *)
  p_maintenance : list MaintenanceProcessor }.

(** The providers of [WorkerModule] are initialised in order; the first error ends
    the bootstrap.  [ok1] and [ok2] are the fates of the two registrations. *)
Definition start (config : AppConfig) (ok1 ok2 : bool) (st : S) : res WorkerProcess * S :=
  match dispatch_onModuleInit (redis config), cancel_onModuleInit (redis config),
        webhook_onModuleInit (redis config) with
  | Ok d, Ok c, Ok w =>
      match sweeper_onModuleInit config ok1 st with
      | (Ok s, st) =>
          match retention_onModuleInit config ok2 st with
          | (Ok r, st) => (Ok (mkProcess [d; c; w] [s; r]), st)
          | (Err e, st) => (Err e, st)
          end
      | (Err e, st) => (Err e, st)
      end
  | Err e, _, _ | _, Err e, _ | _, _, Err e => (Err e, st)
  end.

(** Any number of replicas, started one after the other. *)
Fixpoint start_replicas (replicas : list (AppConfig * bool * bool)) (st : S) : S :=
  match replicas with
  | [] => st
  | (config, ok1, ok2) :: replicas => start_replicas replicas (start config ok1 ok2 st).2
  end.
End schedulers.

(** All workers of a process. *)
Definition all_workers (p : WorkerProcess) : list Worker :=
  p_workers p ++ (m_worker <$> p_maintenance p).

(** [onModuleDestroy]: a maintenance processor closes its worker, then its queue. *)
Inductive closing : Type := CloseWorker (queue : string) | CloseQueue (queue : string).

Definition maintenance_onModuleDestroy (m : MaintenanceProcessor) : list closing :=
  [CloseWorker (worker_queue (m_worker m)); CloseQueue (m_queue m).1].

(** [onModuleDestroy] of the dispatch, cancel and webhook processors. *)
Definition dispatch_onModuleDestroy (worker : Worker) : list closing :=
  [CloseWorker (worker_queue worker)].
Definition cancel_onModuleDestroy (worker : Worker) : list closing :=
  [CloseWorker (worker_queue worker)].
Definition webhook_onModuleDestroy (worker : Worker) : list closing :=
  [CloseWorker (worker_queue worker)].

(** ** Jobs *)

Section process.
Context {SO : ScanOrder} {V : Validation}.

(** [this.process(job.data as ...)] in the worker of a queue; [None] is data of
    another shape than the cast says. *)
Definition process (queue : string) (data : job_data) : option (prog unit) :=
  if decide (queue = "dispatch") then
    match data with DispatchJobData i t => Some (dispatch i t) | _ => None end
  else if decide (queue = "cancel") then
    match data with CancelJobData i => Some (cancel_notification_at i (row_id i)) | _ => None end
  else if decide (queue = "webhook") then
    match data with WebhookJobData i => Some (webhook_delivery i) | _ => None end
  else None.

(** The jobs the schedulers add carry no data. *)
Definition scheduled_process (fuel : nat) (config : AppConfig) (queue : string) : option (prog unit) :=
  if decide (queue = SWEEP_QUEUE) then Some (sweep fuel)
  else if decide (queue = RETENTION_QUEUE) then Some (retain fuel (dataRetentionDays config))
  else None.
End process.

(** ** Lemmas *)

(** The process a valid configuration starts. *)
Definition process_on (connection : Client) : WorkerProcess :=
  mkProcess [mkWorker "dispatch" connection 10; mkWorker "cancel" connection 5;
             mkWorker "webhook" connection 20]
    [mkMaintenance (SWEEP_QUEUE, connection) (mkWorker SWEEP_QUEUE connection 1);
     mkMaintenance (RETENTION_QUEUE, connection) (mkWorker RETENTION_QUEUE connection 1)].

Lemma start_eq {S} `{JobSchedulers S} config ok1 ok2 (st : S) :
  start config ok1 ok2 st =
  match createBullMqConnection (redis config) with
  | Ok connection =>
      (Ok (process_on connection),
       let st := if ok1 then upsertJobScheduler SWEEP_QUEUE "timeout-sweep" (sweep_schedule config) st else st in
       if ok2 then upsertJobScheduler RETENTION_QUEUE "data-retention" (retention_schedule config) st else st)
  | Err e => (Err e, st)
  end.
Proof.
  unfold start, dispatch_onModuleInit, cancel_onModuleInit, webhook_onModuleInit,
    sweeper_onModuleInit, retention_onModuleInit, maintenance_init, new_Worker.
  by destruct (createBullMqConnection (redis config)).
Qed.

(** The schedule one kind of registration leaves after a list of replicas; [sel]
    picks the fate of that registration, [old] is the one before. *)
Fixpoint last_registered (sch : AppConfig → JobSchedule) (sel : AppConfig * bool * bool → bool)
    (replicas : list (AppConfig * bool * bool)) (old : option JobSchedule) : option JobSchedule :=
  match replicas with
  | [] => old
  | r :: replicas =>
      last_registered sch sel replicas
        (if sel r && is_ok (createBullMqConnection (redis r.1.1)) then Some (sch r.1.1) else old)
  end.

Lemma queues_differ : SWEEP_QUEUE ≠ RETENTION_QUEUE.
Proof. done. Qed.

(** One replica changes the two schedulers only. *)
Lemma start_schedulers {S} `{JobSchedulers S} config ok1 ok2 (st : S) q k :
  job_scheduler q k (start config ok1 ok2 st).2 =
  let up ok sch := if ok && is_ok (createBullMqConnection (redis config)) then Some (sch config)
                   else job_scheduler q k st in
  if decide ((q, k) = (SWEEP_QUEUE, "timeout-sweep")) then up ok1 sweep_schedule
  else if decide ((q, k) = (RETENTION_QUEUE, "data-retention")) then up ok2 retention_schedule
  else job_scheduler q k st.
Proof.
  rewrite start_eq. pose proof queues_differ.
  destruct (createBullMqConnection _) as [c|e]; cbn; [|by rewrite !andb_false_r; repeat case_decide].
  destruct ok1, ok2; cbn; rewrite ?upsert_spec; repeat case_decide; simplify_eq; done.
Qed.

Lemma jobs_addressed {SO : ScanOrder} {V : Validation} key E w0 c :
  Forall (λ j, addressed j = true) (w_jobs w0) → reachable E (handler key) w0 c →
  Forall (λ j, addressed j = true) (w_jobs (the_world c)).
Proof.
  intros H0. apply (reachable_invariant E (handler key) (λ w, Forall (λ j, addressed j = true) (w_jobs w)));
    [done|].
  intros p Hp%handlers_addressed. eapply all_ops_mono; [|exact Hp].
  intros X op Hop w r w' Hw He. destruct Hop; cbn in He.
  all: unfold faulty in He; repeat case_match; simplify_eq/=; try done.
  all: apply Forall_app; by repeat constructor.
Qed.

(** The worker an addressed job is for, and what it runs. *)
Lemma addressed_worker {SO : ScanOrder} {V : Validation} key connection j :
  addressed j = true →
  ∃ w task, w ∈ all_workers (process_on connection) ∧ worker_queue w = job_queue j ∧
    worker_connection w = connection ∧
    process (job_queue j) (job_payload j) = Some task ∧ handler key task.
Proof.
  unfold addressed, process. destruct (job_payload j) as [i t|i|i].
  - intros [->%bool_decide_eq_true _]%andb_true_iff.
    eexists _, _. split_and!; [left|done..|apply h_dispatch].
  - intros ->%bool_decide_eq_true. eexists _, _. split_and!; [right; left|done..|apply h_cancel_job].
  - intros ->%bool_decide_eq_true. eexists _, _. split_and!; [right; right; left|done..|apply h_webhook_job].
Qed.

Lemma workers_distinct connection :
  NoDup (worker_queue <$> all_workers (process_on connection)).
Proof.
  cbn. repeat (apply NoDup_cons; split; [set_solver|]). by apply NoDup_nil.
Qed.

(** ** Properties *)

(** C16: every job gets to a worker that understands it.  In every execution of all
    handlers, with faults and process deaths, take any job that was enqueued.  If
    the worker process starts with the configuration of the API, exactly one of
    its workers consumes the queue the job lies on, over the connection the API's
    queues have; the job's data has the shape that worker casts it to, so what it
    runs is the handler of that job; and a dispatch job is run once.  If it does
    not start, the API could not get a queue either. *)
Theorem jobs_reach_workers {SO : ScanOrder} {V : Validation} {S} `{JobSchedulers S}
    key E config ok1 ok2 (st : S) w0 c j :
  Forall (λ j, addressed j = true) (w_jobs w0) → reachable E (handler key) w0 c →
  j ∈ w_jobs (the_world c) →
  match (start config ok1 ok2 st).1 with
  | Ok p =>
      ∃ w task q, w ∈ all_workers p ∧ worker_queue w = job_queue j ∧
        (∀ w', w' ∈ all_workers p → worker_queue w' = job_queue j → w' = w) ∧
        (getQueue (redis config) (job_queue j) new_adapter).1 = Ok q ∧
        worker_connection w = q_connection q ∧
        process (job_queue j) (job_payload j) = Some task ∧ handler key task ∧
        (∀ i t, job_payload j = DispatchJobData i t → o_attempts (job_options j) = 1)
  | Err e => (getQueue (redis config) (job_queue j) new_adapter).1 = Err e
  end.
Proof.
  intros H0 Hr Hj. pose proof (jobs_addressed key E w0 c H0 Hr) as Ha.
  rewrite Forall_forall in Ha. specialize (Ha j Hj). rewrite start_eq.
  assert (G : (getQueue (redis config) (job_queue j) new_adapter).1 =
    match createBullMqConnection (redis config) with
    | Ok c => Ok (mkQueue (job_queue j) c 0) | Err e => Err e end).
  { unfold getQueue, Memo.memo_get, new_Queue. cbn. rewrite lookup_empty. by destruct (createBullMqConnection _). }
  destruct (createBullMqConnection (redis config)) as [connection|e]; cbn; [|exact G].
  destruct (addressed_worker key connection j Ha) as (w & task & Hw & Hq & Hc & Hp & Hh).
  exists w, task, (mkQueue (job_queue j) connection 0). split_and!; try done.
  - intros w' Hw' Hq'. pose proof (workers_distinct connection) as HN.
    apply list_elem_of_lookup in Hw as [a Hx], Hw' as [b Hy].
    assert (b = a) as ->; [|apply (inj Some); exact (eq_trans (eq_sym Hy) Hx)].
    eapply (NoDup_lookup _ _ _ (worker_queue w)); [exact HN|..]; rewrite list_lookup_fmap.
    + apply fmap_Some. exists w'. split; [exact Hy|congruence].
    + apply fmap_Some. exists w. by split.
  - intros i t Hi. revert Ha. unfold addressed. rewrite Hi. by intros [_ ?%Z.eqb_eq]%andb_true_iff.
Qed.

(** Replicas do not multiply the schedules.  After any number of replicas have
    started, with whatever configurations and with any of their registrations
    failing, the sweep and the retention job each have the one schedule last
    registered successfully, or the one from before if none was; no other
    scheduler is touched. *)
Theorem one_schedule_each {S} `{JobSchedulers S} replicas (st : S) q k :
  job_scheduler q k (start_replicas replicas st) =
  if decide ((q, k) = (SWEEP_QUEUE, "timeout-sweep"))
  then last_registered sweep_schedule (λ r, r.1.2) replicas (job_scheduler q k st)
  else if decide ((q, k) = (RETENTION_QUEUE, "data-retention"))
  then last_registered retention_schedule (λ r, r.2) replicas (job_scheduler q k st)
  else job_scheduler q k st.
Proof.
  revert st. induction replicas as [|[[config ok1] ok2] replicas IH]; intros st; cbn [start_replicas].
  - by repeat case_decide.
  - rewrite IH, start_schedulers. cbv zeta. by repeat case_decide.
Qed.

(** ** Instances *)

#[export] Instance gmap_schedulers : JobSchedulers (gmap (string * string) JobSchedule).
Proof.
  refine {| upsertJobScheduler q k s st := <[(q, k) := s]> st; job_scheduler q k st := st !! (q, k) |}.
  intros q k s st q' k'. case_decide as Hd; [rewrite Hd; apply lookup_insert_eq|].
  by apply lookup_insert_ne.
Defined.

Definition first_insert_env : env :=
  mkEnv (λ _, no_fault) (λ _, 1%N) (λ n, Z.of_nat n) (λ n k, "u" +:+ pretty n +:+ "-" +:+ pretty k)
    (λ _, ∅) (λ n, Z.of_nat n) (λ _ _, Ok JNull).

(** A client has created a task. *)
Definition created : config :=
  schedule first_insert_env [0; 0; 0; 0; 0; 0]%nat
    (mkConfig [serve None (mkRequest (PostTask (JObj [("type", JStr "report");
      ("executorUrl", JStr "http://executor/run")]) "http" (Some "proxy")) "/v1/tasks" None None) ;! Ret tt]
      initial_world).

Definition dispatch_job : job :=
  default (mkJob "" "" (WebhookJobData "") (add_options None)) (head (w_jobs (the_world created))).

Lemma jobs_reach_workers_witness :
  dispatch_job ∈ w_jobs (the_world created) ∧
  ∃ w task, w ∈ all_workers (process_on (Redis "localhost" 6379 None (Some 0))) ∧
    worker_queue w = "dispatch" ∧
    process "dispatch" (job_payload dispatch_job) = Some task ∧ handler None task.
Proof.
  assert (Hj : dispatch_job ∈ w_jobs (the_world created)).
  { assert (w_jobs (the_world created) = [dispatch_job]) as -> by (vm_compute; reflexivity). left. }
  split; [exact Hj|].
  assert (Hr : reachable first_insert_env (handler None) initial_world created).
  { apply scheduled. constructor; [apply h_request|constructor]. }
  destruct (jobs_reach_workers None first_insert_env default_config true true
    (∅ : gmap (string * string) JobSchedule) initial_world created dispatch_job
    (Forall_nil_2 _) Hr Hj) as (w & task & q & Hw & Hq & _ & _ & _ & Hp & Hh & _).
  exists w, task. split; [exact Hw|]. split; [exact Hq|]. split; [exact Hp|exact Hh].
Defined.

(** Two replicas with different patterns: the later one's schedule stays. *)
Example two_replicas :
  let other := mkAppConfig production 8080 None "postgresql://proxy@db/proxy" (redis default_config)
    false 1000 30 "*/5 * * * *" "0 3 * * *" in
  start_replicas [(default_config, true, true); (other, true, false)]
    (∅ : gmap (string * string) JobSchedule) !! (SWEEP_QUEUE, "timeout-sweep") =
  Some (sweep_schedule other).
Proof. vm_compute. reflexivity. Qed.
