(* ===== verification/Health.v ===== *)
(** * Health: the Postgres connection and the probes

    [src/database/drizzle/drizzle.service.ts] and [drizzle.provider.ts]: how the
    client every repository is given comes to be; and [libs/observability/]: the
    two health indicators, each a command raced with a timer, and the liveness and
    readiness probes.  Terminus, which turns indicator results into a response, is
    the class [HealthCheckService]. *)
From S2P Require Import Prelude Errors RedisService Config.

#[local] Open Scope Z_scope.

(** ** The Postgres connection *)

(** A postgres.js pool: its URL, and whether it was ended. *)
Record Pool : Type := mkPool { pool_url : string; pool_ended : bool }.

(** [postgres(url, ...)] connects on its first query. *)
Definition postgres (url : string) : Pool := mkPool url false.

(** The fields [sql] and [_db]; a Drizzle client is its pool. *)
Record DrizzleService : Type := mkDrizzle { drizzle_sql : option Pool; drizzle_db : option Pool }.

Definition new_DrizzleService : DrizzleService := mkDrizzle None None.

(** [getDb]: [undefined] before [connect] has succeeded. *)
Definition getDb (s : DrizzleService) : option Pool := drizzle_db s.

(** [connect]; [answer] is what [SELECT 1] gives.  The error is logged and thrown
    again. *)
Definition connect (config : AppConfig) (answer : res unit) (s : DrizzleService)
    : res unit * DrizzleService :=
  let sql := postgres (database_url config) in
  let s := mkDrizzle (Some sql) (drizzle_db s) in
  match answer with
  | Err error => (Err error, s)
  | Ok _ => (Ok tt, mkDrizzle (drizzle_sql s) (Some sql))
  end.

(** [onApplicationShutdown]. *)
Definition onApplicationShutdown (s : DrizzleService) : res unit * DrizzleService :=
  match drizzle_sql s with
  | None => (Err (JsError "Cannot read properties of undefined (reading 'end')"), s)
  | Some sql => (Ok tt, mkDrizzle (Some (mkPool (pool_url sql) true)) (drizzle_db s))
  end.

(** [DrizzleProvider.useFactory]: the value injected as [DB_CONNECTION]. *)
Definition useFactory (service : DrizzleService) (config : AppConfig) (answer : res unit)
    : res (option Pool) * DrizzleService :=
  match connect config answer service with
  | (Ok _, service) => (Ok (getDb service), service)
  | (Err e, service) => (Err e, service)
  end.

(** ** Races with a timer *)

(** What a promise rejects with: an [Error], or any other value. *)
Definition reason : Type := option exn.

(** A pending promise: when it settles and with what, [None] if it never does. *)
Definition promise (A : Type) : Type := option (Z * outcome reason A).

(** [Promise.race([p, q])] of two promises, times counted from the call; [p_first]
    is the order in which the event loop serves two that settle in the same
    millisecond. *)
Definition Promise_race {A} (p_first : bool) (p q : promise A) : promise A :=
  match p, q with
  | Some (t, r), Some (u, s) =>
      if (t <? u) || ((t =? u) && p_first) then p else q
  | Some _, None => p
  | None, _ => q
  end.

(** The result of an indicator. *)
Inductive HealthIndicatorResult : Type :=
| up
| down (message : string).

Definition TIMEOUT_MS : Z := 2000.

(** [error instanceof Error ? error.message : 'Unknown error']. *)
Definition down_of (error : reason) : HealthIndicatorResult :=
  down (match error with Some e => exn_message e | None => "Unknown error" end).

(** What an indicator does: its result, when it has it, and the timer that is
    still running then. *)
Record probe : Type := mkProbe {
  probe_result : HealthIndicatorResult;
  probe_at : Z;
  probe_timer : option Z }.

(** [clearTimeout(timerId)]. *)
Definition clearTimeout (timerId : option Z) : option Z := None.

(** [try { ... } catch ... finally { clearTimeout(timerId) }]. *)
Definition finally_clear (timerId : option Z) (body : option (HealthIndicatorResult * Z))
    : option probe :=
  match body with
  | Some (result, t) => Some (mkProbe result t (clearTimeout timerId))
  | None => None
  end.

(** [isHealthy]: the timer is started, then [command] starts the check, and may
    throw at once.  A race that never settles has no answer. *)
Definition isHealthy (what : string) (check_first : bool)
    (command : outcome reason (promise unit)) : option probe :=
  let timerId := Some TIMEOUT_MS in
  let timeoutPromise : promise unit :=
    t ← timerId; Some (t, Err (Some (JsError (what +:+ " check timed out after 2s")))) in
  finally_clear timerId
    match command with
    | Err error => Some (down_of error, 0)
    | Ok check =>
        match Promise_race check_first check timeoutPromise with
        | Some (t, Ok _) => Some (up, t)
        | Some (t, Err error) => Some (down_of error, t)
        | None => None
        end
    end.

(** [this.drizzle.getDb().execute(...)]: a missing client is a [TypeError]. *)
Definition execute_SELECT_1 (s : DrizzleService) (check : promise unit)
    : outcome reason (promise unit) :=
  match getDb s with
  | Some _ => Ok check
  | None => Err (Some (JsError "Cannot read properties of undefined (reading 'execute')"))
  end.

Definition postgres_isHealthy (check_first : bool) (s : DrizzleService) (check : promise unit)
    : option probe := isHealthy "PostgreSQL" check_first (execute_SELECT_1 s check).

Definition redis_isHealthy (check_first : bool) (ping : promise unit) : option probe :=
  isHealthy "Redis" check_first (Ok ping).

(** ** The endpoints *)

(** [live]: a constant, whatever the state of the infrastructure. *)
Definition live : json :=
  JObj [("status", JStr "ok"); ("info", JObj []); ("error", JObj []); ("details", JObj [])].

(** Terminus: [check] answers from the results of the indicators, each under its
    key; it succeeds exactly when all are up, and otherwise throws. *)
Class HealthCheckService (R : Type) : Type := {
  health_check : list (string * HealthIndicatorResult) → res R;
  health_check_ok results :
    is_ok (health_check results) = forallb (λ kr, match kr.2 with up => true | down _ => false end) results }.

(** [ready]: the indicators run concurrently; the answer and when it is there. *)
Definition ready {R} `{HealthCheckService R} (pg redis : option probe) : option (res R * Z) :=
  p ← pg; q ← redis;
  Some (health_check [("postgres", probe_result p); ("redis", probe_result q)],
        Z.max (probe_at p) (probe_at q)).

(** ** Lemmas *)

(** The check settles before its timer is served. *)
Definition settles_first (check_first : bool) (check : promise unit) : bool :=
  match check with
  | Some (t, _) => (t <? TIMEOUT_MS) || ((t =? TIMEOUT_MS) && check_first)
  | None => false
  end.

(** ... and with a value. *)
Definition in_time (check_first : bool) (check : promise unit) : bool :=
  settles_first check_first check && match check with Some (_, Ok _) => true | _ => false end.

(** A promise does not settle before it exists. *)
Definition times_ok (check : promise unit) : Prop :=
  match check with Some (t, _) => 0 ≤ t | None => True end.

Lemma settles_first_bound b t r : settles_first b (Some (t, r)) = true → t ≤ TIMEOUT_MS.
Proof.
  intros [H%Z.ltb_lt|[H%Z.eqb_eq _]%andb_true_iff]%orb_true_iff; lia.
Qed.

(** An indicator always answers, within two seconds, and leaves no timer behind. *)
Lemma isHealthy_total what b check :
  times_ok check →
  ∃ p, isHealthy what b (Ok check) = Some p ∧ 0 ≤ probe_at p ≤ TIMEOUT_MS ∧ probe_timer p = None ∧
    probe_result p =
      (if settles_first b check then
         match check with Some (_, Err e) => down_of e | _ => up end
       else down (what +:+ " check timed out after 2s")) ∧
    (probe_result p = up ↔ in_time b check = true).
Proof.
  intros Ht. unfold isHealthy, in_time.
  assert (T : 0 ≤ TIMEOUT_MS ≤ TIMEOUT_MS) by (unfold TIMEOUT_MS; lia).
  destruct check as [[t r]|]; [|by eexists; split_and!; try done; apply T].
  cbn [Promise_race mbind option_bind]. change ((t <? TIMEOUT_MS) || ((t =? TIMEOUT_MS) && b))
    with (settles_first b (Some (t, r))).
  destruct (settles_first b (Some (t, r))) eqn:E.
  - pose proof (settles_first_bound b t r E). cbn in Ht.
    destruct r as [[]|e]; eexists; cbn; split_and!; try done; lia.
  - eexists. cbn. split_and!; try done; apply T.
Qed.

(** ** Properties *)

(** The database client is connected before anyone has it.  When the provider
    gives a client, [SELECT 1] had been answered, and the client is on the
    configured URL, the service's own; when [SELECT 1] fails, the provider rejects
    with its error, so the process does not start.  [getDb] of a service that was
    never connected is [undefined]: it does not throw. *)
Theorem connection_established config answer :
  let '(r, s) := useFactory new_DrizzleService config answer in
  match answer with
  | Ok _ => r = Ok (Some (mkPool (database_url config) false)) ∧ getDb s = drizzle_sql s ∧
      getDb s = Some (mkPool (database_url config) false)
  | Err e => r = Err e ∧ getDb s = None
  end ∧
  getDb new_DrizzleService = None ∧
  (∃ s', onApplicationShutdown s = (Ok tt, s') ∧
     drizzle_sql s' = Some (mkPool (database_url config) true)).
Proof. destruct answer as [[]|e]; cbn; split_and!; eauto. Qed.

(** A readiness probe is answered in two seconds, and says the truth.  Whatever
    Postgres and Redis do (answer, fail, or hang), the readiness endpoint has its
    answer at most two seconds later, no timer is left, and the answer is a
    success exactly when the client is connected and both commands were answered
    with a value before their timers. *)
Theorem ready_in_time {R} `{HealthCheckService R} b c s check ping :
  times_ok check → times_ok ping →
  ∃ p q r t,
    postgres_isHealthy b s check = Some p ∧ redis_isHealthy c ping = Some q ∧
    ready (Some p) (Some q) = Some (r, t) ∧
    0 ≤ t ≤ 2000 ∧ probe_timer p = None ∧ probe_timer q = None ∧
    (is_ok r = true ↔ is_Some (getDb s) ∧ in_time b check = true ∧ in_time c ping = true).
Proof.
  intros Hc Hp. destruct (isHealthy_total "Redis" c ping Hp) as (q & Hq & Bq & Tq & _ & Uq).
  assert (P : ∃ p, postgres_isHealthy b s check = Some p ∧ 0 ≤ probe_at p ≤ TIMEOUT_MS ∧
    probe_timer p = None ∧ (probe_result p = up ↔ is_Some (getDb s) ∧ in_time b check = true)).
  { unfold postgres_isHealthy, execute_SELECT_1. destruct (getDb s) as [db|].
    - destruct (isHealthy_total "PostgreSQL" b check Hc) as (p & E & Bp & Tp & _ & Up).
      exists p. split_and!; [done|apply Bp|apply Bp|done|]. rewrite Up. naive_solver.
    - eexists. split; [reflexivity|]. unfold TIMEOUT_MS. cbn. split_and!; [lia|lia|done|].
      split; [done|]. by intros [[? ?] _]. }
  destruct P as (p & E & Bp & Tp & Up). unfold TIMEOUT_MS in *.
  exists p, q. eexists _, _. split_and!; [done|exact Hq|reflexivity|lia|lia|done|done|].
  rewrite health_check_ok. cbn. destruct (probe_result p), (probe_result q); naive_solver.
Qed.

(** ** Instances *)

#[export] Instance sample_health : HealthCheckService unit.
Proof.
  refine {| health_check results :=
    if forallb (λ kr : string * HealthIndicatorResult, match kr.2 with up => true | down _ => false end) results
    then Ok tt else Err (HttpException 503 "Service Unavailable Exception") |}.
  intros results. by destruct (forallb _ results).
Defined.

Lemma ready_in_time_witness :
  times_ok (Some (3, Ok tt)) ∧ times_ok None ∧
  ∃ p q r t,
    postgres_isHealthy true (mkDrizzle None None) (Some (3, Ok tt)) = Some p ∧
    redis_isHealthy true None = Some q ∧ ready (Some p) (Some q) = Some (r : res unit, t) ∧ 0 ≤ t ≤ 2000.
Proof.
  assert (H1 : times_ok (Some (3, Ok tt))) by (cbn; lia). assert (H2 : times_ok None) by exact I.
  split; [exact H1|split; [exact H2|]].
  destruct (ready_in_time true true (mkDrizzle None None) (Some (3, Ok tt)) None H1 H2)
    as (p & q & r & t & ? & ? & ? & ? & _).
  exists p, q, r, t. split; [assumption|split; [assumption|split; assumption]].
Defined.

(** A Redis that hangs is reported after two seconds. *)
Example redis_hangs :
  redis_isHealthy true None = Some (mkProbe (down "Redis check timed out after 2s") 2000 None).
Proof. reflexivity. Qed.
