(* ===== verification/Bootstrap.v ===== *)
(** * Bootstrap: how the two processes start

    [src/main.ts] with [src/app.module.ts], and [src/worker.ts] with
    [src/worker.module.ts]: the configuration is read when the module is loaded,
    the providers are built, the [onModuleInit] hooks run, and the API then reads
    the configuration again and listens.  Nest's container is represented by that
    order only; two providers that fail concurrently may be reported in either
    order. *)
From S2P Require Import Prelude Errors JsString JsNumber RedisService Config Memo KeyValue Effects QueueAdapter Health Processors.

#[local] Open Scope Z_scope.

(** What a process finds when it starts. *)
Record outside : Type := mkOutside {
  environment : variables;
  dotenv : option variables;              (** the [.env] file *)
  select1 : res unit;                     (** Postgres's answer to [SELECT 1] *)
  probe_reply : probe_call → res unit;    (** Redis's answers to the adapter's probe *)
  listening : Z → res unit;               (** [app.listen(port)] *)
  registrations : bool * bool;            (** the fates of the two schedules *)
  drizzle_first : bool }.

Section bootstrap.
Context (StringOf : exn → string) (o : outside).

(** [const config = appConfig()]; the issues of the error are not modelled. *)
Definition load_config : res AppConfig :=
  match appConfig (environment o) (dotenv o) with
  | Some config => Ok config
  | None => Err (ZodError [])
  end.

(** [DB_CONNECTION] and [RedisService], which both processes provide. *)
Definition providers (config : AppConfig) : res (option Pool * RedisService) :=
  match (useFactory new_DrizzleService config (select1 o)).1,
        (new_RedisService (buildRedisOptions (redis config))).1 with
  | Ok db, Ok r => Ok (db, r)
  | Err e, Ok _ => Err e
  | Ok _, Err e => Err e
  | Err e, Err e' => Err (if drizzle_first o then e else e')
  end.

Definition probe_queues (config : AppConfig) : res unit :=
  (onModuleInit (redis config) StringOf (probe_reply o)).1.

(** What [main.ts] calls on the application it has created. *)
Inductive app_call : Type :=
| SetTrustProxy (hops : Z)
| EnableCors (origin : string)
| EnableShutdownHooks
| EnableVersioning (defaultVersion : string)
| SetupSwagger (path : string)
| Listen (port : Z) (host : string).

Record Api : Type := mkApi {
  api_db : option Pool;
  api_redis : RedisService;
  api_docs : bool;                        (** Swagger is served *)
  api_port : Z;
  api_calls : list app_call }.

(** The calls, in their order. *)
Definition configuration_calls (docs : bool) (port : Z) : list app_call :=
  [SetTrustProxy 1; EnableCors "*"; EnableShutdownHooks; EnableVersioning "1"] ++
  (if docs then [SetupSwagger "api/docs"] else []) ++
  [Listen port "0.0.0.0"].

(** [bootstrap] of [main.ts].  The first [appConfig()] has left the variables of the
    [.env] file in [process.env]. *)
Definition bootstrap_api : res Api :=
  match load_config with
  | Err e => Err e
  | Ok config =>
      match providers config with
      | Err e => Err e
      | Ok (db, r) =>
          match probe_queues config with
          | Err e => Err e
          | Ok _ =>
              match appConfig (loadEnvFile (environment o) (dotenv o)) (dotenv o) with
              | None => Err (ZodError [])
              | Some again =>
                  let docs := negb (bool_decide (app_env again = production)) in
                  match listening o (app_port again) with
                  | Ok _ => Ok (mkApi db r docs (app_port again) (configuration_calls docs (app_port again)))
                  | Err e => Err e
                  end
              end
          end
      end
  end.

(** [bootstrap] of [worker.ts].  The processors and the adapter are initialised in
    any order; the adapter's probe is awaited. *)
Definition bootstrap_worker {S} `{JobSchedulers S} (st : S)
    : res (option Pool * RedisService * WorkerProcess) * S :=
  match load_config with
  | Err e => (Err e, st)
  | Ok config =>
      match providers config with
      | Err e => (Err e, st)
      | Ok (db, r) =>
          match start config (registrations o).1 (registrations o).2 st with
          | (Err e, st) => (Err e, st)
          | (Ok p, st) =>
              (match probe_queues config with Ok _ => Ok (db, r, p) | Err e => Err e end, st)
          end
      end
  end.

(** [bootstrap().catch(...)] of [worker.ts]: the code the process exits with, if it
    does. *)
Definition worker_main {S} `{JobSchedulers S} (st : S) : option Z :=
  match (bootstrap_worker st).1 with Ok _ => None | Err _ => Some 1 end.
End bootstrap.

(** ** Lemmas *)

(** Reading the configuration a second time gives the same. *)
Lemma appConfig_again env file : appConfig (loadEnvFile env file) file = appConfig env file.
Proof.
  unfold appConfig, EnvSchema, EnvObject. f_equal.
  assert (L : ∀ n, loadEnvFile (loadEnvFile env file) file n = loadEnvFile env file n).
  { intros n. unfold loadEnvFile. destruct (env n); [done|].
    destruct file as [vars|]; cbn; [by destruct (vars n)|done]. }
  by rewrite !L.
Qed.

(** The probe succeeds when the connection can be built and every command it gives
    is answered. *)
Definition probe_ok (config : RedisConfig) (reply : probe_call → res unit) : bool :=
  is_ok (createBullMqConnection config) && (clusterMode config || is_ok (reply Connect)) &&
  is_ok (reply Ping) && is_ok (reply Quit).

Lemma probe_ok_spec StringOf config reply :
  is_ok (onModuleInit config StringOf reply).1 = probe_ok config reply.
Proof.
  unfold onModuleInit, probe_ok, try_catch_finally, and_then, QueueAdapter.call.
  assert (Hc : clusterMode config = false → ∃ c, createBullMqConnection config = Ok c).
  { unfold createBullMqConnection. intros ->. eauto. }
  destruct (clusterMode config).
  - destruct (createBullMqConnection config); cbn; [|done]. by destruct (reply Ping), (reply Quit).
  - destruct (Hc eq_refl) as [k ->]. cbn. by destruct (reply Connect), (reply Ping), (reply Quit).
Qed.

(** The service and the BullMQ connection are built in the same cases, on the same
    endpoints. *)
Lemma clients_built cfg :
  match (new_RedisService (buildRedisOptions cfg)).1 with
  | Ok s => ∃ c, createBullMqConnection cfg = Ok c ∧ effective c = client s
  | Err _ => is_ok (createBullMqConnection cfg) = false
  end.
Proof.
  destruct cfg as [h p pw d [] nodes]; [|by eexists].
  unfold new_RedisService, createBullMqConnection, buildRedisOptions, new_Cluster. cbn.
  rewrite !truthy_idemp. destruct (truthy nodes) as [raw|]; [|done].
  destruct (parseClusterNodes raw); [|done]. by eexists.
Qed.

Lemma providers_spec o config :
  match providers o config with
  | Ok (db, r) =>
      is_ok (select1 o) = true ∧ db = Some (mkPool (database_url config) false) ∧
      ∃ c, createBullMqConnection (redis config) = Ok c ∧ effective c = client r
  | Err _ => is_ok (select1 o) && is_ok (createBullMqConnection (redis config)) = false
  end.
Proof.
  unfold providers. pose proof (clients_built (redis config)) as Hc.
  destruct (new_RedisService _) as [[s|e] opts]; cbn in *; destruct (select1 o) as [[]|e']; cbn; done.
Qed.

(** ** Properties *)

(** C37: the API listens exactly when everything it needs is there.  It starts when
    the environment is accepted, Postgres answers, the Redis clients can be built,
    the probe of the queues succeeds, and the port can be bound; and in no other
    case.  It then listens on the configured port, its database client is connected
    to the configured URL, its Redis client and its queues reach the same
    endpoints, and the API documentation is served outside production only.  It
    listens last: no request can arrive before the proxy trust, CORS, the shutdown
    hooks and the versioning are set. *)
Theorem api_listens StringOf o :
  (is_ok (bootstrap_api StringOf o) = true ↔
   ∃ config, appConfig (environment o) (dotenv o) = Some config ∧ is_ok (select1 o) = true ∧
     probe_ok (redis config) (probe_reply o) = true ∧ is_ok (listening o (app_port config)) = true) ∧
  ∀ api, bootstrap_api StringOf o = Ok api →
    ∃ config c, appConfig (environment o) (dotenv o) = Some config ∧
      api_port api = app_port config ∧ 1 ≤ api_port api ∧
      api_db api = Some (mkPool (database_url config) false) ∧
      createBullMqConnection (redis config) = Ok c ∧ effective c = client (api_redis api) ∧
      (api_docs api = true ↔ app_env config ≠ production) ∧
      ∃ before, api_calls api = before ++ [Listen (api_port api) "0.0.0.0"] ∧
        [SetTrustProxy 1; EnableCors "*"; EnableShutdownHooks; EnableVersioning "1"] `prefix_of` before ∧
        (SetupSwagger "api/docs" ∈ before ↔ app_env config ≠ production).
Proof.
  unfold bootstrap_api, load_config. rewrite appConfig_again.
  destruct (appConfig (environment o) (dotenv o)) as [config|] eqn:Hcfg; [|by split; [naive_solver|]].
  pose proof (providers_spec o config) as Hp. destruct (providers o config) as [[db r]|e].
  - destruct Hp as (Hs & -> & c & Hc & Hr). unfold probe_queues.
    pose proof (probe_ok_spec StringOf (redis config) (probe_reply o)) as Hk.
    destruct (onModuleInit _ _ _).1 as [u|e]; cbn in Hk.
    + destruct (listening o (app_port config)) as [u'|e] eqn:El; cbn.
      * split; [split; [intros _; exists config; by rewrite El|done]|].
        intros api [= <-]. exists config, c. cbn. split_and!; try done.
        -- unfold appConfig in Hcfg. apply fmap_Some in Hcfg as (data & W%EnvSchema_wf & ->).
           by destruct W as [[? _] _ _ _ _ _ _ _].
        -- by rewrite negb_true_iff, bool_decide_eq_false.
        -- exists ([SetTrustProxy 1; EnableCors "*"; EnableShutdownHooks; EnableVersioning "1"] ++
             (if negb (bool_decide (app_env config = production)) then [SetupSwagger "api/docs"] else [])).
           split; [by case_bool_decide|]. split; [by eexists|]. case_bool_decide; simpl; set_solver.
      * split; [|done]. split; [done|]. intros (config' & [= <-] & _ & _ & H). by rewrite El in H.
    + cbn. split; [|done]. split; [done|]. intros (config' & [= <-] & _ & H & _). by rewrite <-Hk in H.
  - cbn. split; [|done]. split; [done|]. intros (config' & [= <-] & Hs & H & _).
    unfold probe_ok in H. rewrite !andb_true_iff in H. rewrite Hs in Hp. cbn in Hp.
    destruct H as [[[H _] _] _]. congruence.
Qed.

(** The worker process starts under the same conditions, the port apart. *)
Lemma worker_starts {S} `{JobSchedulers S} StringOf o (st : S) :
  is_ok (bootstrap_worker StringOf o st).1 = true ↔
  ∃ config, appConfig (environment o) (dotenv o) = Some config ∧ is_ok (select1 o) = true ∧
    probe_ok (redis config) (probe_reply o) = true.
Proof.
  unfold bootstrap_worker, load_config.
  destruct (appConfig (environment o) (dotenv o)) as [config|] eqn:Hcfg; [|naive_solver].
  pose proof (providers_spec o config) as Hp. destruct (providers o config) as [[db r]|e].
  - destruct Hp as (Hs & -> & c & Hc & Hr). rewrite start_eq, Hc. cbn. unfold probe_queues.
    pose proof (probe_ok_spec StringOf (redis config) (probe_reply o)) as Hk.
    destruct (onModuleInit _ _ _).1 as [u|e]; cbn in *; split; try done.
    + intros _. by exists config.
    + intros (config' & [= <-] & _ & H'). by rewrite <-Hk in H'.
  - cbn. split; [done|]. intros (config' & [= <-] & Hs & H').
    unfold probe_ok in H'. rewrite !andb_true_iff in H'. rewrite Hs in Hp. cbn in Hp.
    destruct H' as [[[H' _] _] _]. congruence.
Qed.

(** The worker exits, with code 1, in all other cases. *)
Lemma worker_exits {S} `{JobSchedulers S} StringOf o (st : S) :
  worker_main StringOf o st = Some 1 ↔
  ¬ ∃ config, appConfig (environment o) (dotenv o) = Some config ∧ is_ok (select1 o) = true ∧
    probe_ok (redis config) (probe_reply o) = true.
Proof.
  rewrite <-(worker_starts StringOf o st). unfold worker_main.
  destruct (bootstrap_worker StringOf o st).1; split; done.
Qed.

(** ** Instances *)

Definition all_well : outside :=
  mkOutside only_database_url None (Ok tt) (λ _, Ok tt) (λ _, Ok tt) (true, true) true.

Lemma api_listens_witness :
  bootstrap_api (λ _, "") all_well =
    Ok (mkApi (Some (mkPool "postgresql://proxy@db/proxy" false))
          (mkRedisService false (Redis "localhost" 6379 None (Some 0))) false 8080
          (configuration_calls false 8080)) ∧
  ∃ config, appConfig only_database_url None = Some config ∧ app_port config = 8080.
Proof.
  assert (Hb : bootstrap_api (λ _, "") all_well =
    Ok (mkApi (Some (mkPool "postgresql://proxy@db/proxy" false))
          (mkRedisService false (Redis "localhost" 6379 None (Some 0))) false 8080
          (configuration_calls false 8080)))
    by (vm_compute; reflexivity).
  split; [exact Hb|].
  destruct (proj2 (api_listens (λ _, "") all_well) _ Hb) as (config & c & Hc & Hp & _).
  exists config. split; [exact Hc|exact (eq_sym Hp)].
Defined.

(** A port no socket can have passes the validation and fails in [listen]. *)
Example port_fails_late :
  let o := mkOutside (assignments [("PORT", Some "70000"); ("DATABASE_URL", Some "postgres://db")]) None
    (Ok tt) (λ _, Ok tt) (λ p, if p <=? 65535 then Ok tt else Err (JsError "ERR_SOCKET_BAD_PORT"))
    (true, true) true in
  is_ok (load_config o) = true ∧ is_ok (bootstrap_api (λ _, "") o) = false.
Proof. split; vm_compute; reflexivity. Qed.
