(* ===== verification/Shutdown.v ===== *)
(** * Shutdown: how the two processes end

    [enableShutdownHooks()] in [src/main.ts] and [src/worker.ts], with the
    [onModuleDestroy] and [onApplicationShutdown] of the classes the modules of
    Wiring.v provide.  What Nest promises is [terminates]: the hooks
    [onModuleDestroy] run before the server is closed, [onApplicationShutdown]
    after; global modules end last; one module ends after the other, and the hooks
    of one module run concurrently.  A hook is the list of the operations it
    awaits; a worker is closed when its jobs are done, so that jobs run until then
    and must find what they use. *)
From S2P Require Import Prelude Wiring Errors KeyValue Effects RedisService RedisCommands Config Memo QueueAdapter Health Processors Bootstrap.

(** ** Interleavings *)

(** The lists of [ls], run concurrently. *)
Inductive interleaves {A} : list (list A) → list A → Prop :=
| interleaves_nil ls : concat ls = [] → interleaves ls []
| interleaves_cons l1 a l l2 tr :
    interleaves (l1 ++ l :: l2) tr → interleaves (l1 ++ (a :: l) :: l2) (a :: tr).

(** ** Hooks *)

(** What a hook awaits.  [CloseServer] is Nest's own. *)
Inductive action : Type :=
| Close (c : closing)                       (** [worker.close()], [queue.close()] *)
| CloseQueues (queues : list Queue)         (** [Promise.all] of the adapter's queues *)
| QuitClient (c : Client)                   (** [client.quit()] *)
| CloseServer
| EndPool.                                  (** [sql.end()] *)

(** What the providers of a process hold. *)
Record held : Type := mkHeld {
  h_process : WorkerProcess;
  h_adapter : BullMqAdapter;
  h_redis : RedisService;
  h_drizzle : Health.DrizzleService }.

Definition no_process : WorkerProcess := mkProcess [] [].

Section hooks.
Context (h : held).

Definition of_worker (hook : Worker → list closing) (n : nat) : list action :=
  Close <$> from_option hook [] (p_workers (h_process h) !! n).
Definition of_maintenance (n : nat) : list action :=
  Close <$> from_option maintenance_onModuleDestroy [] (p_maintenance (h_process h) !! n).

(** The classes with an [onModuleDestroy], and what it does. *)
Definition destroy_hooks : list (token * list action) :=
  [(Class_ "DispatchProcessor", of_worker dispatch_onModuleDestroy 0);
   (Class_ "CancelProcessor", of_worker cancel_onModuleDestroy 1);
   (Class_ "WebhookProcessor", of_worker webhook_onModuleDestroy 2);
   (Class_ "TimeoutSweeperProcessor", of_maintenance 0);
   (Class_ "DataRetentionProcessor", of_maintenance 1);
   (Class_ "BullMqAdapter", [CloseQueues (QueueAdapter.onModuleDestroy (h_adapter h))]);
   (Class_ "RedisService", [QuitClient (RedisCommands.onModuleDestroy (h_redis h))])].

(** The one with an [onApplicationShutdown]. *)
Definition shutdown_hooks : list (token * list action) := [(Class_ "DrizzleService", [EndPool])].
End hooks.

(** An alias is no provider of its own. *)
Definition hook (hooks : list (token * list action)) (p : Provider) : list action :=
  match p with
  | useExisting _ _ => []
  | _ => concat ((filter (λ th, th.1 = provided p) hooks).*2)
  end.

Definition hooks_of (hooks : list (token * list action)) (m : Module_) : list (list action) :=
  hook hooks <$> Wiring.providers m.

(** ** The end of a process, as Nest documents it *)

(** One module after the other. *)
Inductive runs (hooks : list (token * list action)) : list Module_ → list action → Prop :=
| runs_nil : runs hooks [] []
| runs_cons m ms b tr :
    interleaves (hooks_of hooks m) b → runs hooks ms tr → runs hooks (m :: ms) (b ++ tr).

Definition locals (root : Module_) : list Module_ :=
  List.filter (λ m, negb (is_global m)) (Wiring.scan root).
Definition global_modules (root : Module_) : list Module_ := List.filter is_global (Wiring.scan root).

(** One kind of hooks, on all modules: the global ones come last. *)
Definition phase (root : Module_) (hooks : list (token * list action)) (tr : list action) : Prop :=
  ∃ ms ms' tr1 tr2, ms ≡ₚ locals root ∧ ms' ≡ₚ global_modules root ∧
    runs hooks ms tr1 ∧ runs hooks ms' tr2 ∧ tr = tr1 ++ tr2.

(** [server] is what closes the connections: nothing in an application context. *)
Definition terminates (root : Module_) (server : list action) (h : held) (tr : list action) : Prop :=
  ∃ d s, phase root (destroy_hooks h) d ∧ phase root shutdown_hooks s ∧ tr = d ++ server ++ s.

(** ** What is open *)

Record resources : Type := mkResources {
  open_workers : gset string;               (** the queues of the workers not closed *)
  own_queues : gset string;                 (** the [Queue]s of the maintenance processors *)
  open_queues : gset string;                (** those of the adapter *)
  redis_client : option Client;
  drizzle : Health.DrizzleService;
  server_open : bool }.

Definition names (queues : list Queue) : gset string := list_to_set (q_name <$> queues).

Definition resources_of (h : held) (server : bool) : resources :=
  mkResources (list_to_set (worker_queue <$> all_workers (h_process h)))
    (list_to_set ((λ m, (m_queue m).1) <$> p_maintenance (h_process h)))
    (names (QueueAdapter.onModuleDestroy (h_adapter h)))
    (Some (client (h_redis h))) (h_drizzle h) server.

Definition perform (a : action) (s : resources) : resources :=
  let '(mkResources ws own qs c d l) := s in
  match a with
  | Close (CloseWorker q) => mkResources (ws ∖ {[q]}) own qs c d l
  | Close (CloseQueue q) => mkResources ws (own ∖ {[q]}) qs c d l
  | CloseQueues queues => mkResources ws own (qs ∖ names queues) c d l
  | QuitClient _ => mkResources ws own qs None d l
  | CloseServer => mkResources ws own qs c d false
  | EndPool => mkResources ws own qs c (onApplicationShutdown d).2 l
  end.

Definition performs (tr : list action) (s : resources) : resources :=
  foldl (λ s a, perform a s) s tr.

Definition pool_open (d : Health.DrizzleService) : bool :=
  match drizzle_sql d with Some p => negb (pool_ended p) | None => false end.

Definition all_closed (s : resources) : Prop :=
  open_workers s = ∅ ∧ own_queues s = ∅ ∧ open_queues s = ∅ ∧ redis_client s = None ∧
  pool_open (drizzle s) = false ∧ server_open s = false.

(** ** Lemmas *)

Lemma interleaves_perm {A} (ls : list (list A)) tr : interleaves ls tr → tr ≡ₚ concat ls.
Proof.
  induction 1 as [ls Hn|l1 a l l2 tr _ IH]; [by rewrite Hn|].
  rewrite IH, !concat_app. simpl. by rewrite <-Permutation_middle.
Qed.

(** A hook keeps its order. *)
Lemma interleaves_sublist {A} (ls : list (list A)) tr l :
  interleaves ls tr → l ∈ ls → l `sublist_of` tr.
Proof.
  intros H. revert l. induction H as [ls Hn|l1 a k l2 tr _ IH]; intros l Hl.
  - assert (l = []) as ->; [|done]. apply list_elem_of_split in Hl as (x & y & ->).
    rewrite concat_app in Hn. simpl in Hn. by apply app_eq_nil in Hn as [_ [-> _]%app_eq_nil].
  - apply elem_of_app in Hl as [Hl|[->|Hl]%elem_of_cons].
    + apply sublist_cons, IH. set_solver.
    + apply sublist_skip, IH. set_solver.
    + apply sublist_cons, IH. set_solver.
Qed.

(** One after the other is one way to run concurrently. *)
Lemma interleaves_concat {A} (ls : list (list A)) : interleaves ls (concat ls).
Proof.
  remember (concat ls) as tr eqn:E. revert ls E. induction tr as [|a tr IH]; intros ls E.
  - by apply interleaves_nil.
  - assert (∃ l1 l l2, ls = l1 ++ (a :: l) :: l2 ∧ tr = concat (l1 ++ l :: l2)) as (l1 & l & l2 & -> & Ht).
    { clear IH. induction ls as [|[|b k] ls IHl]; simpl in E; [done| |].
      - destruct (IHl E) as (l1 & l & l2 & -> & Ht). by exists ([] :: l1), l, l2.
      - injection E as <- ->. by exists [], k, ls. }
    apply interleaves_cons, IH, Ht.
Qed.

(** All that the hooks of some modules do. *)
Definition work (hooks : list (token * list action)) (ms : list Module_) : list action :=
  flat_map (λ m, concat (hooks_of hooks m)) ms.

Lemma runs_perm hooks ms tr : runs hooks ms tr → tr ≡ₚ work hooks ms.
Proof.
  induction 1 as [|m ms b tr Hb _ IH]; [done|]. simpl. by rewrite (interleaves_perm _ _ Hb), IH.
Qed.

Lemma runs_work hooks ms : runs hooks ms (work hooks ms).
Proof. induction ms; [apply runs_nil|]. by apply runs_cons; [apply interleaves_concat|]. Qed.

Lemma runs_sublist hooks ms tr m l :
  runs hooks ms tr → m ∈ ms → l ∈ hooks_of hooks m → l `sublist_of` tr.
Proof.
  induction 1 as [|n ms b tr Hb _ IH]; intros Hm Hl; [set_solver|].
  apply elem_of_cons in Hm as [->|Hm].
  - apply sublist_inserts_r. by eapply interleaves_sublist.
  - apply sublist_inserts_l. by apply IH.
Qed.

#[export] Instance work_proper hooks : Proper ((≡ₚ) ==> (≡ₚ)) (work hooks).
Proof. intros ms ms' Hp. unfold work. by rewrite !flat_map_concat_map, Hp. Qed.

(** A phase: the work of the local modules, then that of the global ones. *)
Lemma phase_split root hooks tr :
  phase root hooks tr →
  ∃ tr1 tr2, tr = tr1 ++ tr2 ∧ tr1 ≡ₚ work hooks (locals root) ∧
    tr2 ≡ₚ work hooks (global_modules root) ∧
    (∀ m l, m ∈ locals root → l ∈ hooks_of hooks m → l `sublist_of` tr1).
Proof.
  intros (ms & ms' & tr1 & tr2 & Hm & Hm' & H1 & H2 & ->). exists tr1, tr2. split_and!; [done|..].
  - by rewrite (runs_perm _ _ _ H1), Hm.
  - by rewrite (runs_perm _ _ _ H2), Hm'.
  - intros m l Hl. eapply runs_sublist; [done|]. by rewrite Hm.
Qed.

Lemma terminates_work root server h :
  terminates root server h
    ((work (destroy_hooks h) (locals root) ++ work (destroy_hooks h) (global_modules root)) ++
     server ++ work shutdown_hooks (locals root) ++ work shutdown_hooks (global_modules root)).
Proof. eexists _, _. split_and!; [..|done]; eexists _, _, _, _; split_and!; try apply runs_work; done. Qed.

(** *** Resources *)

Lemma performs_app tr tr' s : performs (tr ++ tr') s = performs tr' (performs tr s).
Proof. apply foldl_app. Qed.

Lemma open_workers_performs tr s q :
  q ∈ open_workers (performs tr s) ↔ q ∈ open_workers s ∧ Close (CloseWorker q) ∉ tr.
Proof.
  revert s. induction tr as [|a tr IH]; intros s; [set_solver|]. cbn [performs foldl].
  rewrite (IH (perform a s)). destruct s, a as [[]|?|?| |]; simpl; set_solver.
Qed.

Lemma own_queues_performs tr s q :
  q ∈ own_queues (performs tr s) ↔ q ∈ own_queues s ∧ Close (CloseQueue q) ∉ tr.
Proof.
  revert s. induction tr as [|a tr IH]; intros s; [set_solver|]. cbn [performs foldl].
  rewrite (IH (perform a s)). destruct s, a as [[]|?|?| |]; simpl; set_solver.
Qed.

(** What is left alone by closing workers and their queues. *)
Definition local (a : action) : Prop := match a with Close _ => True | _ => False end.

Lemma performs_local tr s :
  Forall local tr →
  redis_client (performs tr s) = redis_client s ∧ open_queues (performs tr s) = open_queues s ∧
  drizzle (performs tr s) = drizzle s ∧ server_open (performs tr s) = server_open s.
Proof.
  intros H. revert s. induction H as [|a tr Ha _ IH]; intros s; [done|].
  change (performs (a :: tr) s) with (performs tr (perform a s)).
  destruct (IH (perform a s)) as (-> & -> & -> & ->). by destruct s, a as [[]|?|?| |].
Qed.

(** The local modules of the worker process are those of the processors. *)
Lemma worker_local h connection :
  h_process h = process_on connection →
  work (destroy_hooks h) (locals WorkerModule) =
    Close <$> [CloseWorker "dispatch"; CloseWorker "cancel"; CloseWorker "webhook";
               CloseWorker SWEEP_QUEUE; CloseQueue SWEEP_QUEUE;
               CloseWorker RETENTION_QUEUE; CloseQueue RETENTION_QUEUE] ∧
  work (destroy_hooks h) (global_modules WorkerModule) =
    [QuitClient (client (h_redis h)); CloseQueues (QueueAdapter.onModuleDestroy (h_adapter h))].
Proof. destruct h as [p a r d]; cbn [h_process]; intros ->. split; vm_compute; reflexivity. Qed.

Lemma api_local h :
  work (destroy_hooks h) (locals AppModule) = [] ∧
  work (destroy_hooks h) (global_modules AppModule) =
    [QuitClient (client (h_redis h)); CloseQueues (QueueAdapter.onModuleDestroy (h_adapter h))].
Proof. split; vm_compute; reflexivity. Qed.

Lemma shutdown_work root :
  root ∈ [AppModule; WorkerModule] →
  work shutdown_hooks (locals root) = [] ∧ work shutdown_hooks (global_modules root) = [EndPool].
Proof.
  intros [->|Hr%list_elem_of_singleton]%elem_of_cons; [|subst root]; split; vm_compute; reflexivity.
Qed.

Lemma open_queues_performs tr s q :
  q ∈ open_queues (performs tr s) ↔
  q ∈ open_queues s ∧ ∀ l, CloseQueues l ∈ tr → q ∉ names l.
Proof.
  revert s. induction tr as [|a tr IH]; intros s; [set_solver|].
  change (performs (a :: tr) s) with (performs tr (perform a s)). rewrite (IH (perform a s)).
  destruct s, a as [[]|?|?| |]; simpl; set_solver.
Qed.

Lemma redis_closed_performs tr s :
  redis_client (performs tr s) = None ↔ redis_client s = None ∨ ∃ c, QuitClient c ∈ tr.
Proof.
  revert s. induction tr as [|a tr IH]; intros s; [set_solver|].
  change (performs (a :: tr) s) with (performs tr (perform a s)). rewrite (IH (perform a s)).
  destruct s, a as [[]|?|?| |]; simpl; set_solver.
Qed.

Lemma pool_open_performs tr s :
  pool_open (drizzle (performs tr s)) = true ↔ pool_open (drizzle s) = true ∧ EndPool ∉ tr.
Proof.
  revert s. induction tr as [|a tr IH]; intros s; [set_solver|].
  change (performs (a :: tr) s) with (performs tr (perform a s)). rewrite (IH (perform a s)).
  destruct s as [? ? ? ? [[[]|] ?] ?], a as [[]|?|?| |]; simpl; set_solver.
Qed.

Lemma server_open_performs tr s :
  server_open (performs tr s) = true ↔ server_open s = true ∧ CloseServer ∉ tr.
Proof.
  revert s. induction tr as [|a tr IH]; intros s; [set_solver|].
  change (performs (a :: tr) s) with (performs tr (perform a s)). rewrite (IH (perform a s)).
  destruct s, a as [[]|?|?| |]; simpl; set_solver.
Qed.

(** A prefix ends inside the first part, or contains it. *)
Lemma prefix_app_cases {A} (pre l k : list A) :
  pre `prefix_of` l ++ k → pre `prefix_of` l ∨ ∃ k', pre = l ++ k'.
Proof.
  intros [z Hz]. apply app_eq_inv in Hz as [(k' & -> & _)|(k' & -> & _)]; [by left; exists k'|].
  right. by exists k'.
Qed.

(** What comes second is not done before what comes first. *)
Lemma prefix_ordered {A} (a b : A) l pre :
  NoDup l → [a; b] `sublist_of` l → pre `prefix_of` l → b ∈ pre → a ∈ pre.
Proof.
  intros HN Hs [z ->] Hb. apply NoDup_app in HN as (_ & HN & _).
  apply sublist_app_r in Hs as (l1 & l2 & Heq & H1 & H2).
  destruct l1 as [|x l1].
  - simpl in Heq. subst l2. exfalso. apply (HN b Hb).
    eapply elem_of_sublist; [|exact H2]. set_solver.
  - injection Heq as <- _. eapply elem_of_sublist; [|exact H1]. set_solver.
Qed.

(** Everything is closed when every kind of resource was. *)
Lemma all_closed_spec tr s :
  (∀ q, q ∈ open_workers s → Close (CloseWorker q) ∈ tr) →
  (∀ q, q ∈ own_queues s → Close (CloseQueue q) ∈ tr) →
  (∀ q, q ∈ open_queues s → ∃ l, CloseQueues l ∈ tr ∧ q ∈ names l) →
  (∃ c, QuitClient c ∈ tr) → EndPool ∈ tr → (server_open s = true → CloseServer ∈ tr) →
  all_closed (performs tr s).
Proof.
  intros Hw Ho Hq Hr Hp Hs. unfold all_closed. split_and!.
  - apply set_eq. intros q. rewrite open_workers_performs. set_solver.
  - apply set_eq. intros q. rewrite own_queues_performs. set_solver.
  - apply set_eq. intros q. rewrite open_queues_performs. split; [|set_solver].
    intros [[l [Hl Hn]]%Hq H]. by destruct (H l Hl).
  - apply redis_closed_performs. by right.
  - apply not_true_is_false. rewrite pool_open_performs. by intros [_ ?].
  - apply not_true_is_false. rewrite server_open_performs. by intros [?%Hs ?].
Qed.

(** *** The worker process *)

(** A process started on a connection. *)
Definition worker_held (connection : Client) (a : BullMqAdapter) (r : RedisService) (db : option Pool) : held :=
  mkHeld (process_on connection) a r (mkDrizzle db db).

Definition worker_closings : list closing :=
  [CloseWorker "dispatch"; CloseWorker "cancel"; CloseWorker "webhook";
   CloseWorker SWEEP_QUEUE; CloseQueue SWEEP_QUEUE;
   CloseWorker RETENTION_QUEUE; CloseQueue RETENTION_QUEUE].

Lemma closings_NoDup : NoDup (Close <$> worker_closings).
Proof.
  apply NoDup_fmap_2; [by intros ?? [=]|].
  repeat (apply NoDup_cons; split; [set_solver|]). by apply NoDup_nil.
Qed.

(** A trace of the worker process: the processors, then the connections they use,
    then the pool. *)
Lemma worker_trace connection a r db tr :
  terminates WorkerModule [] (worker_held connection a r db) tr →
  ∃ tr1 tr2, tr = tr1 ++ tr2 ∧ tr1 ≡ₚ Close <$> worker_closings ∧
    tr2 ≡ₚ [QuitClient (client r); CloseQueues (QueueAdapter.onModuleDestroy a); EndPool] ∧
    ∀ q, q ∈ [SWEEP_QUEUE; RETENTION_QUEUE] →
      [Close (CloseWorker q); Close (CloseQueue q)] `sublist_of` tr1.
Proof.
  intros (d & s & (d1 & d2 & -> & H1 & H2 & Hs)%phase_split & (s1 & s2 & -> & H3 & H4 & _)%phase_split & ->).
  destruct (worker_local (worker_held connection a r db) connection eq_refl) as [L G].
  destruct (shutdown_work WorkerModule ltac:(set_solver)) as [L' G'].
  rewrite L in H1. rewrite G in H2. rewrite L' in H3. rewrite G' in H4. apply Permutation_nil_r in H3 as ->.
  exists d1, (d2 ++ s2). split_and!; [by rewrite <-app_assoc|done|by rewrite H2, H4|].
  intros q Hq. apply (Hs MaintenanceModule).
  - apply list_elem_of_In. vm_compute. tauto.
  - apply elem_of_cons in Hq as [->|Hq%list_elem_of_singleton]; [|subst q];
      apply list_elem_of_In; vm_compute; tauto.
Qed.

Lemma worker_drains connection a r db tr pre :
  terminates WorkerModule [] (worker_held connection a r db) tr → pre `prefix_of` tr →
  let s0 := resources_of (worker_held connection a r db) false in
  let s := performs pre s0 in
  (open_workers s ≠ ∅ →
     redis_client s = Some (client r) ∧ open_queues s = open_queues s0 ∧ drizzle s = mkDrizzle db db) ∧
  (∀ q, q ∈ open_workers s → q ∈ own_queues s0 → q ∈ own_queues s) ∧
  all_closed (performs tr s0).
Proof.
  intros (tr1 & tr2 & -> & H1 & H2 & Hord)%worker_trace Hpre s0 s.
  assert (W : ∀ q, q ∈ open_workers s0 → Close (CloseWorker q) ∈ tr1).
  { intros q Hq. rewrite H1. apply list_elem_of_fmap. eexists; split; [done|].
    unfold s0, worker_held in Hq. cbn in Hq. set_solver. }
  assert (O : ∀ q, q ∈ own_queues s0 → q ∈ [SWEEP_QUEUE; RETENTION_QUEUE]) by (cbn; set_solver).
  assert (C : all_closed (performs (tr1 ++ tr2) s0)).
  { apply all_closed_spec; try done.
    - intros q Hq. apply elem_of_app. left. by apply W.
    - intros q Hq. apply elem_of_app. left. rewrite H1. apply list_elem_of_fmap.
      eexists; split; [done|]. apply O in Hq. set_solver.
    - intros q Hq. eexists. split; [|exact Hq]. rewrite elem_of_app, H2. set_solver.
    - exists (client r). rewrite elem_of_app, H2. set_solver.
    - rewrite elem_of_app, H2. set_solver. }
  apply prefix_app_cases in Hpre as [Hpre|[k ->]].
  - assert (F : Forall local pre).
    { assert (Forall local tr1) as F by (rewrite H1; repeat constructor).
      destruct Hpre as [z ->]. by apply Forall_app in F as [F _]. }
    destruct (performs_local pre s0 F) as (Er & Eq & Ed & _). split_and!; [done| |done].
    intros q [_ Hq]%open_workers_performs Ho. apply own_queues_performs. split; [done|].
    contradict Hq. eapply prefix_ordered; [|by apply Hord, O|exact Hpre|exact Hq].
    rewrite H1. apply closings_NoDup.
  - assert (E : open_workers s = ∅).
    { apply set_eq. intros q. unfold s. rewrite open_workers_performs. set_solver. }
    rewrite E. split_and!; [done|set_solver|done].
Qed.

(** *** The API process *)

Lemma api_closes_late h tr :
  pool_open (h_drizzle h) = true → h_process h = no_process → terminates AppModule [CloseServer] h tr →
  let s0 := resources_of h true in
  ∃ tr1 tr2, tr = tr1 ++ CloseServer :: tr2 ∧
    redis_client (performs tr1 s0) = None ∧ open_queues (performs tr1 s0) = ∅ ∧
    server_open (performs tr1 s0) = true ∧ pool_open (drizzle (performs tr1 s0)) = true ∧
    pool_open (drizzle (performs (tr1 ++ [CloseServer]) s0)) = true ∧ all_closed (performs tr s0).
Proof.
  intros Hp Hn (d & s & (d1 & d2 & -> & H1 & H2 & _)%phase_split & (s1 & s2 & -> & H3 & H4 & _)%phase_split & ->) s0.
  destruct (api_local h) as [L G]. destruct (shutdown_work AppModule ltac:(set_solver)) as [L' G'].
  rewrite L in H1. rewrite G in H2. rewrite L' in H3. rewrite G' in H4.
  apply Permutation_nil_r in H1 as ->, H3 as ->. apply Permutation_singleton_r in H4 as ->.
  exists d2, [EndPool]. simpl. split_and!; [done|..].
  - apply redis_closed_performs. right. exists (client (h_redis h)). rewrite H2. set_solver.
  - apply set_eq. intros q. rewrite open_queues_performs. split; [|set_solver].
    intros [Hq H]. exfalso. eapply H; [|exact Hq]. rewrite H2. set_solver.
  - apply server_open_performs. split; [done|]. rewrite H2. set_solver.
  - apply pool_open_performs. split; [done|]. rewrite H2. set_solver.
  - apply pool_open_performs. split; [done|]. rewrite elem_of_app, H2. set_solver.
  - apply all_closed_spec; cbn; rewrite ?Hn; cbn.
    + set_solver.
    + set_solver.
    + intros q Hq. eexists. split; [|exact Hq]. rewrite elem_of_app, H2. set_solver.
    + exists (client (h_redis h)). rewrite elem_of_app, H2. set_solver.
    + set_solver.
    + set_solver.
Qed.

(** *** What a start leaves *)

Lemma worker_started {S} `{JobSchedulers S} StringOf o (st : S) db r p st' :
  bootstrap_worker StringOf o st = (Ok (db, r, p), st') →
  ∃ connection, p = process_on connection ∧ pool_open (mkDrizzle db db) = true.
Proof.
  unfold bootstrap_worker. destruct (load_config o) as [config|]; [|done].
  pose proof (providers_spec o config) as Hp. destruct (providers o config) as [[db' r']|]; [|done].
  destruct Hp as (_ & -> & c & Hc & _). rewrite start_eq, Hc. cbn.
  destruct (probe_queues StringOf o config); [|done]. intros [= <- <- <- _]. by exists c.
Qed.

Lemma api_started StringOf o api :
  bootstrap_api StringOf o = Ok api → pool_open (mkDrizzle (api_db api) (api_db api)) = true.
Proof.
  unfold bootstrap_api. destruct (load_config o) as [config|]; [|done].
  pose proof (providers_spec o config) as Hp. destruct (providers o config) as [[db' r']|]; [|done].
  destruct Hp as (_ & -> & _). repeat case_match; try done. by intros [= <-].
Qed.

(** ** Properties *)

(** C38: how the processes end.  Stop a worker process that has started, at any
    point of any order of its hooks that Nest allows: as long as one of its workers
    is open, and may be running a job, Redis, the queues of the adapter and the
    Postgres pool are as they were, and a maintenance worker's own queue is open;
    after a complete shutdown nothing is left open.  The API process leaves nothing
    open either, but closes in the wrong order: when its server is closed, and
    until then it accepts requests, its Redis client has been quit and all its
    queues are closed; the Postgres pool alone outlives the server. *)
Theorem shutdown_order {S} `{JobSchedulers S} StringOf o :
  (∀ (st : S) db r p st' a tr pre,
     bootstrap_worker StringOf o st = (Ok (db, r, p), st') →
     let h := mkHeld p a r (mkDrizzle db db) in
     terminates WorkerModule [] h tr → pre `prefix_of` tr →
     let s0 := resources_of h false in
     let s := performs pre s0 in
     (open_workers s ≠ ∅ →
        redis_client s = Some (client r) ∧ open_queues s = open_queues s0 ∧
        pool_open (drizzle s) = true) ∧
     (∀ q, q ∈ open_workers s → q ∈ own_queues s0 → q ∈ own_queues s) ∧
     all_closed (performs tr s0)) ∧
  (∀ api a tr,
     bootstrap_api StringOf o = Ok api →
     let h := mkHeld no_process a (api_redis api) (mkDrizzle (api_db api) (api_db api)) in
     terminates AppModule [CloseServer] h tr →
     let s0 := resources_of h true in
     ∃ tr1 tr2, tr = tr1 ++ CloseServer :: tr2 ∧
       redis_client (performs tr1 s0) = None ∧ open_queues (performs tr1 s0) = ∅ ∧
       server_open (performs tr1 s0) = true ∧ pool_open (drizzle (performs tr1 s0)) = true ∧
       pool_open (drizzle (performs (tr1 ++ [CloseServer]) s0)) = true ∧ all_closed (performs tr s0)).
Proof.
  split.
  - intros st db r p st' a tr pre Hb h Ht Hpre s0 s.
    destruct (worker_started _ _ _ _ _ _ _ Hb) as (connection & -> & Hdb).
    destruct (worker_drains connection a r db tr pre Ht Hpre) as (Hw & Ho & Hc).
    split_and!; [|exact Ho|exact Hc]. intros Hne. destruct (Hw Hne) as (? & ? & Hd).
    split_and!; [done..|]. change (drizzle s = mkDrizzle db db) in Hd. by rewrite Hd.
  - intros api a tr Hb h Ht. apply api_closes_late; [|done|exact Ht]. exact (api_started _ _ _ Hb).
Qed.

(** ** Instances *)

(** The API of Bootstrap.v, with two queues in use. *)
Definition used_adapter : BullMqAdapter :=
  let config := mkRedisConfig "localhost" 6379 None 0 false None in
  (getQueues config ["dispatch"; "webhook"] new_adapter).2.

Definition sample_db : option Pool := Some (mkPool "postgresql://proxy@db/proxy" false).
Definition sample_redis : RedisService := mkRedisService false (Redis "localhost" 6379 None (Some 0%Z)).
Definition sample_worker : held :=
  mkHeld (process_on (Redis "localhost" 6379 None (Some 0%Z))) new_adapter sample_redis
    (mkDrizzle sample_db sample_db).
Definition sample_api : held :=
  mkHeld no_process used_adapter sample_redis (mkDrizzle sample_db sample_db).

Lemma shutdown_order_witness :
  redis_client (performs [Close (CloseWorker "dispatch")] (resources_of sample_worker false))
    = Some (client sample_redis) ∧
  ∃ tr1 tr2 : list action,
    redis_client (performs tr1 (resources_of sample_api true)) = None ∧
    server_open (performs tr1 (resources_of sample_api true)) = true ∧
    all_closed (performs (tr1 ++ CloseServer :: tr2) (resources_of sample_api true)).
Proof.
  destruct (shutdown_order (S := gmap (string * string) JobSchedule) (λ _, "") all_well) as [W A].
  split.
  - assert (B : (bootstrap_worker (λ _, "") all_well (∅ : gmap (string * string) JobSchedule)).1 =
      Ok (sample_db, sample_redis, h_process sample_worker)) by (vm_compute; reflexivity).
    apply (f_equal (λ x, (x, (bootstrap_worker (λ _, "") all_well
      (∅ : gmap (string * string) JobSchedule)).2))) in B.
    rewrite <-surjective_pairing in B.
    destruct (W _ _ _ _ _ new_adapter _ [Close (CloseWorker "dispatch")] B
                (terminates_work WorkerModule [] sample_worker)) as [H _].
    + eexists. vm_compute. reflexivity.
    + apply H. intros E. assert (C : "webhook" ∈ (∅ : gset string)).
      { rewrite <-E. apply (bool_decide_unpack _). vm_compute. exact I. }
      exact (not_elem_of_empty _ C).
  - assert (B : bootstrap_api (λ _, "") all_well = Ok (mkApi sample_db sample_redis false 8080 (configuration_calls false 8080)))
      by (vm_compute; reflexivity).
    destruct (A _ used_adapter _ B (terminates_work AppModule [CloseServer] sample_api))
      as (tr1 & tr2 & Et & Hr & _ & Hs & _ & _ & Hc).
    exists tr1, tr2. split; [exact Hr|split; [exact Hs|]]. rewrite <-Et. exact Hc.
Defined.
