(* ===== verification/TableSteps.v ===== *)
(** * TableSteps: what one operation may do to the two tables

    Every operation of [program_op] that reaches the database makes one of the
    steps of [table_step].  The invariants of the tables and the accounts of the
    following files are checked against this relation. *)
From S2P Require Import Prelude Errors Schema Database Samples EventsRepository TasksRepository KeyValue Effects TasksService MaintenanceRepository MaintenanceWorkers ExecutorService Workers Http Handlers.

#[local] Open Scope Z_scope.

Section table_step.
Context {SO : ScanOrder} {V : Validation}.

(** The assignments of the conditional UPDATEs, with what they require. *)
Inductive row_update (r : TaskRow) : list TaskSet → Prop :=
| ru_start now t :
    status r = PENDING → row_update r (Set_status PROCESSING :: started_sets now t)
| ru_finish dto now :
    SubmitResultSchema dto = true → status r = PROCESSING →
    row_update r (Set_status (to_status dto) :: result_sets dto now)
| ru_give_up err now :
    is_http_retry_error err = true → status r = PROCESSING →
    row_update r [Set_status FAILED; Set_completedAt (Some now); Set_error (Some (dispatch_error err))]
| ru_progress p : 0 ≤ p ≤ 100 → row_update r [Set_progress p].

Inductive table_step (al : allowance) (c : dbctx) (d : db) : db → Prop :=
| ts_same : table_step al c d d
| ts_created dto now token r :
    CreateTaskSchema isURL dto = true →
    r = insert_row (c_db_now c) (c_uuid c 0) (new_task dto now token) →
    tasks d !! id r = None → table_step al c d (with_task d r)
| ts_erased i : table_step al c d (mkDb (delete i (tasks d)) (task_events d))
| ts_updated i r sets :
    tasks d !! i = Some r → row_update r sets →
    table_step al c d (mkDb (<[i := update_row (c_now c) sets r]> (tasks d)) (task_events d))
| ts_cancelled i r :
    tasks d !! i = Some r → is_terminal (status r) = false →
    table_step al c d (mkDb (<[i := cancelled_row (c_now c) r]> (tasks d))
                      (task_events d ++ [appended_event c (CancelledEventInput i) d]))
| ts_logged input :
    al_event al input →
    table_step al c d (mkDb (tasks d) (task_events d ++ [appended_event c input d]))
| ts_expired now n res d' : expire_tx now n c d = (Ok res, d') → table_step al c d d'
| ts_purged ids : table_step al c d (purge ids d).

Lemma updateStatus_table_step al c i from to extra d o d' :
  db_wf d → updateStatus c i from to extra d = (o, d') →
  (∀ r, tasks d !! i = Some r → status_condition from r = true → row_update r (Set_status to :: extra)) →
  table_step al c d d'.
Proof.
  intros W. rewrite updateStatus_eq by done. destruct (tasks d !! i) as [r|] eqn:Hi.
  - destruct (status_condition from r) eqn:Hc; [|intros [= _ <-]; constructor]. cbv zeta.
    case_match; intros [= _ <-] Hu; [constructor|]. eapply ts_updated; eauto.
  - intros [= _ <-] _. constructor.
Qed.

Lemma statements_table_step al c d :
  db_wf d →
  (∀ dto now token o d', CreateTaskSchema isURL dto = true →
     insert c (new_task dto now token) d = (o, d') → table_step al c d d') ∧
  (∀ i o d', deleteById i d = (o, d') → table_step al c d d') ∧
  (∀ i p o d', 0 ≤ p ≤ 100 → TasksRepository.updateProgress c i p d = (o, d') → table_step al c d d') ∧
  (∀ i o d', cancelTask c i d = (o, d') → table_step al c d d') ∧
  (∀ input o d', al_event al input → insertEvent c input d = (o, d') → table_step al c d d') ∧
  (∀ now n o d', expire_tx now n c d = (o, d') → table_step al c d d') ∧
  (∀ ids o d', delete_batch ids d = (o, d') → table_step al c d d').
Proof.
  intros W. split_and!.
  - intros dto now token [r|e] d' Hs H; [|apply insert_err in H as ->; constructor].
    apply insert_task_ok in H as (-> & _ & Hn & _ & ->). by eapply ts_created.
  - intros i o d'. rewrite deleteById_eq by done. intros [= _ <-]. apply ts_erased.
  - intros i p o d' Hp. rewrite updateProgress_eq by done.
    destruct (tasks d !! i) as [r|] eqn:Hi; [|intros [= _ <-]; constructor]. cbv zeta.
    case_match; intros [= _ <-]; [constructor|]. eapply ts_updated; [done|]. by constructor.
  - intros i o d' H. apply cancelTask_cases in H; [|done].
    destruct H as [(_ & -> & _)|[(r & Hi & Ht & _ & ->)|(-> & _)]];
      [apply ts_same|by apply ts_cancelled|apply ts_same].
  - intros input o d' Hv [(a & _ & H)|(e & d1 & _ & _ & ->)]%transaction_inv; [|constructor].
    apply insertEventInTx_cases in H as [(_ & _ & ->)|(_ & _ & ->)]; [by apply ts_logged|constructor|done].
  - intros now n [res|e] d' H; [by eapply ts_expired|]. apply expire_tx_err in H as ->. constructor.
  - intros ids o d'. rewrite delete_batch_eq by done. intros [= _ <-]. constructor.
Qed.

(** A call to the database commits its statement, or does nothing. *)
Lemma db_table_step al E {A} (t : dbctx → sql A) w r w' :
  (∀ o d', t (ctx_of E w) (w_db w) = (o, d') → table_step al (ctx_of E w) (w_db w) d') →
  exec_op E (DbTx t) w = (r, w') → table_step al (ctx_of E w) (w_db w) (w_db w').
Proof.
  intros Ht He. simpl in He. destruct (t (ctx_of E w) (w_db w)) as [o d'].
  specialize (Ht o d' eq_refl). destruct (e_fault E (w_step w)); injection He as _ <-; try done.
  constructor.
Qed.

(** An operation that is not a call to the database leaves the tables alone. *)
Definition not_db (X : Type) (op : io X) : Prop :=
  match op with DbTx _ => False | _ => True end.

Lemma not_db_same E X (op : io X) w r w' :
  not_db X op → exec_op E op w = (r, w') → w_db w' = w_db w.
Proof.
  destruct op; try done; simpl; intros _;
    try (destruct (f (w_now w) (w_redis w))); try (destruct (e_http _ _ _));
    try (destruct (e_fault E (w_step w))); by intros [= _ <-].
Qed.

(** Every operation of the program makes a step of [table_step]. *)
Lemma program_op_table_step al E X (op : io X) w r w' :
  program_op al X op → db_wf (w_db w) → exec_op E op w = (r, w') →
  table_step al (ctx_of E w) (w_db w) (w_db w').
Proof.
  intros Hp W. destruct (statements_table_step al (ctx_of E w) (w_db w) W)
    as (Hi & Hd & Hpr & Hc & He & Hx & Hpu).
  destruct Hp; try (intros ->%not_db_same; [constructor|done]); apply db_table_step; intros o d';
    eauto.
  - intros H. refine (updateStatus_table_step al _ _ _ _ _ _ _ _ W H _). intros r0 _ Hs%bool_decide_eq_true_1. by constructor.
  - intros H0. refine (updateStatus_table_step al _ _ _ _ _ _ _ _ W H0 _). intros r0 _ Hs%bool_decide_eq_true_1. by constructor.
  - intros H0. refine (updateStatus_table_step al _ _ _ _ _ _ _ _ W H0 _). intros r0 _ Hs%bool_decide_eq_true_1. by constructor.
  - intros ->%H; [constructor|done].
Qed.

Lemma program_op_wf al E X (op : io X) w r w' :
  program_op al X op → db_wf (w_db w) → exec_op E op w = (r, w') → db_wf (w_db w').
Proof.
  intros Hp W.
  assert (D : ∀ A (t : dbctx → sql A) r w', (∀ c o d', t c (w_db w) = (o, d') → db_wf d') →
            exec_op E (DbTx t) w = (r, w') → db_wf (w_db w')).
  { intros A t r0 w0 Ht He. simpl in He. destruct (t (ctx_of E w) (w_db w)) as [o d'] eqn:Hd.
    apply Ht in Hd. by destruct (e_fault E (w_step w)); injection He as _ <-. }
  destruct Hp; try (intros ->%not_db_same; done); apply D; intros c o d' Ht;
    try (solve [eauto with proxy]).
  - rewrite delete_batch_eq in Ht by done. injection Ht as _ <-. by apply purge_wf.
  - by rewrite (H c (w_db w) o d').
Qed.

(** An invariant of the tables that every step keeps holds in every execution. *)
Lemma tables_invariant key E (Inv : db → Prop) w0 c :
  db_wf (w_db w0) → Inv (w_db w0) →
  (∀ c d d', db_wf d → db_wf d' → Inv d → table_step program_al c d d' → Inv d') →
  reachable E (handler key) w0 c → db_wf (w_db (the_world c)) ∧ Inv (w_db (the_world c)).
Proof.
  intros W0 H0 Hs Hr.
  apply (program_invariant key E (λ w, db_wf (w_db w) ∧ Inv (w_db w)) w0 c); [done| |done].
  intros X op Hop w r w' [W HI] He.
  assert (W' : db_wf (w_db w')) by (by eapply program_op_wf). split; [done|].
  eapply Hs; [exact W|done..|]. by eapply program_op_table_step.
Qed.
End table_step.
