(* ===== verification/Typed.v ===== *)
(** * Typed: the types of what is stored

    The [TypeScript] types of the rows say less than the code maintains.  Here: in
    every reachable state each row satisfies the schema its request was validated
    with, has the columns its status calls for, and each event has the payload of
    its type. *)
From S2P Require Import Prelude Errors Schema Database Samples EventsRepository TasksRepository KeyValue Effects TasksService MaintenanceRepository MaintenanceWorkers ExecutorService Workers Http Handlers TableSteps.

#[local] Open Scope Z_scope.

Section typed.
Context {V : Validation}.

(** The columns of each status. *)
Definition status_columns (r : TaskRow) : Prop :=
  match status r with
  | PENDING | PROCESSING => is_Some (expiresAt r) ∧ result r = None ∧ error r = None
  | COMPLETED => (∃ fields, result r = Some (JObj fields)) ∧ error r = None
  | FAILED => (∃ e, error r = Some e ∧ TaskErrorSchema e = true) ∧ result r = None
  | CANCELLED => result r = None ∧ error r = None
  end.

Definition url_or_none (u : option string) : bool :=
  match u with Some u => isURL u | None => true end.

Record typed_row (r : TaskRow) : Prop := {
  ty_progress : 0 ≤ progress r ≤ 100;
  ty_timeout : 1 ≤ timeoutSeconds r ≤ 86400;
  ty_executorUrl : isURL (executorUrl r) = true;
  ty_webhookUrl : url_or_none (webhookUrl r) = true;
  ty_cancelUrl : url_or_none (cancelUrl r) = true;
  ty_token : is_Some (callbackToken r);
  ty_status : status_columns r }.

(** The payload of each type of event. *)
Definition typed_event (e : TaskEventRow) : Prop :=
  match ev_type e with
  | progress_ev => ∃ p, ev_payload e = JObj [("progress", JNum p)] ∧ 0 ≤ p ≤ 100
  | completed_ev => ∃ fields, ev_payload e = JObj [("data", JObj fields)]
  | failed_ev => ∃ err, ev_payload e = JObj [("error", TaskError_json err)] ∧ TaskErrorSchema err = true
  | cancelled_ev => ev_payload e = JObj []
  end.

Definition typed_db (d : db) : Prop :=
  (∀ i r, tasks d !! i = Some r → typed_row r) ∧ Forall typed_event (task_events d).

(** ** Lemmas *)

Lemma empty_db_typed : typed_db empty_db.
Proof. split; [by intros i r|constructor]. Qed.

Lemma created_typed dto now token db_now uuid :
  CreateTaskSchema isURL dto = true → typed_row (insert_row db_now uuid (new_task dto now token)).
Proof.
  unfold CreateTaskSchema. rewrite !andb_true_iff, !Z.leb_le. intros [[[He Hc] Hw] [H1 H2]].
  constructor; simpl; try done; try by eexists.
Qed.

Lemma dispatch_error_typed err :
  is_http_retry_error err = true → TaskErrorSchema (dispatch_error err) = true.
Proof. by destruct err. Qed.

(** The assignments of the program keep a row typed. *)
Lemma row_update_typed now r sets :
  row_update r sets → typed_row r → typed_row (update_row now sets r).
Proof.
  intros Hu [Hp Ht He Hw Hc Hk Hs]. unfold status_columns in Hs.
  destruct Hu as [t0 t Hst|[[]|] t Hf Hst|err t Hr Hst|p Hp']; constructor; try done;
    unfold status_columns; simpl; rewrite ?Hst in Hs; destruct_and?; split_and?; eauto using dispatch_error_typed.
Qed.

Lemma valid_event_typed c input d : valid_event input → typed_event (appended_event c input d).
Proof. destruct input; simpl; unfold typed_event; simpl; naive_solver. Qed.

Lemma cancelled_typed now r : is_terminal (status r) = false → typed_row r → typed_row (cancelled_row now r).
Proof.
  intros Hn [Hp Ht He Hw Hc Hk Hs]. constructor; try done. unfold status_columns in *. simpl.
  destruct (status r); try done; by destruct Hs as (_ & ? & ?).
Qed.

Lemma timed_out_typed n t r :
  status r = PROCESSING → typed_row r → typed_row (update_row n (timeout_sets t) r).
Proof.
  intros Hst [Hp Ht He Hw Hc Hk Hs]. constructor; try done. unfold status_columns in *. simpl.
  rewrite Hst in Hs. destruct Hs as (_ & ? & _). split; [|done]. by eexists.
Qed.

Lemma insert_typed (m : gmap string TaskRow) i r0 :
  (∀ i r, m !! i = Some r → typed_row r) → typed_row r0 →
  ∀ j r, <[i := r0]> m !! j = Some r → typed_row r.
Proof. intros Hm H0 j r. rewrite lookup_insert_Some. naive_solver. Qed.

Lemma Forall_snoc_typed l e : Forall typed_event l → typed_event e → Forall typed_event (l ++ [e]).
Proof. intros. apply Forall_app_2; [done|by constructor]. Qed.
End typed.

Section steps.
Context {SO : ScanOrder} {V : Validation}.

Lemma expire_typed now n c d res d' :
  db_wf d → typed_db d → expire_tx now n c d = (Ok res, d') → typed_db d'.
Proof.
  intros W [Hr He] H. apply expire_tx_ok in H as (Hp & _ & ->); [|done]. split; simpl.
  - intros i r. rewrite lookup_fmap. intros (r0 & Hi & ->)%fmap_Some.
    case_bool_decide as Hin; [|by eapply Hr].
    apply timed_out_typed; [|by eapply Hr].
    apply list_elem_of_fmap in Hin as (r1 & Hid & Hb). pose proof (Hp r1 Hb) as Hst.
    apply elem_of_batch in Hb as (Hb%elem_of_rows_wf & _); [|done].
    rewrite (wf_id d W _ _ Hi) in Hid. subst i. by simplify_eq.
  - apply Forall_app_2; [done|]. apply Forall_forall. intros e (k & i & -> & _)%elem_of_lookup_imap.
    by apply valid_event_typed.
Qed.

Lemma table_step_typed c d d' : db_wf d → typed_db d → table_step program_al c d d' → typed_db d'.
Proof.
  intros W T. pose proof T as [Hr He].
  destruct 1 as [|dto now token r Hd -> Hn|i|i r sets Hi Hu|i r Hi Ht|input Hv|now n res d' Hx|ids].
  - done.
  - split; [|done]. apply insert_typed; [done|]. by apply created_typed.
  - split; [|done]. simpl. intros j r. rewrite lookup_delete_Some. naive_solver.
  - split; [|done]. apply insert_typed; [done|]. eapply row_update_typed; eauto.
  - split; [apply insert_typed; [done|]; eapply cancelled_typed; eauto|]. by apply Forall_snoc_typed.
  - split; [done|]. apply Forall_snoc_typed; [done|]. by apply valid_event_typed.
  - by eapply expire_typed.
  - split; [intros i r [Hi _]%lookup_purge; eauto|]. simpl. rewrite Forall_forall in *.
    intros e [_ Hin]%list_elem_of_filter. auto.
Qed.
End steps.

(** ** Properties *)

(** C21: everything stored is well typed.  In every execution that starts from
    typed tables, each row satisfies the schema of its creation (its URLs are URLs,
    it has a callback token) and has the columns of its status: a live task has a
    deadline and neither result nor error, a COMPLETED one an object as its result,
    a FAILED one an error the schema accepts; and each event carries the payload of
    its type. *)
Theorem tables_typed {SO : ScanOrder} {V : Validation} key E w0 c :
  db_wf (w_db w0) → typed_db (w_db w0) → reachable E (handler key) w0 c →
  (∀ i r, tasks (w_db (the_world c)) !! i = Some r →
     isURL (executorUrl r) = true ∧ url_or_none (webhookUrl r) = true ∧
     url_or_none (cancelUrl r) = true ∧ is_Some (callbackToken r) ∧ status_columns r) ∧
  (∀ e, e ∈ task_events (w_db (the_world c)) → typed_event e).
Proof.
  intros W T Hr. destruct (tables_invariant key E typed_db w0 c W T) as (_ & Ht & He); [|done|].
  - intros cx d d' Wd _ Td. by apply table_step_typed.
  - split; [|by apply Forall_forall]. intros i r Hi. by destruct (Ht i r Hi).
Qed.

(** C22: no number of a row leaves its range.  In every execution that starts from
    typed tables, the progress is between 0 and 100, the timeout between 1 and
    86400 seconds, so that no row ever fails the range check of its integer
    columns; and the number of an event lies between 1 and the length of the log
    of its task. *)
Theorem columns_bounded {SO : ScanOrder} {V : Validation} key E w0 c :
  db_wf (w_db w0) → typed_db (w_db w0) → reachable E (handler key) w0 c →
  (∀ i r, tasks (w_db (the_world c)) !! i = Some r →
     0 ≤ progress r ≤ 100 ∧ 1 ≤ timeoutSeconds r ≤ 86400 ∧
     int4 (progress r) = true ∧ int4 (timeoutSeconds r) = true) ∧
  (∀ i e, e ∈ events_of i (w_db (the_world c)) →
     1 ≤ ev_seq e ≤ Z.of_nat (length (events_of i (w_db (the_world c))))).
Proof.
  intros W T Hr. destruct (tables_invariant key E typed_db w0 c W T) as (W' & Ht & _); [|done|].
  - intros cx d d' Wd _ Td. by apply table_step_typed.
  - split; [|intros i e; by apply wf_seq_elem]. intros i r Hi. destruct (Ht i r Hi) as [Hp Hto].
    split_and!; try lia; unfold int4; apply andb_true_iff; rewrite !Z.leb_le; lia.
Qed.

(** ** Instances *)

Definition typed_run : config :=
  schedule calm_env [0; 0; 0; 0]%nat
    (mkConfig [serve None (mkRequest (PostTask (JObj [("type", JStr "report");
       ("executorUrl", JStr "http://executor/run")]) "http" (Some "proxy")) "/v1/tasks" None None) ;! Ret tt]
       initial_world).

Lemma typed_run_reachable : reachable calm_env (handler None) initial_world typed_run.
Proof.
  apply scheduled. constructor; [|constructor]. apply h_request.
Qed.

Lemma tables_typed_witness :
  ∃ i r, tasks (w_db (the_world typed_run)) !! i = Some r ∧ status_columns r.
Proof.
  destruct (tables_typed None calm_env initial_world typed_run empty_db_wf empty_db_typed
    typed_run_reachable) as [H _].
  destruct (map_to_list (tasks (w_db (the_world typed_run)))) as [|[i r] l] eqn:Hl;
    [vm_compute in Hl; discriminate|].
  assert (Hi : tasks (w_db (the_world typed_run)) !! i = Some r).
  { apply elem_of_map_to_list. rewrite Hl. apply elem_of_cons. by left. }
  exists i, r. split; [exact Hi|]. by apply (H i r Hi).
Defined.

Lemma columns_bounded_witness :
  ∃ i r, tasks (w_db (the_world typed_run)) !! i = Some r ∧ 1 ≤ timeoutSeconds r ≤ 86400.
Proof.
  destruct (columns_bounded None calm_env initial_world typed_run empty_db_wf empty_db_typed
    typed_run_reachable) as [H _].
  destruct (map_to_list (tasks (w_db (the_world typed_run)))) as [|[i r] l] eqn:Hl;
    [vm_compute in Hl; discriminate|].
  assert (Hi : tasks (w_db (the_world typed_run)) !! i = Some r).
  { apply elem_of_map_to_list. rewrite Hl. apply elem_of_cons. by left. }
  exists i, r. split; [exact Hi|]. by destruct (H i r Hi) as (_ & ? & _).
Defined.
