(* ===== verification/System.v ===== *)
(** * System: all handlers together

    The handlers of the program run concurrently against one database, one Redis
    and the queues: [Effects.step] interleaves their operations arbitrarily, lets
    any request, job or cron tick start at any time, lets every external call fail
    before or after its effect, and lets processes die between two operations.
    This file states what holds in every such execution. *)
From S2P Require Import Prelude Errors Schema Database Samples EventsRepository TasksRepository KeyValue Effects TasksService MaintenanceRepository MaintenanceWorkers ExecutorService Workers Sse Http Handlers TableSteps.

#[local] Open Scope Z_scope.

(** ** What one operation may do to a task *)

(** The state machine of [TaskStatus]. *)
Definition status_step (s s' : TaskStatus) : bool :=
  match s, s' with
  | PENDING, (PENDING | PROCESSING | CANCELLED) => true
  | PROCESSING, (PROCESSING | COMPLETED | FAILED | CANCELLED) => true
  | (COMPLETED | FAILED | CANCELLED), _ => bool_decide (s = s')
  | _, _ => false
  end.

(** The columns no handler assigns after the INSERT. *)
Definition same_identity (r r' : TaskRow) : Prop :=
  id r' = id r ∧ idempotencyKey r' = idempotencyKey r ∧ type r' = type r ∧
  payload r' = payload r ∧ executorUrl r' = executorUrl r ∧ callbackToken r' = callbackToken r ∧
  webhookUrl r' = webhookUrl r ∧ cancelUrl r' = cancelUrl r ∧
  timeoutSeconds r' = timeoutSeconds r ∧ createdAt r' = createdAt r.

(** The outcome of a task. *)
Definition outcome_of (r : TaskRow) : TaskStatus * option json * option TaskError * option Z :=
  (status r, result r, error r, completedAt r).

Definition row_step (r r' : TaskRow) : Prop :=
  same_identity r r' ∧ status_step (status r) (status r') = true ∧
  (is_terminal (status r) = true → outcome_of r' = outcome_of r).

Definition task_step (o o' : option TaskRow) : Prop :=
  match o, o' with
  | Some r, Some r' => row_step r r'
  | None, Some r' => status r' = PENDING
  | _, None => True
  end.

(** Logs only grow at the end, or are deleted with their task. *)
Definition log_step (l l' : list TaskEventRow) (o' : option TaskRow) : Prop :=
  l `prefix_of` l' ∨ (l' = [] ∧ o' = None).

Definition legal (d d' : db) : Prop :=
  ∀ i, task_step (tasks d !! i) (tasks d' !! i) ∧
       log_step (events_of i d) (events_of i d') (tasks d' !! i).

Lemma same_identity_refl r : same_identity r r.
Proof. by split_and!. Qed.

Lemma status_step_refl s : status_step s s = true.
Proof. by destruct s. Qed.

Lemma task_step_refl o : task_step o o.
Proof.
  destruct o as [r|]; [|done].
  split; [apply same_identity_refl|split; [apply status_step_refl|done]].
Qed.

Lemma legal_refl d : legal d d.
Proof. intros i. split; [apply task_step_refl|by left]. Qed.

#[export] Hint Resolve legal_refl task_step_refl : proxy.

(** No assignment touches the identity of a row. *)
Lemma update_row_identity n sets r : same_identity r (update_row n sets r).
Proof.
  unfold update_row. assert (H : ∀ x, same_identity x (touch n x)) by (intros x; by split_and!).
  assert (G : same_identity r (foldl apply_set r sets)).
  { revert r. induction sets as [|s sets IH]; intros r; [apply same_identity_refl|]. simpl.
    destruct (IH (apply_set r s)) as (? & ? & ? & ? & ? & ? & ? & ? & ? & ?).
    unfold same_identity. destruct s; by split_and!. }
  destruct G as (? & ? & ? & ? & ? & ? & ? & ? & ? & ?). unfold same_identity.
  split_and!; simpl; done.
Qed.

(** A move of an active row along the state machine. *)
Lemma row_step_move n sets r :
  is_terminal (status r) = false → status_step (status r) (status (update_row n sets r)) = true →
  row_step r (update_row n sets r).
Proof. intros Ht Hs. split; [apply update_row_identity|split; [done|congruence]]. Qed.

(** ** Statements *)

(** One row changes, one event may be appended. *)
Lemma legal_set_task d i r r' :
  tasks d !! i = Some r → row_step r r' → legal d (set_task i r' d).
Proof.
  intros Hi Hr j. split; [|by left]. simpl.
  destruct (decide (j = i)) as [->|Hne]; [by rewrite lookup_insert_eq, Hi|].
  rewrite lookup_insert_ne by done. apply task_step_refl.
Qed.

Lemma legal_append d e : legal d (mkDb (tasks d) (task_events d ++ [e])).
Proof.
  intros i. split; [apply task_step_refl|]. left. rewrite events_of_app.
  by apply prefix_app_r.
Qed.

Lemma legal_set_append d i r r' e :
  tasks d !! i = Some r → row_step r r' →
  legal d (mkDb (<[i := r']> (tasks d)) (task_events d ++ [e])).
Proof.
  intros Hi Hr j. destruct (legal_set_task d i r r' Hi Hr j) as [H _].
  destruct (legal_append d e j) as [_ [Hp|[_ Hn]]].
  - split; [exact H|]. by left.
  - split; [exact H|]. left. unfold events_of at 2. simpl. rewrite filter_app.
    by apply prefix_app_r.
Qed.

Section table_steps.
Context {SO : ScanOrder} {V : Validation}.

(** The assignments of the program follow the state machine. *)
Lemma row_update_step now r sets : row_update r sets → row_step r (update_row now sets r).
Proof.
  destruct 1 as [t0 t Hs|dto t Hf Hs|err t He Hs|p Hp].
  - apply row_step_move; by rewrite Hs.
  - apply row_step_move; rewrite Hs; by destruct dto.
  - apply row_step_move; by rewrite Hs.
  - split; [apply update_row_identity|split; [apply status_step_refl|done]].
Qed.

Lemma table_step_legal al c d d' : db_wf d → table_step al c d d' → legal d d'.
Proof.
  intros W. destruct 1 as [|dto now token r Hd Hr Hn|i|i r sets Hi Hu|i r Hi Ht|input Hv
    |now n res d' Hx|ids].
  - apply legal_refl.
  - intros j. split; [|by left]. simpl. destruct (decide (j = id r)) as [->|Hne].
    + rewrite lookup_insert_eq, Hn. by rewrite Hr.
    + rewrite lookup_insert_ne by done. apply task_step_refl.
  - intros j. split; [|by left]. simpl. destruct (decide (j = i)) as [->|Hne].
    + rewrite lookup_delete_eq. by destruct (tasks d !! i).
    + rewrite lookup_delete_ne by done. apply task_step_refl.
  - apply (legal_set_task d i r); [done|]. by apply row_update_step.
  - apply (legal_set_append d i r); [done|]. apply row_step_move; [done|]. simpl.
    by destruct (status r).
  - apply legal_append.
  - pose proof (expire_tx_swept now now n c d res d' W (Z.le_refl _) Hx) as Hs. intros i.
    destruct (Hs i) as [[Ht He]|(r0 & x & t & m & ev & Hi & Hst & _ & _ & _ & Hi' & He & _)].
    + rewrite Ht, He. split; [apply task_step_refl|by left].
    + rewrite Hi, Hi', He. split; [|left; by apply prefix_app_r].
      apply row_step_move; by rewrite Hst.
  - intros i. rewrite events_of_purge. destruct (decide (i ∈ ids)) as [Hi|Hi].
    + assert (Hn : tasks (purge ids d) !! i = None).
      { apply eq_None_not_Some. by intros [r [_ Hr]%lookup_purge]. }
      rewrite Hn. split; [by destruct (tasks d !! i)|by right].
    + assert (Heq : tasks (purge ids d) !! i = tasks d !! i).
      { apply option_eq. intros r. rewrite lookup_purge. tauto. }
      rewrite Heq. split; [apply task_step_refl|by left].
Qed.
End table_steps.

(** One step of an execution. *)
Lemma step_legal {SO : ScanOrder} {V : Validation} key E w0 c c' :
  db_wf (w_db w0) → reachable E (handler key) w0 c → step E (handler key) c c' →
  db_wf (w_db (the_world c')) ∧ legal (w_db (the_world c)) (w_db (the_world c')).
Proof.
  intros W Hr Hs.
  apply (reachable_step E (handler key) (program_op program_al) (λ w, db_wf (w_db w))
           (λ w w', legal (w_db w) (w_db w')) w0 c c'); try done.
  - intros p Hp. by apply handlers_made_of in Hp.
  - intros X op w r w' Hop Hw He. split; [by eapply program_op_wf|].
    eapply table_step_legal; [done|]. by eapply program_op_table_step.
  - intros w. apply legal_refl.
Qed.

(** ** Properties *)

(** C1: every step of every execution, whatever the interleaving, the faults and
    the crashes, keeps the invariant of the tables (the CHECK constraints, unique
    ids and idempotency keys, logs numbered 1, 2, 3, ...) and is legal for every
    task: a task appears as PENDING, moves along PENDING -> PROCESSING ->
    COMPLETED | FAILED or to CANCELLED from either, never leaves a terminal state,
    never changes its outcome once terminal nor its request ever; its event log is
    only appended to, until it is deleted together with the task. *)
Theorem system_safe {SO : ScanOrder} {V : Validation} key E w0 c c' :
  db_wf (w_db w0) → reachable E (handler key) w0 c → step E (handler key) c c' →
  db_wf (w_db (the_world c')) ∧ legal (w_db (the_world c)) (w_db (the_world c')).
Proof.
  apply step_legal.
Qed.

(** C28: the outcome of a task is final.  In every execution a task that has reached
    a terminal state keeps its status, result, error and completion time for as
    long as its row exists. *)
Theorem outcome_final {SO : ScanOrder} {V : Validation} key E w0 c c2 i r :
  db_wf (w_db w0) → reachable E (handler key) w0 c →
  tasks (w_db (the_world c)) !! i = Some r → is_terminal (status r) = true →
  rtc (step E (handler key)) c c2 →
  (∃ c1, rtc (step E (handler key)) c c1 ∧ rtc (step E (handler key)) c1 c2 ∧
     tasks (w_db (the_world c1)) !! i = None) ∨
  ∃ r2, tasks (w_db (the_world c2)) !! i = Some r2 ∧ outcome_of r2 = outcome_of r.
Proof.
  intros W Hr Hi Ht Hs. revert r Hr Hi Ht.
  induction Hs as [c|c c1 c2 Hs Hrest IH]; intros r Hr Hi Ht; [right; eauto|].
  pose proof (step_legal key E w0 c c1 W Hr Hs) as HP.
  destruct HP as [_ Hl]. destruct (Hl i) as [Hstep _]. rewrite Hi in Hstep.
  assert (Hr1 : reachable E (handler key) w0 c1) by (eapply rtc_r; [exact Hr|exact Hs]).
  destruct (tasks (w_db (the_world c1)) !! i) as [r1|] eqn:Hi1.
  - destruct Hstep as (_ & _ & Hout). specialize (Hout Ht).
    assert (Ht1 : is_terminal (status r1) = true).
    { apply (f_equal (λ o, o.1.1.1)) in Hout. simpl in Hout. by rewrite Hout. }
    destruct (IH r1 Hr1 eq_refl Ht1) as [(c3 & ? & ? & ?)|(r2 & Hr2 & Ho2)].
    + left. exists c3. split_and!; try done. by eapply rtc_l.
    + right. exists r2. split; [done|]. congruence.
  - left. exists c1. split_and!; [by apply rtc_once|done|done].
Qed.

(** ** Executions that exhibit what the code does not promise *)

Definition busy_db : db :=
  sample_db [sample_row "a" PROCESSING (Some 1000) None (Some 500000)] [].

Definition callback (r : route) : prog unit :=
  serve (Some "key") (mkRequest r "/v1/tasks/a" None (Some "Bearer secret")) ;! Ret tt.

Definition report_route (n : Z) : route := PatchProgress "a" (JObj [("progress", JNum n)]).

Definition report (n : Z) : prog unit := callback (report_route n).

Definition finish_route : route :=
  PostResult "a" (JObj [("status", JStr "completed"); ("result", JObj [])]).

Definition finish : prog unit := callback finish_route.

#[local] Abbreviation sample_handler := (handler (Some "key")).

Lemma callbacks_handled rs : Forall sample_handler (callback <$> rs).
Proof.
  apply Forall_forall. intros p (r & -> & _)%list_elem_of_fmap. apply h_request.
Qed.

(** Publication order is not log order.  Without any fault, two concurrent
    progress reports of one task can be numbered 1 and 2 in the log and published
    as 2, 1: the INSERT is serialised by the advisory lock, the PUBLISH that follows
    it is not. *)
Theorem publications_reordered :
  ∃ c, reachable calm_env sample_handler (sample_world busy_db) c ∧
    ev_seq <$> events_of "a" (w_db (the_world c)) = [1; 2] ∧
    (λ m, (m.1, ev_seq m.2)) <$> w_published (the_world c) = [("task:a", 2); ("task:a", 1)].
Proof.
  exists (schedule calm_env [0; 0; 0; 1; 1; 1; 1; 0]%nat
            (mkConfig [report 10; report 20] (sample_world busy_db))).
  split; [|split; vm_compute; reflexivity].
  apply scheduled, (callbacks_handled [report_route 10; report_route 20]).
Qed.

(** A progress report that passed the guard before the task was completed is
    still recorded after it: the log of a COMPLETED task can continue with a
    [progress] event behind its terminal event, and the row's progress changes. *)
Theorem progress_after_completion :
  ∃ c, reachable calm_env sample_handler (sample_world busy_db) c ∧
    (status <$> tasks (w_db (the_world c)) !! "a") = Some COMPLETED ∧
    (progress <$> tasks (w_db (the_world c)) !! "a") = Some 10 ∧
    ev_type <$> events_of "a" (w_db (the_world c)) = [completed_ev; progress_ev].
Proof.
  exists (schedule calm_env [0; 1; 1; 1; 1; 0; 0]%nat
            (mkConfig [report 10; finish] (sample_world busy_db))).
  split; [|split_and!; vm_compute; reflexivity].
  apply scheduled, (callbacks_handled [report_route 10; finish_route]).
Qed.

(** The result and its event are two transactions.  If the process dies between
    them the task is COMPLETED with an empty log: no stream of it ever ends, and
    no later callback can repair it, since the guard now answers 409. *)
Theorem result_without_event :
  ∃ c, reachable calm_env sample_handler (sample_world busy_db) c ∧ pool c = [] ∧
    (status <$> tasks (w_db (the_world c)) !! "a") = Some COMPLETED ∧
    events_of "a" (w_db (the_world c)) = [] ∧
    ∀ r w', run calm_env (serve (Some "key") (mkRequest finish_route "/v1/tasks/a" None
              (Some "Bearer secret"))) (the_world c) = (r, w') →
      ∃ body, r = Some (Ok (Failed 409 body)).
Proof.
  set (c := schedule calm_env [0; 0; 0]%nat (mkConfig [finish] (sample_world busy_db))).
  exists (mkConfig (delete 0%nat (pool c)) (the_world c)).
  split.
  - eapply rtc_r; [apply (scheduled calm_env sample_handler [finish] [0; 0; 0]%nat), (callbacks_handled [finish_route])|].
    fold c. destruct c as [ts w] eqn:Hc. destruct (ts !! 0%nat) as [p|] eqn:Hp.
    + by eapply step_crash.
    + apply (f_equal (λ c, length (pool c))) in Hc. destruct ts; [|done]. by vm_compute in Hc.
  - split; [vm_compute; reflexivity|]. split; [vm_compute; reflexivity|].
    split; [vm_compute; reflexivity|]. intros r w' H. vm_compute in H. injection H as <- <-. by eexists.
Qed.

(** ** Instances *)

Lemma system_safe_witness :
  let c := mkConfig [report 10] (sample_world busy_db) in
  let c' := schedule calm_env [0]%nat c in
  db_wf (w_db (the_world c')) ∧ legal busy_db (w_db (the_world c')).
Proof.
  intros c c'. assert (W : db_wf busy_db) by check_db.
  apply (system_safe (Some "key") calm_env (sample_world busy_db) c c' W).
  - apply (scheduled calm_env sample_handler [report 10] []), (callbacks_handled [report_route 10]).
  - eapply step_op; [reflexivity|]. vm_compute. reflexivity.
Defined.

Definition finished : config :=
  schedule calm_env [0; 1; 1; 1; 1]%nat (mkConfig [report 10; finish] (sample_world busy_db)).

Definition finished_row : TaskRow :=
  default (sample_row "" PENDING None None None) (tasks (w_db (the_world finished)) !! "a").

Lemma outcome_final_witness :
  let c2 := schedule calm_env [0; 0]%nat finished in
  status finished_row = COMPLETED ∧
  ((∃ c1, rtc (step calm_env sample_handler) finished c1 ∧ rtc (step calm_env sample_handler) c1 c2 ∧
      tasks (w_db (the_world c1)) !! "a" = None) ∨
   ∃ r2, tasks (w_db (the_world c2)) !! "a" = Some r2 ∧ outcome_of r2 = outcome_of finished_row).
Proof.
  intros c2. split; [vm_compute; reflexivity|]. assert (W : db_wf busy_db) by check_db.
  apply (outcome_final (Some "key") calm_env (sample_world busy_db) finished c2 "a" finished_row W).
  - apply (scheduled calm_env sample_handler [report 10; finish]), (callbacks_handled [report_route 10; finish_route]).
  - vm_compute. reflexivity.
  - vm_compute. reflexivity.
  - apply schedule_steps.
Defined.
