(* ===== verification/Ledger.v ===== *)
(** * Ledger: how often the outside world is told

    Accounts of the requests sent and the jobs enqueued for one task [i], whose row
    is created at step [b] of the execution: before that step, and as long as the
    row has a status that entitles it, the task has [K] units of credit. *)
From S2P Require Import Prelude Errors ExceptionFilter Schema Database Samples EventsRepository TasksRepository KeyValue Effects Accounts HttpRetry QueueAdapter ParseDecorators TasksService MaintenanceRepository MaintenanceWorkers CallbackAuth ExecutorService Workers Sse Http Handlers TableSteps System.

#[local] Open Scope nat_scope.

Section birth.
Context {SO : ScanOrder} {V : Validation} (E : env) (i : string) (b : nat).

(** The identifier [i] is generated at step [b] only. *)
Definition born_at : Prop := ∀ n k, e_uuid E n k = i → n = b.

(** The row of [i] does not exist before. *)
Definition newborn (w : world) : Prop :=
  db_wf (w_db w) ∧ (is_Some (tasks (w_db w) !! i) → b < w_step w).

Lemma exec_op_step {X} (op : io X) w r w' : exec_op E op w = (r, w') → w_step w' = S (w_step w).
Proof.
  destruct op; simpl;
    try (destruct (t _ _)); try (destruct (f (w_now w) (w_redis w))); try (destruct (e_http _ _ _));
    try (destruct (e_fault E (w_step w))); by intros [= _ <-].
Qed.

(** A row appears under a generated id only. *)
Lemma table_step_appears al c d d' :
  db_wf d → table_step al c d d' → is_Some (tasks d' !! i) →
  is_Some (tasks d !! i) ∨ c_uuid c 0 = i.
Proof.
  intros W. destruct 1 as [|dto now token r Hd -> Hn|j|j r sets Hi Hu|j r Hi Ht|input Hv
    |now n res d' Hx|ids]; simpl; auto.
  - destruct (decide (c_uuid c 0 = i)); [by right|]. rewrite lookup_insert_ne by done. auto.
  - intros [r [_ Hr]%lookup_delete_Some]. eauto.
  - destruct (decide (j = i)) as [->|]; [left; eauto|]. rewrite lookup_insert_ne by done. auto.
  - destruct (decide (j = i)) as [->|]; [left; eauto|]. rewrite lookup_insert_ne by done. auto.
  - apply expire_tx_ok in Hx as (_ & _ & ->); [|done]. simpl. rewrite lookup_fmap.
    intros [r (r0 & -> & _)%fmap_Some]. eauto.
  - intros [r [Hr _]%lookup_purge]. eauto.
Qed.

Lemma newborn_kept X (op : io X) :
  born_at → program_op program_al X op → op_keeps E newborn X op.
Proof.
  intros Hb Hop w r w' [W HI] He. split; [by eapply program_op_wf|].
  pose proof (exec_op_step op w r w' He) as ->. intros Hs.
  apply (program_op_table_step program_al E X op w r w' Hop W) in He.
  destruct (table_step_appears _ _ _ _ W He Hs) as [Ho|Hu]; [specialize (HI Ho); lia|].
  simpl in Hu. apply Hb in Hu. lia.
Qed.

Lemma reachable_newborn key w0 c :
  born_at → db_wf (w_db w0) → tasks (w_db w0) !! i = None →
  reachable E (handler key) w0 c → newborn (the_world c).
Proof.
  intros Hb W Hn. apply program_invariant.
  - split; [done|]. rewrite Hn. by intros [].
  - intros X op Hop. by apply newborn_kept.
Qed.

(** ** A potential with credit *)
Section credit.
Context (count : world → nat) (entitled : TaskStatus → bool) (K : nat).

(** The credit of the row. *)
Definition credit (d : db) : nat :=
  match tasks d !! i with
  | Some r => if entitled (status r) then K else 0
  | None => 0
  end.

Definition balance (w : world) : nat :=
  count w + (if w_step w <=? b then K else credit (w_db w)).

Lemma credit_le d : credit d ≤ K.
Proof. unfold credit. repeat case_match; lia. Qed.

(** Free of charge: nothing is counted while there is no row, and then no more than
    the credit given up. *)
Definition free (X : Type) (op : io X) : Prop :=
  ∀ w r w', db_wf (w_db w) → exec_op E op w = (r, w') →
    (tasks (w_db w) !! i = None → count w' ≤ count w) ∧
    ((tasks (w_db w) !! i = None → tasks (w_db w') !! i = None) →
     count w' + credit (w_db w') ≤ count w + credit (w_db w)).

Lemma free_neutral X (op : io X) :
  born_at → program_op program_al X op → free X op → neutral E balance newborn X op.
Proof.
  intros Hb Hop Hf w r w' [W HI] He. destruct (Hf w r w' W He) as [Habs Hpre].
  pose proof (exec_op_step op w r w' He) as Hstep. unfold balance. rewrite Hstep.
  destruct (Nat.leb_spec (w_step w) b) as [Hle|Hlt].
  - assert (Hn : tasks (w_db w) !! i = None).
    { apply eq_None_not_Some. intros Hs. specialize (HI Hs). lia. }
    specialize (Habs Hn). pose proof (credit_le (w_db w')). destruct (_ <=? b); lia.
  - destruct (Nat.leb_spec (S (w_step w)) b); [lia|]. apply Hpre.
    intros Hn. apply eq_None_not_Some. intros Hs.
    apply (program_op_table_step program_al E X op w r w' Hop W) in He.
    destruct (table_step_appears _ _ _ _ W He Hs) as [Ho|Hu]; [rewrite Hn in Ho; by destruct Ho|].
    simpl in Hu. apply Hb in Hu. lia.
Qed.

(** Statuses only lose their entitlement. *)
Hypothesis entitled_mono : ∀ s s', status_step s s' = true → entitled s' = true → entitled s = true.

Lemma credit_legal d d' :
  legal d d' → (tasks d !! i = None → tasks d' !! i = None) → credit d' ≤ credit d.
Proof.
  intros Hl Hn. destruct (Hl i) as [Ht _]. unfold credit.
  destruct (tasks d !! i) as [r|] eqn:Hi; [|by rewrite Hn].
  destruct (tasks d' !! i) as [r'|]; [|lia]. destruct Ht as (_ & Hs & _).
  destruct (entitled (status r')) eqn:He; [|lia]. by rewrite (entitled_mono _ _ Hs He).
Qed.

(** A conditional UPDATE that ends the entitlement yields its credit. *)
Lemma updateStatus_pays s to extra w task w' :
  entitled s = true → entitled to = false →
  (∀ n r, status (update_row n (Set_status to :: extra) r) = to) →
  (∀ w w', w_http w' = w_http w → w_jobs w' = w_jobs w → w_published w' = w_published w →
     task_events (w_db w') = task_events (w_db w) → count w' = count w) →
  newborn w →
  exec_op E (DbTx (λ c, updateStatus c i (inl s) to extra)) w = (Ok (Some task), w') →
  balance w' + K ≤ balance w.
Proof.
  intros Hs Hto Hst Hcount [W HI] He.
  pose proof (exec_op_step _ w _ w' He) as Hstep. simpl in He. rewrite updateStatus_eq in He by done.
  assert (G : ∃ r d', tasks (w_db w) !! i = Some r ∧ status r = s ∧
    d' = mkDb (<[i := update_row (w_now w) (Set_status to :: extra) r]> (tasks (w_db w)))
              (task_events (w_db w)) ∧ w' = set_db (advance E w) d').
  { destruct (tasks (w_db w) !! i) as [r|] eqn:Hi.
    - unfold status_condition in He. case_bool_decide; [|by destruct (e_fault E (w_step w))].
      cbv zeta in He. simpl in He.
      destruct (task_row_error _); destruct (e_fault E (w_step w)); simplify_eq/=; eauto 10.
    - by destruct (e_fault E (w_step w)). }
  destruct G as (r & d' & Hi & Hr & -> & ->).
  assert (Hlt : b < w_step w) by (apply HI; rewrite Hi; eauto).
  unfold balance. rewrite Hstep. rewrite (Hcount w) by done.
  destruct (Nat.leb_spec (S (w_step w)) b); [lia|]. destruct (Nat.leb_spec (w_step w) b); [lia|].
  unfold credit. simpl. rewrite lookup_insert_eq, Hi, Hst, Hr, Hs, Hto. lia.
Qed.
End credit.
End birth.

(** ** Requests and jobs *)
Section outside.
Context {SO : ScanOrder} {V : Validation} (E : env) (i : string) (b : nat).
Context (P : http_request → bool) (Q : job → bool) (entitled : TaskStatus → bool) (K : nat).
Hypothesis born : born_at E i b.
Hypothesis entitled_mono : ∀ s s', status_step s s' = true → entitled s' = true → entitled s = true.

(** The requests and jobs that are counted. *)
Definition outgoing (w : world) : nat :=
  length (filter (λ x, P x.1 = true) (w_http w)) + length (filter (λ j, Q j = true) (w_jobs w)).

(** What does not count. *)
Definition uncounted (al : allowance) : Prop :=
  (∀ r, al_post al r → P r = false) ∧ (∀ j, al_job al j → Q j = false).

#[local] Abbreviation pot := (balance i b outgoing entitled K).
#[local] Abbreviation pays p n R := (affords E pot (newborn i b) p n R).

Lemma outgoing_same w w' : w_http w' = w_http w → w_jobs w' = w_jobs w → outgoing w' = outgoing w.
Proof. unfold outgoing. by intros -> ->. Qed.

Lemma outgoing_db {A} (t : dbctx → sql A) w r w' :
  exec_op E (DbTx t) w = (r, w') → outgoing w' = outgoing w.
Proof.
  simpl. destruct (t _ _). destruct (e_fault E (w_step w)); intros [= _ <-]; by apply outgoing_same.
Qed.

Lemma outgoing_other X (op : io X) w r w' :
  match op with HttpPost rq => P rq = false | QueueAdd j => Q j = false | _ => True end →
  not_db X op → exec_op E op w = (r, w') → outgoing w' = outgoing w.
Proof.
  destruct op; try done; simpl; intros Hu _;
    try (destruct (f (w_now w) (w_redis w))); try (destruct (e_http _ _ _));
    try (destruct (e_fault E (w_step w))); intros [= _ <-]; unfold outgoing; simpl;
    rewrite ?filter_app; try done; rewrite filter_cons, decide_False by (simpl; congruence);
    rewrite filter_nil, app_nil_r; done.
Qed.

Lemma program_op_free al X (op : io X) :
  uncounted al → allowed_in al program_al → program_op al X op →
  free E i outgoing entitled K X op.
Proof.
  intros [Up Uj] Hal Hop w r w' W He.
  assert (Hc : outgoing w' = outgoing w).
  { destruct Hop; solve [eapply outgoing_db, He | eapply outgoing_other, He; simpl; auto]. }
  rewrite Hc. split; [done|]. intros Hn. apply Nat.add_le_mono_l, credit_legal; [done| |done].
  eapply table_step_legal; [done|]. eapply program_op_table_step; [|done..].
  by eapply program_op_mono.
Qed.

(** A handler that is allowed nothing that counts keeps its tokens. *)
Lemma made_of_affords {A} al (p : prog A) n (R : res A → nat → Prop) :
  uncounted al → allowed_in al program_al → made_of al p → (∀ r, R r n) → pays p n R.
Proof.
  intros Hu Hal Hp. apply affords_neutral. eapply all_ops_mono; [|exact Hp].
  intros X op Hop. apply free_neutral; [done|by eapply program_op_mono|].
  by eapply program_op_free.
Qed.

(** One counted request costs one token. *)
Lemma post_costs rq w r w' :
  newborn i b w → exec_op E (HttpPost rq) w = (r, w') → pot w' ≤ pot w + 1.
Proof.
  intros [W HI] He. pose proof (exec_op_step E _ w r w' He) as Hs.
  assert (Hd : w_db w' = w_db w) by (by eapply not_db_same; [|exact He]).
  assert (Hc : outgoing w' ≤ outgoing w + 1).
  { simpl in He. destruct (e_http _ _ _); injection He as _ <-; unfold outgoing; simpl;
      rewrite filter_app, length_app, filter_cons; case_decide; simpl; lia. }
  unfold balance. rewrite Hd, Hs. pose proof (credit_le i entitled K (w_db w)).
  destruct (Nat.leb_spec (S (w_step w)) b), (Nat.leb_spec (w_step w) b); lia.
Qed.

(** One job costs one token. *)
Lemma job_costs j w r w' :
  newborn i b w → exec_op E (QueueAdd j) w = (r, w') → pot w' ≤ pot w + 1.
Proof.
  intros [W HI] He. pose proof (exec_op_step E _ w r w' He) as Hs.
  assert (Hd : w_db w' = w_db w) by (by eapply not_db_same; [|exact He]).
  assert (Hc : outgoing w' ≤ outgoing w + 1).
  { simpl in He. destruct (e_fault E (w_step w)); injection He as _ <-; unfold outgoing; simpl;
      rewrite ?filter_app, ?length_app, ?filter_cons; try case_decide; simpl; lia. }
  unfold balance. rewrite Hd, Hs. pose proof (credit_le i entitled K (w_db w)).
  destruct (Nat.leb_spec (S (w_step w)) b), (Nat.leb_spec (w_step w) b); lia.
Qed.

Lemma nothing_affords A (p : prog A) n (R : res A → nat → Prop) :
  made_of nothing p → (∀ r, R r n) → pays p n R.
Proof. apply made_of_affords; [by split|by split_and!]. Qed.

(** A job is paid for, unless it does not count. *)
Lemma enqueue_affords q n d o m :
  (Q (mkJob q n d (add_options o)) = true → 1 ≤ m) → pays (enqueue q n d o) m (λ _ _, True).
Proof.
  intros Hm. unfold enqueue. apply affords_catch, affords_await. intros w r w' HI He.
  destruct (Q (mkJob q n d (add_options o))) eqn:Hj.
  - exists (m - 1). split; [|by destruct r]. specialize (Hm eq_refl).
    pose proof (job_costs _ w r w' HI He). lia.
  - exists m. split; [|by destruct r]. apply Nat.add_le_mono_r.
    eapply (free_neutral E i b); [done|by apply (op_job program_al)| |exact HI|exact He].
    intros w0 r0 w0' W0 He0. assert (Hc : outgoing w0' = outgoing w0) by (by eapply outgoing_other; [| |exact He0]).
    apply not_db_same in He0; [|done]. rewrite Hc, He0. lia.
Qed.

Lemma made_of_await_affords {X} (op : io X) n (R : res X → nat → Prop) :
  program_op nothing X op → (∀ r, R r n) → pays (await op) n R.
Proof.
  intros Hop. apply (made_of_affords nothing); [by split|by split_and!|].
  by apply all_ops_await.
Qed.

(** The retry loop pays for its iterations. *)
Lemma post_loop_affords k url rq n base maxDelay a e s m :
  k ≤ m → pays (post_loop k url rq n base maxDelay a e s) m (λ _ _, True).
Proof.
  revert a e s m. induction k as [|k IH]; intros a e s m Hk; [done|]. cbn [post_loop].
  intros w r w' HI He. exists (m - 1). split.
  { pose proof (post_costs rq w r w' HI He). lia. }
  destruct r as [data|err]; [done|]. cbv zeta.
  assert (N : ∀ s', pays (if bool_decide (a = n - 1)%Z
     then Throw (DispatchFailedError url n (Some err) s')
     else let! jitter := await Random200 in
          await (Sleep (computeDelay a base maxDelay jitter)) ;!
          post_loop k url rq n base maxDelay (a + 1)%Z (Some err) s') (m - 1) (λ _ _, True)).
  { intros s'. destruct (bool_decide _); [done|].
    apply affords_bind, made_of_await_affords; [constructor|]. intros [j|]; [|done].
    apply affords_bind, made_of_await_affords; [constructor|]. intros [[]|]; [|done].
    apply IH. lia. }
  repeat case_match; try done; apply N.
Qed.
End outside.
