(* ===== verification/Accounting.v ===== *)
(** * Accounting: at most once

    The handlers pay, from the credit of the task, for what they send and enqueue
    (Ledger.v) and for the terminal events they log: whatever is retried, repeated,
    interleaved or lost, the executor is asked at most three times, one dispatch
    job and one webhook job are enqueued, and one terminal event is logged. *)
From S2P Require Import Prelude Errors ExceptionFilter Schema Database Samples EventsRepository TasksRepository KeyValue Effects Accounts HttpRetry Idempotency QueueAdapter ParseDecorators TasksService MaintenanceRepository MaintenanceWorkers CallbackAuth ExecutorService Workers Sse Http Handlers TableSteps System Ledger.

#[local] Open Scope nat_scope.

(** ** Requests whose handler pays *)
Section serve.
Context {SO : ScanOrder} {V : Validation} (key : option string) (E : env) (Φ : world → nat)
  (I : world → Prop).
Hypothesis nothing_free : ∀ A (p : prog A) n (R : res A → nat → Prop),
  made_of nothing p → (∀ r, R r n) → affords E Φ I p n R.

Lemma lift_free {A} (r : res A) n (R : res A → nat → Prop) :
  (∀ r', r' = r → R r' n) → affords E Φ I (lift r) n R.
Proof. intros H. destruct r; simpl; auto. Qed.

(** The filter and the discarded response cost nothing. *)
Lemma serve_affords req :
  affords E Φ I (handle key req) 0 (λ _ _, True) → affords E Φ I (serve key req ;! Ret tt) 0 (λ _ _, True).
Proof.
  intros H. apply affords_bind, affords_catch. eapply affords_mono; [|exact H].
  intros [resp|e] m _; [done|]. apply nothing_free; [by repeat made_step|]. by intros [].
Qed.

Lemma serve_result_affords i body req :
  rq_route req = PostResult i body →
  (∀ task dto, SubmitResultSchema dto = true →
     affords E Φ I (submitResult task dto) 0 (λ _ _, True)) →
  affords E Φ I (serve key req ;! Ret tt) 0 (λ _ _, True).
Proof.
  intros Hr Hs. apply serve_affords. unfold_handle. rewrite Hr.
  apply affords_bind, nothing_free; [apply callback_guard_made_of|]. intros [task|e]; [|done].
  apply affords_bind, lift_free. intros [u|e] _; [|done].
  apply affords_bind, lift_free. intros [dto|e] Hd; [|done].
  apply affords_bind. eapply affords_mono;
    [|by eapply Hs, parse_result_ok, rethrown_ok]. by intros [[]|e] m _.
Qed.

Lemma serve_create_affords body protocol host req :
  rq_route req = PostTask body protocol host →
  (∀ dto k url, CreateTaskSchema isURL dto = true →
     affords E Φ I (create_task dto k url) 0 (λ _ _, True)) →
  affords E Φ I (serve key req ;! Ret tt) 0 (λ _ _, True).
Proof.
  intros Hr Hc. apply serve_affords. unfold_handle; unfold api_key_guard. rewrite Hr.
  apply affords_bind, lift_free. intros [u|e] _; [|done].
  apply affords_bind, lift_free. intros [dto|e] Hd; [|done].
  symmetry in Hd. apply rethrown_ok, parse_create_ok in Hd. apply affords_bind.
  assert (G : affords E Φ I (create_handler dto protocol host) 0 (λ _ _, True)); [|eapply affords_mono, G; by intros [] m _].
  unfold create_handler, create. destruct (truthy host) as [h|]; [|done].
  destruct (truthy (dto_idempotencyKey dto)) as [k|]; [|by apply Hc].
  apply affords_bind, nothing_free; [unfold occupySlot; by repeat made_step|].
  intros [[]|e]; first [by apply Hc|done].
Qed.
End serve.

(** ** What is counted *)

(** A request to the executor of task [i]. *)
Definition dispatch_request (i : string) (r : http_request) : bool :=
  match hr_body r with
  | JObj [(k1, JStr j); (k2, _)] => bool_decide (k1 = "taskId" ∧ j = i ∧ k2 = "payload")
  | _ => false
  end.

Definition dispatch_job_of (i : string) (j : job) : bool :=
  match job_payload j with DispatchJobData t _ => bool_decide (t = i) | _ => false end.

Definition webhook_job_of (i : string) (j : job) : bool :=
  match job_payload j with WebhookJobData t => bool_decide (t = i) | _ => false end.

Definition pending (s : TaskStatus) : bool := bool_decide (s = PENDING).
Definition live (s : TaskStatus) : bool := negb (is_terminal s).
Definition never (s : TaskStatus) : bool := false.

Lemma pending_mono s s' : status_step s s' = true → pending s' = true → pending s = true.
Proof. by destruct s, s'. Qed.

Lemma live_status_mono s s' : status_step s s' = true → live s' = true → live s = true.
Proof. by destruct s, s'. Qed.

Section once.
Context {SO : ScanOrder} {V : Validation} (key : option string) (E : env) (i : string) (b : nat).
Hypothesis born : born_at E i b.

Lemma allowed_program al :
  (∀ x, al_event al x → valid_event x) → allowed_in al program_al.
Proof. intros H. by split_and!. Qed.

(** *** Requests to the executor *)

#[local] Abbreviation pot1 := (balance i b (outgoing (dispatch_request i) (λ _, false)) pending 3).

Lemma dispatch_affords t : affords E pot1 (newborn i b) (dispatch i t) 0 (λ _ _, True).
Proof.
  unfold dispatch. apply affords_bind.
  eapply made_of_await_affords; [done|apply pending_mono|constructor|]. intros [now|e]; [|done].
  apply affords_bind, affords_await. intros w r w' HI He.
  assert (Hn : pot1 w' ≤ pot1 w).
  { eapply (free_neutral E i b); [done|by apply (op_start program_al)| |exact HI|exact He].
    eapply program_op_free; [apply pending_mono|..|by apply (op_start nothing)]; [by split|by split_and!]. }
  destruct r as [[task|]|e]; [|exists 0; split; [lia|done]..].
  exists 3. split.
  { assert (pot1 w' + 3 ≤ pot1 w); [|lia].
    eapply updateStatus_pays; [..|exact HI|exact He]; try done. intros. by apply outgoing_same. }
  apply affords_catch, affords_bind. eapply affords_mono;
    [|eapply affords_outcomes; [apply post_errors|
       unfold post; apply post_loop_affords; [done|apply pending_mono|simpl; lia]]].
  intros [data|err] m [Hr _]; [done|]. unfold dispatch_recover.
  simpl in Hr. rewrite Hr.
  apply made_of_affords with (al := nothing);
    [done|apply pending_mono|by split|by split_and!|by repeat made_step|done].
Qed.

Lemma executor_asked p : handler key p → affords E pot1 (newborn i b) p 0 (λ _ _, True).
Proof.
  assert (D : ∀ al A (q : prog A), (∀ r, al_post al r → dispatch_request i r = false) →
    (∀ x, al_event al x → valid_event x) → made_of al q → affords E pot1 (newborn i b) q 0 (λ _ _, True)).
  { intros al A q Hp He Hq. eapply (made_of_affords E i b); [done|apply pending_mono| | |exact Hq|done];
      [by split|by apply allowed_program]. }
  destruct 1 as [req| |j t|j u| | |]; [| | | | | |].
  - eapply D; [| |apply serve_made_of]; destruct (rq_route req); try done. by intros x [_ ?].
  - eapply D; [| |apply history_made_of]; done.
  - destruct (decide (j = i)) as [->|Hne]; [apply dispatch_affords|].
    eapply D; [| |apply dispatch_made_of]; [|done]. simpl. intros r [task Hb].
    unfold dispatch_request. rewrite Hb. simpl. apply bool_decide_eq_false_2. naive_solver.
  - eapply D; [| |apply notification_made_of]; [|done]. simpl. intros r Hb.
    unfold dispatch_request. by rewrite Hb.
  - eapply D; [| |apply webhook_made_of]; [|done]. simpl. intros r [task Hb].
    unfold dispatch_request. rewrite Hb. unfold webhook_body. simpl.
    repeat (case_match; try done). apply bool_decide_eq_false_2. naive_solver.
  - eapply D; [| |apply sweep_made_of]; done.
  - eapply D; [| |apply retain_made_of]; done.
Qed.

(** *** Webhook jobs *)

#[local] Abbreviation pot2 := (balance i b (outgoing (λ _, false) (webhook_job_of i)) live 1).

Lemma event_affords2 input n (R : res TaskEventRow → nat → Prop) :
  valid_event input → (∀ r, R r n) →
  affords E pot2 (newborn i b) (await (DbTx (λ c, insertEvent c input))) n R.
Proof.
  intros Hv HR. apply made_of_affords with (al := mkAllowance valid_event (λ _, False) (λ _, False));
    [done|apply live_status_mono|by split|by split_and!|apply all_ops_await; by constructor|done].
Qed.

Lemma to_status_spec dto :
  live (to_status dto) = false ∧
  ∀ now n r, status (update_row n (Set_status (to_status dto) :: result_sets dto now) r) = to_status dto.
Proof. by destruct dto. Qed.

Lemma submitResult_affords2 task dto :
  SubmitResultSchema dto = true →
  affords E pot2 (newborn i b) (submitResult task dto) 0 (λ _ _, True).
Proof.
  intros Hd. destruct (to_status_spec dto) as [Hl Hst]. unfold submitResult.
  apply affords_bind, nothing_affords; [done|apply live_status_mono|by repeat made_step|]. intros [now|e]; [|done].
  apply affords_bind, affords_await. intros w r w' HI He.
  assert (Hn : pot2 w' ≤ pot2 w).
  { eapply (free_neutral E i b); [done|by apply (op_finish program_al)| |exact HI|exact He].
    eapply program_op_free; [apply live_status_mono|..|by apply (op_finish nothing)]; [by split|by split_and!]. }
  destruct r as [[row|]|e]; [|exists 0; split; [lia|done]..].
  assert (∃ m, pot2 w' + m ≤ pot2 w ∧ (id task = i → 1 ≤ m)) as (m & Hm & Hpaid).
  { destruct (decide (id task = i)) as [Hi|]; [|by exists 0; split; [lia|]].
    exists 1. split; [|done]. rewrite Hi in He.
    eapply updateStatus_pays;
      [| | |intros; by apply outgoing_same|exact HI|exact He]; [done|exact Hl|apply Hst]. }
  exists m. split; [lia|]. apply affords_bind, event_affords2; [by apply result_event_valid|].
  intros [ev|e]; [|done]. apply affords_bind, nothing_affords; [done|apply live_status_mono|unfold publish; by repeat made_step|].
  intros [u|e]; [|done]. unfold notify_webhook. destruct (truthy _); [|done].
  apply enqueue_affords; [done|]. unfold webhook_job_of. simpl. intros H%bool_decide_eq_true_1. auto.
Qed.

Lemma webhook_enqueued p : handler key p → affords E pot2 (newborn i b) p 0 (λ _ _, True).
Proof.
  assert (D : ∀ al A (q : prog A), (∀ j, al_job al j → webhook_job_of i j = false) →
    (∀ x, al_event al x → valid_event x) → made_of al q → affords E pot2 (newborn i b) q 0 (λ _ _, True)).
  { intros al A q Hp He Hq. eapply (made_of_affords E i b); [done|apply live_status_mono| | |exact Hq|done];
      [by split|by apply allowed_program]. }
  destruct 1 as [req| |j t|j u| | |].
  - destruct (rq_route req) as [bd pr h|j|j|j l|j bd|j bd] eqn:Hr.
    5: { eapply serve_result_affords; [by apply nothing_affords, live_status_mono|exact Hr|apply submitResult_affords2]. }
    all: eapply D; [| |apply serve_made_of]; rewrite Hr; simpl; try done.
    + intros jb [(x & y & Hj) _]. unfold webhook_job_of. by rewrite Hj.
    + intros jb [(x & Hj) _]. unfold webhook_job_of. by rewrite Hj.
    + by intros x [_ ?].
  - eapply D; [| |apply history_made_of]; done.
  - eapply D; [| |apply dispatch_made_of]; done.
  - eapply D; [| |apply notification_made_of]; done.
  - eapply D; [| |apply webhook_made_of]; done.
  - eapply D; [| |apply sweep_made_of]; done.
  - eapply D; [| |apply retain_made_of]; done.
Qed.

(** *** Dispatch jobs *)

#[local] Abbreviation pot3 := (balance i b (outgoing (λ _, false) (dispatch_job_of i)) never 1).

Lemma never_mono s s' : status_step s s' = true → never s' = true → never s = true.
Proof. done. Qed.

(** The insertion of the row of [i] is the step that gives its credit up. *)
Lemma insert_pays dto now token w row w' :
  newborn i b w → exec_op E (DbTx (λ c, insert c (new_task dto now token))) w = (Ok row, w') →
  id row = i → pot3 w' + 1 ≤ pot3 w.
Proof.
  intros HI He Hi. pose proof (exec_op_step E _ w _ w' He) as Hs.
  assert (Hc : outgoing (λ _, false) (dispatch_job_of i) w' =
               outgoing (λ _, false) (dispatch_job_of i) w) by (by eapply outgoing_db).
  assert (Hb : w_step w = b).
  { apply (born (w_step w) 0). rewrite <-Hi. simpl in He.
    destruct (insert _ _ (w_db w)) as [o d] eqn:Hins.
    destruct (e_fault E (w_step w)); simplify_eq/=. by apply insert_task_ok in Hins as (-> & _). }
  unfold balance. rewrite Hc, Hs, Hb, Nat.leb_refl. destruct (Nat.leb_spec (S b) b); [lia|].
  unfold credit. case_match; simpl; lia.
Qed.

Lemma release_affords {A} k e n (R : res A → nat → Prop) :
  (∀ e, R (Err e) n) → affords E pot3 (newborn i b) (release_quietly k ;! Throw e) n R.
Proof.
  intros HR. apply affords_bind, nothing_affords; [done|done| |by intros [[]|e']; simpl].
  unfold release_quietly, releaseSlot. by repeat made_step.
Qed.

Lemma insert_step_affords dto k :
  CreateTaskSchema isURL dto = true →
  affords E pot3 (newborn i b) (insert_step dto k) 0
    (λ r m, match r with Ok row => id row = i → 1 ≤ m | Err _ => True end).
Proof.
  intros Hd. unfold insert_step. apply affords_catch, affords_bind, nothing_affords;
    [done|done|by repeat made_step|]. intros [now|e].
  2: { by apply release_affords. }
  apply affords_bind, nothing_affords; [done|done|by repeat made_step|]. intros [token|e].
  2: { by apply release_affords. }
  apply affords_await. intros w r w' HI He.
  assert (Hn : pot3 w' ≤ pot3 w).
  { eapply (free_neutral E i b); [done|by apply (op_insert program_al)| |exact HI|exact He].
    eapply program_op_free; [done|..|by apply (op_insert nothing)]; [by split|by split_and!]. }
  destruct r as [row|e].
  - destruct (decide (id row = i)) as [Hi|Hi].
    + exists 1. split; [|done]. pose proof (insert_pays dto now token w row w' HI He Hi). lia.
    + exists 0. split; [lia|done].
  - exists 0. split; [lia|]. by apply release_affords.
Qed.

Lemma create_task_affords dto k url :
  CreateTaskSchema isURL dto = true →
  affords E pot3 (newborn i b) (create_task dto k url) 0 (λ _ _, True).
Proof.
  intros Hd. unfold create_task. apply affords_bind. eapply affords_mono; [|by apply insert_step_affords].
  intros [row|e] m Hm; [|done]. apply affords_bind. unfold enqueue_step. apply affords_catch.
  eapply affords_mono.
  2: { apply enqueue_affords; [done|]. unfold dispatch_job_of. simpl.
       intros H%bool_decide_eq_true_1. auto. }
  assert (C : ∀ n, affords E pot3 (newborn i b)
    (commit_quietly k (id row) ;! Ret (buildResponse (id row) url)) n (λ _ _, True)).
  { intros n. apply nothing_affords; [done|done| |done]. unfold commit_quietly, commitResult.
    by repeat made_step. }
  intros [u|e] n _; [apply C|]. apply nothing_affords; [done|done| |by intros [u|e']; [apply C|]].
  unfold release_quietly, releaseSlot. by repeat made_step.
Qed.

Lemma dispatch_enqueued p : handler key p → affords E pot3 (newborn i b) p 0 (λ _ _, True).
Proof.
  assert (D : ∀ al A (q : prog A), (∀ j, al_job al j → dispatch_job_of i j = false) →
    (∀ x, al_event al x → valid_event x) → made_of al q → affords E pot3 (newborn i b) q 0 (λ _ _, True)).
  { intros al A q Hp He Hq. eapply (made_of_affords E i b); [done|apply never_mono| | |exact Hq|done];
      [by split|by apply allowed_program]. }
  destruct 1 as [req| |j t|j u| | |].
  - destruct (rq_route req) as [bd pr h|j|j|j l|j bd|j bd] eqn:Hr.
    1: { eapply serve_create_affords; [by apply nothing_affords|exact Hr|apply create_task_affords]. }
    all: eapply D; [| |apply serve_made_of]; rewrite Hr; simpl; try done.
    + intros jb [(x & Hj) _]. unfold dispatch_job_of. by rewrite Hj.
    + intros jb [(x & Hj) _]. unfold dispatch_job_of. by rewrite Hj.
    + by intros x [_ ?].
  - eapply D; [| |apply history_made_of]; done.
  - eapply D; [| |apply dispatch_made_of]; done.
  - eapply D; [| |apply notification_made_of]; done.
  - eapply D; [| |apply webhook_made_of]; done.
  - eapply D; [| |apply sweep_made_of]; done.
  - eapply D; [| |apply retain_made_of]; done.
Qed.
End once.

(** ** Properties *)

Definition requests_for (i : string) (w : world) : nat :=
  length (filter (λ x, dispatch_request i x.1 = true) (w_http w)).
Definition dispatch_jobs_for (i : string) (w : world) : nat :=
  length (filter (λ j, dispatch_job_of i j = true) (w_jobs w)).
Definition webhook_jobs_for (i : string) (w : world) : nat :=
  length (filter (λ j, webhook_job_of i j = true) (w_jobs w)).

(** An account that starts with nothing counted never exceeds its credit. *)
Lemma account_bound {SO : ScanOrder} {V : Validation} key E i b count entitled K w0 c :
  born_at E i b → db_wf (w_db w0) → tasks (w_db w0) !! i = None → count w0 = 0 →
  (∀ p, handler key p → affords E (balance i b count entitled K) (newborn i b) p 0 (λ _ _, True)) →
  reachable E (handler key) w0 c → balance i b count entitled K (the_world c) ≤ K.
Proof.
  intros Hb W Hn H0 Hh Hr. etrans; [eapply reachable_potential; [exact Hh| |exact Hr]|].
  - intros c' Hc'. by eapply reachable_newborn.
  - unfold balance. rewrite H0. unfold credit. rewrite Hn. case_match; lia.
Qed.

Lemma filter_false {A} (l : list A) (P : A → bool) :
  (∀ x, P x = false) → filter (λ x, P x = true) l = [].
Proof.
  intros HP. induction l as [|x l IH]; [done|].
  by rewrite filter_cons, decide_False by (rewrite HP; done).
Qed.

(** C3: at most once.  Let a task be created in an execution, under an id that is
    generated once.  However jobs are redelivered, requests repeated, calls lost
    or processes killed, its executor is sent at most three dispatch requests (the
    attempts of one job), one dispatch job is enqueued for it, and one webhook
    job. *)
Theorem at_most_once {SO : ScanOrder} {V : Validation} key E i b w0 c :
  born_at E i b → db_wf (w_db w0) → tasks (w_db w0) !! i = None →
  requests_for i w0 = 0 → dispatch_jobs_for i w0 = 0 → webhook_jobs_for i w0 = 0 →
  reachable E (handler key) w0 c →
  requests_for i (the_world c) ≤ 3 ∧ dispatch_jobs_for i (the_world c) ≤ 1 ∧
  webhook_jobs_for i (the_world c) ≤ 1.
Proof.
  intros Hb W Hn H1 H2 H3 Hr.
  assert (N : ∀ A (l : list A), length (filter (λ _, false = true) l) = 0).
  { intros A l. by rewrite (filter_false l (λ _, false)). }
  pose proof (account_bound key E i b (outgoing (dispatch_request i) (λ _, false)) pending 3 w0 c
    Hb W Hn ltac:(unfold outgoing; rewrite N; unfold requests_for in H1; lia)
    (executor_asked key E i b Hb) Hr) as B1.
  pose proof (account_bound key E i b (outgoing (λ _, false) (dispatch_job_of i)) never 1 w0 c
    Hb W Hn ltac:(unfold outgoing; rewrite N; unfold dispatch_jobs_for in H2; lia)
    (dispatch_enqueued key E i b Hb) Hr) as B2.
  pose proof (account_bound key E i b (outgoing (λ _, false) (webhook_job_of i)) live 1 w0 c
    Hb W Hn ltac:(unfold outgoing; rewrite N; unfold webhook_jobs_for in H3; lia)
    (webhook_enqueued key E i b Hb) Hr) as B3.
  unfold balance, outgoing, requests_for, dispatch_jobs_for, webhook_jobs_for in *. lia.
Qed.

(** ** Instances *)

(** The row inserted at step 2 is ["a"]. *)
Definition one_task_env : env :=
  mkEnv (λ _, no_fault) (λ _, 1%N) (λ n, Z.of_nat n)
    (λ n k, if bool_decide (n = 2) then "a" else "u" +:+ pretty n +:+ "-" +:+ pretty k)
    (λ _, ∅) (λ n, Z.of_nat n) (λ _ _, Ok JNull).

Definition create_request : prog unit :=
  serve None (mkRequest (PostTask (JObj [("type", JStr "report");
    ("executorUrl", JStr "http://executor/run")]) "http" (Some "proxy")) "/v1/tasks" None None) ;! Ret tt.

Lemma one_task_born : born_at one_task_env "a" 2.
Proof. intros n k. simpl. case_bool_decide; [done|]. by intros [=]. Qed.

(** The task is created and its job delivered twice. *)
Definition dispatched : config :=
  schedule one_task_env [0; 0; 0; 0; 1; 1; 1; 2; 2]
    (mkConfig [create_request; dispatch "a" 300; dispatch "a" 300] initial_world).

Lemma dispatched_reachable : reachable one_task_env (handler None) initial_world dispatched.
Proof.
  apply scheduled. constructor; [apply h_request|].
  constructor; [apply h_dispatch|]. constructor; [apply h_dispatch|constructor].
Qed.

Lemma at_most_once_witness :
  requests_for "a" (the_world dispatched) = 1 ∧ requests_for "a" (the_world dispatched) ≤ 3 ∧
  dispatch_jobs_for "a" (the_world dispatched) ≤ 1.
Proof.
  split; [vm_compute; reflexivity|].
  destruct (at_most_once None one_task_env "a" 2 initial_world dispatched) as (H1 & H2 & _);
    [exact one_task_born|exact empty_db_wf|reflexivity..|exact dispatched_reachable|].
  split; [exact H1|exact H2].
Defined.
