(* ===== verification/TerminalEvents.v ===== *)
(** * TerminalEvents: the log agrees with the row

    The account of the terminal events of one type in the log of one task [i]: the
    row has one unit of credit until it reaches the status of the type.  Whoever
    moves it there may log the event; [cancelTask] and the sweep do both at once,
    the callback carries the unit from one transaction to the next. *)
From S2P Require Import Prelude Errors ExceptionFilter Schema Database Samples EventsRepository TasksRepository KeyValue Effects Accounts HttpRetry QueueAdapter ParseDecorators TasksService MaintenanceRepository MaintenanceWorkers CallbackAuth ExecutorService Workers Sse Http Handlers TableSteps System Ledger Accounting.

#[local] Open Scope nat_scope.

(** The status a terminal event announces. *)
Definition announced (t : TaskEventType) : option TaskStatus :=
  match t with
  | progress_ev => None
  | completed_ev => Some COMPLETED
  | failed_ev => Some FAILED
  | cancelled_ev => Some CANCELLED
  end.

Section events.
Context {SO : ScanOrder} {V : Validation} (key : option string) (E : env) (i : string) (b : nat).
Context (t : TaskEventType) (st : TaskStatus).
Hypothesis born : born_at E i b.
Hypothesis announces : announced t = Some st.

Definition logged (d : db) : nat := length (filter (λ e, ev_type e = t) (events_of i d)).

Definition not_yet (s : TaskStatus) : bool := negb (bool_decide (s = st)).

Lemma not_yet_mono s s' : status_step s s' = true → not_yet s' = true → not_yet s = true.
Proof.
  unfold not_yet. revert announces. generalize st. intros st0 Ha.
  assert (Ht : is_terminal st0 = true) by (by destruct t; simplify_eq/=).
  by destruct st0, s, s'.
Qed.

#[local] Abbreviation pot := (balance i b (λ w, logged (w_db w)) not_yet 1).
#[local] Abbreviation credit_of d := (credit i not_yet 1 d).

Lemma logged_app d m e :
  logged (mkDb m (task_events d ++ [e])) =
  logged d + (if decide (ev_taskId e = i ∧ ev_type e = t) then 1 else 0).
Proof.
  unfold logged.
  change (events_of i (mkDb m (task_events d ++ [e])))
    with (events_of i (mkDb (tasks d) (task_events d ++ [e]))). rewrite events_of_app.
  rewrite filter_app, length_app. f_equal. destruct (decide (ev_taskId e = i)).
  - rewrite filter_cons. repeat case_decide; simpl; naive_solver.
  - rewrite decide_False by naive_solver. done.
Qed.

Lemma logged_tasks d d' : task_events d' = task_events d → logged d' = logged d.
Proof. unfold logged, events_of. by intros ->. Qed.

(** Events that are not counted: of another task, or of another type. *)
Definition silent (al : allowance) : Prop :=
  ∀ input, al_event al input → ¬ (input_taskId input = i ∧ input_eventType input = t).

Lemma credit_absent d : tasks d !! i = None → credit_of d = 0.
Proof. unfold credit. by intros ->. Qed.

Lemma credit_live d r : tasks d !! i = Some r → is_terminal (status r) = false → credit_of d = 1.
Proof.
  unfold credit, not_yet. intros -> Ht. rewrite bool_decide_false; [done|]. intros Hs.
  rewrite Hs in Ht. revert Ht announces. generalize st. intros st0 Ht Ha. by destruct t; simplify_eq/=.
Qed.

(** The cancellation and the sweep pay for their own event. *)
Lemma credit_final d r :
  tasks d !! i = Some r → status r = st → credit_of d = 0.
Proof. unfold credit, not_yet. intros -> ->. by rewrite bool_decide_true. Qed.

(** One step of the tables, but for the logging of a counted event. *)
Lemma table_step_account al c d d' :
  db_wf d → silent al → table_step al c d d' →
  (tasks d !! i = None → logged d' ≤ logged d) ∧
  ((tasks d !! i = None → tasks d' !! i = None) → logged d' + credit_of d' ≤ logged d + credit_of d).
Proof.
  intros W Hsil Hs.
  assert (Hc : (tasks d !! i = None → tasks d' !! i = None) → credit_of d' ≤ credit_of d).
  { apply credit_legal; [apply not_yet_mono|]. by eapply table_step_legal. }
  assert (S : logged d' ≤ logged d → (tasks d !! i = None → logged d' ≤ logged d) ∧
     ((tasks d !! i = None → tasks d' !! i = None) → logged d' + credit_of d' ≤ logged d + credit_of d)).
  { intros Hl. split; [done|]. intros Hn. specialize (Hc Hn). lia. }
  destruct Hs as [|dto now token r Hd -> Hn|j|j r sets Hi Hu|j r Hi Ht|input Hv
    |now n res d' Hx|ids]; try (apply S, Nat.eq_le_incl, logged_tasks; done).
  - rewrite logged_app. case_decide as He; [|rewrite Nat.add_0_r; split; [lia|]; intros Hn; specialize (Hc Hn); lia].
    simpl in He. destruct He as [-> He]. rewrite Hi. split; [done|]. intros _.
    rewrite (credit_live d r) by done. rewrite (credit_final _ (cancelled_row (c_now c) r)); [lia|..].
    + simpl. by rewrite lookup_insert_eq.
    + rewrite <-He in announces. by injection announces.
  - rewrite logged_app, decide_False by (by apply Hsil). rewrite Nat.add_0_r.
    split; [lia|]. intros Hn. specialize (Hc Hn). lia.
  - destruct (expire_tx_swept now now n c d res d' W (Z.le_refl _) Hx i) as [[Ht He]|Hone].
    + apply S. unfold logged. by rewrite He.
    + destruct Hone as (r0 & x & t0 & m & ev & Hi & Hst & _ & _ & _ & Hi' & He & Hid & Hty & _).
      rewrite Hi. split; [done|]. intros _. unfold logged. rewrite He, filter_app, length_app.
      rewrite (credit_live d r0) by (by rewrite ?Hst). rewrite filter_cons, filter_nil, Hty.
      case_decide as Hf; simpl; [|pose proof (credit_le i not_yet 1 d'); lia].
      rewrite (credit_final _ _ Hi'); [lia|]. rewrite <-Hf in announces. by injection announces.
  - apply S. unfold logged. rewrite events_of_purge. case_decide; simpl; lia.
Qed.

Lemma silent_free al X (op : io X) :
  silent al → program_op al X op → free E i (λ w, logged (w_db w)) not_yet 1 X op.
Proof.
  intros Hsil Hop w r w' W He. eapply table_step_account; [done|exact Hsil|].
  by eapply program_op_table_step.
Qed.

Lemma silent_affords {A} al (p : prog A) n (R : res A → nat → Prop) :
  silent al → allowed_in al program_al → made_of al p → (∀ r, R r n) →
  affords E pot (newborn i b) p n R.
Proof.
  intros Hs Hal Hp. apply affords_neutral. eapply all_ops_mono; [|exact Hp]. intros X op Hop.
  apply free_neutral; [done|by eapply program_op_mono|by eapply silent_free].
Qed.

Lemma nothing_silent : silent nothing.
Proof. by intros input []. Qed.

Lemma event_costs input w r w' :
  newborn i b w → exec_op E (DbTx (λ c, insertEvent c input)) w = (r, w') → pot w' ≤ pot w + 1.
Proof.
  intros [W HI] He. pose proof (exec_op_step E _ w r w' He) as Hs.
  assert (G : w_db w' = w_db w ∨ ∃ ev, w_db w' = mkDb (tasks (w_db w)) (task_events (w_db w) ++ [ev])).
  { simpl in He. destruct (insertEvent _ input (w_db w)) as [o d] eqn:Hi.
    apply insertEvent_cases in Hi; [|done].
    destruct o as [ev|e]; [destruct Hi as (_ & _ & _ & _ & ->)|subst d];
      destruct (e_fault E (w_step w)); injection He as _ <-; simpl; eauto. }
  assert (Hl : logged (w_db w') ≤ logged (w_db w) + 1 ∧ credit_of (w_db w') = credit_of (w_db w)).
  { destruct G as [->|[ev ->]]; [lia|]. rewrite logged_app. split; [case_decide; lia|done]. }
  unfold balance. rewrite Hs. pose proof (credit_le i not_yet 1 (w_db w)).
  destruct (Nat.leb_spec (S (w_step w)) b), (Nat.leb_spec (w_step w) b); lia.
Qed.

(** The event of a result announces its status. *)
Lemma result_announced j dto :
  input_eventType (result_event j dto) = t → to_status dto = st.
Proof. intros Ht. rewrite <-Ht in announces. by destruct dto; injection announces. Qed.

Lemma submitResult_pays task dto :
  SubmitResultSchema dto = true →
  affords E pot (newborn i b) (submitResult task dto) 0 (λ _ _, True).
Proof.
  intros Hd.
  destruct (decide (id task = i ∧ input_eventType (result_event (id task) dto) = t)) as [[Hi Ht]|Hn].
  2: { eapply (silent_affords (result_al (id task) dto)); [| |by apply submitResult_made_of|done].
       - intros input [-> _]. by destruct dto.
       - split_and!; simpl; [by intros ? [_ ?]|done|done]. }
  pose proof (result_announced _ _ Ht) as Hst. destruct (to_status_spec dto) as [_ Hsets].
  assert (F : ∀ A (p : prog A) n, made_of (jobs_only (λ _, True)) p →
            affords E pot (newborn i b) p n (λ _ _, True)).
  { intros A p n Hp. eapply (silent_affords (jobs_only (λ _, True))); [by intros input []|by split_and!|done..]. }
  unfold submitResult. apply affords_bind, (silent_affords nothing);
    [apply nothing_silent|by split_and!|by repeat made_step|]. intros [now|e]; [|done].
  apply affords_bind, affords_await. intros w r w' HI He.
  assert (Hle : pot w' ≤ pot w).
  { eapply (free_neutral E i b); [done|by apply (op_finish program_al)| |exact HI|exact He].
    eapply silent_free; [apply nothing_silent|by apply op_finish]. }
  destruct r as [[row|]|e]; [|exists 0; split; [lia|done]..].
  exists 1. split.
  { rewrite Hi in He. enough (pot w' + 1 ≤ pot w) by lia.
    eapply updateStatus_pays; [| |apply Hsets| |exact HI|exact He].
    - unfold not_yet. apply negb_true_iff, bool_decide_eq_false. intros Hp.
      rewrite <-Hp in Hst. by destruct dto.
    - unfold not_yet. by rewrite Hst, bool_decide_true.
    - intros w1 w2 _ _ _ Hev. by apply logged_tasks. }
  apply affords_bind, affords_await. intros w1 r1 w1' HI1 He1. exists 0.
  split; [pose proof (event_costs _ w1 r1 w1' HI1 He1); lia|].
  destruct r1 as [ev|e]; [|done]. apply F. unfold publish, notify_webhook, enqueue.
  by repeat made_step.
Qed.

Lemma handlers_pay p : handler key p → affords E pot (newborn i b) p 0 (λ _ _, True).
Proof.
  assert (D : ∀ al A (q : prog A), silent al → (∀ x, al_event al x → valid_event x) → made_of al q →
    affords E pot (newborn i b) q 0 (λ _ _, True)).
  { intros al A q Hs He Hq. eapply silent_affords; [exact Hs|by apply allowed_program|exact Hq|done]. }
  destruct 1 as [req| |j n|j u| | |].
  - destruct (rq_route req) as [bd pr h|j|j|j l|j bd|j bd] eqn:Hr.
    5: { eapply serve_result_affords; [|exact Hr|apply submitResult_pays]. intros A q n R.
         apply silent_affords; [apply nothing_silent|by split_and!]. }
    all: eapply D; [| |apply serve_made_of]; rewrite Hr; try done; try (by intros input []).
    + intros input [(j' & p & ->) _] [_ Ht]. by rewrite <-Ht in announces.
  - eapply D; [| |apply history_made_of]; by intros input [].
  - eapply D; [| |apply dispatch_made_of]; by intros input [].
  - eapply D; [| |apply notification_made_of]; by intros input [].
  - eapply D; [| |apply webhook_made_of]; by intros input [].
  - eapply D; [| |apply sweep_made_of]; by intros input [].
  - eapply D; [| |apply retain_made_of]; by intros input [].
Qed.

(** The bound on the account, read on a row. *)
Lemma logged_bound w0 c r :
  db_wf (w_db w0) → tasks (w_db w0) !! i = None → events_of i (w_db w0) = [] →
  reachable E (handler key) w0 c → tasks (w_db (the_world c)) !! i = Some r →
  logged (w_db (the_world c)) ≤ 1 ∧ (logged (w_db (the_world c)) ≠ 0 → status r = st).
Proof.
  intros W Hn Hev Hr Hi.
  pose proof (account_bound key E i b (λ w, logged (w_db w)) not_yet 1 w0 c born W Hn
    ltac:(unfold logged; by rewrite Hev) handlers_pay Hr) as B.
  assert (N : newborn i b (the_world c)) by (by eapply reachable_newborn).
  destruct N as [_ Hb]. specialize (Hb (ltac:(rewrite Hi; eauto))).
  unfold balance, credit in B. rewrite Hi in B. unfold not_yet in B.
  destruct (Nat.leb_spec (w_step (the_world c)) b); [lia|].
  case_bool_decide; simpl in B; split; try lia; done.
Qed.
End events.

(** ** Properties *)

(** C2: the log agrees with the row.  Let a task be created in an execution, under
    an id that is generated once.  As long as its row exists, and whatever other
    requests, jobs and sweeps race with its completion, the log has at most one
    terminal event, and that event announces the status the row has. *)
Theorem terminal_event_matches {SO : ScanOrder} {V : Validation} key E i b w0 c r :
  born_at E i b → db_wf (w_db w0) → tasks (w_db w0) !! i = None → events_of i (w_db w0) = [] →
  reachable E (handler key) w0 c → tasks (w_db (the_world c)) !! i = Some r →
  (∀ e, e ∈ events_of i (w_db (the_world c)) → ∀ s, announced (ev_type e) = Some s → status r = s) ∧
  (∀ e e', e ∈ events_of i (w_db (the_world c)) → e' ∈ events_of i (w_db (the_world c)) →
     is_Some (announced (ev_type e)) → is_Some (announced (ev_type e')) → e = e').
Proof.
  intros Hb W Hn Hev Hr Hi.
  assert (B : ∀ t s, announced t = Some s → logged i t (w_db (the_world c)) ≤ 1 ∧
            (logged i t (w_db (the_world c)) ≠ 0 → status r = s)).
  { intros t s Ha. by eapply (logged_bound key E i b t s). }
  assert (L : ∀ e, e ∈ events_of i (w_db (the_world c)) →
            e ∈ filter (λ e', ev_type e' = ev_type e) (events_of i (w_db (the_world c)))).
  { intros e He. by apply list_elem_of_filter. }
  assert (S : ∀ e, e ∈ events_of i (w_db (the_world c)) → ∀ s, announced (ev_type e) = Some s → status r = s).
  { intros e He s Ha. apply (B _ s Ha). unfold logged. intros H0. apply L in He.
    by apply length_zero_iff_nil in H0; rewrite H0 in He; apply elem_of_nil in He. }
  split; [done|]. intros e e' He He' [s Hs] [s' Hs'].
  assert (Heq : ev_type e' = ev_type e).
  { pose proof (S e He s Hs) as E1. pose proof (S e' He' s' Hs') as E2.
    rewrite E1 in E2. subst s'. destruct (ev_type e), (ev_type e'); simplify_eq/=; congruence. }
  apply L in He. apply L in He'. rewrite Heq in He'. destruct (B _ s Hs) as [Hle _]. unfold logged in Hle.
  destruct (filter _ _) as [|x [|y l]]; simpl in Hle; [set_solver| |lia].
  apply list_elem_of_singleton in He, He'. congruence.
Qed.

(** ** Instances *)

(** The task is created, dispatched, and completed by its executor while a client
    cancels it: the cancellation comes first. *)
Definition raced : config :=
  schedule one_task_env [0; 0; 0; 0; 1; 1; 1; 2; 3; 2; 2; 3]
    (mkConfig [create_request; dispatch "a" 300;
       serve None (mkRequest (PostResult "a" (JObj [("status", JStr "completed"); ("result", JObj [])]))
         "/v1/tasks/a/result" None (Some "Bearer u1-0")) ;! Ret tt;
       serve None (mkRequest (DeleteTask "a") "/v1/tasks/a" None None) ;! Ret tt] initial_world).

Lemma raced_reachable : reachable one_task_env (handler None) initial_world raced.
Proof.
  apply scheduled. constructor; [apply h_request|]. constructor; [apply h_dispatch|].
  constructor; [apply h_request|]. constructor; [apply h_request|constructor].
Qed.

Lemma terminal_event_matches_witness :
  ∃ r, tasks (w_db (the_world raced)) !! "a" = Some r ∧
    ev_type <$> events_of "a" (w_db (the_world raced)) = [cancelled_ev] ∧ status r = CANCELLED.
Proof.
  destruct (tasks (w_db (the_world raced)) !! "a") as [r|] eqn:Hi; [|vm_compute in Hi; discriminate].
  exists r. split; [done|]. split; [vm_compute; reflexivity|].
  destruct (terminal_event_matches None one_task_env "a" 2 initial_world raced r) as [H _];
    [exact one_task_born|exact empty_db_wf|reflexivity..|exact raced_reachable|exact Hi|].
  destruct (events_of "a" (w_db (the_world raced))) as [|e l] eqn:He; [vm_compute in He; discriminate|].
  apply (H e); [apply elem_of_cons; by left|].
  vm_compute in He. injection He as <- _. reflexivity.
Defined.
