(* ===== verification/Provenance.v ===== *)
(** * Provenance: what messages and jobs can be trusted to say

    A program that publishes, or enqueues, acts on what its earlier operations told
    it, while other handlers go on changing the tables.  [vouches] follows a program
    with the facts it has seen to hold at some time; what it sends out has to be
    backed by them.  The handlers only send what was true: every published event
    was in the log, every job is about a task that was stored. *)
From S2P Require Import Prelude Errors ExceptionFilter Schema Database EventsRepository TasksRepository KeyValue Effects HttpRetry Idempotency QueueAdapter ParseDecorators TasksService MaintenanceRepository MaintenanceWorkers JsString JsNumber CallbackAuth ExecutorService Workers Sse Http Handlers TableSteps Ledger.

#[local] Open Scope Z_scope.

(** ** Facts about the tables *)

Inductive fact : Type :=
| Logged (ev : TaskEventRow)      (** the event is in the log *)
| Stored (r : TaskRow).           (** this is a row of the table *)

Definition holds (d : db) (f : fact) : Prop :=
  match f with
  | Logged ev => ev ∈ task_events d
  | Stored r => tasks d !! id r = Some r
  end.

Section provenance.
Context {V : Validation}.

(** The ids of the rows are written as Postgres prints them. *)
Definition named (d : db) : Prop :=
  db_wf d ∧ ∀ i r, tasks d !! i = Some r → uuid_in i = Some i.

(** [channel] is the one of the event's task, under some spelling of its id. *)
Definition addressed_to (channel : string) (ev : TaskEventRow) : Prop :=
  ∃ i, channel = channel_of i ∧ uuid_in i = Some (ev_taskId ev).

Definition message_backed (K : fact → Prop) (m : string * TaskEventRow) : Prop :=
  addressed_to m.1 m.2 ∧ K (Logged m.2).

(** The row a job is about, when it was enqueued. *)
Definition job_about (j : job) (r : TaskRow) : Prop :=
  match job_payload j with
  | DispatchJobData i t => i = id r ∧ t = timeoutSeconds r ∧ status r = PENDING
  | CancelJobData i => uuid_in i = Some (id r) ∧ status r = CANCELLED ∧ is_Some (truthy (cancelUrl r))
  | WebhookJobData i => i = id r ∧ (status r = COMPLETED ∨ status r = FAILED)
  end.

Definition job_backed (K : fact → Prop) (j : job) : Prop := ∃ r, K (Stored r) ∧ job_about j r.

(** A statement that writes an event does it for a task it finds, or that was known. *)
Definition log_backed (K : fact → Prop) {A} (t : dbctx → sql A) : Prop :=
  ∀ c d o d', named d → t c d = (o, d') → ∀ ev, ev ∈ task_events d' →
    ev ∈ task_events d ∨ ∃ r, (K (Stored r) ∨ holds d (Stored r)) ∧ id r = ev_taskId ev.

(** What the idempotency slot of a key may hold: the sentinel, or the id of a task
    that was stored with that key. *)
Definition slot_backed (K : fact → Prop) (k v : string) : Prop :=
  v = PENDING_SENTINEL ∨ ∃ r, K (Stored r) ∧ idempotencyKey r = Some k ∧ id r = v.

(** A command leaves in the slots what they held, or what is backed. *)
Definition command_backed (K : fact → Prop) {A} (f : Z → kv → A * kv) : Prop :=
  ∀ t s a s', f t s = (a, s') → ∀ k e, s' !! redisKey k = Some e →
    (∃ e0, s !! redisKey k = Some e0 ∧ e0.1 = e.1) ∨ slot_backed K k e.1.

(** What an operation sends or writes is backed. *)
Definition backed (K : fact → Prop) {X} (op : io X) : Prop :=
  match op with
  | DbTx t => log_backed K t
  | RedisCmd f => command_backed K f
  | Publish channel ev => message_backed K (channel, ev)
  | QueueAdd j => job_backed K j
  | _ => True
  end.

Context (E : env).

(** [p], knowing [K], only sends what is backed, and ends in a result and a
    knowledge that satisfy [Q].  Each operation adds what holds after it. *)
Fixpoint vouches {A} (p : prog A) (K : fact → Prop) (Q : res A → (fact → Prop) → Prop) : Prop :=
  match p with
  | Ret a => Q (Ok a) K
  | Throw e => Q (Err e) K
  | OutOfFuel => True
  | Vis op k => backed K op ∧ ∀ w r w', named (w_db w) → exec_op E op w = (r, w') →
      vouches (k r) (λ f, K f ∨ holds (w_db w') f) Q
  end.

Definition grows {A} (Q : res A → (fact → Prop) → Prop) : Prop :=
  ∀ r (K K' : fact → Prop), (∀ f, K f → K' f) → Q r K → Q r K'.

Lemma message_backed_mono (K K' : fact → Prop) m :
  (∀ f, K f → K' f) → message_backed K m → message_backed K' m.
Proof. intros H [? ?]. split; auto. Qed.

Lemma job_backed_mono (K K' : fact → Prop) j :
  (∀ f, K f → K' f) → job_backed K j → job_backed K' j.
Proof. intros H (r & ? & ?). exists r. auto. Qed.

Lemma log_backed_mono (K K' : fact → Prop) {A} (t : dbctx → sql A) :
  (∀ f, K f → K' f) → log_backed K t → log_backed K' t.
Proof.
  intros H Hb c d o d' W Ht ev Hev.
  destruct (Hb c d o d' W Ht ev Hev) as [?|(r & Hr & ?)]; [by left|right].
  exists r. split; [|done]. destruct Hr; auto.
Qed.

Lemma slot_backed_mono (K K' : fact → Prop) k v :
  (∀ f, K f → K' f) → slot_backed K k v → slot_backed K' k v.
Proof. intros H [->|(r & ? & ?)]; [by left|right; eauto]. Qed.

Lemma command_backed_mono (K K' : fact → Prop) {A} (f : Z → kv → A * kv) :
  (∀ f, K f → K' f) → command_backed K f → command_backed K' f.
Proof.
  intros H Hb t s a s' Hf k e He.
  destruct (Hb t s a s' Hf k e He) as [?|?]; [by left|right]. by eapply slot_backed_mono.
Qed.

Lemma backed_mono (K K' : fact → Prop) {X} (op : io X) :
  (∀ f, K f → K' f) → backed K op → backed K' op.
Proof.
  intros H. destruct op; simpl;
    eauto using message_backed_mono, job_backed_mono, log_backed_mono, command_backed_mono.
Qed.

Lemma vouches_mono {A} (p : prog A) (K K' : fact → Prop) (Q Q' : res A → (fact → Prop) → Prop) :
  (∀ f, K f → K' f) → (∀ r L, (∀ f, K' f → L f) → Q r L → Q' r L) → grows Q →
  vouches p K Q → vouches p K' Q'.
Proof.
  intros HK HQ HG. revert K K' HK HQ. induction p as [a|e| |X op k IH]; intros K K' HK HQ; simpl.
  - intros H. apply HQ; [done|]. by eapply HG.
  - intros H. apply HQ; [done|]. by eapply HG.
  - done.
  - intros [Hb Hk]. split; [by eapply backed_mono|]. intros w r w' W He.
    eapply IH; [| |by eapply Hk]; simpl; [naive_solver|].
    intros x L HL. apply HQ. auto.
Qed.

Lemma vouches_bind {A B} (p : prog A) (f : A → prog B) K Q :
  vouches p K (λ r L, match r with Ok a => vouches (f a) L Q | Err e => Q (Err e) L end) →
  vouches (bind p f) K Q.
Proof.
  revert K. induction p as [a|e| |X op k IH]; intros K; simpl; auto.
  intros [Hb Hk]. split; [done|]. eauto.
Qed.

Lemma vouches_catch {A} (p : prog A) (h : exn → prog A) K Q :
  vouches p K (λ r L, match r with Ok a => Q (Ok a) L | Err e => vouches (h e) L Q end) →
  vouches (catch p h) K Q.
Proof.
  revert K. induction p as [a|e| |X op k IH]; intros K; simpl; auto.
  intros [Hb Hk]. split; [done|]. eauto.
Qed.

Lemma vouches_await {X} (op : io X) K Q :
  backed K op →
  (∀ w r w', named (w_db w) → exec_op E op w = (r, w') → Q r (λ f, K f ∨ holds (w_db w') f)) →
  vouches (await op) K Q.
Proof. intros Hb H. split; [done|]. intros w r w' W He. specialize (H w r w' W He). by destruct r. Qed.

(** Statements that write no event. *)
Definition keeps_log {A} (t : dbctx → sql A) : Prop :=
  ∀ c d o d', db_wf d → t c d = (o, d') → task_events d' ⊆ task_events d.

Lemma keeps_log_backed K {A} (t : dbctx → sql A) : keeps_log t → log_backed K t.
Proof. intros H c d o d' [W _] Ht ev Hev. left. by apply (H c d o d' W Ht). Qed.

(** Commands that put no task id in a slot. *)
Definition keeps_slots {A} (f : Z → kv → A * kv) : Prop := command_backed (λ _, False) f.

Lemma keeps_slots_backed K {A} (f : Z → kv → A * kv) : keeps_slots f → command_backed K f.
Proof. by apply command_backed_mono. Qed.

(** An operation that sends nothing, writes no event and no task id. *)
Definition sends_nothing (X : Type) (op : io X) : Prop :=
  match op with
  | Publish _ _ | QueueAdd _ => False
  | DbTx t => keeps_log t
  | RedisCmd f => keeps_slots f
  | _ => True
  end.

Lemma vouches_silent {A} (p : prog A) K Q :
  all_ops sends_nothing p → (∀ r L, (∀ f, K f → L f) → Q r L) → vouches p K Q.
Proof.
  revert K. induction p as [a|e| |X op k IH]; intros K; simpl; auto.
  intros [Hop Hk] HQ. split; [by destruct op; try apply keeps_log_backed; try apply keeps_slots_backed|]. intros w r w' W He.
  apply IH; [by eapply Hk, exec_op_may_reply|]. intros x L HL. apply HQ. auto.
Qed.

(** A statement or transaction: nothing is known of its reply when it fails. *)
Lemma vouches_tx {A} (t : dbctx → sql A) K Q :
  log_backed K t →
  (∀ e L, (∀ f, K f → L f) → Q (Err e) L) →
  (∀ c d a d', named d → t c d = (Ok a, d') → Q (Ok a) (λ f, K f ∨ holds d' f)) →
  vouches (await (DbTx t)) K Q.
Proof.
  intros Hb He Ha. apply vouches_await; [done|]. intros w r w' W H. destruct r as [a|e]; [|auto].
  simpl in H. destruct (t (ctx_of E w) (w_db w)) as [o d'] eqn:Ht.
  destruct (e_fault E (w_step w)); simplify_eq/=. eauto.
Qed.

(** ** Executions *)

Context {SO : ScanOrder} (key : option string).
Context (generated : ∀ n k, uuid_in (e_uuid E n k) = Some (e_uuid E n k)).

Lemma reachable_named w0 c :
  named (w_db w0) → reachable E (handler key) w0 c → named (w_db (the_world c)).
Proof.
  intros N Hr. apply (program_invariant key E (λ w, named (w_db w)) w0 c); [done| |done].
  intros X op Hop w r w' [W Hn] He. split; [by eapply program_op_wf|].
  apply (program_op_table_step program_al E X op w r w' Hop W) in He.
  intros i ri Hi. destruct (tasks (w_db w) !! i) as [r0|] eqn:H0; [by eapply Hn|].
  destruct (table_step_appears i _ _ _ _ W He (ex_intro _ ri Hi)) as [[r0 Hr0]|<-];
    [congruence|apply generated].
Qed.

(** The event's task was stored. *)
Definition event_backed (K : fact → Prop) (ev : TaskEventRow) : Prop :=
  ∃ r, K (Stored r) ∧ id r = ev_taskId ev.

Definition backed_world (K : fact → Prop) (w : world) : Prop :=
  (∀ m, m ∈ w_published w → message_backed K m) ∧ (∀ j, j ∈ w_jobs w → job_backed K j) ∧
  (∀ ev, ev ∈ task_events (w_db w) → event_backed K ev) ∧
  (∀ k e, w_redis w !! redisKey k = Some e → slot_backed K k e.1).

Lemma backed_world_mono (K K' : fact → Prop) w :
  (∀ f, K f → K' f) → backed_world K w → backed_world K' w.
Proof.
  intros H (Hm & Hj & Hl & Hs).
  split_and!; [| |intros ev (r & ? & ?)%Hl; exists r; auto|];
    eauto using message_backed_mono, job_backed_mono, slot_backed_mono.
Qed.

(** What an operation sends and writes is what the world shows. *)
Lemma exec_op_backed K {X} (op : io X) w r w' :
  (∀ f, holds (w_db w) f → K f) → named (w_db w) →
  backed K op → backed_world K w → exec_op E op w = (r, w') → backed_world K w'.
Proof.
  intros HK W Hb Hw He. pose proof Hw as (Hm & Hj & Hl & Hs).
  assert (D : ∀ f e (x : res X * world),
    faulty f e (advance E w) x = (r, w') → backed_world K x.2 → backed_world K w').
  { intros [] e x; simpl; [by intros ->| |]; intros [= _ <-]; done. }
  destruct op; cbn [exec_op] in He.
  all: try (injection He as <- <-; done).
  - destruct (t _ _) as [o d'] eqn:Ht. eapply (D _ _ (o, set_db (advance E w) d')); [exact He|].
    split_and!; [done..| |done]. simpl. intros ev Hev.
    destruct (Hb _ _ o d' W Ht ev Hev) as [Hold|(x & Hx & Hid)]; [by apply Hl|].
    exists x. split; [|done]. destruct Hx; auto.
  - destruct (f _ _) as [a s] eqn:Hf. eapply (D _ _ (Ok a, set_redis (advance E w) s)); [exact He|].
    split_and!; [done..|]. simpl. intros k e Hk.
    destruct (Hb _ _ a s Hf k e Hk) as [(e0 & H0 & <-)|?]; [by eapply Hs|done].
  - eapply (D _ _ (Ok tt, add_published (advance E w) (channel, event))); [exact He|].
    split_and!; simpl; [|done..]. intros m [Hin| ->%list_elem_of_singleton]%elem_of_app; auto.
  - eapply (D _ _ (Ok tt, add_job (advance E w) j)); [exact He|].
    split_and!; simpl; [done| |done..]. intros x [Hin| ->%list_elem_of_singleton]%elem_of_app; auto.
Qed.

(** [f] held at some time of an execution that reached [c]. *)
Definition was_true (w0 : world) (c : config) (f : fact) : Prop :=
  ∃ c1, reachable E (handler key) w0 c1 ∧ rtc (step E (handler key)) c1 c ∧
    holds (w_db (the_world c1)) f.

Lemma was_true_step w0 c c' f :
  step E (handler key) c c' → was_true w0 c f → was_true w0 c' f.
Proof. intros Hs (c1 & Hr & Hc & Hf). exists c1. split_and!; [done| |done]. by eapply rtc_r. Qed.

Lemma was_true_now w0 c f :
  reachable E (handler key) w0 c → holds (w_db (the_world c)) f → was_true w0 c f.
Proof. intros Hr Hf. exists c. split_and!; [done|done|done]. Qed.

(** An execution starts with nothing sent, nothing logged and no slot taken. *)
Record clean_start (w : world) : Prop := {
  clean_named : named (w_db w);
  clean_published : w_published w = [];
  clean_jobs : w_jobs w = [];
  clean_log : task_events (w_db w) = [];
  clean_slots k : w_redis w !! redisKey k = None }.

Lemma reachable_vouched w0 c :
  (∀ p, handler key p → vouches p (λ _, False) (λ _ _, True)) →
  clean_start w0 → reachable E (handler key) w0 c → backed_world (was_true w0 c) (the_world c).
Proof.
  intros Hh [W0 Hp0 Hj0 Hl0 Hs0] Hr.
  set (P := λ c, Forall (λ p, vouches p (was_true w0 c) (λ _ _, True)) (pool c) ∧
                 backed_world (was_true w0 c) (the_world c)).
  assert (HP : P c); [|by apply HP].
  refine (rtc_ind_r P (mkConfig [] w0) _ _ c Hr).
  { split; [constructor|]. split_and!; simpl; rewrite ?Hp0, ?Hj0, ?Hl0; try by intros ? ?%not_elem_of_nil.
    intros k e. by rewrite Hs0. }
  clear c Hr. intros c1 c2 Hr Hs [Hf Hb].
  assert (Hr2 : reachable E (handler key) w0 c2) by (by eapply rtc_r).
  assert (M : ∀ f, was_true w0 c1 f → was_true w0 c2 f) by (intros f; by apply was_true_step).
  assert (MF : ∀ p : prog unit, vouches p (was_true w0 c1) (λ _ _, True) →
                    vouches p (was_true w0 c2) (λ _ _, True)).
  { intros p. by apply vouches_mono. }
  assert (W : named (w_db (the_world c1))) by (by apply (reachable_named w0)).
  destruct Hs as [p ts w Hp|ts i X op k r w w' Hi He|ts i p w Hi]; unfold P; simpl in *.
  - split; [|by eapply backed_world_mono]. apply Forall_app. split; [by eapply Forall_impl|].
    constructor; [|constructor]. eapply vouches_mono; [| | |by apply Hh]; done.
  - assert (Hop : vouches (Vis op k) (was_true w0 (mkConfig ts w)) (λ _ _, True)).
    { rewrite Forall_lookup in Hf. by eapply Hf. }
    destruct Hop as [Hop Hk]. split.
    + apply Forall_insert; [by eapply Forall_impl|].
      eapply vouches_mono; [| | |exact (Hk w r w' W He)]; [|done|done].
      intros f [Hold|Hnow]; [auto|by apply was_true_now].
    + eapply exec_op_backed; [|exact W| |by eapply backed_world_mono|exact He].
      * intros f Hf'. apply M. by apply was_true_now.
      * by eapply backed_mono.
  - split; [|by eapply backed_world_mono]. apply Forall_delete. by eapply Forall_impl.
Qed.
End provenance.

(** ** Silent programs *)

Create HintDb keeps_log discriminated.

Section statements.
Context {SO : ScanOrder} {V : Validation}.

Lemma reads_keeps_log {A} (t : dbctx → sql A) : reads t → keeps_log t.
Proof. intros H c d o d' W Ht. by rewrite (H c d o d' W Ht). Qed.

Lemma updateStatus_keeps_log i from to extra : keeps_log (λ c, updateStatus c i from to extra).
Proof.
  intros c d o d' W. rewrite updateStatus_eq by done. cbv zeta.
  repeat case_match; by intros [= _ <-].
Qed.

Lemma updateProgress_keeps_log i p : keeps_log (λ c, TasksRepository.updateProgress c i p).
Proof.
  intros c d o d' W. rewrite updateProgress_eq by done. cbv zeta.
  repeat case_match; by intros [= _ <-].
Qed.

Lemma insert_keeps_log now token dto : keeps_log (λ c, insert c (new_task dto now token)).
Proof.
  intros c d [r|e] d' W; [by intros (_ & _ & ->)%insert_ok|by intros ->%insert_err].
Qed.

Lemma deleteById_keeps_log i : keeps_log (λ _, deleteById i).
Proof. intros c d o d' W. rewrite deleteById_eq by done. by intros [= _ <-]. Qed.

Lemma delete_batch_keeps_log ids : keeps_log (λ _, delete_batch ids).
Proof.
  intros c d o d' W. rewrite delete_batch_eq by done. intros [= _ <-].
  by intros ev [_ Hev]%list_elem_of_filter.
Qed.

(** The commands on slots. *)
Lemma occupy_keeps_slots k ttl : keeps_slots (OCCUPY_SCRIPT (redisKey k) PENDING_SENTINEL ttl).
Proof.
  intros t s a s' H k' e He. unfold OCCUPY_SCRIPT in H. simpl in H.
  destruct (gmap_get t (redisKey k) s); simplify_eq/=; [left; eauto|].
  destruct (decide (k' = k)) as [->|Hne].
  - rewrite lookup_insert_eq in He. simplify_eq/=. right. by left.
  - rewrite lookup_insert_ne in He by (intros ?%(inj redisKey); done). left; eauto.
Qed.

Lemma release_keeps_slots k : keeps_slots (release k).
Proof.
  intros t s a s' [= _ <-] k' e [_ He]%lookup_delete_Some. left; eauto.
Qed.

Lemma commit_backed (K : fact → Prop) k r :
  K (Stored r) → idempotencyKey r = Some k → command_backed K (commit k (id r)).
Proof.
  intros HK Hk t s a s' H k' e He. unfold commit in H. simpl in H. injection H as _ <-.
  destruct (decide (k' = k)) as [->|Hne].
  - right. right. exists r. split_and!; [done..|].
    repeat case_match; rewrite lookup_insert_eq in He; by simplify_eq/=.
  - left. exists e. split; [|done].
    repeat case_match; rewrite lookup_insert_ne in He by (intros ?%(inj redisKey); done); done.
Qed.

(** The statements that write events. *)
Lemma cancelTask_log_backed K i : log_backed K (λ c, cancelTask c i).
Proof.
  intros c d o d' [W _] H ev. apply cancelTask_cases in H; [|done].
  destruct H as [(_ & -> & _)|[(r & Hi & _ & _ & ->)|(-> & _)]]; [by left| |by left].
  simpl. intros [?| ->%list_elem_of_singleton]%elem_of_app; [by left|right].
  assert (Hid : id r = i) by (by eapply wf_id). exists r. split; [right; simpl; congruence|done].
Qed.

Lemma insertEvent_log_backed (K : fact → Prop) input r :
  K (Stored r) → id r = input_taskId input → log_backed K (λ c, insertEvent c input).
Proof.
  intros Hk Hid c d o d' [W _] H ev. apply insertEvent_cases in H; [|done].
  destruct o as [a|e]; [|subst; by left]. destruct H as (Hi & _ & _ & _ & ->). simpl.
  intros [?| ->%list_elem_of_singleton]%elem_of_app; [by left|right].
  exists r. split; [by left|congruence].
Qed.

(** The events of an expired batch are about rows of the batch. *)
Lemma expired_events_of now n c d ev :
  db_wf d → ev ∈ imap (timeout_event c d) (id <$> batch_rows now n (c_locked c) d) →
  ∃ r, tasks d !! id r = Some r ∧ id r = ev_taskId ev.
Proof.
  intros W [k Hk]%list_elem_of_lookup. rewrite list_lookup_imap in Hk.
  apply fmap_Some in Hk as (i & Hi & ->). apply list_elem_of_lookup_2 in Hi.
  apply list_elem_of_fmap in Hi as (r & -> & Hr). apply elem_of_batch in Hr as [Hr _].
  apply elem_of_rows_wf in Hr; [|done]. by exists r.
Qed.

Lemma expire_log_backed K now n : log_backed K (expire_tx now n).
Proof.
  intros c d [res|e] d' [W Hn] H ev; [|apply expire_tx_err in H as ->; by left].
  pose proof (expire_tx_ok now n c d res d' W H) as (_ & _ & ->). simpl.
  intros [?|(r & Hr & Hid)%expired_events_of]%elem_of_app; [by left|right|done].
  exists r. split; [by right|done].
Qed.
End statements.

#[export] Hint Resolve reads_keeps_log updateStatus_keeps_log updateProgress_keeps_log insert_keeps_log
  deleteById_keeps_log delete_batch_keeps_log findById_read findById_text_read findEventsSince_read
  select_tasks_limit_read occupy_keeps_slots release_keeps_slots : keeps_log.

Ltac silent_step :=
  lazymatch goal with
  | |- all_ops _ (Ret _) => exact I
  | |- all_ops _ (Throw _) => exact I
  | |- all_ops _ OutOfFuel => exact I
  | |- all_ops _ (lift _) => unfold lift
  | |- all_ops _ (await _) => apply all_ops_await; cbn [sends_nothing]; first [exact I|solve [eauto with keeps_log]]
  | |- all_ops _ (post _ _ _ _) =>
      eapply all_ops_mono; [|apply post_ops]; intros ? []; done
  | |- all_ops _ (finally _ _) => apply all_ops_finally
  | |- all_ops _ (bind _ _) => apply all_ops_bind; [|intros ?]
  | |- all_ops _ (catch _ _) => apply all_ops_catch; [|intros ?]
  | |- all_ops _ _ => case_goal
  end.

Ltac writes_nothing := apply keeps_log_backed; eauto with keeps_log.

Section senders.
Context {SO : ScanOrder} {V : Validation} (E : env) (key : option string).

Lemma dispatch_silent i t : all_ops sends_nothing (dispatch i t).
Proof. unfold dispatch, dispatch_recover. repeat silent_step. Qed.

Lemma notification_silent i u : all_ops sends_nothing (cancel_notification_at i u).
Proof. unfold cancel_notification_at. repeat silent_step. Qed.

Lemma webhook_silent i : all_ops sends_nothing (webhook_delivery i).
Proof. unfold webhook_delivery. repeat silent_step. Qed.

Lemma history_silent i a : all_ops sends_nothing (history i a).
Proof. unfold history. repeat silent_step. Qed.

Lemma retain_silent fuel days : all_ops sends_nothing (retain fuel days).
Proof.
  unfold retain, deleteOldData. apply all_ops_bind; [|done]. silent_step; [by silent_step|].
  cbv zeta. generalize (mkRetentionResult 0 0), (retention_cutoff a days). intros acc cutoff.
  revert acc. induction fuel as [|fuel IH]; intros acc; [done|]. cbn [delete_loop]. cbv zeta.
  repeat silent_step; apply IH.
Qed.

Lemma callback_guard_silent req i : all_ops sends_nothing (callback_guard req i).
Proof. unfold callback_guard, canActivate_by. repeat silent_step. Qed.

Lemma release_silent k : all_ops sends_nothing (release_quietly k).
Proof. unfold release_quietly, releaseSlot. repeat silent_step. Qed.

(** ** Senders *)

(** Whatever comes out, nothing more is asked of a handler. *)
#[local] Abbreviation ends := (λ _ _, True).

Lemma enqueue_vouches q n d o K Q :
  job_backed K (mkJob q n d (add_options o)) → (∀ r L, (∀ f, K f → L f) → Q r L) →
  vouches E (enqueue q n d o) K Q.
Proof.
  intros Hb HQ. unfold enqueue. apply vouches_catch, vouches_await; [done|].
  intros w [u|e] w' W He; [|simpl]; apply HQ; auto.
Qed.

(** A new row, as its request and its key ask for it. *)
Definition inserted (dto : CreateTaskDto) (r : res TaskRow) (L : fact → Prop) : Prop :=
  match r with
  | Ok row => L (Stored row) ∧ status row = PENDING ∧ idempotencyKey row = dto_idempotencyKey dto
  | Err _ => True
  end.

Lemma insert_vouches dto k K : vouches E (insert_step dto k) K (inserted dto).
Proof.
  unfold insert_step. apply vouches_catch.
  assert (HR : ∀ e L, vouches E (release_quietly k ;! Throw e) L (inserted dto)).
  { intros e L. apply vouches_bind, vouches_silent; [apply release_silent|]. by intros []. }
  apply vouches_bind, vouches_await; [done|]. intros w1 [now|e] w1' _ _; [|apply HR].
  apply vouches_bind, vouches_await; [done|]. intros w2 [token|e] w2' _ _; [|apply HR].
  apply vouches_tx; [writes_nothing|intros e L _; apply HR|]. intros c d row d' _ Hi.
  apply insert_ok in Hi as ((dbn & u & now' & tok & ->) & _ & ->).
  split_and!; [right; simpl; apply lookup_insert_eq|done..].
Qed.

Lemma commit_vouches k row (K : fact → Prop) Q :
  K (Stored row) → match k with Some k => idempotencyKey row = Some k | None => True end →
  (∀ r L, (∀ f, K f → L f) → Q r L) → vouches E (commit_quietly k (id row)) K Q.
Proof.
  intros HK Hk HQ. destruct k as [k|]; [|by apply HQ].
  apply vouches_catch, vouches_await; [by apply commit_backed|]. intros w [u|e] w' _ _; apply HQ; auto.
Qed.

Lemma create_task_vouches dto k url K :
  match k with Some k => dto_idempotencyKey dto = Some k | None => True end →
  vouches E (create_task dto k url) K ends.
Proof.
  intros Hk. unfold create_task. apply vouches_bind.
  eapply vouches_mono; [| | |apply (insert_vouches dto k K)]; [done| |by intros [] ? ? ?; unfold inserted; naive_solver].
  intros [row|e] L _; [|done]. intros (Hrow & Hs & Hkey). apply vouches_bind. unfold enqueue_step.
  assert (D : ∀ L2 : fact → Prop, (∀ f, L f → L2 f) →
    vouches E (commit_quietly k (id row) ;! Ret (buildResponse (id row) url)) L2 ends).
  { intros L2 H2. apply vouches_bind, commit_vouches; [auto|by rewrite Hkey|by intros []]. }
  apply vouches_catch, enqueue_vouches; [by exists row|]. intros [u|e] L2 H2; [by apply D|].
  apply vouches_silent; [repeat silent_step; apply release_silent|].
  intros [u|e'] L3 H3; [apply D; auto|done].
Qed.

Lemma create_vouches dto url K : vouches E (create dto url) K ends.
Proof.
  unfold create. destruct (truthy _) as [k|] eqn:Hk; [|by apply create_task_vouches].
  apply truthy_Some in Hk as [Hk _]. apply vouches_bind, vouches_silent.
  - unfold occupySlot. repeat silent_step.
  - intros [[]|e] L _; done || by apply create_task_vouches.
Qed.

Lemma cancel_vouches i u K : uuid_in i = Some u → vouches E (cancel_at i u) K ends.
Proof.
  intros Hu. unfold cancel_at. apply vouches_bind, vouches_tx; [apply cancelTask_log_backed|done|].
  intros c d [[row ev]|] d' W Hc; [|apply vouches_silent; [repeat silent_step|done]].
  destruct W as [W _].
  apply cancelTask_cases in Hc as [(? & _)|[(r & Hr & _ & [= -> ->] & ->)|[_ ?]]]; [done| |done|done].
  pose proof (wf_id d W u r Hr) as Hid. apply vouches_bind, vouches_await.
  - split; [exists i; split; [done|exact Hu]|]. right. simpl. set_solver.
  - intros w [x|e] w' _ _; [|done]. destruct (truthy _) as [url|] eqn:Ht; [|done].
    apply enqueue_vouches; [|done]. exists (cancelled_row (c_now c) r). split.
    + left. right. simpl. rewrite Hid. apply lookup_insert_eq.
    + unfold job_about. simpl. rewrite Hid. split_and!; [exact Hu|done|]. simpl in Ht. rewrite Ht. by eexists.
Qed.

Lemma publish_vouches i ev K Q :
  uuid_in i = Some i → ev_taskId ev = i → K (Logged ev) → (∀ r L, (∀ f, K f → L f) → Q r L) →
  vouches E (publish i ev) K Q.
Proof.
  intros Hu Hi Hev HQ. apply vouches_await; [|intros w r w' _ _; apply HQ; auto].
  split; [|done]. exists i. simpl. by rewrite Hi.
Qed.

Lemma insertEvent_vouches r input (K : fact → Prop) Q :
  K (Stored r) → id r = input_taskId input →
  (∀ e L, (∀ f, K f → L f) → Q (Err e) L) →
  (∀ ev L, (∀ f, K f → L f) → ev_taskId ev = input_taskId input → L (Logged ev) → Q (Ok ev) L) →
  vouches E (await (DbTx (λ c, insertEvent c input))) K Q.
Proof.
  intros Hk Hid He Ho. apply vouches_tx; [by eapply insertEvent_log_backed|done|]. intros c d ev d' [W _] H.
  apply insertEvent_cases in H as (Hi & _ & _ & _ & ->); [|done].
  apply Ho; [auto|done|]. right. simpl. set_solver.
Qed.

Lemma submitResult_vouches task dto K :
  uuid_in (id task) = Some (id task) → vouches E (submitResult task dto) K ends.
Proof.
  intros Hu. unfold submitResult. apply vouches_bind, vouches_await; [done|]. intros w [now|e] w' _ _; [|done].
  apply vouches_bind, vouches_tx; [writes_nothing|done|]. intros c d [r|] d' [W _] H; [|done].
  rewrite updateStatus_eq in H by done. destruct (tasks d !! id task) as [r0|] eqn:Hr; [|done].
  destruct (status_condition _ r0); [|done]. cbv zeta in H.
  destruct (task_row_error _); [done|]. injection H as <- <-.
  set (r := update_row _ _ r0). assert (Hid : id r = id task) by (unfold r; rewrite update_row_id; by eapply wf_id).
  apply vouches_bind, (insertEvent_vouches r);
    [right; unfold holds; rewrite Hid; apply lookup_insert_eq|by destruct dto|done|].
  intros ev L HL Hev Hlog. assert (HS : L (Stored r)) by (apply HL; right; unfold holds; rewrite Hid; apply lookup_insert_eq).
  apply vouches_bind, publish_vouches; [done|by destruct dto|done|]. intros [u|e] L' HL'; [|done].
  unfold notify_webhook. destruct (truthy _); [|done]. apply enqueue_vouches; [|done].
  exists r. split; [auto|]. split; [done|]. unfold r. destruct dto; simpl; auto.
Qed.

Lemma updateProgress_vouches task dto (K : fact → Prop) :
  K (Stored task) → uuid_in (id task) = Some (id task) → vouches E (updateProgress task dto) K ends.
Proof.
  intros Hk Hu. unfold updateProgress. apply vouches_bind, vouches_tx; [writes_nothing|done|].
  intros c d u d' _ _. apply vouches_bind, (insertEvent_vouches task); [by left|done|done|]. intros ev L HL Hev Hlog.
  by apply publish_vouches.
Qed.

Lemma publish_all_vouches evs K Q :
  (∀ ev, ev ∈ evs → uuid_in (ev_taskId ev) = Some (ev_taskId ev) ∧ K (Logged ev)) → (∀ r L, (∀ f, K f → L f) → Q r L) →
  vouches E (publish_all evs) K Q.
Proof.
  revert K. induction evs as [|ev evs IH]; intros K Hev HQ; cbn [publish_all].
  - by apply HQ.
  - destruct (Hev ev ltac:(set_solver)) as [Hu Hl].
    apply vouches_bind, vouches_catch, publish_vouches; [done|done|done|].
    assert (IH' : ∀ L, (∀ f, K f → L f) → vouches E (publish_all evs) L Q).
    { intros L HL. apply IH; [|auto]. intros ev' Hin. destruct (Hev ev' ltac:(set_solver)). auto. }
    intros [u|e] L HL; by apply IH'.
Qed.

Lemma sweep_vouches fuel K : vouches E (sweep fuel) K ends.
Proof.
  unfold sweep. apply vouches_bind. generalize 0.
  revert K. induction fuel as [|fuel IH]; intros K n; [done|]. cbn [sweep_loop].
  unfold expireTimedOutTasksBatch. apply vouches_bind, vouches_bind, vouches_await; [done|].
  intros w [now|e] w' _ _; [|done]. apply vouches_tx; [apply expire_log_backed|done|].
  intros c d res d' [W Hn] H. apply expire_tx_ok in H as (_ & -> & ->); [|done].
  case_match; [done|]. apply vouches_bind, publish_all_vouches.
  - intros ev Hev. simpl in Hev. split; [|right; simpl; set_solver].
    apply expired_events_of in Hev as (r & Hr & <-); [by eapply Hn|done].
  - intros [u|e] L _; [apply IH|done].
Qed.

(** ** Requests *)

Lemma guarded_vouches {A B} (g : prog A) (f : A → prog B) K :
  all_ops sends_nothing g → (∀ a (L : fact → Prop), (∀ f, K f → L f) → vouches E (f a) L ends) →
  vouches E (bind g f) K ends.
Proof. intros Hg Hf. apply vouches_bind, vouches_silent; [done|]. intros [a|e] L; [apply Hf|done]. Qed.

Lemma lift_silent {A} (r : res A) : all_ops sends_nothing (lift r).
Proof. by destruct r. Qed.

(** The guard hands on a row under its own id. *)
Lemma callback_vouches {B} req i (f : TaskRow → prog B) K :
  (∀ task (L : fact → Prop), L (Stored task) → uuid_in (id task) = Some (id task) →
     vouches E (f task) L ends) →
  vouches E (bind (callback_guard req i) f) K ends.
Proof.
  intros Hf. apply vouches_bind. unfold callback_guard, canActivate_by.
  destruct (extractBearerToken _) as [token|]; [|done]. destruct (truthy _) as [t|]; [|done].
  apply vouches_bind, vouches_tx; [writes_nothing|done|]. intros c d [task|] d' [W _] H; [|done].
  unfold findById_text in H. destruct (uuid_in t) as [u|] eqn:Hu; [|done].
  rewrite findById_eq in H by done. injection H as Hi <-.
  destruct (validateToken _ _ _); cbn [lift bind]; [|done]. case_bool_decide; [|done].
  pose proof (wf_id d W u task Hi) as <-. apply Hf; [by right|]. by eapply uuid_in_idem.
Qed.

Lemma handle_vouches req K : vouches E (handle key req) K ends.
Proof.
  unfold_handle. unfold api_key_guard. destruct (rq_route req) as [b p h|i|i|i l|i b|i b].
  - apply guarded_vouches; [apply lift_silent|]. intros _ L HL.
    apply guarded_vouches; [apply lift_silent|]. intros dto L' HL'. apply vouches_bind.
    unfold create_handler. destruct (truthy h); [|done].
    eapply vouches_mono; [| | |apply create_vouches]; try done. by intros [].
  - apply vouches_silent; [|done]. unfold getStatus_handler_at, getStatus_at. repeat silent_step.
  - apply guarded_vouches; [apply lift_silent|]. intros _ L HL. unfold ParseUUIDPipe.
    destruct (isUUID i) eqn:Hu; [|done]. destruct (isUUID_in i Hu) as [u Hi].
    cbn [lift bind]. unfold row_id. rewrite Hi. cbn [default from_option]. apply vouches_bind.
    eapply vouches_mono; [| | |by apply (cancel_vouches i u)]; try done. by intros [].
  - apply vouches_silent; [|done]. unfold stream_at. repeat silent_step.
  - apply callback_vouches. intros task L Hk Hu.
    apply guarded_vouches; [apply lift_silent|]. intros _ L1 HL1.
    apply guarded_vouches; [apply lift_silent|]. intros dto L2 HL2. apply vouches_bind.
    eapply vouches_mono; [| | |by apply submitResult_vouches]; try done. by intros [].
  - apply callback_vouches. intros task L Hk Hu.
    apply guarded_vouches; [apply lift_silent|]. intros _ L1 HL1.
    apply guarded_vouches; [apply lift_silent|]. intros dto L2 HL2. apply vouches_bind.
    eapply (vouches_mono _ _ L2 L2); [done| | |apply updateProgress_vouches; auto]; try done. by intros [].
Qed.

Lemma handler_vouches p K : handler key p → vouches E p K ends.
Proof.
  destruct 1 as [req| | | | | |].
  - apply vouches_bind. unfold serve. apply vouches_catch.
    eapply vouches_mono; [| | |apply handle_vouches]; try done.
    intros [r|e] L _ _; [done|]. apply vouches_silent; [repeat silent_step|by intros []].
  - apply vouches_silent; [apply history_silent|done].
  - apply vouches_silent; [apply dispatch_silent|done].
  - apply vouches_silent; [apply notification_silent|done].
  - apply vouches_silent; [apply webhook_silent|done].
  - apply sweep_vouches.
  - apply vouches_silent; [apply retain_silent|done].
Qed.
End senders.

(** ** Properties *)

(** C4: nothing is sent that was not so.  Let the database generate ids in the form it
    prints, and let the log, the channels, the queues and the
    idempotency slots start empty.  In every
    execution, with any faults and process deaths, each published message is an
    event that was in the log by then, published on the channel of its task (under
    a spelling of its id); each job is about a row that was stored by then: a
    dispatch job about a PENDING task, with its timeout; a cancel job about a
    CANCELLED task with a cancel URL; a webhook job about a COMPLETED or FAILED one;
    and each event of the log is about a task that was stored. *)
Theorem messages_truthful {SO : ScanOrder} {V : Validation} key E w0 c :
  (∀ n k, uuid_in (e_uuid E n k) = Some (e_uuid E n k)) →
  clean_start w0 → reachable E (handler key) w0 c →
  (∀ channel ev, (channel, ev) ∈ w_published (the_world c) →
     addressed_to channel ev ∧ was_true E key w0 c (Logged ev)) ∧
  (∀ j, j ∈ w_jobs (the_world c) → ∃ r, was_true E key w0 c (Stored r) ∧ job_about j r) ∧
  (∀ ev, ev ∈ task_events (w_db (the_world c)) →
     ∃ r, was_true E key w0 c (Stored r) ∧ id r = ev_taskId ev).
Proof.
  intros Hg W Hr.
  destruct (reachable_vouched E key Hg w0 c (λ p, handler_vouches E key p _) W Hr)
    as (Hm & Hb & He & _).
  split_and!; [|exact Hb|exact He]. intros channel ev Hin. by destruct (Hm _ Hin).
Qed.

(** ** Instances *)

(** The row inserted at step 2 is ["a"]. *)
Definition named_env : env :=
  mkEnv (λ _, no_fault) (λ _, 1%N) (λ n, Z.of_nat n)
    (λ n _, if bool_decide (n = 2%nat) then "a" else "b")
    (λ _, ∅) (λ n, Z.of_nat n) (λ _ _, Ok JNull).

(** A task is created, and cancelled under another spelling of its id. *)
Definition cancelled_elsewhere : config :=
  schedule named_env [0; 0; 0; 0; 1; 1]%nat
    (mkConfig [serve None (mkRequest (PostTask (JObj [("type", JStr "report");
                 ("executorUrl", JStr "http://executor/run")]) "http" (Some "proxy"))
                 "/v1/tasks" None None) ;! Ret tt;
               serve None (mkRequest (DeleteTask "A") "/v1/tasks/A" None None) ;! Ret tt] initial_world).

Lemma cancelled_elsewhere_reachable :
  reachable named_env (handler None) initial_world cancelled_elsewhere.
Proof. apply scheduled. constructor; [apply h_request|]. constructor; [apply h_request|constructor]. Qed.

Lemma initial_clean : clean_start initial_world.
Proof. by constructor; [split; [exact empty_db_wf|]|..]. Qed.

Definition cancelled_message : string * TaskEventRow :=
  default ("", mkEvent "" "" 0 cancelled_ev JNull 0) (head (w_published (the_world cancelled_elsewhere))).

Lemma messages_truthful_witness :
  w_published (the_world cancelled_elsewhere) = [cancelled_message] ∧
  cancelled_message.1 = "task:A" ∧ ev_taskId cancelled_message.2 = "a" ∧
  addressed_to "task:A" cancelled_message.2 ∧
  ∃ c1, reachable named_env (handler None) initial_world c1 ∧
    cancelled_message.2 ∈ task_events (w_db (the_world c1)).
Proof.
  assert (Hp : w_published (the_world cancelled_elsewhere) = [("task:A", cancelled_message.2)])
    by (vm_compute; reflexivity).
  split; [vm_compute; reflexivity|]. split; [vm_compute; reflexivity|]. split; [vm_compute; reflexivity|].
  destruct (messages_truthful None named_env initial_world cancelled_elsewhere) as [Hm _];
    [intros n k; simpl; by case_bool_decide|exact initial_clean
    |exact cancelled_elsewhere_reachable|].
  destruct (Hm "task:A" cancelled_message.2) as [Ha (c1 & Hr & _ & Hin)]; [rewrite Hp; left|].
  split; [exact Ha|]. exists c1. split; [exact Hr|exact Hin].
Defined.
