(* ===== verification/Streams.v ===== *)
(** * Streams: what a client sees, against the log

    A connection (Sse.v) is fed by its history query and by the messages of its
    channel, while the handlers run (Handlers.v).  What it shows is traced back to
    the log of its task: messages are events of the log (Provenance.v), and logs
    are only appended to while their task exists. *)
From Stdlib Require Import Sorted.
From S2P Require Import Prelude Errors Schema Database EventsRepository KeyValue Effects Sse Http Handlers TableSteps System Ledger Provenance.

#[local] Open Scope Z_scope.

(** ** Events come from the inputs *)

(** The events an input carries. *)
Definition carried (x : input) : list TaskEventRow :=
  match x with
  | Message (Some e) => [e]
  | History (Ok evs) => evs
  | _ => []
  end.

Section sources.
Context (P : TaskEventRow → Prop).

Definition sourced (s : stream_state) : Prop :=
  Forall P (delivered s) ∧ Forall P (liveBuffer s).

Lemma sourced_emit n s :
  match n with Event e _ => P e | _ => True end → sourced s → sourced (emit n s).
Proof.
  intros Hn [Hd Hb]. destruct (closed s) eqn:Hc; [unfold emit; by rewrite Hc|].
  split; [|unfold emit; by rewrite Hc]. rewrite delivered_emit by done.
  apply Forall_app_2; [done|]. destruct n; by repeat constructor.
Qed.

Lemma sourced_next e n s : P e → sourced s → sourced (next e (set_highest n s)).
Proof. intros He Hs. by apply sourced_emit. Qed.

Lemma sourced_complete s : sourced s → sourced (complete s).
Proof. intros Hs. by apply (sourced_emit Complete). Qed.

Lemma sourced_error e s : sourced s → sourced (subscriber_error e s).
Proof. intros Hs. by apply (sourced_emit (Failure e)). Qed.

Lemma sourced_buffer l s : sourced s → Forall P l → sourced (set_buffer l s).
Proof. by intros [? _]. Qed.

Lemma sourced_live e s : P e → sourced s → sourced (on_live e s).
Proof.
  intros He Hs. unfold on_live. case_match; [|done]. cbv zeta.
  case_match; [apply (sourced_complete (set_isDone _))|]; by apply sourced_next.
Qed.

Lemma sourced_replay_history l s : Forall P l → sourced s → sourced (replay_history l s).1.
Proof.
  revert s. induction l as [|e l IH]; intros s Hl Hs; [done|].
  apply Forall_cons in Hl as [He Hl]. cbn [replay_history]. cbv zeta.
  case_match; [apply (sourced_complete (set_isDone _))|apply IH; [done|]]; by apply sourced_next.
Qed.

Lemma sourced_replay_buffer l s : Forall P l → sourced s → sourced (replay_buffer l s).1.
Proof.
  revert s. induction l as [|e l IH]; intros s Hl Hs; [done|].
  apply Forall_cons in Hl as [He Hl]. cbn [replay_buffer]. cbv zeta.
  case_match; [|by apply IH]. case_match; [|by apply IH, sourced_next].
  apply sourced_complete, sourced_buffer; [|constructor]. by apply (sourced_next e).
Qed.

Lemma sourced_history r s :
  match r with Ok evs => Forall P evs | Err _ => True end → sourced s → sourced (on_history r s).
Proof.
  intros Hr Hs. destruct r as [evs|e]; simpl; [|case_match; [by apply sourced_error|done]].
  case_match; [done|]. pose proof (sourced_replay_history evs s Hr Hs) as H1.
  destruct (replay_history evs s) as [s1 []]; [|done]. cbv zeta.
  assert (H2 : sourced (set_historyLoaded s1)) by done.
  pose proof (sourced_replay_buffer (liveBuffer (set_historyLoaded s1)) _ (proj2 H2) H2) as H3.
  destruct (replay_buffer _ _) as [s2 []]; [|done]. by apply sourced_buffer.
Qed.

Lemma sourced_input x s : Forall P (carried x) → sourced s → sourced (on_input x s).
Proof.
  intros Hx Hs. destruct x as [[e|]|[e|]|e| |r|]; simpl in *; try done.
  - by apply sourced_error.
  - rewrite Forall_singleton in Hx. unfold on_message. destruct (isDone s); [done|].
    destruct (negb (historyLoaded s)); [|by apply sourced_live].
    destruct (_ <=? _)%nat; [by apply (sourced_error _ (set_isDone s))|].
    apply sourced_buffer; [done|]. apply Forall_app_2; [by destruct Hs|by constructor].
  - unfold on_message. by case_match.
  - by apply sourced_error.
  - destruct (negb (isDone s)); [by apply (sourced_emit Heartbeat)|done].
  - destruct (pending s); [|done]. apply sourced_history; [by destruct r|done].
Qed.

Lemma run_stream_sourced a ins :
  Forall (λ x, Forall P (carried x)) ins → sourced (run_stream a ins).
Proof.
  unfold run_stream. intros HF.
  assert (H0 : sourced (initial_stream a)) by (split; constructor).
  revert H0. generalize (initial_stream a).
  induction HF as [|x ins Hx _ IH]; intros s Hs; [done|]. by apply IH, sourced_input.
Qed.
End sources.

(** ** Ordered lists *)

(** Elements of a numbered list, taken in increasing order, form a sublist. *)
Lemma sorted_sublist (l L : list TaskEventRow) :
  StronglySorted Z.lt (ev_seq <$> l) → StronglySorted seq_lt L →
  (∀ e, e ∈ l → e ∈ L) → l `sublist_of` L.
Proof.
  revert l. induction L as [|y L IH]; intros l Hl HL Hin.
  { destruct l as [|x l]; [done|]. by specialize (Hin x ltac:(left)) as ?%elem_of_nil. }
  destruct l as [|x l]; [apply sublist_nil_l|].
  apply StronglySorted_inv in HL as [HL Hy]. csimpl in Hl.
  pose proof Hl as [Hl' Hx]%StronglySorted_inv. rewrite Forall_fmap, Forall_forall in Hx. rewrite Forall_forall in Hy.
  pose proof (Hin x ltac:(left)) as [->|HxL]%elem_of_cons.
  - apply sublist_skip, IH; [done..|]. intros e He. specialize (Hx e He). simpl in Hx.
    pose proof (Hin e ltac:(by right)) as [Heq|?]%elem_of_cons; [subst; lia|done].
  - apply sublist_cons, IH; [done..|].
    specialize (Hy x HxL). unfold seq_lt in Hy. intros e He.
    pose proof (Hin e He) as [->|?]%elem_of_cons; [|done].
    apply elem_of_cons in He as [->|He]; [done|]. specialize (Hx _ He). simpl in Hx. lia.
Qed.

(** ** The log of a task that exists *)
Section log.
Context {SO : ScanOrder} {V : Validation} (key : option string) (E : env) (u : string) (b : nat).
Context (born : born_at E u b).

(** Once created, a task that is gone does not come back, and its log is kept
    until then. *)
Definition log_kept (w w' : world) : Prop :=
  (w_step w ≤ w_step w')%nat ∧
  ((b < w_step w)%nat → tasks (w_db w) !! u = None → tasks (w_db w') !! u = None) ∧
  (events_of u (w_db w) `prefix_of` events_of u (w_db w') ∨ tasks (w_db w') !! u = None).

Lemma log_kept_step w0 c c' :
  db_wf (w_db w0) → reachable E (handler key) w0 c → step E (handler key) c c' →
  log_kept (the_world c) (the_world c').
Proof.
  intros W Hr Hs.
  apply (reachable_step E (handler key) (program_op program_al) (λ w, db_wf (w_db w))
           log_kept w0 c c'); try done.
  - intros p Hp. by apply handlers_made_of in Hp.
  - intros X op w r w' Hop Hw He. split; [by eapply program_op_wf|].
    pose proof (exec_op_step E op w r w' He) as Hstep.
    apply (program_op_table_step program_al E X op w r w' Hop Hw) in He. split; [lia|split].
    + intros Hb Hn. apply eq_None_not_Some. intros Hsome.
      destruct (table_step_appears u _ _ _ _ Hw He Hsome) as [[x Hx]|Hu]; [congruence|].
      apply born in Hu. lia.
    + apply table_step_legal in He; [|done]. destruct (He u) as [_ [?|[_ ?]]]; auto.
  - intros w. split_and!; [done..|by left].
Qed.

Lemma gone_stays w0 c c' :
  db_wf (w_db w0) → reachable E (handler key) w0 c → rtc (step E (handler key)) c c' →
  (b < w_step (the_world c))%nat → tasks (w_db (the_world c)) !! u = None →
  tasks (w_db (the_world c')) !! u = None.
Proof.
  intros W Hr Hs. revert Hr. induction Hs as [c|c c1 c2 Hs _ IH]; intros Hr Hb Hn; [done|].
  destruct (log_kept_step w0 c c1 W Hr Hs) as (? & Hg & _).
  apply IH; [by eapply rtc_r|lia|auto].
Qed.

Lemma log_kept_steps w0 c c' r e :
  db_wf (w_db w0) → reachable E (handler key) w0 c → rtc (step E (handler key)) c c' →
  tasks (w_db (the_world c')) !! u = Some r → (b < w_step (the_world c))%nat →
  e ∈ events_of u (w_db (the_world c)) → e ∈ events_of u (w_db (the_world c')).
Proof.
  intros W Hr Hs Hi. revert Hr.
  induction Hs as [c|c c1 c2 Hs Hrest IH]; intros Hr Hb He; [done|].
  destruct (log_kept_step w0 c c1 W Hr Hs) as (Hle & _ & Hlog).
  assert (Hr1 : reachable E (handler key) w0 c1) by (by eapply rtc_r).
  apply IH; [done..|lia|]. destruct Hlog as [Hp|Hn]; [by eapply elem_of_prefix|].
  apply (gone_stays w0 c1 c2) in Hn; [congruence|done..|lia].
Qed.

Lemma steps_count w0 c c' :
  db_wf (w_db w0) → reachable E (handler key) w0 c → rtc (step E (handler key)) c c' →
  (w_step (the_world c) ≤ w_step (the_world c'))%nat.
Proof.
  intros W Hr Hs. induction Hs as [c|c c1 c2 Hs _ IH]; [done|].
  destruct (log_kept_step w0 c c1 W Hr Hs) as [? _]. etrans; [done|]. apply IH. by eapply rtc_r.
Qed.
End log.

(** ** Properties *)

(** What an input of a connection may carry, at [c]: a message of its channel is one
    that was published there; a history is an answer of the query, at some time. *)
Definition heard {SO : ScanOrder} {V : Validation} E key w0 c (i u : string) (a : nat) (x : input) : Prop :=
  match x with
  | Message (Some ev) => (channel_of i, ev) ∈ w_published (the_world c)
  | History (Ok evs) => ∃ c1, reachable E (handler key) w0 c1 ∧ rtc (step E (handler key)) c1 c ∧
      (findEventsSince u (Z.of_nat a) (w_db (the_world c1))).1 = Ok evs
  | _ => True
  end.

Section streams.
Context {SO : ScanOrder} {V : Validation} (key : option string) (E : env) (u : string) (b : nat).
Context (generated : ∀ n k, uuid_in (e_uuid E n k) = Some (e_uuid E n k)) (born : born_at E u b).
Context (w0 : world) (start : clean_start w0) (absent : tasks (w_db w0) !! u = None).

(** An event that was in the log of [u] is there as long as the task is. *)
Lemma event_stays c r e :
  reachable E (handler key) w0 c → tasks (w_db (the_world c)) !! u = Some r →
  ev_taskId e = u → was_true E key w0 c (Logged e) → e ∈ events_of u (w_db (the_world c)).
Proof.
  intros Hr Hi He (c1 & Hr1 & Hs & Hlog). destruct (clean_named w0 start) as [W _].
  apply (log_kept_steps key E u b born w0 c1 c r); [done..| |].
  - destruct (reachable_vouched E key generated w0 c1 (λ p, handler_vouches E key p _) start Hr1)
      as (_ & _ & Hb & _).
    destruct (Hb e Hlog) as (x & (c0 & Hr0 & Hs0 & Hx) & Hid). simpl in Hx.
    destruct (reachable_newborn E u b key w0 c0 born W absent Hr0) as [_ Hn].
    eapply Nat.lt_le_trans; [apply Hn|by eapply (steps_count key E u b born w0 c0 c1)].
    rewrite <-He, <-Hid, Hx. by eexists.
  - by apply list_elem_of_filter.
Qed.

(** What a connection hears is in the log, above its starting point. *)
Lemma heard_in_log c r i a x :
  uuid_in i = Some u → int8 (Z.of_nat a) = true →
  reachable E (handler key) w0 c → tasks (w_db (the_world c)) !! u = Some r →
  heard E key w0 c i u a x → Forall (λ e, e ∈ events_of u (w_db (the_world c))) (carried x).
Proof.
  intros Hu Ha Hr Hi Hx. destruct x as [|[e|]| | |[evs|]|]; simpl in *; try constructor; [|constructor|].
  - destruct (reachable_vouched E key generated w0 c (λ p, handler_vouches E key p _) start Hr)
      as (Hm & _).
    destruct (Hm _ Hx) as [(i' & Hc & Hi') Hl]. simpl in *.
    assert (i = i') as <- by (unfold channel_of in Hc; by simplify_eq/=).
    eapply event_stays; [done..| |exact Hl]. congruence.
  - destruct Hx as (c1 & Hr1 & Hs & Hq).
    assert (W1 : db_wf (w_db (the_world c1))) by (by eapply reachable_named, Hr1; [|apply clean_named]).
    rewrite findEventsSince_eq in Hq by done. injection Hq as <-.
    apply Forall_forall. intros e [_ [He Hin]%list_elem_of_filter]%list_elem_of_filter.
    eapply event_stays; [done..|]. by exists c1.
Qed.

Lemma heard_valid c i a x :
  int8 (Z.of_nat a) = true → heard E key w0 c i u a x → history_valid (Z.of_nat a) x.
Proof.
  intros Ha Hx. destruct x as [| | | |[evs|]|]; try done. destruct Hx as (c1 & Hr1 & Hs & Hq).
  exists u, (w_db (the_world c1)). split_and!; [by eapply reachable_named, Hr1; [|apply clean_named]|done..].
Qed.
End streams.

(** C5: a stream shows its task's log and nothing else.  Let task [u] be created in the
    execution, under an id that is generated once, and let a client open a stream on
    it, under any spelling [i] of the id, announcing that it has the first [a]
    events.  Whatever handlers ran before and meanwhile, whatever messages of the
    channel reached the connection, in any order and with any losses and
    repetitions, whenever its history query was answered, and however it was
    disturbed: what it has shown is, as long as the task exists, a sublist of the
    log beyond event [a], in the order of the log and without repetition. *)
Theorem stream_shows_log {SO : ScanOrder} {V : Validation} key E u b w0 c r i a ins :
  (∀ n k, uuid_in (e_uuid E n k) = Some (e_uuid E n k)) → born_at E u b →
  clean_start w0 → tasks (w_db w0) !! u = None →
  reachable E (handler key) w0 c → tasks (w_db (the_world c)) !! u = Some r →
  uuid_in i = Some u → int8 (Z.of_nat a) = true → Forall (heard E key w0 c i u a) ins →
  delivered (run_stream (Z.of_nat a) ins) `sublist_of` drop a (events_of u (w_db (the_world c))).
Proof.
  intros Hg Hb W Hn Hr Hi Hu Ha Hins.
  assert (Wc : db_wf (w_db (the_world c))) by (by eapply reachable_named, Hr; [|apply clean_named]).
  destruct (run_stream_ok (Z.of_nat a) ins) as [[_ _ Hs _ _] _].
  { eapply Forall_impl; [exact Hins|]. intros x Hx. by eapply heard_valid. }
  apply StronglySorted_inv in Hs as [Hs Habove]. unfold seqs_of in *.
  rewrite Forall_fmap, Forall_forall in Habove.
  destruct (run_stream_sourced (λ e, e ∈ events_of u (w_db (the_world c))) (Z.of_nat a) ins) as [Hd _].
  { eapply Forall_impl; [exact Hins|]. intros x Hx. by eapply (heard_in_log key E u b). }
  rewrite Forall_forall in Hd.
  pose proof (wf_seq _ Wc u) as Hlog.
  replace a with (Z.to_nat (Z.of_nat a + 1 - 1)) at 2 by lia.
  rewrite <-(filter_gt_seqZ _ 1) by (done || lia). apply sorted_sublist; [done| |].
  - by eapply StronglySorted_filter, seqZ_StronglySorted.
  - intros e He. apply list_elem_of_filter. split; [|by apply Hd].
    by specialize (Habove e He).
Qed.

(** ** Instances *)

(** A client follows the task under the spelling ["A"], is given an empty history,
    and hears the cancellation twice. *)
Definition followed : list input :=
  [Subscribed None; History (Ok []); Message (Some cancelled_message.2); Tick;
   Message (Some cancelled_message.2)].

Lemma stream_shows_log_witness :
  delivered (run_stream 0 followed) = [cancelled_message.2] ∧
  delivered (run_stream 0 followed) `sublist_of` events_of "a" (w_db (the_world cancelled_elsewhere)).
Proof.
  split; [vm_compute; reflexivity|].
  destruct (tasks (w_db (the_world cancelled_elsewhere)) !! "a") as [r|] eqn:Hi;
    [|vm_compute in Hi; discriminate].
  apply (stream_shows_log None named_env "a" 2 initial_world cancelled_elsewhere r "A" 0 followed);
    [intros n k; simpl; by case_bool_decide|intros n k; simpl; by case_bool_decide
    |exact initial_clean|vm_compute; reflexivity|exact cancelled_elsewhere_reachable|exact Hi
    |vm_compute; reflexivity|vm_compute; reflexivity|].
  assert (Hm : (channel_of "A", cancelled_message.2) ∈ w_published (the_world cancelled_elsewhere)).
  { assert (w_published (the_world cancelled_elsewhere) = [(channel_of "A", cancelled_message.2)]) as ->
      by (vm_compute; reflexivity). left. }
  unfold followed. repeat (apply Forall_cons; split); try apply Forall_nil; try exact I; try exact Hm.
  exists (mkConfig [] initial_world). split; [constructor|]. split; [exact cancelled_elsewhere_reachable|].
  vm_compute. reflexivity.
Defined.
