(* ===== verification/Wire.v ===== *)
(** * Wire: events as text

    What a message of Pub/Sub really is: [JSON.stringify] of an event row, published by
    the services, the executor and the sweeper, and [JSON.parse]d by each connection
    of [src/modules/delivery/sse.service.ts].  The rest of the development passes the
    row itself (Effects.v, Sse.v); this file shows that the text makes no
    difference to a client.  Json.v has the two functions. *)
From Stdlib Require Import Ascii.
From S2P Require Import Prelude JsString JsNumber Json Errors Schema Database EventsRepository KeyValue Effects Samples Sse Http Handlers Streams.

#[local] Open Scope Z_scope.

(** ** [Date.prototype.toJSON] *)

(** The digits of [n], at least [width] of them. *)
Definition padded (width : nat) (n : Z) : string :=
  let s := String_of_Z n in
  String.concat "" (replicate (width - String.length s) "0") +:+ s.

(** Year, month and day of a number of days since 1970-01-01, counted from 1 March of
    a year divisible by 400. *)
Definition civil (days : Z) : Z * Z * Z :=
  let z := days + 719468 in
  let era := z / 146097 in
  let doe := z mod 146097 in
  let yoe := (doe - doe / 1460 + doe / 36524 - doe / 146096) / 365 in
  let doy := doe - (365 * yoe + yoe / 4 - yoe / 100) in
  let mp := (5 * doy + 2) / 153 in
  let month := if mp <? 10 then mp + 3 else mp - 9 in
  (yoe + era * 400 + (if month <=? 2 then 1 else 0), month, doy - (153 * mp + 2) / 5 + 1).

Definition toISOString (t : Z) : string :=
  let '(year, month, day) := civil (t / 86400000) in
  let ms := t mod 86400000 in
  (if (0 <=? year) && (year <=? 9999) then padded 4 year
   else (if year <? 0 then "-" else "+") +:+ padded 6 (Z.abs year)) +:+
  "-" +:+ padded 2 month +:+ "-" +:+ padded 2 day +:+
  "T" +:+ padded 2 (ms / 3600000) +:+ ":" +:+ padded 2 (ms / 60000 mod 60) +:+
  ":" +:+ padded 2 (ms / 1000 mod 60) +:+ "." +:+ padded 3 (ms mod 1000) +:+ "Z".

(** ** A message *)

(** The object [.returning()] gives; its fields are in the order of the columns. *)
Definition event_json (event : TaskEventRow) : json :=
  JObj [("id", JStr (ev_id event)); ("taskId", JStr (ev_taskId event)); ("seq", JNum (ev_seq event));
        ("eventType", JStr (event_type_text (ev_type event))); ("payload", ev_payload event);
        ("createdAt", JStr (toISOString (ev_createdAt event)))].

(** [JSON.stringify(event)], the argument of [publish]. *)
Definition transmit (event : TaskEventRow) : string := JSON_stringify (event_json event).

Definition field (name : string) (j : json) : option json :=
  match j with
  | JObj fs => snd <$> head (filter (λ f, f.1 = name) fs)
  | _ => None
  end.

Definition event_type_of (text : string) : option TaskEventType :=
  head (filter (λ t, event_type_text t = text) TASK_EVENT_TYPES).

(** [JSON.parse(rawMessage) as TaskEventSelect].  The cast checks nothing: [None] stands
    for the texts [JSON.parse] throws on, which the [catch] logs, and for values that
    are no events, which the program does not publish.  [createdAt] is a string after
    this, whatever its type says; nothing reads it, and the row has 0 there. *)
Definition receive (rawMessage : string) : option TaskEventRow :=
  j ← JSON_parse rawMessage;
  match field "id" j, field "taskId" j, field "seq" j, field "eventType" j, field "payload" j with
  | Some (JStr i), Some (JStr t), Some (JNum seq), Some (JStr ty), Some payload =>
      ty ← event_type_of ty; Some (mkEvent i t seq ty payload 0)
  | _, _, _, _, _ => None
  end.

(** What the connections are given, when messages go over the wire. *)
Definition over_wire (i : input) : input :=
  match i with
  | Message (Some event) => Message (receive (transmit event))
  | i => i
  end.

(** What an event needs to be text: a number JavaScript holds exactly, and a payload
    that is a JavaScript value. *)
Definition sendable (e : TaskEventRow) : Prop :=
  Z.abs (ev_seq e) ≤ MAX_SAFE ∧ js_value (ev_payload e).

(** The frames a client gets. *)
Definition frames (s : stream_state) : list MessageEvent :=
  omap (λ n, match n with
             | Event _ m => Some m
             | Heartbeat => Some HEARTBEAT_EVENT
             | Complete | Failure _ => None
             end) (emitted s).

(** How a connection ended, if it did: completed, or with an error. *)
Definition ended (s : stream_state) : list (option exn) :=
  omap (λ n, match n with
             | Complete => Some None
             | Failure e => Some (Some e)
             | Event _ _ | Heartbeat => None
             end) (emitted s).

(** ** Lemmas *)

(** *** A message is read back *)

Lemma event_json_value e : sendable e → js_value (event_json e).
Proof.
  intros [Hs Hp]. apply js_value_obj. split.
  - apply plain_ordered; [apply (bool_decide_unpack _); vm_compute; exact I|].
    by repeat (apply Forall_cons; split; [vm_compute; reflexivity|]).
  - by repeat constructor.
Qed.

Lemma event_type_of_text ty : event_type_of (event_type_text ty) = Some ty.
Proof. by destruct ty. Qed.

Lemma event_fields e :
  field "id" (event_json e) = Some (JStr (ev_id e)) ∧
  field "taskId" (event_json e) = Some (JStr (ev_taskId e)) ∧
  field "seq" (event_json e) = Some (JNum (ev_seq e)) ∧
  field "eventType" (event_json e) = Some (JStr (event_type_text (ev_type e))) ∧
  field "payload" (event_json e) = Some (ev_payload e).
Proof. by split_and!. Qed.

Lemma receive_transmit e :
  sendable e →
  receive (transmit e) = Some (mkEvent (ev_id e) (ev_taskId e) (ev_seq e) (ev_type e) (ev_payload e) 0).
Proof.
  intros He. unfold receive, transmit. rewrite parse_stringify by (by apply event_json_value).
  cbn [mbind option_bind]. destruct (event_fields e) as (-> & -> & -> & -> & ->).
  by rewrite event_type_of_text.
Qed.

(** *** What a connection looks at

    Two rows with the same number, type and payload are the same event to it. *)
Definition same_event (e e' : TaskEventRow) : Prop :=
  ev_seq e = ev_seq e' ∧ ev_type e = ev_type e' ∧ ev_payload e = ev_payload e'.

#[export] Instance same_event_equiv : Equivalence same_event.
Proof. unfold same_event. split.
  - by intros e.
  - intros x y (-> & -> & ->). done.
  - intros x y z (-> & -> & ->) H. exact H.
Qed.

Definition same_notification (n n' : notification) : Prop :=
  match n, n' with
  | Event e m, Event e' m' => same_event e e' ∧ m = m'
  | _, _ => n = n'
  end.

#[export] Instance same_notification_equiv : Equivalence same_notification.
Proof.
  split.
  - by intros [].
  - intros [] []; simpl; try done. by intros [? ->].
  - intros [] [] []; simpl; try done; try congruence. intros [? ->] [? ->]. split; [by etrans|done].
Qed.

Record same_state (s s' : stream_state) : Prop := mkSame {
  same_isDone : isDone s = isDone s';
  same_loaded : historyLoaded s = historyLoaded s';
  same_highest : highestHistorySeq s = highestHistorySeq s';
  same_buffer : Forall2 same_event (liveBuffer s) (liveBuffer s');
  same_closed : closed s = closed s';
  same_pending : pending s = pending s';
  same_emitted : Forall2 same_notification (emitted s) (emitted s') }.

#[export] Instance same_state_equiv : Equivalence same_state.
Proof.
  split.
  - by intros s.
  - intros s s' []. by constructor; try (symmetry; assumption).
  - intros s s' s'' [] []. constructor; try congruence; by etrans.
Qed.

Lemma same_message e e' : same_event e e' → toMessageEvent e = toMessageEvent e'.
Proof. unfold toMessageEvent. by intros (-> & -> & ->). Qed.

Lemma same_terminal e e' : same_event e e' → terminal_event e = terminal_event e'.
Proof. unfold terminal_event. by intros (_ & -> & _). Qed.

#[export] Instance emit_proper : Proper (same_notification ==> same_state ==> same_state) emit.
Proof.
  intros n n' Hn s s' H. unfold emit. rewrite <-(same_closed _ _ H). destruct (closed s); [done|].
  destruct H. constructor; try done. apply Forall2_app; [done|by constructor].
Qed.

#[export] Instance teardown_proper : Proper (same_state ==> same_state) teardown.
Proof. by intros s s' []. Qed.

#[export] Instance next_proper : Proper (same_event ==> same_state ==> same_state) next.
Proof. intros e e' He s s' H. apply emit_proper; [|done]. split; [done|by apply same_message]. Qed.

#[export] Instance complete_proper : Proper (same_state ==> same_state) complete.
Proof. intros s s' H. unfold complete. by rewrite H. Qed.

#[export] Instance subscriber_error_proper err : Proper (same_state ==> same_state) (subscriber_error err).
Proof. intros s s' H. unfold subscriber_error. by rewrite H. Qed.

#[export] Instance set_isDone_proper : Proper (same_state ==> same_state) set_isDone.
Proof. by intros s s' []. Qed.
#[export] Instance set_historyLoaded_proper : Proper (same_state ==> same_state) set_historyLoaded.
Proof. by intros s s' []. Qed.
#[export] Instance set_answered_proper : Proper (same_state ==> same_state) set_answered.
Proof. by intros s s' []. Qed.
#[export] Instance highest_proper : Proper (same_state ==> eq) highestHistorySeq.
Proof. by intros s s' []. Qed.
#[export] Instance set_highest_proper : Proper (eq ==> same_state ==> same_state) set_highest.
Proof. by intros n n' -> s s' []. Qed.
#[export] Instance set_buffer_proper :
  Proper (Forall2 same_event ==> same_state ==> same_state) set_buffer.
Proof. by intros l l' Hl s s' []. Qed.

#[export] Instance on_live_proper : Proper (same_event ==> same_state ==> same_state) on_live.
Proof.
  intros e e' He s s' H. unfold on_live. rewrite <-(same_highest _ _ H), <-(same_terminal _ _ He).
  destruct He as (Hs & Ht & Hp). rewrite <-Hs. destruct (_ <? _); [|done]. cbv zeta.
  assert (same_state (next e (set_highest (ev_seq e) s)) (next e' (set_highest (ev_seq e) s'))).
  { apply next_proper; [done|by rewrite H]. }
  destruct (terminal_event e); [|done]. by f_equiv; f_equiv.
Qed.

#[export] Instance on_message_proper : Proper (option_Forall2 same_event ==> same_state ==> same_state) on_message.
Proof.
  intros m m' Hm s s' H. unfold on_message. rewrite <-(same_isDone _ _ H). destruct (isDone s); [done|].
  destruct Hm as [e e' He|]; [|done].
  rewrite <-(same_loaded _ _ H), <-(Forall2_length _ _ _ (same_buffer _ _ H)).
  destruct (negb (historyLoaded s)); [|by apply on_live_proper].
  destruct (_ <=? _)%nat; [by do 2 f_equiv|]. apply set_buffer_proper; [|done].
  apply Forall2_app; [apply (same_buffer _ _ H)|by constructor].
Qed.

(** The loops: related lists of events, from related states. *)
Definition same_loop (r r' : stream_state * bool) : Prop := same_state r.1 r'.1 ∧ r.2 = r'.2.

Lemma replay_history_proper l s s' :
  same_state s s' → same_loop (replay_history l s) (replay_history l s').
Proof.
  revert s s'. induction l as [|e l IH]; intros s s' H; [done|]. cbn [replay_history]. cbv zeta.
  rewrite <-(same_highest _ _ H).
  assert (N : same_state (next e (set_highest (Z.max (highestHistorySeq s) (ev_seq e)) s))
                         (next e (set_highest (Z.max (highestHistorySeq s) (ev_seq e)) s'))) by (by rewrite H).
  destruct (terminal_event e); [|by apply IH]. split; [|done]. cbn [fst]. by rewrite N.
Qed.

Lemma replay_buffer_proper l l' s s' :
  Forall2 same_event l l' → same_state s s' → same_loop (replay_buffer l s) (replay_buffer l' s').
Proof.
  intros Hl. revert s s'. induction Hl as [|e e' l l' He Hl IH]; intros s s' H; [done|].
  cbn [replay_buffer]. cbv zeta. rewrite <-(same_highest _ _ H), <-(same_terminal _ _ He).
  destruct He as (Hs & Ht & Hp). rewrite <-Hs. destruct (_ <? _); [|by apply IH].
  assert (N : same_state (next e (set_highest (ev_seq e) s)) (next e' (set_highest (ev_seq e) s'))).
  { apply next_proper; [done|by rewrite H]. }
  destruct (terminal_event e); [|by apply IH]. split; [|done]. cbn [fst].
  apply complete_proper, set_buffer_proper; [constructor|by rewrite N].
Qed.

Lemma on_history_proper r s s' : same_state s s' → same_state (on_history r s) (on_history r s').
Proof.
  intros H. destruct r as [evs|e]; cbn [on_history]; rewrite <-(same_isDone _ _ H).
  2:{ destruct (negb (isDone s)); [by rewrite H|done]. }
  destruct (isDone s); [done|]. destruct (replay_history_proper evs s s' H) as [H1 H2].
  destruct (replay_history evs s) as [t b], (replay_history evs s') as [t' b']. cbn [fst snd] in H1, H2. subst b'.
  destruct b; [|done]. cbv zeta.
  assert (H3 : same_state (set_historyLoaded t) (set_historyLoaded t')) by (by rewrite H1).
  destruct (replay_buffer_proper _ _ _ _ (same_buffer _ _ H3) H3) as [H4 H5].
  destruct (replay_buffer _ (set_historyLoaded t)) as [u c], (replay_buffer _ (set_historyLoaded t')) as [u' c'].
  cbn [fst snd] in H4, H5. subst c'. destruct c; [|done]. apply set_buffer_proper; [constructor|done].
Qed.

Lemma on_input_over_wire i s s' :
  Forall sendable (carried i) → same_state s s' → same_state (on_input i s) (on_input (over_wire i) s').
Proof.
  intros Hi H. destruct i as [[e|]|[e|]|e| |r|]; cbn [over_wire on_input].
  - by rewrite H.
  - exact H.
  - apply Forall_inv in Hi. rewrite receive_transmit by exact Hi.
    apply on_message_proper; [by constructor|exact H].
  - by apply on_message_proper; [constructor|].
  - by rewrite H.
  - rewrite <-(same_isDone _ _ H). destruct (negb (isDone s)); [by rewrite H|done].
  - rewrite <-(same_pending _ _ H). destruct (pending s); [|done]. apply on_history_proper. by rewrite H.
  - by rewrite H.
Qed.

Lemma run_over_wire a ins :
  Forall (λ i, Forall sendable (carried i)) ins →
  same_state (run_stream a ins) (run_stream a (over_wire <$> ins)).
Proof.
  intros HF. unfold run_stream. assert (H : same_state (initial_stream a) (initial_stream a)) by done.
  revert H. generalize (initial_stream a) at 1 3. generalize (initial_stream a).
  induction HF as [|i ins Hi _ IH]; intros s' s H; [done|]. cbn [foldl fmap list_fmap].
  by apply IH, on_input_over_wire.
Qed.

Lemma same_frames s s' : same_state s s' → frames s = frames s' ∧ ended s = ended s'.
Proof.
  intros H. unfold frames, ended. induction (same_emitted _ _ H) as [|n n' l l' Hn _ [IH1 IH2]]; [done|].
  cbn. rewrite IH1, IH2. by destruct n, n'; simpl in Hn; simplify_eq/=; destruct_and?; subst.
Qed.

(** *** Payloads *)

Lemma error_value err :
  match details err with Some d => js_value d | None => True end → js_value (TaskError_json err).
Proof.
  intros H. unfold TaskError_json. destruct (details err) as [d|]; apply js_value_obj;
    (split; [apply plain_ordered; [apply (bool_decide_unpack _); vm_compute; exact I|];
       by repeat (apply Forall_cons; split; [vm_compute; reflexivity|])|]);
    by repeat constructor.
Qed.

(** The payloads the program makes are values, if what they carry is. *)
Lemma payload_value input :
  match input with
  | ProgressEventInput _ p => Z.abs p ≤ MAX_SAFE
  | CompletedEventInput _ d => js_value d
  | FailedEventInput _ err => match details err with Some d => js_value d | None => True end
  | CancelledEventInput _ => True
  end → js_value (input_payloadFields input).
Proof.
  assert (O : ∀ k v, index_key k = None → js_value v → js_value (JObj [(k, v)])).
  { intros k v Hk Hv. apply js_value_obj. split; [|by repeat constructor].
    apply plain_ordered; [apply NoDup_singleton|by repeat constructor]. }
  destruct input; intros H; cbn [input_payloadFields]; try (apply O; [vm_compute; reflexivity|]).
  - done.
  - done.
  - by apply error_value.
  - apply js_value_obj. split; [by apply plain_ordered; [apply NoDup_nil_2|]|constructor].
Qed.

Lemma event_data_value e : sendable e → js_value (me_data (toMessageEvent e)).
Proof.
  intros [_ Hp]. apply js_value_obj. split; [|by repeat constructor].
  apply plain_ordered; [apply (bool_decide_unpack _); vm_compute; exact I|].
  by repeat (apply Forall_cons; split; [vm_compute; reflexivity|]).
Qed.

(** ** Properties *)

(** C11: the wire is transparent.  Take any connection, and pass every message it
    receives through [JSON.stringify] and [JSON.parse], as Redis does: the client gets
    the same frames, in the same order, and the connection ends in the same way.  The
    data of every event it is shown is a single line, so that it fits a [data:] field
    of the stream, and parses to the event's type and payload.  What
    [JSON.parse] gives can always be written and read back. *)
Theorem wire_transparent a ins :
  Forall (λ i, Forall sendable (carried i)) ins →
  let s := run_stream a ins in
  let s' := run_stream a (over_wire <$> ins) in
  frames s' = frames s ∧ ended s' = ended s ∧ closed s' = closed s ∧
  (∀ e, e ∈ delivered s →
     let data := JSON_stringify (me_data (toMessageEvent e)) in
     all_chars printable data = true ∧ JSON_parse data = Some (me_data (toMessageEvent e))) ∧
  (∀ text j, JSON_parse text = Some j → js_value j ∧ JSON_parse (JSON_stringify j) = Some j).
Proof.
  intros H s s'. pose proof (run_over_wire a ins H) as Hs. fold s s' in Hs.
  destruct (same_frames s s' Hs) as [Hf He]. destruct (run_stream_sourced sendable a ins H) as [Hd _].
  split_and!; [done|done|symmetry; apply (same_closed _ _ Hs)|..].
  - intros e Hin. rewrite Forall_forall in Hd. split; [apply stringify_printable|].
    by apply parse_stringify, event_data_value, Hd.
  - intros text j Hj. pose proof (parsed_value text j Hj) as Hv. split; [done|by apply parse_stringify].
Qed.

(** ** Instances *)

Definition wired_event : TaskEventRow :=
  mkEvent "e1" "a" 1 completed_ev (JObj [("data", JObj [("7", JNull); ("x", JStr (String (ascii_of_nat 10) "y"))])])
    1709210096789.

Lemma wire_transparent_witness :
  let ins := [Subscribed None; History (Ok []); Message (Some wired_event)] in
  Forall (λ i, Forall sendable (carried i)) ins ∧
  frames (run_stream 0 (over_wire <$> ins)) = [toMessageEvent wired_event] ∧
  closed (run_stream 0 (over_wire <$> ins)) = true.
Proof.
  intros ins. assert (S : sendable wired_event).
  { split; [vm_compute; discriminate|]. apply (parsed_value (JSON_stringify (ev_payload wired_event))).
    vm_compute. reflexivity. }
  assert (F : Forall (λ i, Forall sendable (carried i)) ins).
  { repeat (apply Forall_cons; split); try apply Forall_nil; try exact I; exact S. }
  destruct (wire_transparent 0 ins F) as (Hf & _ & Hc & _).
  split; [exact F|]. split; [rewrite Hf|rewrite Hc]; vm_compute; reflexivity.
Defined.

(** A message is one line of text. *)
Example wired_text :
  receive (transmit wired_event) =
    Some (mkEvent "e1" "a" 1 completed_ev
            (JObj [("data", JObj [("7", JNull); ("x", JStr (String (ascii_of_nat 10) "y"))])]) 0) ∧
  receive (transmit wired_event +:+ "}") = None.
Proof. split; vm_compute; reflexivity. Qed.

Example dates :
  toISOString 0 = "1970-01-01T00:00:00.000Z" ∧
  toISOString 1709210096789 = "2024-02-29T12:34:56.789Z" ∧
  toISOString (-1) = "1969-12-31T23:59:59.999Z".
Proof. by vm_compute. Qed.
