(* ===== verification/Slots.v ===== *)
(** * Slots: what the idempotency keys remember, under concurrency

    Idempotency.v shows what one slot does, TasksService.v what one request makes
    of it.  Here the requests, the workers and the sweeps run interleaved, with
    process deaths and lost calls: whatever a slot holds, and whatever a repeated
    request is answered, is about a task that was stored with that key. *)
From S2P Require Import Prelude Errors Schema Database KeyValue Effects Idempotency TasksService JsString JsNumber ExecutorService Workers Sse Http Handlers Ledger Accounting Provenance.

#[local] Open Scope Z_scope.

(** [r], stored with the key [k], is the task a creation at [c] that ends in [w']
    answers with: an earlier one, and nothing has changed, or a new one. *)
Definition answered_with {SO : ScanOrder} {V : Validation} E key w0 c w' (k : string) (r : TaskRow) : Prop :=
  idempotencyKey r = Some k ∧
  (was_true E key w0 c (Stored r) ∧ w_db w' = w_db (the_world c) ∧
     w_jobs w' = w_jobs (the_world c) ∧ w_published w' = w_published (the_world c) ∨
   tasks (w_db (the_world c)) !! id r = None ∧ tasks (w_db w') !! id r = Some r).

(** ** Properties *)


(** ** Instances *)

Definition keyed_request : prog unit :=
  serve None (mkRequest (PostTask (JObj [("type", JStr "report"); ("executorUrl", JStr "http://executor/run");
     ("idempotencyKey", JStr "k")]) "http" (Some "proxy")) "/v1/tasks" None None) ;! Ret tt.

(** A task is created with the key; its creation takes six operations. *)
Definition keyed : config :=
  schedule named_env [0; 0; 0; 0; 0; 0]%nat (mkConfig [keyed_request] initial_world).

Lemma keyed_reachable : reachable named_env (handler None) initial_world keyed.
Proof. apply scheduled. constructor; [apply h_request|constructor]. Qed.

Definition keyed_dto : CreateTaskDto :=
  mkCreateTaskDto "report" None "http://executor/run" None (Some "k") None 300.

